(* ===== verification/_CoqProject ===== *)
-Q . S2P
Prelude.v
Errors.v
Types.v
Externals.v
Instances.v
Utils.v
Keys.v
Tx.v
Ledger.v
Store.v
Chain.v
BlockValidation.v
Supply.v
AddBlock.v
History.v
Startup.v
Mempool.v
Miner.v
Net.v
AddrIndex.v
Rpc.v
Wallet.v
Gui.v
Files.v
Config.v
Node.v
Cli.v
Tasks.v
Crash.v
Payment.v
Connections.v
Main.v
Inventory.v
Platform.v
Sharing.v
Serve.v
Process.v
Screen.v
