(* ===== verification/Prelude.v ===== *)
(** * A verification of the Lyrion node (UNIVE-Official/ABC, src/111)

    The program is a full node of a proof-of-work chain with transparent and
    anonymous (ring signature) transactions, a miner, a peer-to-peer network, an
    RPC server and two wallets, in Rust over RocksDB and tokio.  This
    development translates it into Rocq functions and proves what it does, where
    it is right and where it is not.

    ** The parts of the program and of the development

    File             Source                        Content
    Prelude          -                             machine integers, byte strings, sums, map summaries
    Errors           errors.rs                     ChainError; outcomes, state transformers, their rules
    Types            tx.rs, chain.rs, miner.rs     the data that is hashed and stored
    Externals        (third-party code)            parameters: hashes, codec, RocksDB, curves, orders
    Instances        -                             one concrete instance of every parameter
    Utils            utils.rs                      targets, subsidy, hashes, addresses, key files
    Keys             chain.rs, tx.rs, mempool.rs   the keys of the database
    Tx               tx.rs                         transactions, Merkle root, scripts, validation, genesis
    Ledger           chain.rs                      apply_utxo_changes: unspent outputs and their summaries
    Store            chain.rs                      blocks, headers, journal, median time, difficulty
    Chain            chain.rs                      the struct Chain, apply_block_action, prune, Chain::new
    BlockValidation  chain.rs                      validate_block
    Supply           chain.rs                      validate_state, validate_supply_full / _smart
    AddBlock         chain.rs                      add_block, process_orphans, reorganisation
    History          chain.rs                      every state calls of add_block lead to
    Startup          chain.rs                      recover_pending_reorgs, load_from_db
    Mempool          mempool.rs                    the pool of unconfirmed transactions
    Miner            miner.rs                      templates, the search for a nonce, miner_task
    Net              net.rs                        peers, bans, handshake, frames, every message
    AddrIndex        main.rs                       readers of the address index: balances, explorer, rich list
    Rpc              main.rs                       tokens and the handlers of the RPC server
    Wallet           main.rs                       mod wallet and the scan: keys, balances, history, payments
    Gui              main.rs                       LyrionWalletApp: the window and the wallet file
    Files            utils.rs, db.rs, main.rs      secret files, archives, backups and their rotation
    Config           config.rs                     AppConfig::load
    Node             main.rs                       InitDb, start and end of RunNode, load_chain_readonly, Status
    Cli              main.rs                       the wallet commands
    Tasks            main.rs, net.rs, miner.rs,    what the tasks of a node do with the locks they share,
                     chain.rs, mempool.rs          and their interleavings
    Crash            chain.rs                      add_block with Startup: what a stop in the middle leaves
    Payment          main.rs, mempool.rs, tx.rs    a payment from the wallet over the RPC to the pool
    Connections      db.rs, and its callers        RocksManager, create_db_pool, who holds a connection when
    Main             main.rs                       every command of the command line
    Inventory        main.rs                       the task that is told of announcements
    Platform         utils.rs                      the clock, huge pages, the memory of RandomX
    Sharing          db.rs, and its callers        the scopes of Connections.v in tasks that are interleaved
    Serve            net.rs, main.rs               the session of a peer, the listener, the calls to the seeds
    Process          main.rs                       servers and ports, the start on the network, the shutdown
    Screen           main.rs                       what the frames of the window show

    A block comes in through [AddBlock.add_block], from a peer
    ([Net.handle_message]) or from the miner ([Miner.miner_round]): unknown
    parents make it an orphan; otherwise [BlockValidation.validate_block] checks
    it (using [Tx.validate_transaction] for its payments and [Store] for
    difficulty and median time), [AddBlock.connect_heavier] writes the batch that
    [Chain.build_block_ops] and [Ledger.apply_utxo_changes] compute, or
    [Chain.apply_block_action] does when the branch is not heavier; the block is
    saved, its transactions leave the mempool ([Chain.MempoolOps], implemented
    by [Mempool.remove]) and the orphans are tried again.  A payment is made by
    [Wallet.create_tx] from the outputs that AddrIndex.v finds, posted to
    [Rpc.send_tx], kept by [Mempool.insert] and announced by [Net.broadcast];
    [Main.main], with [Cli.wallet_command], and [Gui.update] are what the user
    does.  Payment.v follows a payment through its four components, Crash.v a
    block through its four writes and the next start.

    ** How the code is read

    - A function that can fail is a function into [Errors.outcome]: [Ok], [Err],
      [Panic] (out of range, [unwrap], division by zero) or [Hang] (waiting for
      ever for a lock the caller holds, or a loop without end).  Code that
      changes an object is a state transformer [Errors.M]; what it changed
      before it failed stays changed.
    - Integers are kept at their width: [wadd], [wsub], [wmul] wrap as the
      release profile does, [checked_add] and the others are the library's.
    - Third-party code is a parameter: an operational class in Externals.v (or,
      for a library only one part uses, in the file of that part: [Keychain],
      [TxLength], [Web], [GuiEnv], [Text], [CliEnv]) and, where a proof relies on
      documented behaviour, a class of laws.  No law states more than that
      behaviour, and each class of laws has an instance (Instances.v, or the end
      of the file); the witnesses run on these instances.
    - The repository does not compile as it stands (names out of scope, [await]
      in functions that are not [async], a field that does not exist).  Where a
      line is only ill-typed its intent is modelled and the file that does so
      says it; functions that are called but defined nowhere
      ([load_supply_from_db], the free [build_block_ops], [scan_mempool],
      [send_transaction_task]) are parameters.  Nothing is assumed of the free
      [build_block_ops] but in the two theorems that say so, [recovery_clears_journal]
      (Startup) and [recovered_tip] (Crash).
    - Calls run one after the other, and a lock that a call takes twice is
      modelled there.  Tasks that run at the same time are in Tasks.v, where a
      call is what it does with the locks, and in Sharing.v, where it is what it
      does with the connections; in Serve.v they are the events of a session.
    - [db_pool.get()] is an outcome of the database ([Externals.pool_get]), the
      same at every call: the files up to Payment.v do not count connections.
      Connections.v does: there a function is the scopes of its connections, and
      it shows which calls fail because RocksDB opens a directory once;
      Sharing.v runs them in tasks that share the pool.

    ** Fuel

    These recursions are not structural.  [Tx.merkle_loop] has the length of the
    list ([compute_merkle_root_total] shows it returns); [Tx.genesis_loop] and
    [Miner.search] have the fuel of their caller, and
    [create_genesis_block_correct] and [search_terminates] say which fuel
    suffices; [AddBlock.add_block] has the depth of the recursion through the
    orphans, and one level gives the result of any more ([add_block_fuel]);
    [Mempool.remove_fuel] has the size of the pool, more changes nothing
    ([remove_terminates]).  [MAX_PACKAGE_DEPTH] bounds the two walks of the
    mempool and 20 the rounds of [Wallet.fee_loop] in the code itself.
    [Mempool.evict_loop] has an arbitrary number of rounds; what [insert] returns
    does not depend on it ([insert_value]).  [Wallet.scan_loop] ends after the
    last address in use and the gap ([scan_chain_ends]).  [Rpc.trim_start] has
    the length of the string, each round shortens it.  A run of Tasks.v is as
    long as its schedule; [safe_tasks_finish] bounds it, and [one_holder]
    one of Sharing.v.  The scopes of Connections.v are finite trees.

    ** What the theorems show

    - Money.  Connecting a conflict-free block performs exactly the abstract
      update of the set of unspent outputs, and its hash and supply stay exact
      summaries (Ledger).  But a coinbase creates no output, two transactions of
      a block may spend one output, and a connected payment cannot be
      disconnected.
    - Transactions.  What [validate_transaction] and [validate_anonymous_tx]
      guarantee; that scripts are never run and no anonymous transaction pays
      its fee; the Merkle root binds the list of transactions up to a collision,
      given its length (Tx).
    - Blocks.  What an accepted block satisfies, and that a payment block is
      never accepted (BlockValidation).  Effects of connecting it, its failure
      and roll-back, the states that block further work (Chain, AddBlock).
    - The chain over time.  From a new chain the height never exceeds one and
      the set of unspent outputs stays empty (History).
    - Storage.  Round trips of saved blocks, median time, difficulty rule
      (Store), supply audits (Supply), journals and loading (Startup); a stop at
      any write of a block leaves one of five disks, with the old chain or the new
      one, but a failed last write of a block of a new height stops the chain from
      growing (Crash); which calls get a connection (Connections), and that of tasks
      that take them together one at most holds one (Sharing); secret
      files are replaced as a whole, backups are complete and the newest are
      kept (Files); what a node starts with and leaves behind (Node).
    - Mempool.  Its invariant over all calls, the exact effect of insertion and
      removal, termination, limits, and the selection for a block.
    - Mining.  A template fits its limits, the search ends with the first chunk
      that has a nonce, and a mined block without payments is accepted; but the
      task never submits it (Miner).
    - Network.  Payments and addresses reach the peers they should, five
      failures ban a peer; but no handshake succeeds and several messages stop or
      crash the node (Net).  Were a peer let in, nothing would
      be sent to it, and while it keeps talking the listener serves no other and
      the calls to the seeds wait; it is let go after 20 seconds of silence
      (Serve).
    - Servers and end.  Which servers of a node come up, whatever the order of
      their start; a shutdown waits at most for its seven handles (Process).
    - Commands.  What each does; that InitDb does not make a database the others
      can read (Main).
    - Payments.  The node accepts exactly the transactions of a reference
      definition, and a payment of the wallet reaches the pool (Payment).
    - Access and money of the user.  Who may use the RPC (Rpc); what the index
      readers answer (AddrIndex); a payment conserves value, is signed for every
      input and well-formed (Wallet); the window keeps its seed and balances, a
      saved wallet opens again (Gui), but its main window is never drawn (Screen); a created wallet reopens and can be
      restored, shared addresses cannot be spent from (Cli).
    - Tasks.  Those that respect an order of the locks always finish, however
      they are interleaved; a payment and an announcement do not, and can stop
      the node (Tasks).
    - Arithmetic and settings.  Compact targets, subsidy, addresses, genesis
      (Utils, Tx); what a loaded configuration guarantees (Config), and what it
      does where there are no huge pages (Platform).

    ** Not modelled

    What RocksDB does with its options (db.rs; they are data in Connections.v),
    thread pools, TLS, rate limiters and timers (net.rs, main.rs), what
    prometheus puts into its metrics, logging, the parser of the arguments,
    printing, fonts and layout: they act on the world and not on the state the theorems
    speak of.  The channel of a peer is a list in Net.v; that it has no receiving
    half, so that nothing is ever sent, is in Serve.v.  lib.rs only declares modules.
    The tests of the source are not translated. *)
From stdpp Require Export prelude gmap strings sorting.
Open Scope Z_scope.

(** ** Machine integers

    Every Rust integer is a [Z] kept at its width by the operation that
    produces it.  [wrap w] is the reduction of [as uW] casts and of the
    unchecked [+], [-], [*] of the release profile (Cargo.toml configures only
    [profile.release], where overflow checks are off); the [checked_] and
    [saturating_] variants are the standard library's methods. *)

Declare Scope lyrion_scope.
Delimit Scope lyrion_scope with lyrion.
Open Scope lyrion_scope.

Definition wrap (w x : Z) : Z := x mod 2 ^ w.

Definition wadd (w a b : Z) : Z := wrap w (a + b).

Definition wsub (w a b : Z) : Z := wrap w (a - b).

Definition wmul (w a b : Z) : Z := wrap w (a * b).

Definition checked_add (w a b : Z) : option Z :=
  if a + b <? 2 ^ w then Some (a + b) else None.

Definition checked_sub (a b : Z) : option Z :=
  if b <=? a then Some (a - b) else None.

Definition checked_mul (w a b : Z) : option Z :=
  if a * b <? 2 ^ w then Some (a * b) else None.

Definition saturating_sub (a b : Z) : Z := Z.max 0 (a - b).

Definition checked_shr (w a s : Z) : option Z :=
  if s <? w then Some (Z.shiftr a s) else None.

(** A signed w-bit integer: the representative in [-2^(w-1), 2^(w-1)). *)
Definition iwrap (w x : Z) : Z := (x + 2 ^ (w - 1)) mod 2 ^ w - 2 ^ (w - 1).

(** [x] is a value of the unsigned type of [w] bits. *)
Definition uint (w x : Z) : Prop := 0 <= x < 2 ^ w.

#[export] Instance uint_dec w x : Decision (uint w x).
Proof. unfold uint. apply _. Defined.

Notation "a '+u64' b" := (wadd 64 a b) (at level 50, left associativity) : lyrion_scope.
Notation "a '-u64' b" := (wsub 64 a b) (at level 50, left associativity) : lyrion_scope.
Notation "a '*u64' b" := (wmul 64 a b) (at level 40, left associativity) : lyrion_scope.

Definition u32_MAX : Z := 2 ^ 32 - 1.

(** ** Bytes *)

Abbreviation bytes := (list Z).

Definition byte (b : Z) : Prop := 0 <= b < 256.

Fixpoint to_le_bytes (n : nat) (x : Z) : bytes :=
  match n with
  | O => []
  | S n => x mod 256 :: to_le_bytes n (x / 256)
  end.

Definition to_be_bytes (n : nat) (x : Z) : bytes := reverse (to_le_bytes n x).

Fixpoint from_le_bytes (l : bytes) : Z :=
  match l with
  | [] => 0
  | b :: l => b + 256 * from_le_bytes l
  end.

Definition from_be_bytes (l : bytes) : Z := from_le_bytes (reverse l).

(** A byte-string literal [b"..."]. *)
Definition bstr (s : string) : bytes :=
  (λ a, Z.of_N (Ascii.N_of_ascii a)) <$> String.list_ascii_of_string s.

(** [key.starts_with(prefix)] *)
Fixpoint starts_with (p l : bytes) : bool :=
  match p, l with
  | [], _ => true
  | _, [] => false
  | x :: p, y :: l => (x =? y) && starts_with p l
  end.

(** [iter.try_fold(0, checked_add)] at width [w]. *)
Fixpoint try_sum_from (w acc : Z) (l : list Z) : option Z :=
  match l with
  | [] => Some acc
  | x :: l => a ← checked_add w acc x; try_sum_from w a l
  end.

Definition try_sum (w : Z) (l : list Z) : option Z := try_sum_from w 0 l.

Definition sumZ (l : list Z) : Z := foldr Z.add 0 l.

(** [l[a..b]] when [a <= b <= len]. *)
Definition sub_bytes (a b : nat) (l : bytes) : bytes := take (b - a) (drop a l).

(** XOR of two equally long byte strings, position by position. *)
Fixpoint zip_xor (a b : bytes) : bytes :=
  match a, b with
  | x :: a, y :: b => Z.lxor x y :: zip_xor a b
  | _, _ => []
  end.

(** ** Automation

    [lyr] is the rewrite database of the development: encodings, lengths and
    arithmetic that every component normalises with. *)

Create Rewrite HintDb lyr.

(** Boolean comparisons in hypotheses and goal become propositions. *)
Ltac zbool :=
  repeat match goal with
  | H : (_ <? _) = true |- _ => apply Z.ltb_lt in H
  | H : (_ <? _) = false |- _ => apply Z.ltb_ge in H
  | H : (_ <=? _) = true |- _ => apply Z.leb_le in H
  | H : (_ <=? _) = false |- _ => apply Z.leb_gt in H
  | H : (_ =? _) = true |- _ => apply Z.eqb_eq in H
  | H : (_ =? _) = false |- _ => apply Z.eqb_neq in H
  | H : (_ && _) = true |- _ => apply andb_true_iff in H as [? ?]
  | H : (_ || _) = false |- _ => apply orb_false_iff in H as [? ?]
  | H : negb _ = true |- _ => apply negb_true_iff in H
  | H : negb _ = false |- _ => apply negb_false_iff in H
  | H : bool_decide _ = true |- _ => apply bool_decide_eq_true in H
  | H : bool_decide _ = false |- _ => apply bool_decide_eq_false in H
  end.

(** Case analysis on every [if]/[match] scrutinee of the goal, then closing. *)
Ltac case_all := repeat (case_match; simplify_eq/=; zbool); try done; try lia.

(** ** Machine integers: lemmas *)

Lemma wrap_small w x : uint w x → wrap w x = x.
Proof. unfold wrap, uint. intros. by apply Z.mod_small. Qed.

Lemma wrap_uint w x : 0 <= w → uint w (wrap w x).
Proof. intros. unfold wrap, uint. apply Z.mod_pos_bound. by apply Z.pow_pos_nonneg. Qed.

Lemma wadd_small w a b : 0 <= a + b < 2 ^ w → wadd w a b = a + b.
Proof. apply wrap_small. Qed.

Lemma wsub_small w a b : 0 <= a - b < 2 ^ w → wsub w a b = a - b.
Proof. apply wrap_small. Qed.

Lemma iwrap_small w x : - 2 ^ (w - 1) <= x < 2 ^ (w - 1) → 0 < w → iwrap w x = x.
Proof.
  intros H Hw. unfold iwrap. assert (2 ^ w = 2 * 2 ^ (w - 1)) by (rewrite <- Z.pow_succ_r by lia; f_equal; lia).
  rewrite Z.mod_small by lia. lia.
Qed.

Lemma checked_add_Some w a b s : checked_add w a b = Some s ↔ s = a + b ∧ a + b < 2 ^ w.
Proof. unfold checked_add. destruct (Z.ltb_spec (a + b) (2 ^ w)); split; intros; destruct_and?; simplify_eq; auto with lia. Qed.

Lemma checked_add_None w a b : checked_add w a b = None ↔ 2 ^ w <= a + b.
Proof. unfold checked_add. destruct (Z.ltb_spec (a + b) (2 ^ w)); split; intros; destruct_and?; simplify_eq; auto with lia. Qed.

Lemma checked_sub_Some a b s : checked_sub a b = Some s ↔ s = a - b ∧ b <= a.
Proof. unfold checked_sub. destruct (Z.leb_spec b a); split; intros; destruct_and?; simplify_eq; auto with lia. Qed.

Lemma checked_sub_None a b : checked_sub a b = None ↔ a < b.
Proof. unfold checked_sub. destruct (Z.leb_spec b a); split; intros; destruct_and?; simplify_eq; auto with lia. Qed.

Lemma sumZ_nonneg l : Forall (λ x, 0 <= x) l → 0 <= sumZ l.
Proof. induction 1; simpl; lia. Qed.

Lemma sumZ_app l k : sumZ (l ++ k) = sumZ l + sumZ k.
Proof. induction l; simpl; lia. Qed.

#[export] Instance sumZ_perm : Proper ((≡ₚ) ==> (=)) sumZ.
Proof. intros l k. induction 1; simpl; lia. Qed.

Lemma try_sum_from_Some w l acc s :
  Forall (λ x, 0 <= x) l →
  acc < 2 ^ w →
  try_sum_from w acc l = Some s ↔ s = acc + sumZ l ∧ acc + sumZ l < 2 ^ w.
Proof.
  intros Hl. revert acc s. induction Hl as [|x l Hx Hl IH]; intros acc s Hacc; simpl.
  { split; [intros [= <-]; lia|intros [-> _]; f_equal; lia]. }
  pose proof (sumZ_nonneg _ Hl).
  destruct (checked_add w acc x) as [a|] eqn:E; simpl.
  - apply checked_add_Some in E as [-> E]. rewrite IH by lia. lia.
  - apply checked_add_None in E. split; [done|lia].
Qed.

Lemma try_sum_Some w l s :
  0 <= w →
  Forall (λ x, 0 <= x) l →
  try_sum w l = Some s ↔ s = sumZ l ∧ sumZ l < 2 ^ w.
Proof.
  intros Hw Hl. unfold try_sum. rewrite try_sum_from_Some; [lia|done|].
  by apply Z.pow_pos_nonneg.
Qed.

Lemma try_sum_eq w l :
  0 <= w → Forall (λ x, 0 <= x) l → sumZ l < 2 ^ w → try_sum w l = Some (sumZ l).
Proof. intros. by apply try_sum_Some. Qed.

Lemma try_sum_from_bound w l acc s : acc < 2 ^ w → try_sum_from w acc l = Some s → s < 2 ^ w.
Proof.
  revert acc. induction l as [|x l IH]; intros acc Hacc; simpl; [by intros [= <-]|].
  destruct (checked_add w acc x) as [a|] eqn:E; simpl; [|done].
  apply checked_add_Some in E as [-> E]. by apply IH.
Qed.

Lemma try_sum_from_sum w l acc s : try_sum_from w acc l = Some s → s = acc + sumZ l.
Proof.
  revert acc. induction l as [|x l IH]; intros acc; simpl; [intros [= ->]; lia|].
  destruct (checked_add w acc x) as [a|] eqn:E; [|done].
  apply checked_add_Some in E as [-> _]. intros ->%IH. lia.
Qed.

Lemma sumZ_elem_le (l : list Z) x : Forall (λ y, 0 <= y) l → x ∈ l → x <= sumZ l.
Proof.
  induction 1 as [|y l Hy Hl IH]; [by intros ?%not_elem_of_nil|].
  pose proof (sumZ_nonneg l Hl). intros [->|?%IH]%elem_of_cons; simpl; lia.
Qed.

(** ** Bytes: lemmas *)

Lemma length_to_le_bytes n x : length (to_le_bytes n x) = n.
Proof. revert x. induction n; intros; simpl; auto. Qed.

Lemma length_to_be_bytes n x : length (to_be_bytes n x) = n.
Proof. unfold to_be_bytes. by rewrite length_reverse, length_to_le_bytes. Qed.

Lemma bstr_byte s : Forall byte (bstr s).
Proof.
  unfold bstr. apply Forall_fmap, Forall_true. intros a. unfold compose, byte.
  pose proof (Ascii.N_ascii_bounded a). lia.
Qed.

Lemma to_le_bytes_byte n x : Forall byte (to_le_bytes n x).
Proof.
  revert x. induction n; intros; simpl; constructor; auto.
  apply Z.mod_pos_bound. lia.
Qed.

Lemma from_to_le_bytes n x :
  uint (8 * Z.of_nat n) x → from_le_bytes (to_le_bytes n x) = x.
Proof.
  revert x. induction n as [|n IH]; intros x [H0 H1]; simpl.
  { change (2 ^ (8 * Z.of_nat 0)) with 1 in H1. lia. }
  replace (8 * Z.of_nat (S n)) with (8 + 8 * Z.of_nat n) in H1 by lia.
  rewrite Z.pow_add_r in H1 by lia. change (2 ^ 8) with 256 in H1.
  rewrite IH.
  - rewrite (Z.div_mod x 256) at 3 by lia. lia.
  - split; [apply Z.div_pos; lia|]. apply Z.div_lt_upper_bound; lia.
Qed.

Lemma from_to_be_bytes n x :
  uint (8 * Z.of_nat n) x → from_be_bytes (to_be_bytes n x) = x.
Proof. unfold from_be_bytes, to_be_bytes. rewrite reverse_involutive. apply from_to_le_bytes. Qed.

Lemma to_le_bytes_inj n x y :
  uint (8 * Z.of_nat n) x → uint (8 * Z.of_nat n) y →
  to_le_bytes n x = to_le_bytes n y → x = y.
Proof.
  intros Hx Hy E. rewrite <- (from_to_le_bytes n x), <- (from_to_le_bytes n y) by done.
  by rewrite E.
Qed.

Lemma to_be_bytes_inj n x y :
  uint (8 * Z.of_nat n) x → uint (8 * Z.of_nat n) y →
  to_be_bytes n x = to_be_bytes n y → x = y.
Proof.
  intros Hx Hy E. rewrite <- (from_to_be_bytes n x), <- (from_to_be_bytes n y) by done.
  by rewrite E.
Qed.

Lemma starts_with_app p l : starts_with p (p ++ l) = true.
Proof. induction p; simpl; [done|]. by rewrite Z.eqb_refl. Qed.

Lemma starts_with_spec p l : starts_with p l = true ↔ ∃ k, l = p ++ k.
Proof.
  split; [|intros [k ->]; apply starts_with_app].
  revert l. induction p as [|x p IH]; intros l; simpl; [by eauto|].
  destruct l as [|y l]; [done|]. intros [->%Z.eqb_eq [k ->]%IH]%andb_true_iff. by exists k.
Qed.

Lemma length_sub_bytes a b l :
  (a <= b <= length l)%nat → length (sub_bytes a b l) = (b - a)%nat.
Proof. intros. unfold sub_bytes. rewrite length_take, length_drop. lia. Qed.

(** A slice that covers exactly the middle part of a concatenation. *)
Lemma sub_bytes_app_mid (p m r : bytes) a b :
  length p = a → length m = (b - a)%nat → sub_bytes a b (p ++ m ++ r) = m.
Proof.
  intros Hp Hm. unfold sub_bytes. rewrite drop_app_length' by done.
  by rewrite take_app_length'.
Qed.

(** ** XOR of byte strings: a commutative group on each length *)

Lemma zip_xor_comm a b : zip_xor a b = zip_xor b a.
Proof. revert b. induction a; intros [|]; simpl; f_equal; auto using Z.lxor_comm. Qed.

Lemma zip_xor_assoc a b c : zip_xor (zip_xor a b) c = zip_xor a (zip_xor b c).
Proof.
  revert b c. induction a; intros [|] [|]; simpl; f_equal; auto using Z.lxor_assoc.
Qed.

Lemma length_zip_xor a b n : length a = n → length b = n → length (zip_xor a b) = n.
Proof. revert a b. induction n; intros [|] [|]; simpl; auto with lia. Qed.

Lemma zip_xor_cancel a b : length a = length b → zip_xor (zip_xor a b) b = a.
Proof.
  revert b. induction a as [|x a IH]; intros [|y b] E; simplify_eq/=; [done|].
  by rewrite Z.lxor_assoc, Z.lxor_nilpotent, Z.lxor_0_r, IH.
Qed.

#[export] Hint Rewrite length_to_le_bytes length_to_be_bytes : lyr.

(** ** Bit fields *)

Lemma land_pow2 x k : 0 <= k → Z.land x (2 ^ k) = if Z.testbit x k then 2 ^ k else 0.
Proof.
  intros Hk. apply Z.bits_inj'. intros i Hi. rewrite Z.land_spec, Z.pow2_bits_eqb by done.
  destruct (Z.eqb_spec k i) as [->|].
  - destruct (Z.testbit x i); [by rewrite Z.pow2_bits_true|by rewrite Z.bits_0].
  - rewrite andb_false_r. destruct (Z.testbit x k); [|by rewrite Z.bits_0].
    by rewrite Z.pow2_bits_false.
Qed.

(** The low [k+1] bits are the low [k] bits and bit [k]. *)
Lemma mod_pow2_succ x k :
  0 <= k → x mod 2 ^ (k + 1) = x mod 2 ^ k + (if Z.testbit x k then 2 ^ k else 0).
Proof.
  intros Hk. rewrite Z.pow_add_r, Z.rem_mul_r by lia. change (2 ^ 1) with 2.
  rewrite <- Z.testbit_spec' by done. destruct (Z.testbit x k); simpl; lia.
Qed.

Lemma lor_disjoint_add a b k : 0 <= k → 0 <= a < 2 ^ k → Z.lor a (Z.shiftl b k) = a + b * 2 ^ k.
Proof.
  intros Hk Ha. rewrite <- Z.shiftl_mul_pow2 by done. symmetry. apply Z.add_nocarry_lor.
  apply Z.bits_inj'. intros i Hi. rewrite Z.land_spec, Z.bits_0, Z.shiftl_spec by done.
  destruct (Z.lt_ge_cases i k); [rewrite (Z.testbit_neg_r b) by lia; apply andb_false_r|].
  by rewrite <- (Z.mod_small a (2 ^ k)), Z.mod_pow2_bits_high by lia.
Qed.

(** ** Summaries of finite maps

    [summary op e f m] combines [f k v] over the entries of [m]: a sum, an XOR. *)
Definition summary {K V A} `{Countable K} (op : A → A → A) (e : A) (f : K → V → A) (m : gmap K V) : A :=
  map_fold (λ k v a, op (f k v) a) e m.

Section Summary.
  Context {K V A : Type} `{Countable K} (op : A → A → A) (e : A) (f : K → V → A).
  Context (Hassoc : ∀ x y z, op x (op y z) = op (op x y) z) (Hcomm : ∀ x y, op x y = op y x).
  Implicit Types m : gmap K V.

Lemma summary_empty : summary op e f (∅ : gmap K V) = e.
Proof. apply map_fold_empty. Qed.

Lemma summary_insert m k v :
  m !! k = None → summary op e f (<[k:=v]> m) = op (f k v) (summary op e f m).
Proof.
  intros Hk. unfold summary. rewrite map_fold_insert_L; [done| |done].
  intros. by rewrite !Hassoc, (Hcomm (f j1 z1)).
Qed.

Lemma summary_delete m k v :
  m !! k = Some v → summary op e f m = op (f k v) (summary op e f (delete k m)).
Proof.
  intros Hk. rewrite <- (insert_id m k v) at 1 by done. rewrite <- insert_delete_eq.
  apply summary_insert. apply lookup_delete_eq.
Qed.

(** Entries that contribute the neutral element can come and go. *)
Lemma summary_other m k o :
  (∀ v m', op (f k v) (summary op e f m') = summary op e f m') →
  summary op e f (match o with Some v => <[k:=v]> m | None => delete k m end) = summary op e f m.
Proof.
  intros He.
  assert (Hd : ∀ m', summary op e f (delete k m') = summary op e f m').
  { intros m'. destruct (m' !! k) as [v|] eqn:E; [|by rewrite delete_id].
    by rewrite (summary_delete m' k v E), He. }
  destruct o as [v|]; [|apply Hd].
  rewrite <- insert_delete_eq, summary_insert by apply lookup_delete_eq. by rewrite He.
Qed.

(** A property closed under [op] holds of a summary. *)
Lemma summary_inv (P : A → Prop) m :
  P e → (∀ k v a, P a → P (op (f k v) a)) → P (summary op e f m).
Proof.
  intros He Hf. unfold summary.
  apply (map_fold_weak_ind (λ a (_ : gmap K V), P a)); [done|]. intros k v m' a _ Ha. by apply Hf.
Qed.

End Summary.

(** ** Lists without duplicates *)

Lemma NoDup_app_drop_mid {A} (l k m : list A) : NoDup (l ++ k ++ m) → NoDup (l ++ m).
Proof.
  rewrite !NoDup_app. intros (Hl & Hdis & Hk & Hdis2 & Hm). split_and!; [done| |done].
  intros x Hx Hin. apply (Hdis x Hx), elem_of_app. by right.
Qed.

Lemma perm_rev_swap {A} (l k m : list A) : l ++ k ++ m ≡ₚ k ++ reverse l ++ m.
Proof. rewrite reverse_Permutation, !app_assoc. f_equiv. apply Permutation_app_comm. Qed.

Lemma filter_Forall_id {A} (P : A → Prop) `{∀ x, Decision (P x)} (l : list A) :
  Forall P l → filter P l = l.
Proof. induction 1; [done|]. rewrite filter_cons, decide_True by done. by f_equal. Qed.
