(* ===== verification/Errors.v ===== *)
(** * Errors: the error type of the node and the effects of its code

    [ChainError] is src/111/src/errors.rs.  A Rust function that can fail is a
    function into [outcome]: a value, an error returned through [Result], a
    panic (slice out of range, [unwrap] on [None], division by zero; the
    release profile aborts the process), or a call that never returns (a lock
    that the caller already holds, a loop without progress).  Code that mutates
    a shared object is a state transformer [M S A]; the state survives an
    error, as it does behind [&mut self]. *)
From S2P Require Import Prelude.

(** ** errors.rs *)

Inductive ChainError : Type :=
  | MissingUTXO
  | DoubleSpend
  | InvalidScript
  | InvalidTx (msg : string)
  | InvalidBlock (msg : string)
  | ReorgTooDeep
  | InsufficientFee
  | CoinbaseImmature
  | InvalidCoinbaseFee
  | InsufficientPoW
  | InvalidTimestamp
  | InvalidLockTime
  | ValidationTimeout
  | ValueOverflow
  | InvalidSignature
  | AttackDetected
  | InvalidRangeProof
  | InvalidHandshake
  | PeerBanned
  | PeerTimeout
  | MempoolOverflow
  | InvalidKeyImage
  | DecompressionFailed
  | PackageDepthExceeded
  | InvalidCommitment
  | SupplyMismatch
  | Anyhow (msg : string)
  | RocksDB (msg : string)
  | Bincode (msg : string)
  | Secp256k1 (msg : string)
  | MoneroSerai (msg : string)
  | Libp2p (msg : string)
  | Bulletproofs (msg : string)
  | FilePermissionError (msg : string)
  | InvalidEncryptionKey.

#[export] Instance ChainError_eq_dec : EqDecision ChainError.
Proof. solve_decision. Defined.

(** ** Outcomes *)

Inductive outcome (A : Type) : Type :=
  | Ok (a : A)
  | Err (e : ChainError)
  | Panic
  | Hang.
Arguments Ok {A} a.
Arguments Err {A} e.
Arguments Panic {A}.
Arguments Hang {A}.

#[export] Instance outcome_eq_dec `{EqDecision A} : EqDecision (outcome A).
Proof. solve_decision. Defined.

#[export] Instance outcome_ret : MRet outcome := λ A a, Ok a.

#[export] Instance outcome_bind : MBind outcome := λ A B f o,
  match o with
  | Ok a => f a
  | Err e => Err e
  | Panic => Panic
  | Hang => Hang
  end.

#[export] Instance outcome_fmap : FMap outcome := λ A B f o,
  match o with
  | Ok a => Ok (f a)
  | Err e => Err e
  | Panic => Panic
  | Hang => Hang
  end.

(** [bail!(e)] *)
Definition bail {A} (e : ChainError) : outcome A := Err e.

(** [if !b { bail!(e) }] *)
Definition ensure (b : bool) (e : ChainError) : outcome unit :=
  if b then Ok tt else Err e.

(** [o.ok_or(e)?] and [o.context(..)?] *)
Definition ok_or {A} (o : option A) (e : ChainError) : outcome A :=
  match o with Some a => Ok a | None => Err e end.

(** [o.unwrap()] and [o.expect(..)] *)
Definition unwrap {A} (o : option A) : outcome A :=
  match o with Some a => Ok a | None => Panic end.

(** [r.unwrap()] on a [Result]. *)
Definition unwrap_result {A} (o : outcome A) : outcome A :=
  match o with Err _ => Panic | o => o end.

(** [&l[a..b]]: panics out of range. *)
Definition slice (a b : nat) (l : bytes) : outcome bytes :=
  if bool_decide (a ≤ b ≤ length l)%nat then Ok (sub_bytes a b l) else Panic.

(** [&l[a..]] *)
Definition slice_from (a : nat) (l : bytes) : outcome bytes :=
  if bool_decide (a ≤ length l)%nat then Ok (drop a l) else Panic.

(** [l[i]] *)
Definition index {A} (l : list A) (i : nat) : outcome A := unwrap (l !! i).

(** [x / y] panics on a zero divisor. *)
Definition div_or_panic (x y : Z) : outcome Z :=
  if y =? 0 then Panic else Ok (x / y).

(** A [for] loop whose body may fail, over an accumulator. *)
Fixpoint for_each {A B} (f : A → B → outcome A) (a : A) (l : list B) : outcome A :=
  match l with
  | [] => Ok a
  | b :: l => a ← f a b; for_each f a l
  end.

(** ** State transformers *)

Definition M (S A : Type) : Type := S → outcome A * S.

#[export] Instance M_ret {S} : MRet (M S) := λ A a s, (Ok a, s).

#[export] Instance M_bind {S} : MBind (M S) := λ A B f m s,
  match m s with
  | (Ok a, s') => f a s'
  | (Err e, s') => (Err e, s')
  | (Panic, s') => (Panic, s')
  | (Hang, s') => (Hang, s')
  end.

Definition get {S} : M S S := λ s, (Ok s, s).

Definition gets {S A} (f : S → A) : M S A := λ s, (Ok (f s), s).

Definition modify {S} (f : S → S) : M S unit := λ s, (Ok tt, f s).

Definition lift {S A} (o : outcome A) : M S A := λ s, (o, s).

Fixpoint mfor {S A} (f : A → M S unit) (l : list A) : M S unit :=
  match l with
  | [] => mret tt
  | a :: l => f a;; mfor f l
  end.

(** ** Inversion of outcomes *)

#[export] Instance Ok_inj {A} : Inj (=) (=) (@Ok A).
Proof. by intros ?? [=]. Qed.

Lemma bind_Ok {A B} (f : A → outcome B) (o : outcome A) b :
  o ≫= f = Ok b ↔ ∃ a, o = Ok a ∧ f a = Ok b.
Proof. destruct o; simpl; naive_solver. Qed.

Lemma fmap_Ok {A B} (f : A → B) (o : outcome A) b :
  f <$> o = Ok b ↔ ∃ a, o = Ok a ∧ b = f a.
Proof. destruct o; simpl; naive_solver. Qed.

Lemma ensure_Ok b e u : ensure b e = Ok u ↔ b = true.
Proof. destruct b, u; simpl; naive_solver. Qed.

Lemma ok_or_Ok {A} (o : option A) e a : ok_or o e = Ok a ↔ o = Some a.
Proof. destruct o; simpl; naive_solver. Qed.

Lemma unwrap_Ok {A} (o : option A) a : unwrap o = Ok a ↔ o = Some a.
Proof. destruct o; simpl; naive_solver. Qed.

Lemma unwrap_result_Ok {A} (o : outcome A) a : unwrap_result o = Ok a ↔ o = Ok a.
Proof. destruct o; simpl; naive_solver. Qed.

Lemma slice_Ok a b l r :
  slice a b l = Ok r ↔ (a ≤ b ≤ length l)%nat ∧ r = sub_bytes a b l.
Proof. unfold slice. case_bool_decide; naive_solver. Qed.

Lemma M_bind_Ok {S A B} (f : A → M S B) (m : M S A) s b s' :
  (m ≫= f) s = (Ok b, s') ↔ ∃ a s1, m s = (Ok a, s1) ∧ f a s1 = (Ok b, s').
Proof. unfold mbind, M_bind. destruct (m s) as [[] ?]; naive_solver. Qed.

(** Where a sequence stops. *)
Lemma M_bind_cases {S A B} (m : M S A) (f : A → M S B) s r s' :
  (m ≫= f) s = (r, s') →
  (∃ a s1, m s = (Ok a, s1) ∧ f a s1 = (r, s')) ∨ (∃ o, m s = (o, s') ∧ (∀ a, o ≠ Ok a) ∧ ∀ b, r ≠ Ok b).
Proof.
  unfold mbind, M_bind. destruct (m s) as [[a|e| |] s1]; [by left; eauto|..]; intros [= <- <-]; right; by eexists.
Qed.

(** A run is its outcome and its final state. *)
Lemma run_eta {S A} (m : outcome A * S) r : m.1 = r → m = (r, m.2).
Proof. destruct m. by intros <-. Qed.

Lemma for_each_app {A B} (f : A → B → outcome A) a l k :
  for_each f a (l ++ k) = a' ← for_each f a l; for_each f a' k.
Proof.
  revert a. induction l as [|b l IH]; intros a; simpl; [done|].
  destruct (f a b); simpl; auto.
Qed.

(** Invariant rule for [for_each]. *)
Lemma for_each_inv {A B} (P : A → Prop) (f : A → B → outcome A) a l a' :
  (∀ x b y, b ∈ l → P x → f x b = Ok y → P y) →
  P a → for_each f a l = Ok a' → P a'.
Proof.
  revert a. induction l as [|b l IH]; intros a Hf Ha; simpl; [naive_solver|].
  intros (x & Hx & Hl)%bind_Ok. eapply IH; [|eapply Hf|]; eauto; set_solver.
Qed.

(** [inv_ok] decomposes every successful computation in the context. *)
Ltac inv_ok :=
  repeat match goal with
  | H : Ok _ = Ok _ |- _ => apply Ok_inj in H; subst
  | H : Err _ = Ok _ |- _ => discriminate H
  | H : Panic = Ok _ |- _ => discriminate H
  | H : Hang = Ok _ |- _ => discriminate H
  | H : bail _ = Ok _ |- _ => discriminate H
  | H : mret _ = Ok _ |- _ => unfold mret, outcome_ret in H
  | H : mbind _ _ = Ok _ |- _ => apply bind_Ok in H as (? & ? & H)
  | H : fmap _ _ = Ok _ |- _ => apply fmap_Ok in H as (? & ? & ?); subst
  | H : ensure _ _ = Ok _ |- _ => apply ensure_Ok in H
  | H : ok_or _ _ = Ok _ |- _ => apply ok_or_Ok in H
  | H : unwrap _ = Ok _ |- _ => apply unwrap_Ok in H
  | H : unwrap_result _ = Ok _ |- _ => apply unwrap_result_Ok in H
  | H : slice _ _ _ = Ok _ |- _ => apply slice_Ok in H as [? ?]; subst
  | x : unit |- _ => destruct x
  end.

(** Two loops over related elements with the same body are the same loop. *)
Lemma for_each_Forall2 {A B} (R : B → B → Prop) (f : A → B → outcome A) a l k :
  (∀ a x y, R x y → f a x = f a y) → Forall2 R l k → for_each f a l = for_each f a k.
Proof.
  intros Hf Hl. revert a. induction Hl as [|x y l k Hxy Hl IH]; intros a; simpl; [done|].
  rewrite (Hf a x y Hxy). destruct (f a y); simpl; auto.
Qed.

(** A loop that succeeds ran its body successfully on every element. *)
Lemma for_each_elem {A B} (f : A → B → outcome A) a l a' x :
  for_each f a l = Ok a' → x ∈ l → ∃ a1 a2, f a1 x = Ok a2.
Proof.
  revert a. induction l as [|y l IH]; intros a; simpl; [by intros _ ?%not_elem_of_nil|].
  intros (a1 & H1 & H)%bind_Ok [->|Hin]%elem_of_cons; eauto.
Qed.

(** ** Invariants of state transformers

    [Preserves P m]: whatever the outcome of [m], the state it leaves
    satisfies [P] if the state it started from did.  Instances follow the
    structure of the code, so that [apply _] proves most cases. *)
Class Preserves {S A} (P : S → Prop) (m : M S A) : Prop := preserves : ∀ s, P s → P (m s).2.

#[export] Instance preserves_ret {S A} (P : S → Prop) (a : A) : Preserves P (mret a).
Proof. by intros s. Qed.

#[export] Instance preserves_get {S} (P : S → Prop) : Preserves P get.
Proof. by intros s. Qed.

#[export] Instance preserves_lift {S A} (P : S → Prop) (o : outcome A) : Preserves P (lift o).
Proof. by intros s. Qed.

#[export] Instance preserves_bind {S A B} (P : S → Prop) (m : M S A) (f : A → M S B) :
  Preserves P m → (∀ a, Preserves P (f a)) → Preserves P (m ≫= f).
Proof.
  intros Hm Hf s Hs. specialize (Hm s Hs). unfold mbind, M_bind.
  destruct (m s) as [[a| | |] s']; try done. by apply Hf.
Qed.

#[export] Instance preserves_if {S A} (P : S → Prop) (b : bool) (m1 m2 : M S A) :
  Preserves P m1 → Preserves P m2 → Preserves P (if b then m1 else m2).
Proof. by destruct b. Qed.

#[export] Instance preserves_mfor {S A} (P : S → Prop) (f : A → M S unit) l :
  (∀ a, Preserves P (f a)) → Preserves P (mfor f l).
Proof. intros Hf. induction l; simpl; apply _. Qed.

(** [PreservesOk P m]: a successful run of [m] keeps [P]. *)
Class PreservesOk {S A} (P : S → Prop) (m : M S A) : Prop :=
  preserves_ok : ∀ s a s', m s = (Ok a, s') → P s → P s'.

#[export] Instance preserves_ok_ret {S A} (P : S → Prop) (a : A) : PreservesOk P (mret a).
Proof. by intros s ? ? [= _ <-]. Qed.

#[export] Instance preserves_ok_get {S} (P : S → Prop) : PreservesOk P get.
Proof. by intros s ? ? [= _ <-]. Qed.

#[export] Instance preserves_ok_lift {S A} (P : S → Prop) (o : outcome A) : PreservesOk P (lift o).
Proof. by intros s ? ? [= _ <-]. Qed.

#[export] Instance preserves_ok_bind {S A B} (P : S → Prop) (m : M S A) (f : A → M S B) :
  PreservesOk P m → (∀ a, PreservesOk P (f a)) → PreservesOk P (m ≫= f).
Proof. intros Hm Hf s b s' (a & s1 & H1 & H2)%M_bind_Ok Hs. eapply Hf; eauto. Qed.

#[export] Instance preserves_ok_if {S A} (P : S → Prop) (b : bool) (m1 m2 : M S A) :
  PreservesOk P m1 → PreservesOk P m2 → PreservesOk P (if b then m1 else m2).
Proof. by destruct b. Qed.

#[export] Instance preserves_ok_mfor {S A} (P : S → Prop) (f : A → M S unit) l :
  (∀ a, PreservesOk P (f a)) → PreservesOk P (mfor f l).
Proof. intros Hf. induction l; simpl; apply _. Qed.

(** [NoErr m]: [m] answers no error (its Rust type has none), though it may
    panic or wait for ever. *)
Class NoErr {S A} (m : M S A) : Prop := no_err : ∀ s e, (m s).1 ≠ Err e.

#[export] Instance no_err_ret {S A} (a : A) : NoErr (S:=S) (mret a).
Proof. by intros s e. Qed.

#[export] Instance no_err_get {S} : NoErr (S:=S) get.
Proof. by intros s e. Qed.

#[export] Instance no_err_modify {S} (f : S → S) : NoErr (modify f).
Proof. by intros s e. Qed.

#[export] Instance no_err_bind {S A B} (m : M S A) (f : A → M S B) :
  NoErr m → (∀ a, NoErr (f a)) → NoErr (m ≫= f).
Proof.
  intros Hm Hf s e. specialize (Hm s). unfold mbind, M_bind.
  destruct (m s) as [[a|e'| |] s']; try done; [apply Hf|]. by specialize (Hm e').
Qed.

#[export] Instance no_err_if {S A} (b : bool) (m1 m2 : M S A) :
  NoErr m1 → NoErr m2 → NoErr (if b then m1 else m2).
Proof. by destruct b. Qed.

#[export] Instance no_err_mfor {S A} (f : A → M S unit) l : (∀ a, NoErr (f a)) → NoErr (mfor f l).
Proof. intros Hf. induction l; simpl; apply _. Qed.
