(* ===== verification/Types.v ===== *)
(** * Types: the data the node hashes, stores and exchanges

    The structures of src/111/src/tx.rs (and the two that other files
    serialise: the reorganisation journal of chain.rs and the nonce-less header
    of miner.rs).  A [[u8; 32]] or a [Vec<u8>] is a list of byte values; the
    [wf_] predicates say that a record is a value of its Rust type. *)
From S2P Require Import Prelude.

Record TXInput := mkTXInput {
  txid : bytes;
  vout : Z;
  script_sig : bytes;
  sequence : Z;
}.

Record TXOutput := mkTXOutput {
  value : Z;
  script_pubkey : bytes;
  commitment : option bytes;
}.

Record Transaction := mkTransaction {
  tx_version : Z;
  is_anonymous : bool;
  inputs : list TXInput;
  outputs : list TXOutput;
  lock_time : Z;
  range_proofs : list bytes;
}.

Record BlockHeader := mkBlockHeader {
  hdr_version : Z;
  prev_hash : bytes;
  merkle_root : bytes;
  timestamp : Z;
  bits : Z;
  nonce : Z;
}.

Record Block := mkBlock {
  header : BlockHeader;
  txs : list Transaction;
}.

(** miner.rs: the header as the miner serialises it, before the nonce. *)
Record HeaderWithoutNonce := mkHeaderWithoutNonce {
  hwn_version : Z;
  hwn_prev_hash : bytes;
  hwn_merkle_root : bytes;
  hwn_timestamp : Z;
  hwn_bits : Z;
}.

(** chain.rs: the journal entry written before a reorganisation. *)
Record ReorgJournal := mkReorgJournal {
  journal_id : string;
  old_tip_height : Z;
  old_tip_hash : bytes;
  disconnect_depth : Z;
  new_block : Block;
}.

#[export] Instance TXInput_eq_dec : EqDecision TXInput.
Proof. solve_decision. Defined.

#[export] Instance TXOutput_eq_dec : EqDecision TXOutput.
Proof. solve_decision. Defined.

#[export] Instance Transaction_eq_dec : EqDecision Transaction.
Proof. solve_decision. Defined.

#[export] Instance BlockHeader_eq_dec : EqDecision BlockHeader.
Proof. solve_decision. Defined.

#[export] Instance Block_eq_dec : EqDecision Block.
Proof. solve_decision. Defined.

(** ** Values of the Rust types *)

Definition wf_bytes (l : bytes) : Prop :=
  Forall byte l ∧ Z.of_nat (length l) < 2 ^ 64.

Definition wf_array (n : nat) (l : bytes) : Prop := Forall byte l ∧ length l = n.

Definition wf_input (i : TXInput) : Prop :=
  wf_array 32 (txid i) ∧ uint 32 (vout i) ∧ wf_bytes (script_sig i) ∧ uint 32 (sequence i).

Definition wf_output (o : TXOutput) : Prop :=
  uint 64 (value o) ∧ wf_bytes (script_pubkey o) ∧
  match commitment o with Some c => wf_bytes c | None => True end.

Definition wf_tx (t : Transaction) : Prop :=
  uint 32 (tx_version t) ∧ Forall wf_input (inputs t) ∧ Z.of_nat (length (inputs t)) < 2 ^ 64 ∧
  Forall wf_output (outputs t) ∧ Z.of_nat (length (outputs t)) < 2 ^ 64 ∧
  uint 32 (lock_time t) ∧
  Forall wf_bytes (range_proofs t) ∧ Z.of_nat (length (range_proofs t)) < 2 ^ 64.

Definition wf_header (h : BlockHeader) : Prop :=
  uint 32 (hdr_version h) ∧ wf_array 32 (prev_hash h) ∧ wf_array 32 (merkle_root h) ∧
  uint 32 (timestamp h) ∧ uint 32 (bits h) ∧ uint 64 (nonce h).

Definition wf_block (b : Block) : Prop :=
  wf_header (header b) ∧ Forall wf_tx (txs b) ∧ Z.of_nat (length (txs b)) < 2 ^ 64.

#[export] Instance byte_dec b : Decision (byte b).
Proof. unfold byte. apply _. Defined.

#[export] Instance wf_bytes_dec l : Decision (wf_bytes l).
Proof. unfold wf_bytes. apply _. Defined.

#[export] Instance wf_array_dec n l : Decision (wf_array n l).
Proof. unfold wf_array. apply _. Defined.

#[export] Instance wf_input_dec i : Decision (wf_input i).
Proof. unfold wf_input. apply _. Defined.

#[export] Instance wf_output_dec o : Decision (wf_output o).
Proof. unfold wf_output. destruct (commitment o); apply _. Defined.

#[export] Instance wf_tx_dec t : Decision (wf_tx t).
Proof. unfold wf_tx. apply _. Defined.

#[export] Instance wf_header_dec h : Decision (wf_header h).
Proof. unfold wf_header. apply _. Defined.

#[export] Instance wf_block_dec b : Decision (wf_block b).
Proof. unfold wf_block. apply _. Defined.

Lemma wf_tx_outputs_nonneg t : wf_tx t → Forall (λ v, 0 <= v) (value <$> outputs t).
Proof.
  intros (_ & _ & _ & Ho & _). rewrite Forall_fmap. eapply Forall_impl; [exact Ho|].
  by intros o [[? ?] _].
Qed.
