(* ===== verification/Externals.v ===== *)
(** * Externals: the third-party code the node calls

    Hashes, signatures, RandomX, ring signatures, range proofs, the bincode
    format, base58check and RocksDB are not part of the repository.  Each is an
    operational type class, an argument of every definition that uses it; what
    the node relies on is a separate class of laws that states documented
    behaviour.  Instances.v gives a concrete instance of every class, so that
    the laws are known to be satisfiable and every definition evaluates. *)
From S2P Require Import Prelude Errors Types.

(** ** bincode: [serialize] and [deserialize] of one type

    [serialize] of these plain types has no failure of its own ([bincode] fails
    only on a size limit, which the code never sets), so it is total. *)
Class Bincode (A : Type) := {
  serialize : A → bytes;
  deserialize : bytes → option A;
}.

Class BincodeOk (A : Type) `{!Bincode A} (wf : A → Prop) :=
  deserialize_serialize : ∀ a, wf a → deserialize (serialize a) = Some a.

(** The types the node stores or sends. *)
Class Codec := {
  #[global] bincode_output :: Bincode TXOutput;
  #[global] bincode_tx :: Bincode Transaction;
  #[global] bincode_header :: Bincode BlockHeader;
  #[global] bincode_block :: Bincode Block;
  #[global] bincode_journal :: Bincode ReorgJournal;
  #[global] bincode_tx_pos :: Bincode (Z * Z);
  #[global] bincode_headers :: Bincode (list BlockHeader);
  #[global] bincode_txs :: Bincode (list Transaction);
  #[global] bincode_addrs :: Bincode (list string);
  #[global] bincode_base :: Bincode HeaderWithoutNonce;
}.

Class CodecOk `{!Codec} := {
  #[global] bincode_output_ok :: BincodeOk TXOutput wf_output;
  #[global] bincode_tx_ok :: BincodeOk Transaction wf_tx;
  #[global] bincode_header_ok :: BincodeOk BlockHeader wf_header;
  #[global] bincode_block_ok :: BincodeOk Block wf_block;
  (** The format has no terminator or self-description: a record is the
      concatenation of its fields, integers little-endian at their width. *)
  serialize_header_fields : ∀ v p m t b n,
    serialize (mkBlockHeader v p m t b n) =
    serialize (mkHeaderWithoutNonce v p m t b) ++ to_le_bytes 8 n;
  serialize_tx_nonempty : ∀ t : Transaction, 0 < Z.of_nat (length (serialize t));
  serialize_block_tx : ∀ (b : Block) t, t ∈ txs b → (length (serialize t) ≤ length (serialize b))%nat;
}.

(** ** Hashes, signatures, proofs *)
Class Crypto := {
  sha256 : bytes → bytes;
  ripemd160 : bytes → bytes;
  (** [RandomXVM::calculate_hash]; [None] is its error. *)
  calculate_hash : bytes → option bytes;

  PublicKey : Type;
  PublicKey_from_slice : bytes → option PublicKey;
  PublicKey_serialize : PublicKey → bytes;
  Signature : Type;
  Signature_from_der : bytes → option Signature;
  Message_from_slice : bytes → option bytes;
  verify_ecdsa : bytes → Signature → PublicKey → bool;

  (** A key image is represented by its canonical bytes ([as_bytes]). *)
  KeyImage_from_slice : bytes → option bytes;
  Clsag : Type;
  Clsag_deserialize : bytes → option Clsag;
  Clsag_ring_len : Clsag → Z;
  (** [clsag.verify(&msg_hash, &key_image)] *)
  Clsag_verify : Clsag → bytes → bytes → bool;

  (** Ristretto points; [from_slice] panics on a wrong length. *)
  Point : Type;
  Point_add : Point → Point → Point;
  Point_eqb : Point → Point → bool;
  CompressedRistretto_from_slice : bytes → outcome (option Point);
  (** [PedersenGens::default().commit(value, blinding)] *)
  pc_commit : Z → Z → Point;
  RangeProof : Type;
  RangeProof_deserialize : bytes → option RangeProof;
  (** [BatchVerifier::verify] on what was queued; [None] is its error. *)
  batch_verify : list (RangeProof * Point * Z) → option bool;

  (** monero-serai keys of anonymous addresses *)
  AnonPublicKey : Type;
  AnonPublicKey_from_bytes : bytes → option AnonPublicKey;
  AnonPublicKey_to_bytes : AnonPublicKey → bytes;

  to_base58check : bytes → string;
  from_check : string → option (Z * bytes);
}.

Class CryptoOk `{!Crypto} := {
  sha256_array : ∀ l, wf_array 32 (sha256 l);
  ripemd160_array : ∀ l, wf_array 20 (ripemd160 l);
  calculate_hash_array : ∀ l h, calculate_hash l = Some h → wf_array 32 h;
  AnonPublicKey_from_to : ∀ k, AnonPublicKey_from_bytes (AnonPublicKey_to_bytes k) = Some k;
  AnonPublicKey_array : ∀ k, wf_array 32 (AnonPublicKey_to_bytes k);
  (** [commit(v, 0)] is a multiple of a generator of large prime order: adding
      it changes the identity unless [v] is 0. *)
  pc_commit_value : ∀ v, 0 < v < 2 ^ 64 →
    Point_eqb (pc_commit 0 0) (Point_add (pc_commit 0 0) (pc_commit v 0)) = false;
  from_check_to_base58check : ∀ v p, Forall byte (v :: p) →
    from_check (to_base58check (v :: p)) = Some (v, p);
}.

(** ** RocksDB

    A column family is named by a string; the default one is ["default"].
    A write batch is the list of its operations, in order.  [write] is atomic
    and may fail; the state of the disk is part of [DB], so that a failure is
    a function of it. *)
Abbreviation cf := string.

Inductive batch_op :=
  | BPut (c : cf) (k v : bytes)
  | BDelete (c : cf) (k : bytes).

Abbreviation WriteBatch := (list batch_op).

#[export] Instance batch_op_eq_dec : EqDecision batch_op.
Proof. solve_decision. Defined.

Definition apply_op (m : gmap (cf * bytes) bytes) (o : batch_op) : gmap (cf * bytes) bytes :=
  match o with
  | BPut c k v => <[(c, k) := v]> m
  | BDelete c k => delete (c, k) m
  end.

Definition apply_batch (b : WriteBatch) (m : gmap (cf * bytes) bytes) : gmap (cf * bytes) bytes :=
  foldl apply_op m b.

(** Keys are ordered bytewise. *)
Fixpoint bytes_ltb (a b : bytes) : bool :=
  match a, b with
  | _, [] => false
  | [], _ :: _ => true
  | x :: a, y :: b => (x <? y) || ((x =? y) && bytes_ltb a b)
  end.

Class Rocks := {
  DB : Type;
  (** [db_pool.get()] *)
  pool_get : DB → outcome unit;
  cf_handle : DB → cf → bool;
  get_cf : DB → cf → bytes → outcome (option bytes);
  (** [iterator_cf(cf, IteratorMode::Start)]: ascending keys. *)
  iterator_cf : DB → cf → outcome (list (bytes * bytes));
  write : DB → WriteBatch → outcome unit * DB;
}.

Class RocksOk `{!Rocks} := {
  contents : DB → gmap (cf * bytes) bytes;
  pool_get_outcome : ∀ db, pool_get db = Ok tt ∨ ∃ e, pool_get db = Err e;
  get_cf_sound : ∀ db c k v, get_cf db c k = Ok v → v = contents db !! (c, k);
  get_cf_outcome : ∀ db c k, (∃ v, get_cf db c k = Ok v) ∨ ∃ e, get_cf db c k = Err e;
  iterator_cf_sound : ∀ db c l, iterator_cf db c = Ok l →
    NoDup l.*1 ∧ ∀ k v, (k, v) ∈ l ↔ contents db !! (c, k) = Some v;
  iterator_cf_sorted : ∀ db c l, iterator_cf db c = Ok l →
    StronglySorted (λ x y, bytes_ltb x.1 y.1 = true) l;
  write_ok : ∀ db b db', write db b = (Ok tt, db') →
    contents db' = apply_batch b (contents db);
  write_err : ∀ db b e db', write db b = (Err e, db') → contents db' = contents db;
  write_outcome : ∀ db b, (write db b).1 = Ok tt ∨ ∃ e, (write db b).1 = Err e;
  cf_handle_write : ∀ db b c, cf_handle (write db b).2 c = cf_handle db c;
}.

(** [conn.get(key)]: the default column family. *)
Definition default_cf : cf := "default".

Definition db_get `{!Rocks} (db : DB) (k : bytes) : outcome (option bytes) :=
  get_cf db default_cf k.

(** [iterator(IteratorMode::From(p, Direction::Forward))]: from the first key
    that is not below [p]. *)
Fixpoint seek (p : bytes) (l : list (bytes * bytes)) : list (bytes * bytes) :=
  match l with
  | [] => []
  | kv :: l' => if bytes_ltb kv.1 p then seek p l' else l
  end.

Definition iterator_from `{!Rocks} (db : DB) (p : bytes) : outcome (list (bytes * bytes)) :=
  l ← iterator_cf db default_cf; Ok (seek p l).

(** [batch.put(k, v)], [batch.delete(k)]: the default column family. *)
Definition Put (k v : bytes) : batch_op := BPut default_cf k v.

Definition Delete (k : bytes) : batch_op := BDelete default_cf k.

(** [conn.cf_handle(name).context(msg)?] *)
Definition require_cf `{!Rocks} (db : DB) (c : cf) (msg : string) : outcome unit :=
  ensure (cf_handle db c) (Anyhow msg).

(** ** Batches *)

Lemma apply_batch_app b1 b2 m :
  apply_batch (b1 ++ b2) m = apply_batch b2 (apply_batch b1 m).
Proof. apply foldl_app. Qed.

Definition op_key (o : batch_op) : cf * bytes :=
  match o with BPut c k _ => (c, k) | BDelete c k => (c, k) end.

Lemma apply_op_ne m o ck : op_key o ≠ ck → apply_op m o !! ck = m !! ck.
Proof.
  destruct o; simpl; intros; [by rewrite lookup_insert_ne|by rewrite lookup_delete_ne].
Qed.

(** A batch leaves alone every key it does not name. *)
Lemma apply_batch_ne b m ck : ck ∉ op_key <$> b → apply_batch b m !! ck = m !! ck.
Proof.
  revert m. induction b as [|o b IH]; intros m Hin; simpl; [done|].
  rewrite IH, apply_op_ne; set_solver.
Qed.

(** ** Bytewise order *)

Lemma bytes_ltb_trans a b c : bytes_ltb a b = true → bytes_ltb b c = true → bytes_ltb a c = true.
Proof.
  revert b c. induction a as [|x a IH]; intros [|y b] [|z c]; simpl; try done.
  rewrite !orb_true_iff, !andb_true_iff, !Z.ltb_lt, !Z.eqb_eq.
  intros [H1|[-> H1]] [H2|[-> H2]]; [left; lia|left; lia|left; lia|right; eauto].
Qed.

Lemma bytes_ltb_irrefl a : bytes_ltb a a = false.
Proof. induction a as [|x a IH]; simpl; [done|]. by rewrite Z.ltb_irrefl, Z.eqb_refl. Qed.

Lemma bytes_ltb_total a b : bytes_ltb a b = true ∨ a = b ∨ bytes_ltb b a = true.
Proof.
  revert b. induction a as [|x a IH]; intros [|y b]; simpl; [by right; left|by left|by right; right|].
  destruct (Z.lt_trichotomy x y) as [H|[->|H]].
  - left. apply orb_true_iff. left. by apply Z.ltb_lt.
  - rewrite Z.ltb_irrefl, Z.eqb_refl. simpl. destruct (IH b) as [?|[->|?]]; auto.
  - right; right. apply orb_true_iff. left. by apply Z.ltb_lt.
Qed.

(** Keys with a prefix are never below it, and nothing that follows a key
    above the prefix without having it has it. *)
Lemma prefix_not_below p k : starts_with p k = true → bytes_ltb k p = false.
Proof.
  revert k. induction p as [|x p IH]; intros [|y k]; simpl; try done.
  rewrite andb_true_iff, Z.eqb_eq. intros [-> H]. rewrite Z.ltb_irrefl, Z.eqb_refl. simpl. by apply IH.
Qed.

Lemma beyond_prefix p a b :
  bytes_ltb a p = false → starts_with p a = false → bytes_ltb a b = true → starts_with p b = false.
Proof.
  revert a b. induction p as [|x p IH]; intros [|y a] [|z b]; simpl; try done.
  rewrite !orb_false_iff, !andb_false_iff, orb_true_iff, andb_true_iff.
  intros [H1 H2] H3 H4. apply Z.ltb_ge in H1. destruct (Z.eqb_spec x z) as [->|]; [|by left].
  right. destruct H4 as [H4%Z.ltb_lt|[->%Z.eqb_eq H4]]; [lia|].
  rewrite !Z.eqb_refl in *. destruct H2 as [|H2]; [done|]. destruct H3 as [|H3]; [done|]. eauto.
Qed.

(** [take_while(|(k, _)| k.starts_with(p))] *)
Fixpoint while_prefix (p : bytes) (l : list (bytes * bytes)) : list (bytes * bytes) :=
  match l with
  | [] => []
  | kv :: l => if starts_with p kv.1 then kv :: while_prefix p l else []
  end.

Lemma seek_spec p (l : list (bytes * bytes)) :
  StronglySorted (λ x y, bytes_ltb x.1 y.1 = true) l →
  StronglySorted (λ x y, bytes_ltb x.1 y.1 = true) (seek p l) ∧
  Forall (λ kv, bytes_ltb kv.1 p = false) (seek p l) ∧
  (∀ kv, kv ∈ l → bytes_ltb kv.1 p = false → kv ∈ seek p l).
Proof.
  induction 1 as [|x l Hs IH Hle]; cbn [seek].
  { split_and!; [constructor|constructor|done]. }
  destruct (bytes_ltb x.1 p) eqn:E.
  - destruct IH as (H1 & H2 & H3). split_and!; [done|done|].
    intros kv [->|Hin]%elem_of_cons Hkv; [congruence|by apply H3].
  - split_and!; [by constructor| |done]. constructor; [done|].
    rewrite Forall_forall in Hle |- *. intros y Hy. destruct (bytes_ltb y.1 p) eqn:Ey; [|done].
    by rewrite (bytes_ltb_trans _ _ _ (Hle y Hy) Ey) in E.
Qed.

(** In sorted entries, seeking a prefix and stopping at the first other key
    yields the entries with the prefix, all of them. *)
Lemma prefix_scan_spec p (l : list (bytes * bytes)) kv :
  StronglySorted (λ x y, bytes_ltb x.1 y.1 = true) l →
  kv ∈ while_prefix p (seek p l) ↔ kv ∈ l ∧ starts_with p kv.1 = true.
Proof.
  intros Hs. split.
  - assert (∀ l, kv ∈ while_prefix p l → kv ∈ l ∧ starts_with p kv.1 = true) as Hw.
    { induction l0 as [|x l0 IH]; cbn [while_prefix]; [by intros ?%not_elem_of_nil|].
      destruct (starts_with p x.1) eqn:E; [|by intros ?%not_elem_of_nil].
      intros [->|Hin]%elem_of_cons; [by split; [left|]|]. apply IH in Hin as [? ?]. by split; [right|]. }
    intros [Hin Hp]%Hw. split; [|done]. clear -Hin.
    induction l as [|x l IH]; cbn [seek] in Hin; [done|]. destruct (bytes_ltb x.1 p); [right; by apply IH|done].
  - intros [Hin Hp]. destruct (seek_spec p l Hs) as (Hs' & Hf & Hk).
    specialize (Hk kv Hin (prefix_not_below _ _ Hp)). clear Hin Hs. revert Hs' Hf Hk.
    generalize (seek p l). clear l. induction l as [|x l IH]; cbn [while_prefix]; [done|].
    intros [Hle Hs]%StronglySorted_cons [Hx Hf]%Forall_cons.
    destruct (starts_with p x.1) eqn:E.
    + intros [->|Hin]%elem_of_cons; [by left|right; by apply IH].
    + intros [->|Hin]%elem_of_cons; [congruence|]. rewrite Forall_forall in Hle. specialize (Hle _ Hin).
      pose proof (beyond_prefix _ _ _ Hx E Hle). congruence.
Qed.

Lemma while_prefix_sublist p (l : list (bytes * bytes)) : while_prefix p l `sublist_of` l.
Proof.
  induction l as [|x l IH]; cbn [while_prefix]; [done|].
  destruct (starts_with p x.1); [by apply sublist_skip|apply sublist_nil_l].
Qed.

Lemma seek_sublist p (l : list (bytes * bytes)) : seek p l `sublist_of` l.
Proof. induction l as [|x l IH]; cbn [seek]; [done|]. destruct (bytes_ltb x.1 p); [by apply sublist_cons|done]. Qed.

(** ** lru::LruCache

    [get] may reorder, [put] may evict; neither invents an entry. *)
Class Lru (K V : Type) := {
  LruCache : Type;
  lru_get : LruCache → K → option V * LruCache;
  lru_put : LruCache → K → V → LruCache;
}.
Arguments LruCache K V {_}.

Class LruOk (K V : Type) `{!Lru K V} := {
  lru_entry : LruCache K V → K → V → Prop;
  lru_get_entry : ∀ c k v, (lru_get c k).1 = Some v → lru_entry c k v;
  lru_get_keeps : ∀ c k k' v', lru_entry (lru_get c k).2 k' v' → lru_entry c k' v';
  lru_put_keeps : ∀ c k v k' v',
    lru_entry (lru_put c k v) k' v' → (k' = k ∧ v' = v) ∨ lru_entry c k' v';
}.

(** ** std::collections::HashMap

    The order in which a [HashMap] or [HashSet] yields its entries is not
    specified: it is some permutation of them. *)
Class HashOrder :=
  hash_iter : ∀ {K V : Type} `{Countable K}, gmap K V → list (K * V).

Class HashOrderOk `{!HashOrder} :=
  hash_iter_perm : ∀ {K V : Type} `{Countable K} (m : gmap K V), hash_iter m ≡ₚ map_to_list m.

Lemma elem_of_hash_iter `{HashOrderOk} {K V} `{Countable K} (m : gmap K V) k v :
  (k, v) ∈ hash_iter m ↔ m !! k = Some v.
Proof. rewrite hash_iter_perm. apply elem_of_map_to_list. Qed.

Lemma NoDup_hash_iter `{HashOrderOk} {K V} `{Countable K} (m : gmap K V) :
  NoDup (hash_iter m).*1.
Proof. rewrite hash_iter_perm. apply NoDup_fst_map_to_list. Qed.

(** ** retry::retry

    [retry(delays, op)] runs [op], and once more after each delay as long as it
    fails; the number of delays is the policy. *)
Class RetryPolicy := retry_delays : nat.
