(* ===== verification/Instances.v ===== *)
(** * Instances: concrete third-party code

    One instance of every class of Externals.v.  The codec is written from
    bincode's documented format (fields in order, integers little-endian at
    their width, a [Vec] behind a 64-bit length, one tag byte for [Option]) and
    proved to round-trip; the database is a finite map with a schedule of write
    failures; hashes and proofs are simple total functions.  They show that the
    laws can hold and they make every definition of the development evaluate;
    no theorem outside the witnesses depends on them. *)
From S2P Require Import Prelude Errors Types Externals.

(** ** Codecs *)

#[local] Obligation Tactic := idtac.

Record codec (A : Type) := mkCodec {
  enc : A → bytes;
  dec : bytes → option (A * bytes);
  cwf : A → Prop;
  dec_enc : ∀ a r, cwf a → dec (enc a ++ r) = Some (a, r);
  enc_pos : ∀ a, cwf a → (1 ≤ length (enc a))%nat;
}.
Arguments enc {A}.
Arguments dec {A}.
Arguments cwf {A}.
Arguments dec_enc {A}.
Arguments enc_pos {A}.

Definition take_bytes (n : nat) (l : bytes) : option (bytes * bytes) :=
  if (n <=? length l)%nat then Some (take n l, drop n l) else None.

Lemma take_bytes_app n l r : length l = n → take_bytes n (l ++ r) = Some (l, r).
Proof.
  intros <-. unfold take_bytes. rewrite length_app, (proj2 (Nat.leb_le _ _)) by lia.
  by rewrite take_app_length, drop_app_length.
Qed.

Definition dec_uint (n : nat) (l : bytes) : option (Z * bytes) :=
  '(b, r) ← take_bytes n l; Some (from_le_bytes b, r).

Lemma dec_uint_app n x r :
  uint (8 * Z.of_nat n) x → dec_uint n (to_le_bytes n x ++ r) = Some (x, r).
Proof.
  intros Hx. unfold dec_uint. rewrite take_bytes_app by apply length_to_le_bytes.
  cbn [mbind option_bind]. by rewrite from_to_le_bytes.
Qed.

Program Definition c_uint (n : nat) (Hn : (0 < n)%nat) : codec Z := {|
  enc := to_le_bytes n;
  dec := dec_uint n;
  cwf := uint (8 * Z.of_nat n);
|}.
Next Obligation.
  intros n Hn a r Ha. by apply dec_uint_app.
Qed.
Next Obligation. intros n Hn a Ha. rewrite length_to_le_bytes. lia. Qed.

Program Definition c_array (n : nat) (Hn : (0 < n)%nat) : codec bytes := {|
  enc := id;
  dec := take_bytes n;
  cwf := wf_array n;
|}.
Next Obligation. intros n Hn a r [_ Ha]. by apply take_bytes_app. Qed.
Next Obligation. intros n Hn a [_ Ha]. unfold id. lia. Qed.

Definition dec_bytes (l : bytes) : option (bytes * bytes) :=
  '(n, r) ← dec_uint 8 l;
  if n <=? Z.of_nat (length r) then take_bytes (Z.to_nat n) r else None.

Program Definition c_bytes : codec bytes := {|
  enc l := to_le_bytes 8 (Z.of_nat (length l)) ++ l;
  dec := dec_bytes;
  cwf := wf_bytes;
|}.
Next Obligation.
  intros a r [_ Ha]. unfold dec_bytes. rewrite <- app_assoc.
  rewrite dec_uint_app by (split; [lia|exact Ha]). simpl. rewrite length_app.
  rewrite (proj2 (Z.leb_le _ _)) by lia. apply take_bytes_app. lia.
Qed.
Next Obligation. intros a Ha. cbv beta. rewrite length_app, length_to_le_bytes. lia. Qed.

Definition enc_bool (b : bool) : bytes := [if b then 1 else 0].

Definition dec_bool (l : bytes) : option (bool * bytes) :=
  match l with 0 :: r => Some (false, r) | 1 :: r => Some (true, r) | _ => None end.

Program Definition c_bool : codec bool := {|
  enc := enc_bool;
  dec := dec_bool;
  cwf _ := True;
|}.
Next Obligation. by intros [|] r _. Qed.
Next Obligation. intros [|] _; simpl; lia. Qed.

Definition dec_pair {A B} (ca : codec A) (cb : codec B) (l : bytes) : option ((A * B) * bytes) :=
  '(a, r) ← dec ca l; '(b, r) ← dec cb r; Some ((a, b), r).

Program Definition c_pair {A B} (ca : codec A) (cb : codec B) : codec (A * B) := {|
  enc p := enc ca p.1 ++ enc cb p.2;
  dec := dec_pair ca cb;
  cwf p := cwf ca p.1 ∧ cwf cb p.2;
|}.
Next Obligation.
  intros A B ca cb [a b] r [Ha Hb]. unfold dec_pair. simpl in *. rewrite <- app_assoc, dec_enc by done.
  simpl. by rewrite dec_enc.
Qed.
Next Obligation.
  intros A B ca cb [a b] [Ha Hb]. simpl in *. rewrite length_app. pose proof (enc_pos ca a Ha). lia.
Qed.

Definition enc_option {A} (ca : codec A) (o : option A) : bytes :=
  match o with Some a => 1 :: enc ca a | None => [0] end.

Definition dec_option {A} (ca : codec A) (l : bytes) : option (option A * bytes) :=
  match l with
  | 0 :: r => Some (None, r)
  | 1 :: r => '(a, r) ← dec ca r; Some (Some a, r)
  | _ => None
  end.

Definition wf_option {A} (ca : codec A) (o : option A) : Prop :=
  match o with Some a => cwf ca a | None => True end.

Program Definition c_option {A} (ca : codec A) : codec (option A) := {|
  enc := enc_option ca;
  dec := dec_option ca;
  cwf := wf_option ca;
|}.
Next Obligation. intros A ca [a|] r Ha; simpl; [by rewrite dec_enc|done]. Qed.
Next Obligation. intros A ca [a|] Ha; simpl; lia. Qed.

Fixpoint dec_n {A} (d : bytes → option (A * bytes)) (n : nat) (l : bytes) : option (list A * bytes) :=
  match n with
  | O => Some ([], l)
  | S n => '(a, r) ← d l; '(k, r) ← dec_n d n r; Some (a :: k, r)
  end.

Lemma dec_n_enc {A} (c : codec A) (k : list A) r :
  Forall (cwf c) k →
  dec_n (dec c) (length k) (concat (enc c <$> k) ++ r) = Some (k, r).
Proof.
  induction 1 as [|a k Ha Hk IH]; csimpl; [done|].
  rewrite <- app_assoc, dec_enc by done. cbn [mbind option_bind]. by rewrite IH.
Qed.

Lemma length_concat_enc {A} (c : codec A) (k : list A) :
  Forall (cwf c) k → (length k ≤ length (concat (enc c <$> k)))%nat.
Proof.
  induction 1 as [|a k Ha Hk IH]; csimpl; [done|]. rewrite length_app.
  pose proof (enc_pos c a Ha). lia.
Qed.

Definition dec_list {A} (d : bytes → option (A * bytes)) (l : bytes) : option (list A * bytes) :=
  '(n, r) ← dec_uint 8 l;
  if n <=? Z.of_nat (length r) then dec_n d (Z.to_nat n) r else None.

Program Definition c_list {A} (c : codec A) : codec (list A) := {|
  enc l := to_le_bytes 8 (Z.of_nat (length l)) ++ concat (enc c <$> l);
  dec := dec_list (dec c);
  cwf l := Forall (cwf c) l ∧ Z.of_nat (length l) < 2 ^ 64;
|}.
Next Obligation.
  intros A c a r [Hf Ha]. unfold dec_list. rewrite <- app_assoc.
  rewrite dec_uint_app by (split; [lia|exact Ha]). simpl. rewrite length_app.
  pose proof (length_concat_enc c a Hf). rewrite (proj2 (Z.leb_le _ _)) by lia.
  rewrite Nat2Z.id. by apply dec_n_enc.
Qed.
Next Obligation. intros A c a Ha. cbv beta. rewrite length_app, length_to_le_bytes. lia. Qed.

Lemma length_enc_list {A} (c : codec A) (l : list A) a :
  a ∈ l → (length (enc c a) ≤ length (enc (c_list c) l))%nat.
Proof.
  intros Ha. unfold c_list. cbn [enc]. rewrite length_app.
  assert (length (enc c a) ≤ length (concat (enc c <$> l)))%nat; [|lia].
  induction l as [|b l IH]; [by apply not_elem_of_nil in Ha|]. csimpl. rewrite length_app.
  apply elem_of_cons in Ha as [->|Ha]; [lia|]. specialize (IH Ha). lia.
Qed.

(** A record through the tuple of its fields. *)
Definition dec_via {A B} (c : codec A) (f : A → B) (l : bytes) : option (B * bytes) :=
  '(a, r) ← dec c l; Some (f a, r).

Program Definition c_iso {A B} (c : codec A) (f : A → B) (g : B → A) (wf : B → Prop)
    (Hfg : ∀ b, f (g b) = b) (Hwf : ∀ b, wf b → cwf c (g b)) : codec B := {|
  enc b := enc c (g b);
  dec := dec_via c f;
  cwf := wf;
|}.
Next Obligation.
  intros A B c f g wf Hfg Hwf b r Hb. unfold dec_via. simpl. rewrite dec_enc by auto. simpl. by rewrite Hfg.
Qed.
Next Obligation. intros A B c f g wf Hfg Hwf b Hb. apply enc_pos. auto. Qed.

(** ** The structures of the node *)

Definition c_u32 : codec Z := c_uint 4 ltac:(lia).

Definition c_u64 : codec Z := c_uint 8 ltac:(lia).

Definition c_hash : codec bytes := c_array 32 ltac:(lia).

Program Definition c_input : codec TXInput :=
  c_iso (c_pair c_hash (c_pair c_u32 (c_pair c_bytes c_u32)))
    (λ '(a, (b, (c, d))), mkTXInput a b c d)
    (λ i, (txid i, (vout i, (script_sig i, sequence i)))) wf_input _ _.
Next Obligation. by intros []. Qed.
Next Obligation. intros [] (? & ? & ? & ?). by split_and!. Qed.

Program Definition c_output : codec TXOutput :=
  c_iso (c_pair c_u64 (c_pair c_bytes (c_option c_bytes)))
    (λ '(a, (b, c)), mkTXOutput a b c)
    (λ o, (value o, (script_pubkey o, commitment o))) wf_output _ _.
Next Obligation. by intros []. Qed.
Next Obligation. intros [] (? & ? & ?). by split_and!. Qed.

Program Definition c_tx : codec Transaction :=
  c_iso (c_pair c_u32 (c_pair c_bool (c_pair (c_list c_input)
          (c_pair (c_list c_output) (c_pair c_u32 (c_list c_bytes))))))
    (λ '(a, (b, (c, (d, (e, f))))), mkTransaction a b c d e f)
    (λ t, (tx_version t, (is_anonymous t, (inputs t, (outputs t, (lock_time t, range_proofs t))))))
    wf_tx _ _.
Next Obligation. by intros []. Qed.
Next Obligation. intros [] (? & ? & ? & ? & ? & ? & ? & ?). by split_and!. Qed.

Definition wf_base (h : HeaderWithoutNonce) : Prop :=
  uint 32 (hwn_version h) ∧ wf_array 32 (hwn_prev_hash h) ∧ wf_array 32 (hwn_merkle_root h) ∧
  uint 32 (hwn_timestamp h) ∧ uint 32 (hwn_bits h).

Program Definition c_base : codec HeaderWithoutNonce :=
  c_iso (c_pair c_u32 (c_pair c_hash (c_pair c_hash (c_pair c_u32 c_u32))))
    (λ '(a, (b, (c, (d, e)))), mkHeaderWithoutNonce a b c d e)
    (λ h, (hwn_version h, (hwn_prev_hash h, (hwn_merkle_root h, (hwn_timestamp h, hwn_bits h)))))
    wf_base _ _.
Next Obligation. by intros []. Qed.
Next Obligation. intros [] (? & ? & ? & ? & ?). by split_and!. Qed.

Program Definition c_header : codec BlockHeader :=
  c_iso (c_pair c_base c_u64)
    (λ '(b, n), mkBlockHeader (hwn_version b) (hwn_prev_hash b) (hwn_merkle_root b)
                  (hwn_timestamp b) (hwn_bits b) n)
    (λ h, (mkHeaderWithoutNonce (hdr_version h) (prev_hash h) (merkle_root h)
             (timestamp h) (bits h), nonce h))
    wf_header _ _.
Next Obligation. by intros []. Qed.
Next Obligation. intros [] (? & ? & ? & ? & ? & ?). by split_and!. Qed.

Program Definition c_block : codec Block :=
  c_iso (c_pair c_header (c_list c_tx)) (λ '(h, t), mkBlock h t) (λ b, (header b, txs b))
    wf_block _ _.
Next Obligation. by intros []. Qed.
Next Obligation. intros [] (? & ? & ?). by split_and!. Qed.

(** Strings as their bytes. *)
Definition string_bytes (s : string) : bytes := bstr s.

Definition bytes_string (l : bytes) : string :=
  String.string_of_list_ascii ((λ b, Ascii.ascii_of_N (Z.to_N b)) <$> l).

Lemma bytes_string_bytes s : bytes_string (string_bytes s) = s.
Proof.
  unfold bytes_string, string_bytes, bstr. rewrite <- list_fmap_compose.
  rewrite (list_fmap_ext _ id).
  - rewrite list_fmap_id. apply String.string_of_list_ascii_of_string.
  - intros ? a _. unfold compose. by rewrite N2Z.id, Ascii.ascii_N_embedding.
Qed.

Lemma string_bytes_string l : Forall byte l → string_bytes (bytes_string l) = l.
Proof.
  intros Hl. unfold bytes_string, string_bytes, bstr.
  rewrite String.list_ascii_of_string_of_list_ascii, <- list_fmap_compose.
  induction Hl as [|b l Hb Hl IH]; simpl; [done|]. f_equal; [|exact IH].
  unfold compose. unfold byte in Hb. rewrite Ascii.N_ascii_embedding by lia. lia.
Qed.

Program Definition c_string : codec string :=
  c_iso c_bytes bytes_string string_bytes (λ s, wf_bytes (string_bytes s)) _ _.
Next Obligation. apply bytes_string_bytes. Qed.
Next Obligation. done. Qed.

Program Definition c_journal : codec ReorgJournal :=
  c_iso (c_pair c_string (c_pair c_u64 (c_pair c_hash (c_pair c_u64 c_block))))
    (λ '(a, (b, (c, (d, e)))), mkReorgJournal a b c d e)
    (λ j, (journal_id j, (old_tip_height j, (old_tip_hash j, (disconnect_depth j, new_block j)))))
    (λ j, wf_bytes (string_bytes (journal_id j)) ∧ uint 64 (old_tip_height j) ∧
          wf_array 32 (old_tip_hash j) ∧ uint 64 (disconnect_depth j) ∧ wf_block (new_block j)) _ _.
Next Obligation. by intros []. Qed.
Next Obligation. intros [] (? & ? & ? & ? & ?). by split_and!. Qed.

Definition codec_bincode {A} (c : codec A) : Bincode A := {|
  serialize := enc c;
  deserialize l := fst <$> dec c l;
|}.

Lemma codec_bincode_ok {A} (c : codec A) : @BincodeOk A (codec_bincode c) (cwf c).
Proof.
  intros a Ha. unfold serialize, deserialize, codec_bincode.
  by rewrite <- (app_nil_r (enc c a)), dec_enc.
Qed.

#[export] Instance sample_codec : Codec := {|
  bincode_output := codec_bincode c_output;
  bincode_tx := codec_bincode c_tx;
  bincode_header := codec_bincode c_header;
  bincode_block := codec_bincode c_block;
  bincode_journal := codec_bincode c_journal;
  bincode_tx_pos := codec_bincode (c_pair c_u64 c_u64);
  bincode_headers := codec_bincode (c_list c_header);
  bincode_txs := codec_bincode (c_list c_tx);
  bincode_addrs := codec_bincode (c_list c_string);
  bincode_base := codec_bincode c_base;
|}.

#[export] Instance sample_codec_ok : CodecOk.
Proof.
  split; try apply codec_bincode_ok; [done|..].
  - intros t. unfold serialize, bincode_tx, sample_codec, codec_bincode, c_tx, c_iso, c_pair.
    cbn [enc]. rewrite length_app. unfold c_u32, c_uint. cbn [enc]. rewrite length_to_le_bytes. lia.
  - intros b t Ht. change (length (enc c_tx t) ≤ length (enc c_header (header b) ++ enc (c_list c_tx) (txs b)))%nat.
    rewrite length_app. pose proof (length_enc_list c_tx (txs b) t Ht). lia.
Qed.

(** ** Hashes and proofs *)

(** A polynomial digest modulo a 61-bit prime, repeated to fill the array. *)
Definition digest (salt : Z) (l : bytes) : Z :=
  foldl (λ h b, (h * 1000003 + b + 1) mod (2 ^ 61 - 1)) salt l.

Definition sample_sha256 (l : bytes) : bytes :=
  to_be_bytes 32 (digest 1 l * 2 ^ 190 + digest 2 l * 2 ^ 120 + digest 3 l).

Definition sample_ripemd160 (l : bytes) : bytes :=
  to_be_bytes 20 (digest 4 l * 2 ^ 80 + digest 5 l).

Definition sample_randomx (l : bytes) : option bytes :=
  Some (to_be_bytes 32 (digest 6 l * 2 ^ 80 + digest 7 l)).

#[export] Instance sample_crypto : Crypto := {|
  sha256 := sample_sha256;
  ripemd160 := sample_ripemd160;
  calculate_hash := sample_randomx;
  PublicKey := bytes;
  PublicKey_from_slice := Some;
  PublicKey_serialize := id;
  Signature := bytes;
  Signature_from_der := Some;
  Message_from_slice l := if (length l =? 32)%nat then Some l else None;
  verify_ecdsa m s k := bool_decide (s = sample_ripemd160 (m ++ k));
  KeyImage_from_slice l := if (length l =? 32)%nat then Some l else None;
  Clsag := bytes;
  Clsag_deserialize := Some;
  Clsag_ring_len l := Z.of_nat (length l);
  Clsag_verify _ _ _ := true;
  Point := Z;
  Point_add := Z.add;
  Point_eqb := Z.eqb;
  CompressedRistretto_from_slice l :=
    if (length l =? 32)%nat then Ok (Some (from_le_bytes l)) else Panic;
  pc_commit v _ := v;
  RangeProof := bytes;
  RangeProof_deserialize := Some;
  batch_verify _ := Some true;
  AnonPublicKey := dsig (wf_array 32);
  AnonPublicKey_from_bytes l :=
    match decide (wf_array 32 l) with left H => Some (dexist l H) | right _ => None end;
  AnonPublicKey_to_bytes := proj1_sig;
  to_base58check := bytes_string;
  from_check s := match string_bytes s with v :: p => Some (v, p) | [] => None end;
|}.

Lemma to_be_bytes_array n x : wf_array n (to_be_bytes n x).
Proof.
  split; [|apply length_to_be_bytes]. unfold to_be_bytes. apply Forall_reverse, to_le_bytes_byte.
Qed.

#[export] Instance sample_crypto_ok : CryptoOk.
Proof.
  split.
  - intros l. apply to_be_bytes_array.
  - intros l. apply to_be_bytes_array.
  - intros l h [= <-]. apply to_be_bytes_array.
  - intros k. simpl. destruct (decide (wf_array 32 (proj1_sig k))) as [H|H];
      [|destruct H; apply (proj2_dsig k)].
    f_equal. by apply dsig_eq.
  - intros k. apply (proj2_dsig k).
  - intros v Hv. change ((0 =? 0 + v) = false). apply Z.eqb_neq. lia.
  - intros v p Hp. unfold from_check, to_base58check, sample_crypto. by rewrite string_bytes_string.
Qed.

(** ** Database *)

Record MemDB := mkMemDB {
  mem_cfs : list cf;
  mem_map : gmap (cf * bytes) bytes;
  (** outcome of the next writes; [true] is a failure *)
  mem_faults : list bool;
}.

Definition mem_write (db : MemDB) (b : WriteBatch) : outcome unit * MemDB :=
  match mem_faults db with
  | true :: f => (Err (RocksDB "IO error"), mkMemDB (mem_cfs db) (mem_map db) f)
  | _ => (Ok tt, mkMemDB (mem_cfs db) (apply_batch b (mem_map db)) (tail (mem_faults db)))
  end.

(** The entries of a family, by ascending key. *)
Definition entry_le (x y : bytes * bytes) : Prop := bytes_ltb y.1 x.1 = false.

#[export] Instance entry_le_dec x y : Decision (entry_le x y).
Proof. unfold entry_le. apply _. Defined.

#[export] Instance entry_le_total : Total entry_le.
Proof.
  intros x y. unfold entry_le. destruct (bytes_ltb_total x.1 y.1) as [H|[H|H]].
  - left. destruct (bytes_ltb y.1 x.1) eqn:E; [|done].
    pose proof (bytes_ltb_trans _ _ _ H E) as Hc. by rewrite bytes_ltb_irrefl in Hc.
  - left. rewrite H. apply bytes_ltb_irrefl.
  - right. destruct (bytes_ltb x.1 y.1) eqn:E; [|done].
    pose proof (bytes_ltb_trans _ _ _ H E) as Hc. by rewrite bytes_ltb_irrefl in Hc.
Qed.

#[export] Instance entry_le_trans : Transitive entry_le.
Proof.
  intros x y z Hxy Hyz. unfold entry_le in *.
  destruct (bytes_ltb_total y.1 x.1) as [H|[H|H]]; [congruence|congruence|].
  destruct (bytes_ltb z.1 x.1) eqn:E; [|done].
  by rewrite (bytes_ltb_trans _ _ _ E H) in Hyz.
Qed.

Definition mem_entries (m : gmap (cf * bytes) bytes) (c : cf) : list (bytes * bytes) :=
  merge_sort entry_le ((λ kv, (kv.1.2, kv.2)) <$> filter (λ kv, kv.1.1 = c) (map_to_list m)).

#[export] Instance mem_rocks : Rocks := {|
  DB := MemDB;
  pool_get _ := Ok tt;
  cf_handle db c := bool_decide (c ∈ mem_cfs db);
  get_cf db c k := Ok (mem_map db !! (c, k));
  iterator_cf db c := Ok (mem_entries (mem_map db) c);
  write := mem_write;
|}.

Lemma mem_iterator_NoDup (m : gmap (cf * bytes) bytes) c :
  NoDup ((λ kv : (cf * bytes) * bytes, (kv.1.2, kv.2)) <$>
           filter (λ kv, kv.1.1 = c) (map_to_list m)).*1.
Proof.
  pose proof (NoDup_fst_map_to_list m) as H. rewrite <- list_fmap_compose.
  unfold compose. cbn [fst snd]. induction (map_to_list m) as [|[[c' k] v] l IH]; [constructor|].
  csimpl in *. apply NoDup_cons in H as [Hn H]. specialize (IH H).
  rewrite filter_cons. case_decide as E; [|done]. csimpl. apply NoDup_cons. split; [|done].
  intros ([[c2 k2] v2] & E1 & [E2 E3]%list_elem_of_filter)%list_elem_of_fmap. simplify_eq/=.
  apply Hn, list_elem_of_fmap. eexists (_, _). split; [|exact E3]. done.
Qed.

#[export] Instance mem_rocks_ok : RocksOk.
Proof.
  refine {| contents := (mem_map : DB → _) |}; simpl; try by eauto.
  - by intros db c k v [= <-].
  - intros db c l [= <-]. unfold mem_entries. split.
    { rewrite merge_sort_Permutation. apply mem_iterator_NoDup. }
    intros k v. rewrite merge_sort_Permutation, list_elem_of_fmap. split.
    + intros ([[c' k'] v'] & E & [E1 E2]%list_elem_of_filter). simplify_eq/=.
      by apply elem_of_map_to_list.
    + intros H. exists ((c, k), v). rewrite list_elem_of_filter, elem_of_map_to_list. done.
  - intros db c l [= <-]. unfold mem_entries.
    pose proof (StronglySorted_merge_sort entry_le ((λ kv, (kv.1.2, kv.2)) <$>
      filter (λ kv : (cf * bytes) * bytes, kv.1.1 = c) (map_to_list (mem_map db)))) as Hs.
    pose proof (mem_iterator_NoDup (mem_map db) c) as Hn.
    rewrite <- (merge_sort_Permutation entry_le) in Hn. revert Hs Hn.
    generalize (merge_sort entry_le ((λ kv, (kv.1.2, kv.2)) <$>
      filter (λ kv : (cf * bytes) * bytes, kv.1.1 = c) (map_to_list (mem_map db)))).
    induction 1 as [|x l Hs IH Hle]; [constructor|]. csimpl. intros [Hx Hn]%NoDup_cons.
    constructor; [by apply IH|]. rewrite Forall_forall in Hle |- *. intros y Hy. specialize (Hle y Hy).
    unfold entry_le in Hle. destruct (bytes_ltb_total x.1 y.1) as [H|[H|H]]; [done| |congruence].
    destruct Hx. rewrite H. by apply list_elem_of_fmap_2.
  - intros db b db'. unfold mem_write. destruct (mem_faults db) as [|[|] f]; by intros [= <-].
  - intros db b e db'. unfold mem_write. destruct (mem_faults db) as [|[|] f]; by intros [= <- <-].
  - intros db b. unfold mem_write. destruct (mem_faults db) as [|[|] f]; simpl; eauto.
  - intros db b c. unfold mem_write. by destruct (mem_faults db) as [|[|] f].
Defined.

(** The column families the chain code asks for. *)
Definition all_cfs : list cf :=
  ["default"; "utxo"; "anonymous"; "key_images"; "coinbase"; "addr_index"; "tx_index"].

Definition empty_db : MemDB := mkMemDB all_cfs ∅ [].

(** ** Iteration order and retry policy *)

#[export] Instance sample_hash_order : HashOrder := λ K V _ _ m, map_to_list m.

#[export] Instance sample_hash_order_ok : HashOrderOk.
Proof. intros K V ? ? m. reflexivity. Defined.

#[export] Instance sample_retry : RetryPolicy := 2%nat.
