(* ===== verification/Utils.v ===== *)
(** * Utils: consensus constants, hashing, targets and subsidies

    src/111/src/utils.rs: the constants, the double hashes, the RandomX engine
    pool, the compact encoding of proof-of-work targets, the block subsidy, the
    two address formats and the permission checks on key files. *)
From S2P Require Import Prelude Errors Types Externals.

(** ** Constants *)

Definition MAX_BLOCK_SIZE : Z := 4000000.

Definition COINBASE_MATURITY : Z := 100.

Definition HALVING_INTERVAL : Z := 2100000.

Definition DIFFICULTY_ADJUST_INTERVAL : Z := 2016.

Definition TARGET_BLOCK_TIME : Z := 60.

Definition EXPECTED_TIME : Z := TARGET_BLOCK_TIME * DIFFICULTY_ADJUST_INTERVAL.

Definition PRUNE_DEPTH : Z := 10080.

Definition REORG_MAX_DEPTH : Z := 2016.

Definition ORPHAN_TTL : Z := 3600 * 1000.

Definition MIN_FEE_PER_BYTE : Z := 10.

Definition MAX_RING_SIZE : Z := 20.

Definition MAX_MSG_DECOMPRESSED : Z := 16 * 1024 * 1024.

Definition MAX_PACKAGE_DEPTH : Z := 50.

Definition MAX_COMPRESSED_SIZE : Z := MAX_MSG_DECOMPRESSED / 4.

Definition MAX_PACKAGE_SIZE : Z := 1000000.

Definition GENESIS_TIMESTAMP : Z := 1732060800.

Definition INITIAL_SUBSIDY : Z := 10000000000.

Definition TAIL_SUBSIDY : Z := 500000000.

Definition MAX_SUBSIDY_HALVINGS : Z := 64.

Definition ANON_FEE_MULTIPLIER_NUMERATOR : Z := 3.

Definition ANON_FEE_MULTIPLIER_DENOMINATOR : Z := 2.

Definition TWO_POW_256 : Z := Z.shiftl 1 256.

(** [0x1d00ffff], the compact form of the easiest target. *)
Definition GENESIS_BITS : Z := 0x1d00ffff.

(** ** Targets *)

(** [compact_to_target]: the [bail!] makes it fallible, and every caller reads
    its value directly, so the error propagates to the caller. *)
Definition compact_to_target (bits : Z) : outcome Z :=
  if bits =? 0 then Ok 0 else
  let exp := Z.shiftr bits 24 in
  if 80 <? exp then bail (InvalidBlock "target exponent too large") else
  let mant := Z.land bits 0x007fffff in
  let mant := if Z.land bits 0x00800000 =? 0 then mant else mant + Z.shiftl 1 23 in
  Ok (if 3 <? exp then Z.shiftl mant (8 * (exp - 3))
      else if exp <? 3 then Z.shiftr mant (8 * (3 - exp))
      else mant).

(** [BigUint::bits] *)
Definition bit_length (x : Z) : Z := if x =? 0 then 0 else Z.log2 x + 1.

Definition target_to_compact (target : Z) : Z :=
  if target =? 0 then 0x1d00ffff else
  let size := (bit_length target + 7) / 8 in
  if 80 <? size then 0x1d00ffff else
  let compact :=
    if size <=? 3 then
      let mant := Z.min (wrap 32 target) 0x007fffff in
      wrap 32 (Z.shiftl mant (8 * (3 - size)))
    else
      let target := Z.shiftr target (8 * (size - 3)) in
      Z.min (wrap 32 target) 0x007fffff in
  if Z.land compact 0x00800000 =? 0
  then Z.lor compact (wrap 32 (Z.shiftl size 24))
  else Z.lor (Z.shiftr compact 8) (wrap 32 (Z.shiftl (size + 1) 24)).

Definition u256_from_be (l : bytes) : Z := from_be_bytes l.

Definition u256_from_hash (l : bytes) : Z := from_be_bytes l.

(** ** Subsidy *)

Definition subsidy (height : Z) : Z :=
  let halvings := height / HALVING_INTERVAL in
  if MAX_SUBSIDY_HALVINGS <=? halvings then TAIL_SUBSIDY
  else default 0 (checked_shr 64 INITIAL_SUBSIDY halvings).

(** The loop [for h in 0..=height { sum += subsidy(h) }] of the supply checks. *)
Definition total_subsidy (n : nat) : Z := sumZ (subsidy ∘ Z.of_nat <$> seq 0 n).

(** ** Hashing *)

Section Hashing.
  Context {CR : Crypto}.

Definition sha256d (data : bytes) : bytes := sha256 (sha256 data).

Definition hash_ripemd160 (data : bytes) : bytes := ripemd160 data.

Definition hash160 (data : bytes) : bytes := hash_ripemd160 (sha256 data).

(** [PowEngine]: a pool of identical RandomX machines used round-robin. *)
Record PowEngine := mkPowEngine {
  pool : nat;
  idx : Z;
}.

Definition PowEngine_new (num_randomx_threads : Z) : PowEngine :=
  mkPowEngine (Z.to_nat (Z.min (Z.max num_randomx_threads 1) 64)) 0.

(** [PowEngine::hash], with the index of the machine it locks. *)
Definition PowEngine_hash (data : bytes) : M PowEngine (bytes * Z) :=
  e ← get;
  (lift (ensure (negb (pool e =? 0)%nat) (Anyhow "RandomX pool empty")));;
  modify (λ e, mkPowEngine (pool e) (wadd 64 (idx e) 1));;
  let i := idx e mod Z.of_nat (pool e) in
  (lift (if i <? Z.of_nat (pool e) then Ok tt else Panic));;
  h ← lift (ok_or (calculate_hash data) (Anyhow "RandomX hash failed"));
  mret (h, i).

(** [pow_hash] on an engine with at least one machine. *)
Definition pow_hash (data : bytes) : outcome bytes :=
  ok_or (calculate_hash data) (Anyhow "RandomX hash failed").

Definition header_hash {CD : Codec} (h : BlockHeader) : outcome bytes := pow_hash (serialize h).

(** ** Addresses *)

Definition pubkey_to_address (pk : PublicKey) : string :=
  to_base58check (0 :: hash160 (PublicKey_serialize pk)).

Definition address_to_pubkey_hash (address : string) : outcome bytes :=
  '(_, payload) ← ok_or (from_check address) (Anyhow "base58check");
  (ensure (length payload =? 20)%nat (Anyhow "Invalid payload length"));;
  mret payload.

Definition pubkey_to_anon_address (pk : AnonPublicKey) : string :=
  to_base58check (1 :: AnonPublicKey_to_bytes pk).

Definition address_to_anon_pubkey (addr : string) : outcome AnonPublicKey :=
  '(version, payload) ← ok_or (from_check addr) (Anyhow "base58check");
  (ensure (negb (negb (version =? 1) || negb (length payload =? 32)%nat))
     (Anyhow "Not a valid anonymous address"));;
  ok_or (AnonPublicKey_from_bytes payload) (MoneroSerai "public key").

End Hashing.

(** ** Key files *)

Record FileStat := mkFileStat {
  st_uid : Z;
  st_mode : Z;
  st_size : Z;
  file_data : bytes;
}.

(** [secure_load_file]: [file] is what [open] and [fstat] see, [euid] the
    effective user. *)
Definition secure_load_file (euid : Z) (file : option FileStat) : outcome bytes :=
  f ← ok_or file (Anyhow "Unable to open the secret file");
  (ensure (st_uid f =? euid) (FilePermissionError "Wrong owner"));;
  (ensure (Z.land (st_mode f) 63 =? 0) (FilePermissionError "Permissions too broad"));;
  (ensure (negb (4096 <? st_size f)) (FilePermissionError "Key file too large"));;
  (ensure (st_size f <=? Z.of_nat (length (file_data f))) (Anyhow "Reading secret file"));;
  mret (take (Z.to_nat (st_size f)) (file_data f)).

(** [load_keypair] up to the ed25519 key it wraps, [secret_from_bytes]. *)
Definition load_keypair {K} (secret_from_bytes : bytes → option K) (euid : Z)
    (file : option FileStat) : outcome K :=
  b ← secure_load_file euid file;
  (ensure (length b =? 32)%nat InvalidEncryptionKey);;
  ok_or (secret_from_bytes b) (Anyhow "Invalid secret key bytes").

(** ** Supply of a column family *)

Section Supply.
  Context {CD : Codec} {RK : Rocks}.

Definition compute_cf_supply (db : DB) (c : cf) : outcome Z :=
  items ← iterator_cf db c;
  for_each (λ sum '(_, v),
    out ← ok_or (deserialize (A:=TXOutput) v) (Anyhow "Deserialize failed in supply validation");
    ok_or (checked_add 64 sum (value out)) ValueOverflow) 0 items.

End Supply.

(** ** Targets: properties *)

(** The value a compact word denotes: mantissa times a power of 256. *)
Definition compact_value (bits : Z) : Z :=
  let e := bits / 2 ^ 24 in
  let m := bits mod 2 ^ 24 in
  if 3 <=? e then m * 2 ^ (8 * (e - 3)) else m / 2 ^ (8 * (3 - e)).

Lemma compact_value_nonneg bits : 0 <= compact_value bits.
Proof.
  unfold compact_value. pose proof (Z.mod_pos_bound bits (2 ^ 24) ltac:(lia)).
  case_match.
  - apply Z.mul_nonneg_nonneg; [lia|]. apply Z.pow_nonneg. lia.
  - apply Z.div_pos; [lia|]. zbool. apply Z.pow_pos_nonneg; lia.
Qed.

Lemma compact_mantissa bits :
  (if Z.land bits 0x00800000 =? 0 then Z.land bits 0x007fffff
   else Z.land bits 0x007fffff + Z.shiftl 1 23) = bits mod 2 ^ 24.
Proof.
  change 0x007fffff with (Z.ones 23). rewrite Z.land_ones by lia.
  change 0x00800000 with (2 ^ 23). rewrite land_pow2 by lia.
  change 24 with (23 + 1). rewrite mod_pow2_succ by lia. change (Z.shiftl 1 23) with (2 ^ 23).
  destruct (Z.testbit bits 23); [|by rewrite Z.eqb_refl, Z.add_0_r].
  by replace (2 ^ 23 =? 0) with false by done.
Qed.

Lemma compact_to_target_value bits :
  bits / 2 ^ 24 <= 80 → compact_to_target bits = Ok (compact_value bits).
Proof.
  intros He. unfold compact_to_target, compact_value.
  destruct (Z.eqb_spec bits 0) as [->|Hb]; [done|].
  rewrite Z.shiftr_div_pow2 by lia. rewrite (proj2 (Z.ltb_ge _ _)) by done.
  rewrite compact_mantissa. f_equal.
  destruct (Z.ltb_spec 3 (bits / 2 ^ 24)).
  { rewrite (proj2 (Z.leb_le _ _)) by lia. by rewrite Z.shiftl_mul_pow2 by lia. }
  destruct (Z.ltb_spec (bits / 2 ^ 24) 3).
  { rewrite (proj2 (Z.leb_gt _ _)) by lia. by rewrite Z.shiftr_div_pow2 by lia. }
  replace (bits / 2 ^ 24) with 3 by lia. change (3 <=? 3) with true. cbv iota.
  change (8 * (3 - 3)) with 0. by rewrite Z.mul_1_r.
Qed.

Lemma compact_to_target_too_large bits :
  80 < bits / 2 ^ 24 → ∃ e, compact_to_target bits = Err e.
Proof.
  intros He. unfold compact_to_target. destruct (Z.eqb_spec bits 0) as [->|Hb]; [done|].
  rewrite Z.shiftr_div_pow2 by lia. rewrite (proj2 (Z.ltb_lt _ _)) by done. by eexists.
Qed.

(** Size in bytes of a positive number and the bracket it gives. *)
Definition byte_size (t : Z) : Z := (bit_length t + 7) / 8.

Lemma byte_size_bounds t :
  0 < t → 1 <= byte_size t ∧ 2 ^ (8 * (byte_size t - 1)) <= t < 2 ^ (8 * byte_size t).
Proof.
  intros Ht. unfold byte_size, bit_length. rewrite (proj2 (Z.eqb_neq _ _)) by lia.
  pose proof (Z.log2_spec t Ht) as [Hlo Hhi]. pose proof (Z.log2_nonneg t).
  set (L := Z.log2 t) in *. pose proof (Z.div_mod (L + 1 + 7) 8 ltac:(lia)).
  pose proof (Z.mod_pos_bound (L + 1 + 7) 8 ltac:(lia)). split; [lia|]. split.
  - etransitivity; [|exact Hlo]. apply Z.pow_le_mono_r; lia.
  - eapply Z.lt_le_trans; [exact Hhi|]. apply Z.pow_le_mono_r; lia.
Qed.

Lemma byte_size_unique t s :
  1 <= s → 2 ^ (8 * (s - 1)) <= t < 2 ^ (8 * s) → byte_size t = s.
Proof.
  intros Hs Ht. assert (0 < t) as Hpos by (pose proof (Z.pow_pos_nonneg 2 (8 * (s - 1))); lia).
  destruct (byte_size_bounds t Hpos) as (H1 & H2 & H3).
  assert (8 * (s - 1) < 8 * byte_size t) by (apply (Z.pow_lt_mono_r_iff 2); lia).
  assert (8 * (byte_size t - 1) < 8 * s) by (apply (Z.pow_lt_mono_r_iff 2); lia). lia.
Qed.

(** The leading three bytes of a number, and what is left of it. *)
Lemma leading_bytes t s :
  3 < s → byte_size t = s → 0 < t →
  let m := Z.shiftr t (8 * (s - 3)) in
  2 ^ 16 <= m < 2 ^ 24 ∧ m * 2 ^ (8 * (s - 3)) <= t < (m + 1) * 2 ^ (8 * (s - 3)).
Proof.
  intros Hs Hsz Ht m. destruct (byte_size_bounds t Ht) as (_ & Hlo & Hhi). rewrite Hsz in *.
  subst m. rewrite Z.shiftr_div_pow2 by lia. set (B := 2 ^ (8 * (s - 3))).
  assert (0 < B) by (apply Z.pow_pos_nonneg; lia).
  replace (8 * (s - 1)) with (16 + 8 * (s - 3)) in Hlo by lia.
  replace (8 * s) with (24 + 8 * (s - 3)) in Hhi by lia.
  rewrite Z.pow_add_r in Hlo, Hhi by lia. fold B in Hlo, Hhi.
  pose proof (Z.div_mod t B ltac:(lia)). pose proof (Z.mod_pos_bound t B ltac:(lia)).
  split; [|nia]. split; [apply Z.div_le_lower_bound|apply Z.div_lt_upper_bound]; lia.
Qed.

(** The compact word of a target: exponent and mantissa, for the two size
    regimes of [target_to_compact]. *)
Lemma target_to_compact_large t :
  0 < t → 3 < byte_size t <= 80 →
  target_to_compact t =
  Z.min (Z.shiftr t (8 * (byte_size t - 3))) 0x007fffff + byte_size t * 2 ^ 24.
Proof.
  intros Ht Hs. unfold target_to_compact. fold (byte_size t).
  rewrite (proj2 (Z.eqb_neq _ _)), (proj2 (Z.ltb_ge _ _)), (proj2 (Z.leb_gt _ _)) by lia.
  destruct (leading_bytes t (byte_size t) ltac:(lia) eq_refl Ht) as [Hm _].
  set (m := Z.shiftr t (8 * (byte_size t - 3))) in *.
  rewrite (wrap_small 32 m) by (unfold uint; lia). set (c := Z.min m 0x007fffff).
  assert (Hc : 0 <= c < 2 ^ 23) by lia.
  assert (Z.land c 0x00800000 = 0) as ->.
  { change 0x00800000 with (2 ^ 23). rewrite land_pow2 by lia.
    by rewrite <- (Z.mod_small c (2 ^ 23)), Z.mod_pow2_bits_high by lia. }
  rewrite Z.eqb_refl, wrap_small.
  - rewrite lor_disjoint_add by lia. done.
  - rewrite Z.shiftl_mul_pow2 by lia. unfold uint. lia.
Qed.

Lemma compact_value_word m e :
  0 <= m < 2 ^ 24 → 3 <= e → compact_value (m + e * 2 ^ 24) = m * 2 ^ (8 * (e - 3)).
Proof.
  intros Hm He. unfold compact_value. rewrite Z.div_add, Z.mod_add by lia.
  rewrite Z.div_small, Z.mod_small, Z.add_0_l by lia. by rewrite (proj2 (Z.leb_le _ _)).
Qed.

Lemma compact_word_exp m e : 0 <= m < 2 ^ 24 → (m + e * 2 ^ 24) / 2 ^ 24 = e.
Proof. intros. rewrite Z.div_add, Z.div_small; lia. Qed.

(** A word whose mantissa uses all three bytes without the sign bit, and whose
    exponent is in range, survives decoding and encoding. *)
Lemma compact_round_trip_word m e :
  2 ^ 16 <= m < 2 ^ 23 → 3 < e <= 80 →
  target_to_compact (compact_value (m + e * 2 ^ 24)) = m + e * 2 ^ 24.
Proof.
  intros Hm He. rewrite compact_value_word by lia. set (B := 2 ^ (8 * (e - 3))).
  assert (0 < B) by (apply Z.pow_pos_nonneg; lia).
  assert (Hs : byte_size (m * B) = e).
  { apply byte_size_unique; [lia|].
    replace (8 * (e - 1)) with (16 + 8 * (e - 3)) by lia.
    replace (8 * e) with (24 + 8 * (e - 3)) by lia.
    rewrite !Z.pow_add_r by lia. fold B. nia. }
  rewrite target_to_compact_large by nia. rewrite Hs, Z.shiftr_div_pow2 by lia. fold B.
  rewrite Z.div_mul by lia. lia.
Qed.

(** Encoding rounds a target down, and to no less than about half of it: the
    three leading bytes are kept except that a leading byte above [0x7f] is
    clamped to [0x7fffff]. *)
Lemma target_to_compact_rounds t :
  0 < t → 3 < byte_size t <= 80 →
  ∃ t', compact_to_target (target_to_compact t) = Ok t' ∧ t' <= t ∧ 32767 * t < 65536 * t'.
Proof.
  intros Ht Hs. rewrite target_to_compact_large by done.
  destruct (leading_bytes t (byte_size t) ltac:(lia) eq_refl Ht) as [Hm Hb].
  set (s := byte_size t) in *. set (m := Z.shiftr t (8 * (s - 3))) in *.
  assert (Hc : 0 <= Z.min m 0x007fffff < 2 ^ 24) by lia.
  eexists. split; [apply compact_to_target_value; rewrite compact_word_exp; lia|].
  rewrite compact_value_word by lia. set (B := 2 ^ (8 * (s - 3))) in *.
  assert (0 < B) by (apply Z.pow_pos_nonneg; lia). nia.
Qed.

(** ** Subsidy: properties *)

Lemma subsidy_halving h :
  0 <= h → h / HALVING_INTERVAL < 64 → subsidy h = INITIAL_SUBSIDY / 2 ^ (h / HALVING_INTERVAL).
Proof.
  intros H0 Hh. unfold subsidy, checked_shr, MAX_SUBSIDY_HALVINGS.
  rewrite (proj2 (Z.leb_gt _ _)), (proj2 (Z.ltb_lt _ _)) by done. simpl.
  apply Z.shiftr_div_pow2. apply Z.div_pos; [done|by compute].
Qed.

Lemma subsidy_tail h : 64 <= h / HALVING_INTERVAL → subsidy h = TAIL_SUBSIDY.
Proof. intros Hh. unfold subsidy. by rewrite (proj2 (Z.leb_le _ _)). Qed.

Lemma subsidy_bounds h : 0 <= h → 0 <= subsidy h <= INITIAL_SUBSIDY.
Proof.
  intros H0. destruct (Z.lt_ge_cases (h / HALVING_INTERVAL) 64).
  - rewrite subsidy_halving by done. assert (0 <= h / HALVING_INTERVAL) by (apply Z.div_pos; [done|by compute]).
    pose proof (Z.pow_pos_nonneg 2 (h / HALVING_INTERVAL) ltac:(lia) ltac:(lia)).
    split; [apply Z.div_pos; [by compute|done]|].
    apply Z.div_le_upper_bound; [done|]. unfold INITIAL_SUBSIDY. nia.
  - rewrite subsidy_tail by done. unfold TAIL_SUBSIDY, INITIAL_SUBSIDY. lia.
Qed.

Lemma total_subsidy_S n : total_subsidy (S n) = total_subsidy n + subsidy (Z.of_nat n).
Proof. unfold total_subsidy. rewrite seq_S, fmap_app, sumZ_app. simpl. unfold compose. lia. Qed.

(** What is emitted up to height [n] plus what the current era can still emit
    never exceeds two full first eras. *)
Lemma total_subsidy_potential n :
  Z.of_nat n / HALVING_INTERVAL < 64 →
  total_subsidy n
    + (2 * HALVING_INTERVAL - Z.of_nat n mod HALVING_INTERVAL)
      * (INITIAL_SUBSIDY / 2 ^ (Z.of_nat n / HALVING_INTERVAL))
  <= 2 * HALVING_INTERVAL * INITIAL_SUBSIDY.
Proof.
  induction n as [|n IH]; intros Hn; [by compute|].
  rewrite total_subsidy_S. replace (Z.of_nat (S n)) with (Z.of_nat n + 1) in * by lia.
  set (N := Z.of_nat n) in *. set (H := HALVING_INTERVAL) in *.
  assert (HH : H = 2100000) by done. clearbody H.
  pose proof (Z.div_mod N H ltac:(lia)) as E. pose proof (Z.mod_pos_bound N H ltac:(lia)) as B.
  assert (Hq : 0 <= N / H) by (apply Z.div_pos; lia).
  assert (HN : N / H < 64) by (pose proof (Z.div_le_mono N (N + 1) H); lia).
  specialize (IH HN). rewrite subsidy_halving by (try lia; subst; done).
  replace HALVING_INTERVAL with H by (subst; done).
  set (q := N / H) in *. set (r := N mod H) in *.
  destruct (Z.eq_dec r (H - 1)) as [Hr|Hr].
  - assert ((N + 1) / H = q + 1 ∧ (N + 1) mod H = 0) as [-> ->].
    { replace (N + 1) with (0 + (q + 1) * H) by nia.
      rewrite Z.div_add, Z.mod_add by lia. by rewrite Z.div_small, Z.mod_small by lia. }
    rewrite Z.pow_add_r, <- Z.div_div by (try lia; apply Z.pow_nonzero; lia).
    pose proof (Z.mul_div_le (INITIAL_SUBSIDY / 2 ^ q) (2 ^ 1) ltac:(lia)).
    change (2 ^ 1) with 2 in *. set (s := INITIAL_SUBSIDY / 2 ^ q) in *. nia.
  - assert ((N + 1) / H = q ∧ (N + 1) mod H = r + 1) as [-> ->].
    { replace (N + 1) with ((r + 1) + q * H) by nia.
      rewrite Z.div_add, Z.mod_add by lia. by rewrite Z.div_small, Z.mod_small by lia. }
    lia.
Qed.

(** The subsidy is zero from the 34th to the 63rd halving and restarts at the
    tail value after the 64th. *)
Theorem subsidy_gap h :
  (34 * HALVING_INTERVAL <= h < 64 * HALVING_INTERVAL → subsidy h = 0) ∧
  (64 * HALVING_INTERVAL <= h → subsidy h = TAIL_SUBSIDY).
Proof.
  split; intros Hh.
  - assert (34 <= h / HALVING_INTERVAL < 64).
    { split; [apply Z.div_le_lower_bound|apply Z.div_lt_upper_bound]; unfold HALVING_INTERVAL in *; lia. }
    rewrite subsidy_halving by (unfold HALVING_INTERVAL in *; lia).
    apply Z.div_small. split; [by compute|].
    eapply Z.lt_le_trans; [|apply (Z.pow_le_mono_r 2 34); lia]. by compute.
  - apply subsidy_tail. apply Z.div_le_lower_bound; unfold HALVING_INTERVAL in *; lia.
Qed.

(** ** RandomX engine *)

Section EngineFacts.
  Context {CR : Crypto}.

(** Whatever its round-robin index, an engine built by [PowEngine::new] locks a
    machine that exists and returns the RandomX hash of the data, and stays
    such an engine. *)
Theorem PowEngine_hash_pow_hash n data e :
  pool e = pool (PowEngine_new n) → 0 <= idx e →
  (PowEngine_hash data e).1 =
    (h ← pow_hash data; Ok (h, idx e mod Z.of_nat (pool e))) ∧
  0 <= idx e mod Z.of_nat (pool e) < Z.of_nat (pool e) ∧
  pool (PowEngine_hash data e).2 = pool e.
Proof.
  intros Hp Hi. assert (Hpos : 0 < Z.of_nat (pool e)) by (rewrite Hp; simpl; lia).
  pose proof (Z.mod_pos_bound (idx e) _ Hpos) as Hb.
  unfold PowEngine_hash, pow_hash, get, modify, lift, mret, mbind, M_ret, M_bind.
  destruct (Nat.eqb_spec (pool e) 0) as [E0|E0]; [lia|]. simpl.
  rewrite (proj2 (Z.ltb_lt _ _)) by lia. by destruct (calculate_hash data).
Qed.

End EngineFacts.

(** ** Addresses *)

Section AddressFacts.
  Context {CR : Crypto} {CRO : CryptoOk}.

Lemma length_hash160 l : length (hash160 l) = 20%nat.
Proof. by destruct (ripemd160_array (sha256 l)). Qed.

Lemma length_sha256d l : length (sha256d l) = 32%nat.
Proof. by destruct (sha256_array (sha256 l)). Qed.

Lemma address_of_key pk : address_to_pubkey_hash (pubkey_to_address pk) = Ok (hash160 (PublicKey_serialize pk)).
Proof.
  unfold address_to_pubkey_hash, pubkey_to_address. destruct (ripemd160_array (sha256 (PublicKey_serialize pk))) as [Hb Hl].
  rewrite from_check_to_base58check by (constructor; [unfold byte; lia|done]). simpl. by rewrite length_hash160.
Qed.

Theorem address_round_trip pk apk :
  address_to_pubkey_hash (pubkey_to_address pk) = Ok (hash160 (PublicKey_serialize pk)) ∧
  address_to_anon_pubkey (pubkey_to_anon_address apk) = Ok apk ∧
  (∃ e, address_to_anon_pubkey (pubkey_to_address pk) = Err e) ∧
  (∃ e, address_to_pubkey_hash (pubkey_to_anon_address apk) = Err e).
Proof.
  unfold address_to_pubkey_hash, address_to_anon_pubkey, pubkey_to_address, pubkey_to_anon_address.
  destruct (ripemd160_array (sha256 (PublicKey_serialize pk))) as [Hb Hl].
  destruct (AnonPublicKey_array apk) as [Hba Hla].
  rewrite !from_check_to_base58check by (constructor; [unfold byte; lia|done]). simpl.
  rewrite length_hash160, Hla, AnonPublicKey_from_to. simpl. split_and!; by eauto.
Qed.

End AddressFacts.

(** ** Supply of a column family *)

Section SupplyFacts.
  Context {CD : Codec} {RK : Rocks} {RKO : RocksOk}.

(** The values of the outputs stored in a list of entries. *)
Definition entry_values (l : list (bytes * bytes)) : list Z :=
  (λ kv, match deserialize (A:=TXOutput) kv.2 with Some o => value o | None => 0 end) <$> l.

Lemma supply_loop l acc s :
  for_each (λ sum '(_, v),
    out ← ok_or (deserialize (A:=TXOutput) v) (Anyhow "Deserialize failed in supply validation");
    ok_or (checked_add 64 sum (value out)) ValueOverflow) acc l = Ok s →
  s = acc + sumZ (entry_values l).
Proof.
  revert acc. induction l as [|[k v] l IH]; intros acc; simpl; intros H; inv_ok; [lia|].
  match goal with H : checked_add _ _ _ = _ |- _ => apply checked_add_Some in H as [-> _] end.
  apply IH in H. unfold entry_values in *. simpl. case_match; simplify_eq. lia.
Qed.

(** A supply that is returned is the sum of the values of every output stored
    in the column family. *)
Theorem compute_cf_supply_sum db c s :
  compute_cf_supply db c = Ok s →
  ∃ l, NoDup l.*1 ∧ (∀ k v, (k, v) ∈ l ↔ contents db !! (c, k) = Some v) ∧
       s = sumZ (entry_values l).
Proof.
  unfold compute_cf_supply. intros H. inv_ok. apply supply_loop in H.
  match goal with H : iterator_cf _ _ = _ |- _ => apply iterator_cf_sound in H as [? ?] end.
  eexists. split_and!; eauto.
Qed.

End SupplyFacts.

(** ** Key files *)

(** A key file is only read when it belongs to the effective user, gives no
    right to anyone else and is at most 4096 bytes; the data is the file's. *)
Theorem secure_load_file_safe euid file data :
  secure_load_file euid file = Ok data →
  ∃ f, file = Some f ∧ st_uid f = euid ∧ Z.land (st_mode f) 63 = 0 ∧ st_size f <= 4096 ∧
       data = take (Z.to_nat (st_size f)) (file_data f) ∧ (length data = Z.to_nat (st_size f)).
Proof.
  unfold secure_load_file. intros H. inv_ok. zbool. eexists. split_and!; eauto.
  rewrite length_take. lia.
Qed.

(** ** Claims *)

(** Decoding a canonical compact target (a mantissa of three bytes without
    the sign bit, an exponent between 4 and 80) succeeds, and encoding the
    result gives the same word back. *)
Theorem compact_round_trip bits :
  2 ^ 16 <= bits mod 2 ^ 24 < 2 ^ 23 → 3 < bits / 2 ^ 24 <= 80 →
  ∃ t, compact_to_target bits = Ok t ∧ target_to_compact t = bits.
Proof.
  intros Hm He. exists (compact_value bits). split; [apply compact_to_target_value; lia|].
  rewrite (Z.div_mod bits (2 ^ 24)) at 1 by lia. rewrite Z.add_comm, Z.mul_comm.
  rewrite compact_round_trip_word by done.
  rewrite (Z.div_mod bits (2 ^ 24)) at 3 by lia. lia.
Qed.

Lemma compact_round_trip_witness :
  ∃ t, compact_to_target 0x1c7fffff = Ok t ∧ target_to_compact t = 0x1c7fffff.
Proof. apply compact_round_trip; vm_compute; intuition discriminate. Defined.

(** The genesis word is not canonical: its round trip yields a target of about
    half the size, where the unit tests expect the word back. *)
Theorem genesis_bits_round_trip :
  ∃ t, compact_to_target GENESIS_BITS = Ok t ∧ target_to_compact t = 0x1c7fffff ∧
       target_to_compact (2 ^ 256) = 0x21010000.
Proof. eexists. split; [vm_compute; reflexivity|]. by vm_compute. Qed.

(** Encoding a target of four to eighty bytes never yields a word that is
    easier than the target, and loses at most a little more than half of it. *)
Theorem target_encoding_bounds t :
  0 < t → 3 < byte_size t <= 80 →
  ∃ t', compact_to_target (target_to_compact t) = Ok t' ∧ t' <= t ∧ 32767 * t < 65536 * t'.
Proof. apply target_to_compact_rounds. Qed.

Lemma target_encoding_bounds_witness :
  ∃ t', compact_to_target (target_to_compact (2 ^ 255)) = Ok t' ∧ t' <= 2 ^ 255 ∧
        32767 * 2 ^ 255 < 65536 * t'.
Proof. apply target_encoding_bounds; vm_compute; intuition discriminate. Defined.

Lemma total_subsidy_small n :
  Z.of_nat n < 64 * HALVING_INTERVAL →
  0 <= total_subsidy n <= 2 * HALVING_INTERVAL * INITIAL_SUBSIDY ∧
  2 * HALVING_INTERVAL * INITIAL_SUBSIDY < 2 ^ 64.
Proof.
  intros Hn. split; [|by compute].
  assert (Hq : Z.of_nat n / HALVING_INTERVAL < 64).
  { apply Z.div_lt_upper_bound; unfold HALVING_INTERVAL in *; lia. }
  pose proof (total_subsidy_potential n Hq) as Hp.
  pose proof (Z.mod_pos_bound (Z.of_nat n) HALVING_INTERVAL ltac:(by compute)).
  assert (0 <= Z.of_nat n / HALVING_INTERVAL) by (apply Z.div_pos; [lia|by compute]).
  assert (0 <= INITIAL_SUBSIDY / 2 ^ (Z.of_nat n / HALVING_INTERVAL)).
  { apply Z.div_pos; [by compute|]. apply Z.pow_pos_nonneg; lia. }
  split; [|nia]. apply sumZ_nonneg, Forall_fmap, Forall_forall. intros i _.
  unfold compose. apply subsidy_bounds. lia.
Qed.

(** Over all the halving eras the emission is at most two full first eras,
    so that the 64-bit sums of the supply checks cannot overflow there. *)
Theorem total_subsidy_bound n :
  Z.of_nat n < 64 * HALVING_INTERVAL →
  0 <= total_subsidy n <= 2 * HALVING_INTERVAL * INITIAL_SUBSIDY ∧
  2 * HALVING_INTERVAL * INITIAL_SUBSIDY < 2 ^ 64.
Proof. apply total_subsidy_small. Qed.

Lemma total_subsidy_bound_witness :
  0 <= total_subsidy 3 <= 2 * HALVING_INTERVAL * INITIAL_SUBSIDY ∧
  2 * HALVING_INTERVAL * INITIAL_SUBSIDY < 2 ^ 64.
Proof. apply (total_subsidy_bound 3). vm_compute. reflexivity. Defined.
