(* ===== verification/Keys.v ===== *)
(** * Keys: the key layout of the database

    Every key the node reads or writes is built by appending to a short ASCII
    prefix (src/111/src/chain.rs, tx.rs, mempool.rs).  Heights are [usize],
    eight big-endian bytes; output indices are [u32], four. *)
From S2P Require Import Prelude Errors Types Externals Utils.

Definition DB_KEY_TIP : bytes := bstr "tip".

Definition DB_KEY_HEIGHT : bytes := bstr "height".

Definition DB_KEY_GENESIS_HASH : bytes := bstr "genesis_hash".

Definition DB_KEY_UTXO_SET_HASH : bytes := bstr "utxo_set_hash".

Definition DB_KEY_TOTAL_SUPPLY : bytes := bstr "total_supply".

Definition DB_KEY_STATE_TOTAL_SUPPLY : bytes := bstr "state:total_supply".

Definition utxo_key (id : bytes) (n : Z) : bytes := bstr "u:" ++ id ++ to_be_bytes 4 n.

Definition anon_key (id : bytes) (n : Z) : bytes := bstr "a:" ++ id ++ to_be_bytes 4 n.

(** [if is_anonymous { b"a:" } else { b"u:" }] followed by the outpoint. *)
Definition output_key (anon : bool) (id : bytes) (n : Z) : bytes :=
  if anon then anon_key id n else utxo_key id n.

Definition height_key (h : Z) : bytes := bstr "h:" ++ to_be_bytes 8 h.

Definition hdr_key (h : Z) : bytes := bstr "hdr:" ++ to_be_bytes 8 h.

Definition block_key (hash : bytes) : bytes := bstr "b:" ++ hash.

Definition journal_prefix : bytes := bstr "reorg:pending:".

Definition journal_key (id : string) : bytes := journal_prefix ++ bstr id.

Definition addr_key {CR : Crypto} (script : bytes) (id : bytes) (n : Z) : bytes :=
  bstr "addr:" ++ hash160 script ++ id ++ to_be_bytes 4 n.

(** ** Distinct objects have distinct keys *)

Lemma utxo_key_inj id1 n1 id2 n2 :
  length id1 = 32%nat → length id2 = 32%nat → uint 32 n1 → uint 32 n2 →
  utxo_key id1 n1 = utxo_key id2 n2 → id1 = id2 ∧ n1 = n2.
Proof.
  intros H1 H2 Hn1 Hn2 E. apply (inj (app (bstr "u:"))) in E.
  apply app_inj_1 in E as [-> E]; [|congruence]. split; [done|].
  by apply (to_be_bytes_inj 4).
Qed.

Lemma anon_key_inj id1 n1 id2 n2 :
  length id1 = 32%nat → length id2 = 32%nat → uint 32 n1 → uint 32 n2 →
  anon_key id1 n1 = anon_key id2 n2 → id1 = id2 ∧ n1 = n2.
Proof.
  intros H1 H2 Hn1 Hn2 E. apply (inj (app (bstr "a:"))) in E.
  apply app_inj_1 in E as [-> E]; [|congruence]. split; [done|].
  by apply (to_be_bytes_inj 4).
Qed.

Lemma output_key_inj b id1 n1 id2 n2 :
  length id1 = 32%nat → length id2 = 32%nat → uint 32 n1 → uint 32 n2 →
  output_key b id1 n1 = output_key b id2 n2 → id1 = id2 ∧ n1 = n2.
Proof. destruct b; [apply anon_key_inj|apply utxo_key_inj]. Qed.

Lemma height_key_inj h1 h2 :
  uint 64 h1 → uint 64 h2 → height_key h1 = height_key h2 → h1 = h2.
Proof. intros H1 H2 E. apply (inj (app (bstr "h:"))) in E. by apply (to_be_bytes_inj 8). Qed.

Lemma hdr_key_inj h1 h2 :
  uint 64 h1 → uint 64 h2 → hdr_key h1 = hdr_key h2 → h1 = h2.
Proof. intros H1 H2 E. apply (inj (app (bstr "hdr:"))) in E. by apply (to_be_bytes_inj 8). Qed.

(** The families of keys of the default column family do not overlap: each
    key starts with bytes that no other family starts with. *)
Definition default_keys (h : Z) (hash : bytes) (id : string) : list bytes :=
  [DB_KEY_TIP; DB_KEY_HEIGHT; DB_KEY_GENESIS_HASH; DB_KEY_UTXO_SET_HASH; DB_KEY_TOTAL_SUPPLY;
   DB_KEY_STATE_TOTAL_SUPPLY; height_key h; hdr_key h; block_key hash; journal_key id].

Theorem default_keys_disjoint h1 h2 hash1 hash2 id1 id2 i j k :
  default_keys h1 hash1 id1 !! i = Some k → default_keys h2 hash2 id2 !! j = Some k → i = j.
Proof.
  intros Hi Hj.
  do 10 (destruct i as [|i]; [injection Hi as <-; do 10 (destruct j as [|j]; [first [done|by injection Hj]|]); done|]).
  done.
Qed.

#[export] Hint Resolve height_key_inj hdr_key_inj : core.
