(* ===== verification/Tx.v ===== *)
(** * Tx: transactions, blocks and their validation

    src/111/src/tx.rs.  Hashes of transactions (with the LRU cache in front),
    signature hashes, fees, Merkle roots, script checks, the validation of
    transparent and anonymous transactions, the coinbase and the genesis block.

    The database and the chain height a validation reads are arguments.  The
    async timeout around the script check has no suspension point inside and
    does not fire; it is left out. *)
From S2P Require Import Prelude Errors Types Externals Instances Utils Keys.

Section Tx.
  Context {CR : Crypto} {CD : Codec}.

(** ** Hashes *)

(** [Transaction::hash] without its cache. *)
Definition tx_hash (t : Transaction) : bytes := sha256d (serialize t).

(** [Transaction::hash]: the cache is keyed by the serialised transaction. *)
Definition Transaction_hash {L : Lru bytes bytes} (t : Transaction) : M (LruCache bytes bytes) bytes :=
  λ cache,
    let serialized := serialize t in
    match lru_get cache serialized with
    | (Some cached, cache) => (Ok cached, cache)
    | (None, cache) =>
        let hashed := sha256d serialized in
        (Ok hashed, lru_put cache serialized hashed)
    end.

Definition clear_script_sig (i : TXInput) : TXInput :=
  mkTXInput (txid i) (vout i) [] (sequence i).

Definition set_script_sig (s : bytes) (i : TXInput) : TXInput :=
  mkTXInput (txid i) (vout i) s (sequence i).

Definition with_inputs (l : list TXInput) (t : Transaction) : Transaction :=
  mkTransaction (tx_version t) (is_anonymous t) l (outputs t) (lock_time t) (range_proofs t).

Definition sighash (t : Transaction) (input_idx : nat) (spk : bytes) (sighash_type : Z) : outcome bytes :=
  let cleared := clear_script_sig <$> inputs t in
  i ← index cleared input_idx;
  let tx_copy := with_inputs (<[input_idx := set_script_sig spk i]> cleared) t in
  mret (sha256d (serialize tx_copy ++ to_le_bytes 4 sighash_type)).

Definition create_prefix_hash (t : Transaction) : bytes :=
  sha256d (serialize (mkTransaction (tx_version t) (is_anonymous t)
    (clear_script_sig <$> inputs t) (outputs t) (lock_time t) [])).

(** ** Queries *)

Definition zero_hash : bytes := replicate 32 0.

Definition is_coinbase (t : Transaction) : bool :=
  match inputs t with
  | [i] => bool_decide (txid i = zero_hash) && (vout i =? u32_MAX)
  | _ => false
  end.

Definition tx_size (t : Transaction) : Z := Z.of_nat (length (serialize t)).

(** [Transaction::fee]: an overflowing sum returns 0 (the [ok_or(0)?]); an
    input that is not in the map counts for 0. *)
Definition tx_fee (outs : gmap (bytes * Z) TXOutput) (t : Transaction) : Z :=
  match try_sum 64 ((λ vin, default 0 (value <$> outs !! (txid vin, vout vin))) <$> inputs t) with
  | None => 0
  | Some input_sum =>
      match try_sum 64 (value <$> outputs t) with
      | None => 0
      | Some output_sum => saturating_sub input_sum output_sum
      end
  end.

Definition block_size (b : Block) : Z := Z.of_nat (length (serialize b)).

(** ** Merkle root *)

(** One round of the loop: pairs are hashed, a last odd hash is paired with
    itself. *)
Fixpoint merkle_round (hashes : list bytes) : list bytes :=
  match hashes with
  | a :: b :: rest => sha256d (a ++ b) :: merkle_round rest
  | [a] => [sha256d (a ++ a)]
  | [] => []
  end.

(** [while hashes.len() > 1]: the fuel is a bound on the rounds. *)
Fixpoint merkle_loop (fuel : nat) (hashes : list bytes) : outcome bytes :=
  match hashes with
  | [] => Panic
  | [h] => Ok h
  | _ => match fuel with
         | O => Hang
         | S fuel => merkle_loop fuel (merkle_round hashes)
         end
  end.

Definition compute_merkle_root (ts : list Transaction) : outcome bytes :=
  match tx_hash <$> ts with
  | [] => Ok zero_hash
  | hashes => merkle_loop (length hashes) hashes
  end.

(** ** Scripts *)

Definition byte_at (l : bytes) (i : nat) : Z := default 0 (l !! i).

Definition verify_sig (t : Transaction) (input_idx : nat) (spk : bytes) (sig pubkey : bytes) : outcome unit :=
  (ensure (negb (bool_decide (sig = []))) InvalidScript);;
  let sighash_type := byte_at sig (length sig - 1) in
  let sig_der := take (length sig - 1) sig in
  msg_hash ← sighash t input_idx spk sighash_type;
  msg ← ok_or (Message_from_slice msg_hash) (Anyhow "Invalid message");
  sig ← ok_or (Signature_from_der sig_der) (Anyhow "Invalid DER signature");
  pk ← ok_or (PublicKey_from_slice pubkey) (Anyhow "Invalid public key");
  ensure (verify_ecdsa msg sig pk) InvalidSignature.

Definition validate_p2pkh (input : TXInput) (spk : bytes) (t : Transaction) (input_idx : nat) : outcome unit :=
  (ensure ((byte_at spk 0 =? 0x76) && (byte_at spk 1 =? 0xa9) && (byte_at spk 2 =? 0x14) &&
           (byte_at spk 23 =? 0x88) && (byte_at spk 24 =? 0xac)) InvalidScript);;
  pubkey_hash ← slice 3 23 spk;
  let sig_script := script_sig input in
  b0 ← index sig_script 0;
  let sig_len := Z.to_nat b0 in
  (ensure (negb (length sig_script <? sig_len + 1)%nat) InvalidScript);;
  sig ← slice 1 (1 + sig_len) sig_script;
  b1 ← index sig_script (1 + sig_len);
  let pubkey_len := Z.to_nat b1 in
  (ensure (negb (length sig_script <? 2 + sig_len + pubkey_len)%nat) InvalidScript);;
  pubkey ← slice (2 + sig_len) (2 + sig_len + pubkey_len) sig_script;
  (ensure (bool_decide (hash160 pubkey = pubkey_hash)) InvalidScript);;
  verify_sig t input_idx spk sig pubkey.

Definition validate_p2pk (input : TXInput) (spk : bytes) (t : Transaction) (input_idx : nat) : outcome unit :=
  pubkey ← slice 1 33 spk;
  ok_or (PublicKey_from_slice pubkey) (Anyhow "Invalid P2PK pubkey");;
  verify_sig t input_idx spk (script_sig input) pubkey.

Definition validate_script_with_timeout (input : TXInput) (output : TXOutput) (t : Transaction)
    (input_idx : nat) : outcome unit :=
  let spk := script_pubkey output in
  if negb (length spk =? 25)%nat && negb (length spk =? 34)%nat then bail InvalidScript
  else if (length spk =? 25)%nat then validate_p2pkh input spk t input_idx
  else if (length spk =? 34)%nat && (byte_at spk 0 =? 0x21) && (byte_at spk 33 =? 0xac)
  then validate_p2pk input spk t input_idx
  else bail InvalidScript.

(** ** Coinbase and genesis *)

Definition p2pkh_script (pk : PublicKey) : bytes :=
  [0x76; 0xa9; 0x14] ++ hash160 (PublicKey_serialize pk) ++ [0x88; 0xac].

Definition coinbase_input (script : bytes) : TXInput :=
  mkTXInput zero_hash u32_MAX script u32_MAX.

Definition create_coinbase (height : Z) (extra : bytes) (pk : PublicKey) : Transaction :=
  mkTransaction 1 false [coinbase_input (to_le_bytes 8 height ++ extra)]
    [mkTXOutput 0 (p2pkh_script pk) None] 0 [].

Definition genesis_coinbase (message : bytes) (pk : PublicKey) : Transaction :=
  mkTransaction 1 false [coinbase_input message] [mkTXOutput (subsidy 0) (p2pkh_script pk) None] 0 [].

Definition with_nonce (h : BlockHeader) (n : Z) : BlockHeader :=
  mkBlockHeader (hdr_version h) (prev_hash h) (merkle_root h) (timestamp h) (bits h) n.

(** The search loop of [create_genesis_block]: [nonce] wraps at [2^64], where
    the loop gives up. *)
Fixpoint genesis_loop (fuel : nat) (h : BlockHeader) (target n : Z) : outcome BlockHeader :=
  match fuel with
  | O => Hang
  | S fuel =>
      let h := with_nonce h n in
      hash ← header_hash h;
      if u256_from_be hash <=? target then Ok h
      else
        let n := wadd 64 n 1 in
        if n =? 0 then bail (Anyhow "Impossible to mine genesis – increase bits")
        else genesis_loop fuel h target n
  end.

Definition create_genesis_block (fuel : nat) (message : bytes) (pk : PublicKey) : outcome Block :=
  let coinbase_tx := genesis_coinbase message pk in
  root ← compute_merkle_root [coinbase_tx];
  let h := mkBlockHeader 1 zero_hash root GENESIS_TIMESTAMP 0x1d00ffff 0 in
  target ← compact_to_target (bits h);
  h ← genesis_loop fuel h target 0;
  mret (mkBlock h [coinbase_tx]).

End Tx.

(** ** Validation *)

Section Validation.
  Context {CR : Crypto} {CD : Codec} {RK : Rocks}.

(** [CompressedRistretto::from_slice(c).decompress().ok_or(InvalidCommitment)?] *)
Definition decompress (c : bytes) : outcome Point :=
  p ← CompressedRistretto_from_slice c;
  ok_or p InvalidCommitment.

Record anon_acc := mkAnonAcc {
  anon_input_sum : Z;
  anon_seen : list bytes;
  anon_commitments : list Point;
}.

(** The body of the loop over the inputs of an anonymous transaction. *)
Definition validate_anon_input (db : DB) (anonymous_outputs : gmap (bytes * Z) TXOutput)
    (t : Transaction) (acc : anon_acc) (vin : TXInput) : outcome anon_acc :=
  (ensure (negb (length (script_sig vin) <? 32)%nat) InvalidScript);;
  ki ← slice 0 32 (script_sig vin);
  key_image ← ok_or (KeyImage_from_slice ki) InvalidKeyImage;
  (ensure (negb (bool_decide (key_image ∈ anon_seen acc))) DoubleSpend);;
  known ← get_cf db "key_images" key_image;
  (ensure (bool_decide (known = None)) DoubleSpend);;
  clsag_data ← slice_from 32 (script_sig vin);
  clsag ← ok_or (Clsag_deserialize clsag_data) (Anyhow "Deserialize clsag error");
  (ensure (negb ((MAX_RING_SIZE <? Clsag_ring_len clsag) || (Clsag_ring_len clsag =? 0))) InvalidScript);;
  (ensure (Clsag_verify clsag (tx_hash t) key_image) (Anyhow "Clsag verify error"));;
  out ← ok_or (anonymous_outputs !! (txid vin, vout vin)) MissingUTXO;
  input_sum ← ok_or (checked_add 64 (anon_input_sum acc) (value out)) ValueOverflow;
  comm ← ok_or (commitment out) InvalidCommitment;
  p ← decompress comm;
  mret (mkAnonAcc input_sum (key_image :: anon_seen acc) (anon_commitments acc ++ [p])).

(** The range proofs queued for the outputs that have one ([zip]). *)
Definition queue_proofs (t : Transaction) : outcome (list (RangeProof * Point * Z)) :=
  for_each (λ batch '(out, proof_bytes),
    proof ← ok_or (RangeProof_deserialize proof_bytes) (Anyhow "Deserialize proof error");
    comm ← ok_or (commitment out) InvalidCommitment;
    p ← decompress comm;
    mret (batch ++ [(proof, p, value out)])) [] (zip (outputs t) (range_proofs t)).

Definition output_commitments (t : Transaction) : outcome Point :=
  for_each (λ acc out,
    comm ← ok_or (commitment out) InvalidCommitment;
    p ← decompress comm;
    mret (Point_add acc p)) (pc_commit 0 0) (outputs t).

Definition validate_anonymous_tx (db : DB) (anonymous_outputs : gmap (bytes * Z) TXOutput)
    (t : Transaction) : outcome unit :=
  acc ← for_each (validate_anon_input db anonymous_outputs t) (mkAnonAcc 0 [] []) (inputs t);
  output_sum ← ok_or (try_sum 64 (value <$> outputs t)) ValueOverflow;
  fee ← ok_or (checked_sub (anon_input_sum acc) output_sum) ValueOverflow;
  batch ← queue_proofs t;
  ok ← ok_or (batch_verify batch) InvalidRangeProof;
  (ensure ok InvalidRangeProof);;
  let sum_input_comm := foldl Point_add (pc_commit 0 0) (anon_commitments acc) in
  sum_output_comm ← output_commitments t;
  ensure (Point_eqb sum_input_comm (Point_add sum_output_comm (pc_commit fee 0))) InvalidCommitment.

(** The first loop of [validate_transaction]: no outpoint twice, coinbase
    outputs mature. *)
Definition check_input (db : DB) (height : Z) (seen : list (bytes * Z)) (vin : TXInput)
    : outcome (list (bytes * Z)) :=
  let key := (txid vin, vout vin) in
  (ensure (negb (bool_decide (key ∈ seen))) DoubleSpend);;
  cb ← get_cf db "coinbase" (txid vin);
  (match cb with
   | None => Ok tt
   | Some b =>
       (ensure (length b =? 8)%nat (Anyhow "Invalid cb height bytes"));;
       ensure (negb (saturating_sub height (from_be_bytes b) <? COINBASE_MATURITY)) CoinbaseImmature
   end);;
  mret (key :: seen).

(** The second loop: the value of the transparent outputs spent. *)
Definition utxo_value (db : DB) (input_sum : Z) (vin : TXInput) : outcome Z :=
  v ← get_cf db "utxo" (utxo_key (txid vin) (vout vin));
  match v with
  | None => bail MissingUTXO
  | Some v =>
      utxo ← ok_or (deserialize (A:=TXOutput) v) (Anyhow "Deserialize utxo failed");
      ok_or (checked_add 64 input_sum (value utxo)) ValueOverflow
  end.

(** The outputs an anonymous transaction refers to, as far as they exist. *)
Definition load_anon_outputs (db : DB) (ins : list TXInput) : outcome (gmap (bytes * Z) TXOutput) :=
  for_each (λ m vin,
    v ← get_cf db "anonymous" (anon_key (txid vin) (vout vin));
    match v with
    | None => Ok m
    | Some v =>
        out ← ok_or (deserialize (A:=TXOutput) v) (Anyhow "Deserialize anon failed");
        mret (<[(txid vin, vout vin) := out]> m)
    end) ∅ ins.

Definition required_fee (t : Transaction) : outcome Z :=
  if is_anonymous t then
    Ok ((tx_size t * MIN_FEE_PER_BYTE * ANON_FEE_MULTIPLIER_NUMERATOR
         + (ANON_FEE_MULTIPLIER_DENOMINATOR - 1)) / ANON_FEE_MULTIPLIER_DENOMINATOR)
  else ok_or (checked_mul 64 (wrap 64 (tx_size t)) MIN_FEE_PER_BYTE) ValueOverflow.

Definition validate_transaction (db : DB) (best_height : Z) (t : Transaction) (height : Z) : outcome unit :=
  if is_coinbase t then Ok tt else
  if (wrap 32 best_height <? lock_time t) &&
     existsb (λ i, negb (sequence i =? u32_MAX)) (inputs t) then bail InvalidLockTime else
  pool_get db;;
  require_cf db "utxo" "cf";;
  require_cf db "anonymous" "cf";;
  require_cf db "key_images" "cf";;
  require_cf db "coinbase" "cf";;
  for_each (check_input db height) [] (inputs t);;
  input_sum ← (if is_anonymous t then Ok 0 else for_each (utxo_value db) 0 (inputs t));
  (if is_anonymous t then
     anon ← load_anon_outputs db (inputs t);
     validate_anonymous_tx db anon t
   else Ok tt);;
  output_sum ← ok_or (try_sum 64 (value <$> outputs t)) ValueOverflow;
  (ensure (negb (input_sum <? output_sum)) (InvalidTx "Outputs exceed inputs"));;
  fee ← ok_or (checked_sub input_sum output_sum) ValueOverflow;
  required ← required_fee t;
  ensure (negb (fee <? wrap 64 required)) InsufficientFee.

End Validation.

(** ** The transaction hash cache *)

Section HashCache.
  Context {CR : Crypto} {CD : Codec} {L : Lru bytes bytes} {LO : LruOk bytes bytes}.

(** Every entry of the cache is the double hash of its key. *)
Definition cache_ok (c : LruCache bytes bytes) : Prop :=
  ∀ k v, lru_entry c k v → v = sha256d k.

(** With a cache whose entries are double hashes of their keys,
    [Transaction::hash] returns the double hash of the serialised transaction,
    whether the cache hits, misses or evicts, and leaves such a cache. *)
Theorem Transaction_hash_correct t c :
  cache_ok c → (Transaction_hash t c).1 = Ok (tx_hash t) ∧ cache_ok (Transaction_hash t c).2.
Proof.
  intros Hc. unfold Transaction_hash, tx_hash.
  destruct (lru_get c (serialize t)) as [[v|] c'] eqn:E; simpl.
  - split; [|intros k w Hk; apply Hc; apply (lru_get_keeps c (serialize t)); by rewrite E].
    f_equal. apply Hc, lru_get_entry. by rewrite E.
  - split; [done|]. intros k w [[-> ->]|Hk]%lru_put_keeps; [done|].
    apply Hc, (lru_get_keeps c (serialize t)). by rewrite E.
Qed.

End HashCache.

(** ** Merkle roots *)

Section Merkle.
  Context {CR : Crypto} {CD : Codec}.

(** Lists of hashes lose half of their elements in a round. *)
Lemma pair_ind (P : list bytes → Prop) :
  P [] → (∀ a, P [a]) → (∀ a b l, P l → P (a :: b :: l)) → ∀ l, P l.
Proof.
  intros H0 H1 H2 l. enough (P l ∧ ∀ a, P (a :: l)) by naive_solver.
  induction l as [|x l [IH1 IH2]]; split; auto.
Qed.

Lemma length_merkle_round l : length (merkle_round l) = ((length l + 1) / 2)%nat.
Proof.
  induction l as [|a|a b l IH] using pair_ind; [done|done|]. simpl merkle_round. simpl length.
  rewrite IH. replace (S (S (length l)) + 1)%nat with ((length l + 1) + 1 * 2)%nat by lia.
  rewrite Nat.div_add by lia. lia.
Qed.

Lemma merkle_loop_Ok fuel l :
  l ≠ [] → (length l ≤ S fuel)%nat → ∃ h, merkle_loop fuel l = Ok h.
Proof.
  revert l. induction fuel as [|fuel IH]; intros [|a [|b l]] Hl Hf; simpl in *; try done; try lia; eauto.
  change (sha256d (a ++ b) :: merkle_round l) with (merkle_round (a :: b :: l)).
  apply IH; [done|]. rewrite length_merkle_round. cbn [length].
  apply Nat.lt_succ_r, Nat.Div0.div_lt_upper_bound. lia.
Qed.

Lemma merkle_loop_step f a b l :
  merkle_loop (S f) (a :: b :: l) = merkle_loop f (merkle_round (a :: b :: l)).
Proof. done. Qed.

(** More fuel than needed changes nothing. *)
Lemma merkle_loop_fuel f1 f2 l h :
  (f1 ≤ f2)%nat → merkle_loop f1 l = Ok h → merkle_loop f2 l = Ok h.
Proof.
  revert f2 l. induction f1 as [|f1 IH]; intros [|f2] [|a [|b l]] Hf; simpl; try done; try lia.
  apply IH. lia.
Qed.

Lemma compute_merkle_root_Ok ts : ∃ root, compute_merkle_root ts = Ok root.
Proof.
  unfold compute_merkle_root. destruct (tx_hash <$> ts) as [|h hs] eqn:E; [by eauto|].
  apply merkle_loop_Ok; [done|]. simpl. lia.
Qed.

(** The Merkle root of any list of transactions exists: the loop ends
    before its bound and never indexes an empty vector. *)
Theorem compute_merkle_root_total ts : ∃ root, compute_merkle_root ts = Ok root.
Proof. apply compute_merkle_root_Ok. Qed.

Definition collision (x y : bytes) : Prop := x ≠ y ∧ sha256d x = sha256d y.

#[export] Instance collision_dec x y : Decision (collision x y).
Proof. unfold collision. apply _. Defined.

(** Two inputs with the same double hash, if they are that. *)
Definition try_collision (x y : bytes) : option (bytes * bytes) :=
  if bool_decide (collision x y) then Some (x, y) else None.

(** The first place at which two rounds hash different pairs to the same. *)
Fixpoint round_collision (l k : list bytes) : option (bytes * bytes) :=
  match l, k with
  | [a], [a'] => try_collision (a ++ a) (a' ++ a')
  | a :: b :: l, a' :: b' :: k =>
      match try_collision (a ++ b) (a' ++ b') with Some c => Some c | None => round_collision l k end
  | _, _ => None
  end.

Fixpoint loop_collision (fuel : nat) (l k : list bytes) : option (bytes * bytes) :=
  match fuel with
  | O => None
  | S fuel =>
      match round_collision l k with
      | Some c => Some c
      | None => loop_collision fuel (merkle_round l) (merkle_round k)
      end
  end.

(** The collision in two trees, level by level from the leaves. *)
Definition merkle_collision (ts us : list Transaction) : option (bytes * bytes) :=
  loop_collision (length ts) (tx_hash <$> ts) (tx_hash <$> us).

Lemma try_collision_Some x y c : try_collision x y = Some c → collision c.1 c.2.
Proof. unfold try_collision. case_bool_decide; [by intros [= <-]|done]. Qed.

Lemma try_collision_None x y : try_collision x y = None → sha256d x = sha256d y → x = y.
Proof. unfold try_collision, collision. case_bool_decide as H; [done|]. intros _ E. destruct (decide (x = y)); tauto. Qed.

Lemma round_collision_Some l k c : round_collision l k = Some c → collision c.1 c.2.
Proof.
  revert k. induction l as [|a|a b l IH] using pair_ind; intros k H; [done| |].
  - destruct k as [|a' [|]]; try done. by eapply try_collision_Some.
  - destruct k as [|a' [|b' k]]; try done. cbn [round_collision] in H.
    destruct (try_collision _ _) as [c'|] eqn:E; [|by apply (IH k)]. injection H as <-. by eapply try_collision_Some.
Qed.

Lemma loop_collision_Some fuel l k c : loop_collision fuel l k = Some c → collision c.1 c.2.
Proof.
  revert l k. induction fuel as [|fuel IH]; intros l k H; [done|]. cbn [loop_collision] in H.
  destruct (round_collision l k) eqn:E; [|by eapply IH]. injection H as <-. by eapply round_collision_Some.
Qed.

(** A round without a collision is injective on lists of equal length. *)
Lemma merkle_round_inj l k :
  length l = length k → Forall (λ h, length h = 32%nat) l → Forall (λ h, length h = 32%nat) k →
  round_collision l k = None → merkle_round l = merkle_round k → l = k.
Proof.
  revert k. induction l as [|a|a b l IH] using pair_ind; intros k Hlen Hl Hk Hc E.
  - by destruct k.
  - destruct k as [|a' [|]]; try done. apply Forall_cons in Hl as [Ha _], Hk as [Ha' _].
    injection E as E. apply (try_collision_None _ _ Hc) in E. apply app_inj_1 in E as [-> _]; congruence.
  - destruct k as [|a' [|b' k]]; try done. cbn [round_collision] in Hc.
    destruct (try_collision _ _) eqn:Ec; [done|].
    apply Forall_cons in Hl as [Ha Hl], Hk as [Ha' Hk]. apply Forall_cons in Hl as [Hb Hl], Hk as [Hb' Hk].
    injection E as E1 E2. apply (try_collision_None _ _ Ec) in E1. apply app_inj_1 in E1 as [-> ->]; [|congruence].
    by rewrite (IH k) by (by injection Hlen).
Qed.

Lemma merkle_round_32 {CRO : CryptoOk} l : Forall (λ h, length h = 32%nat) (merkle_round l).
Proof.
  induction l as [|a|a b l IH] using pair_ind; simpl; repeat constructor; auto using length_sha256d.
Qed.

Lemma merkle_loop_inj {CRO : CryptoOk} f1 f2 l k h :
  length l = length k → Forall (λ h, length h = 32%nat) l → Forall (λ h, length h = 32%nat) k →
  merkle_loop f1 l = Ok h → merkle_loop f2 k = Ok h → loop_collision f1 l k = None → l = k.
Proof.
  revert f2 l k. induction f1 as [|f1 IH]; intros f2 [|a [|b l]] [|a' [|b' k]] Hlen Hl Hk E1 E2 Hc;
    simpl in E1, E2, Hlen; try done; try (destruct f2; simpl in *; naive_solver); destruct f2; try done.
  cbn [loop_collision] in Hc. destruct (round_collision (a :: b :: l) (a' :: b' :: k)) eqn:Er; [done|].
  change (sha256d (a ++ b) :: merkle_round l) with (merkle_round (a :: b :: l)) in E1.
  change (sha256d (a' ++ b') :: merkle_round k) with (merkle_round (a' :: b' :: k)) in E2.
  apply merkle_round_inj; [done..|]. apply (IH f2); [|apply merkle_round_32|apply merkle_round_32|done..].
  by rewrite !length_merkle_round; simpl; injection Hlen as ->.
Qed.

(** C12.  A Merkle root commits to the transactions: two lists of the same
    length with the same root have the same transaction hashes in the same
    order, or the two trees contain a collision of the double hash, which
    comparing them from the leaves up computes. *)
Theorem merkle_root_binding {CRO : CryptoOk} ts us root :
  length ts = length us → compute_merkle_root ts = Ok root → compute_merkle_root us = Ok root →
  tx_hash <$> ts = tx_hash <$> us ∨ ∃ x y, merkle_collision ts us = Some (x, y) ∧ collision x y.
Proof.
  intros Hlen E1 E2. unfold compute_merkle_root in *.
  assert (H32 : ∀ l, Forall (λ h, length h = 32%nat) (tx_hash <$> l)).
  { intros l. apply Forall_fmap, Forall_forall. intros t _. apply length_sha256d. }
  destruct (merkle_collision ts us) as [[x y]|] eqn:Ec.
  { right. exists x, y. split; [done|]. by apply loop_collision_Some in Ec. }
  left. assert (length (tx_hash <$> ts) = length (tx_hash <$> us)) as Hl by by rewrite !length_fmap.
  pose proof (H32 ts) as Hts. pose proof (H32 us) as Hus. unfold merkle_collision in Ec. rewrite <- (length_fmap tx_hash ts) in Ec.
  destruct (tx_hash <$> ts) as [|a l], (tx_hash <$> us) as [|b k]; try done.
  by eapply (merkle_loop_inj (length (a :: l)) (length (b :: k))).
Qed.

(** Repeating the last transaction of a list of odd length keeps the root. *)
Theorem merkle_root_malleable ts t :
  Nat.Even (length ts) → ts ≠ [] →
  compute_merkle_root (ts ++ [t]) = compute_merkle_root (ts ++ [t; t]).
Proof.
  intros He Hne.
  assert (Hr : ∀ l h, Nat.Even (length l) → merkle_round (l ++ [h]) = merkle_round (l ++ [h; h])).
  { intros l h. induction l as [|a|a b l IH] using pair_ind; simpl; intros Hev; [done| |].
    - destruct Hev as [n ?]. lia.
    - f_equal. apply IH. destruct Hev as [n ?]. exists (n - 1)%nat. lia. }
  destruct (compute_merkle_root_Ok (ts ++ [t])) as [r1 E1].
  destruct (compute_merkle_root_Ok (ts ++ [t; t])) as [r2 E2]. rewrite E1, E2. f_equal.
  unfold compute_merkle_root in *. rewrite fmap_app in E1, E2. cbn [fmap list_fmap] in E1, E2.
  assert (He' : Nat.Even (length (tx_hash <$> ts))) by by rewrite length_fmap.
  destruct ts as [|u ts]; [done|]. destruct (tx_hash <$> (u :: ts)) as [|a l] eqn:El; [done|].
  destruct l as [|b l]; [destruct He' as [n ?]; simpl in *; lia|].
  cbn [app length] in E1, E2. rewrite merkle_loop_step in E1, E2.
  specialize (Hr (a :: b :: l) (tx_hash t) He'). cbn [app] in Hr.
  rewrite Hr in E1. apply (merkle_loop_fuel _ (S (length (l ++ [tx_hash t; tx_hash t])))) in E1; [congruence|].
  rewrite !length_app. simpl. lia.
Qed.

End Merkle.

(** ** Validation of transactions: properties *)

Section ValidationFacts.
  Context {CR : Crypto} {CD : Codec} {CDO : CodecOk} {RK : Rocks} {RKO : RocksOk}.

Definition outpoint (i : TXInput) : bytes * Z := (txid i, vout i).

(** The coinbase record of an input, if any, is at least a hundred blocks old. *)
Definition mature (db : DB) (height : Z) (i : TXInput) : Prop :=
  ∀ b, contents db !! ("coinbase", txid i) = Some b →
       COINBASE_MATURITY <= saturating_sub height (from_be_bytes b).

(** The transparent output an input spends is stored. *)
Definition stored (db : DB) (i : TXInput) (o : TXOutput) : Prop :=
  ∃ v : bytes, (contents db !! ("utxo", utxo_key (txid i) (vout i)) = Some v) ∧ (deserialize v = Some o).

Lemma check_input_Ok db height seen i seen' :
  check_input db height seen i = Ok seen' →
  seen' = outpoint i :: seen ∧ (outpoint i ∉ seen) ∧ mature db height i.
Proof.
  unfold check_input. intros H. inv_ok. zbool. split_and!; [done|done|].
  intros b Hb. match goal with H : get_cf _ _ _ = _ |- _ => apply get_cf_sound in H end.
  simplify_eq. rewrite Hb in *. inv_ok. zbool. lia.
Qed.

Lemma check_inputs_Ok db height seen l seen' :
  for_each (check_input db height) seen l = Ok seen' →
  NoDup (outpoint <$> l) ∧ (∀ k, k ∈ outpoint <$> l → k ∉ seen) ∧ Forall (mature db height) l.
Proof.
  revert seen. induction l as [|i l IH]; intros seen; simpl.
  { intros _. split_and!; [constructor|set_solver|constructor]. }
  intros (s1 & (-> & Hn & Hm)%check_input_Ok & Hl)%bind_Ok. apply IH in Hl as (Hnd & Hdis & Hf).
  csimpl. split_and!; [|set_solver|by constructor].
  apply NoDup_cons. split; [|done]. intros Hin. by apply Hdis in Hin; set_solver.
Qed.

Lemma utxo_values_Ok db acc l s :
  for_each (utxo_value db) acc l = Ok s →
  ∃ outs, Forall2 (stored db) l outs ∧ s = acc + sumZ (value <$> outs) ∧
          try_sum_from 64 acc (value <$> outs) = Some s.
Proof.
  revert acc. induction l as [|i l IH]; intros acc; simpl.
  { intros H. inv_ok. exists []. split_and!; [constructor|simpl; lia|done]. }
  intros (s1 & H1 & Hl)%bind_Ok. apply IH in Hl as (outs & Ho & -> & Hs).
  unfold utxo_value in H1. apply bind_Ok in H1 as (v & Hv & H1). apply get_cf_sound in Hv.
  destruct v as [v|]; [|done]. inv_ok.
  match goal with H : deserialize v = Some ?o |- _ => exists (o :: outs) end. csimpl.
  match goal with H : checked_add _ _ _ = _ |- _ =>
    rewrite H; apply checked_add_Some in H as [-> _] end.
  split_and!; [constructor; [by eexists|done]|lia|done].
Qed.

(** What the end of [validate_transaction] checks, whatever computed the input
    sum. *)
Lemma fee_check_Ok t input_sum u :
  wf_tx t →
  (output_sum ← ok_or (try_sum 64 (value <$> outputs t)) ValueOverflow;
   (ensure (negb (input_sum <? output_sum)) (InvalidTx "Outputs exceed inputs"));;
   fee ← ok_or (checked_sub input_sum output_sum) ValueOverflow;
   required ← required_fee t;
   ensure (negb (fee <? wrap 64 required)) InsufficientFee) = Ok u →
  sumZ (value <$> outputs t) < 2 ^ 64 ∧
  ∃ r, required_fee t = Ok r ∧ sumZ (value <$> outputs t) + wrap 64 r <= input_sum.
Proof.
  intros Hwf H. inv_ok. zbool.
  match goal with H : try_sum _ _ = _ |- _ =>
    apply try_sum_Some in H as [-> ?]; [|lia|by apply wf_tx_outputs_nonneg] end.
  match goal with H : checked_sub _ _ = _ |- _ => apply checked_sub_Some in H as [-> ?] end.
  split; [done|]. eexists. split; [done|]. lia.
Qed.

(** The checks an accepted transaction went through. *)
Lemma validate_transaction_Ok db best t height :
  wf_tx t → is_coinbase t = false → validate_transaction db best t height = Ok tt →
  NoDup (outpoint <$> inputs t) ∧ Forall (mature db height) (inputs t) ∧
  ∃ input_sum r,
    (if is_anonymous t then input_sum = 0
     else ∃ outs, Forall2 (stored db) (inputs t) outs ∧ input_sum = sumZ (value <$> outs) ∧
                  try_sum 64 (value <$> outs) = Some input_sum) ∧
    required_fee t = Ok r ∧ sumZ (value <$> outputs t) + wrap 64 r <= input_sum.
Proof.
  intros Hwf Hcb. unfold validate_transaction. rewrite Hcb.
  destruct ((wrap 32 best <? lock_time t) && _); [done|].
  intros (_ & _ & H)%bind_Ok. do 4 (apply bind_Ok in H as (_ & _ & H)).
  apply bind_Ok in H as (? & (Hnd & _ & Hm)%check_inputs_Ok & H).
  apply bind_Ok in H as (input_sum & Hi & H). apply bind_Ok in H as (_ & _ & H).
  apply fee_check_Ok in H as [_ (r & Hr & Hle)]; [|done].
  split_and!; [done|done|]. exists input_sum, r. split_and!; [|done|done].
  destruct (is_anonymous t); [by inv_ok|]. by apply utxo_values_Ok in Hi.
Qed.

Lemma transparent_valid db best t height :
  wf_tx t → tx_size t < 2 ^ 64 → is_coinbase t = false → is_anonymous t = false →
  validate_transaction db best t height = Ok tt →
  NoDup (outpoint <$> inputs t) ∧ Forall (mature db height) (inputs t) ∧
  ∃ outs, Forall2 (stored db) (inputs t) outs ∧
          sumZ (value <$> outputs t) + MIN_FEE_PER_BYTE * tx_size t <= sumZ (value <$> outs).
Proof.
  intros Hwf Hsz Hcb Han H. apply validate_transaction_Ok in H as (? & ? & i & r & Hi & Hr & Hle); [|done|done].
  rewrite Han in Hi. destruct Hi as (outs & Ho & -> & _). split_and!; [done|done|].
  exists outs. split; [done|]. unfold required_fee in Hr. rewrite Han in Hr. inv_ok.
  unfold checked_mul, MIN_FEE_PER_BYTE in *. assert (0 <= tx_size t) by (unfold tx_size; lia).
  rewrite (wrap_small 64 (tx_size t)) in * by (unfold uint; lia).
  case_match; simplify_eq. zbool. rewrite wrap_small in * by (unfold uint; lia). lia.
Qed.

(** A transparent transaction that is accepted spends distinct outpoints,
    each of them stored in the UTXO set and mature if it is a coinbase, and the
    outputs it spends are worth at least its outputs plus ten units per byte. *)
Theorem validate_transaction_sound db best t height :
  wf_tx t → tx_size t < 2 ^ 64 → is_coinbase t = false → is_anonymous t = false →
  validate_transaction db best t height = Ok tt →
  NoDup (outpoint <$> inputs t) ∧ Forall (mature db height) (inputs t) ∧
  ∃ outs, Forall2 (stored db) (inputs t) outs ∧
          sumZ (value <$> outputs t) + MIN_FEE_PER_BYTE * tx_size t <= sumZ (value <$> outs).
Proof. apply transparent_valid. Qed.

Lemma anonymous_invalid db best t height :
  wf_tx t → tx_size t < 2 ^ 59 → is_coinbase t = false → is_anonymous t = true →
  validate_transaction db best t height ≠ Ok tt.
Proof.
  intros Hwf Hsz Hcb Han H. apply validate_transaction_Ok in H as (_ & _ & i & r & Hi & Hr & Hle); [|done|done].
  rewrite Han in Hi. subst i. unfold required_fee in Hr. rewrite Han in Hr. inv_ok.
  pose proof (serialize_tx_nonempty t). fold (tx_size t) in *.
  pose proof (sumZ_nonneg _ (wf_tx_outputs_nonneg t Hwf)).
  unfold MIN_FEE_PER_BYTE, ANON_FEE_MULTIPLIER_NUMERATOR, ANON_FEE_MULTIPLIER_DENOMINATOR in Hle.
  replace (tx_size t * 10 * 3 + (2 - 1)) with (1 + (15 * tx_size t) * 2) in Hle by lia.
  rewrite Z.div_add, Z.add_0_l in Hle by lia.
  rewrite wrap_small in Hle by (unfold uint; lia). lia.
Qed.

(** No anonymous transaction is ever accepted: its input sum stays 0, so
    that positive outputs exceed it and a fee of 0 is below the required one. *)
Theorem anonymous_never_valid db best t height :
  wf_tx t → tx_size t < 2 ^ 59 → is_coinbase t = false → is_anonymous t = true →
  validate_transaction db best t height ≠ Ok tt.
Proof. apply anonymous_invalid. Qed.

(** Same transaction up to the unlocking scripts. *)
Definition same_but_scripts (t u : Transaction) : Prop :=
  with_inputs (clear_script_sig <$> inputs t) t = with_inputs (clear_script_sig <$> inputs u) u.

Definition same_outpoint (i j : TXInput) : Prop :=
  txid i = txid j ∧ vout i = vout j ∧ sequence i = sequence j.

Lemma same_but_scripts_inputs t u :
  same_but_scripts t u → Forall2 same_outpoint (inputs t) (inputs u).
Proof.
  unfold same_but_scripts, with_inputs. intros [= _ _ H _ _ _].
  revert H. generalize (inputs t) (inputs u). intros l. induction l as [|i l IH]; intros [|j k] H;
    csimpl in H; try discriminate; [constructor|].
  injection H as H1 H2 H3 H. constructor; [done|by apply IH].
Qed.

Lemma is_coinbase_outpoints t u :
  Forall2 same_outpoint (inputs t) (inputs u) → is_coinbase t = is_coinbase u.
Proof.
  unfold is_coinbase. intros H. destruct H as [|i j l k (-> & -> & _) H]; [done|]. by destruct H.
Qed.

(** C40.  The unlocking scripts play no role in the validation of a transparent
    transaction: replacing them by any others of the same total size changes
    neither acceptance nor the error. *)
Theorem signatures_not_checked db best t u height :
  is_anonymous t = false → same_but_scripts t u → tx_size t = tx_size u →
  validate_transaction db best t height = validate_transaction db best u height.
Proof.
  intros Han Hs Hsz. pose proof (same_but_scripts_inputs _ _ Hs) as Hin.
  pose proof Hs as [= _ Ha _ Ho Hl _].
  unfold validate_transaction, required_fee. rewrite <- Ha, <- Ho, <- Hl, <- Hsz, Han.
  rewrite (is_coinbase_outpoints t u) by done.
  assert (existsb (λ i, negb (sequence i =? u32_MAX)) (inputs t)
          = existsb (λ i, negb (sequence i =? u32_MAX)) (inputs u)) as ->.
  { clear -Hin. induction Hin as [|i j l k (_ & _ & E) _ IH]; simpl; [done|by rewrite E, IH]. }
  rewrite (for_each_Forall2 same_outpoint (check_input db height) [] (inputs t) (inputs u)); [|clear|done].
  2: { intros a i j (E1 & E2 & _). unfold check_input. by rewrite E1, E2. }
  rewrite (for_each_Forall2 same_outpoint (utxo_value db) 0 (inputs t) (inputs u)); [done|clear|done].
  intros a i j (E1 & E2 & _). unfold utxo_value. by rewrite E1, E2.
Qed.

(** What is signed does not depend on the signatures already in place, so the
    inputs of a transaction can be signed in any order. *)
Theorem sighash_ignores_scripts t u i spk ty :
  same_but_scripts t u → sighash t i spk ty = sighash u i spk ty.
Proof.
  intros [= Hv Ha Hi Ho Hl Hr]. unfold sighash, with_inputs. by rewrite Hi, Hv, Ha, Ho, Hl, Hr.
Qed.

(** When the map holds the outputs a transaction spends, its fee is the
    difference of the two sums. *)
Lemma tx_fee_sums outs t l s so :
  Forall2 (λ i o, outs !! outpoint i = Some o) (inputs t) l →
  try_sum 64 (value <$> l) = Some s → try_sum 64 (value <$> outputs t) = Some so →
  tx_fee outs t = saturating_sub s so.
Proof.
  intros Hl Hs Hso. unfold tx_fee.
  assert (((λ vin, default 0 (value <$> outs !! (txid vin, vout vin))) <$> inputs t) = value <$> l) as ->.
  { clear -Hl. induction Hl as [|i o k l Hi _ IH]; [done|]. csimpl. f_equal; [|exact IH].
    unfold outpoint in Hi. by rewrite Hi. }
  by rewrite Hs, Hso.
Qed.

(** A transparent transaction that is accepted pays exactly what its inputs
    leave over, and that is at least the minimum. *)
Lemma valid_tx_fee db best t height outs_map :
  wf_tx t → tx_size t < 2 ^ 60 → is_coinbase t = false → is_anonymous t = false →
  validate_transaction db best t height = Ok tt →
  (∀ i o, i ∈ inputs t → stored db i o → outs_map !! outpoint i = Some o) →
  ∃ outs, Forall2 (stored db) (inputs t) outs ∧
    tx_fee outs_map t = sumZ (value <$> outs) - sumZ (value <$> outputs t) ∧
    MIN_FEE_PER_BYTE * tx_size t <= tx_fee outs_map t.
Proof.
  intros Hwf Hsz Hcb Han H Hmap.
  apply validate_transaction_Ok in H as (_ & _ & i & r & Hi & Hr & Hle); [|done|done].
  rewrite Han in Hi. destruct Hi as (outs & Ho & Ei & Hsum). exists outs. split; [done|].
  assert (i < 2 ^ 64) by (eapply try_sum_from_bound; [|exact Hsum]; lia).
  assert (0 <= wrap 64 r) by (apply wrap_uint; lia).
  assert (Hfee : tx_fee outs_map t = saturating_sub i (sumZ (value <$> outputs t))).
  { eapply tx_fee_sums; [|done|apply try_sum_eq; [lia|by apply wf_tx_outputs_nonneg|lia]].
    apply Forall2_same_length_lookup_2; [by apply Forall2_length in Ho|].
    intros k x y Hx Hy. eapply Hmap; [by apply list_elem_of_lookup_2 in Hx|].
    eapply Forall2_lookup_lr in Ho; eauto. }
  unfold required_fee in Hr. rewrite Han in Hr. inv_ok.
  unfold checked_mul, MIN_FEE_PER_BYTE in *. assert (0 <= tx_size t) by (unfold tx_size; lia).
  rewrite (wrap_small 64 (tx_size t)) in * by (unfold uint; lia).
  case_match; simplify_eq. zbool. rewrite wrap_small in * by (unfold uint; lia).
  rewrite Hfee. unfold saturating_sub. lia.
Qed.

(** A fee is never more than what the map credits to the inputs. *)
Lemma tx_fee_nonneg outs t : 0 <= tx_fee outs t.
Proof. unfold tx_fee, saturating_sub. do 2 (destruct (try_sum 64 _); [|done]). lia. Qed.

Lemma tx_fee_empty t : wf_tx t → tx_fee ∅ t = 0.
Proof.
  intros Hwf. unfold tx_fee.
  assert (((λ vin, default 0 (value <$> (∅ : gmap (bytes * Z) TXOutput) !! (txid vin, vout vin)))
             <$> inputs t) = replicate (length (inputs t)) 0) as ->.
  { induction (inputs t) as [|i l IH]; [done|]. csimpl. by rewrite IH, lookup_empty. }
  assert (∀ n, try_sum_from 64 0 (replicate n 0) = Some 0) as Hz.
  { induction n as [|n IH]; [done|]. simpl. exact IH. }
  unfold try_sum at 1. rewrite Hz. destruct (try_sum 64 (value <$> outputs t)) as [s|] eqn:E; [|done].
  apply try_sum_Some in E as [-> _]; [|lia|by apply wf_tx_outputs_nonneg].
  pose proof (sumZ_nonneg _ (wf_tx_outputs_nonneg t Hwf)). unfold saturating_sub. lia.
Qed.

End ValidationFacts.

(** ** Genesis block *)

Section GenesisFacts.
  Context {CR : Crypto} {CD : Codec}.

(** The proof-of-work test of a header against a target. *)
Definition meets_target (h : BlockHeader) (target : Z) : Prop :=
  ∃ hash, header_hash h = Ok hash ∧ u256_from_be hash <= target.

Lemma genesis_loop_Ok fuel h target n h' :
  0 <= n < 2 ^ 64 → genesis_loop fuel h target n = Ok h' →
  ∃ k, n <= k < 2 ^ 64 ∧ h' = with_nonce h k ∧ meets_target h' target ∧
       ∀ m, n <= m < k → ¬ meets_target (with_nonce h m) target.
Proof.
  revert h n. induction fuel as [|fuel IH]; intros h n Hn; simpl; [done|].
  intros (hash & Hh & H)%bind_Ok. destruct (Z.leb_spec (u256_from_be hash) target) as [Hle|Hgt].
  - inv_ok. exists n. split_and!; [lia|lia|done|by eexists|lia].
  - unfold wadd, wrap in H. destruct (Z.eq_dec n (2 ^ 64 - 1)) as [->|Hne].
    { by rewrite Z.sub_add, Z.mod_same in H. }
    rewrite Z.mod_small in H by lia. rewrite (proj2 (Z.eqb_neq _ _)) in H by lia.
    apply IH in H as (k & Hk & -> & Hm & Hmin); [|lia]. exists k. split_and!; [lia|lia|done|done|].
    intros m Hm2. destruct (Z.eq_dec m n) as [->|]; [|by apply Hmin; lia].
    intros (hash' & Hh' & ?). assert (hash' = hash) by congruence. subst. lia.
Qed.

Lemma genesis_loop_returns fuel h target n :
  0 <= n < 2 ^ 64 → 2 ^ 64 - n <= Z.of_nat fuel →
  (∃ h', genesis_loop fuel h target n = Ok h') ∨ ∃ e, genesis_loop fuel h target n = Err e.
Proof.
  revert h n. induction fuel as [|fuel IH]; intros h n Hn Hf; [lia|]. cbn [genesis_loop].
  unfold header_hash, pow_hash. destruct (calculate_hash _) as [hash|]; simpl; [|by eauto].
  case_match; [by eauto|]. case_match; [by eauto|]. zbool.
  assert (n <> 2 ^ 64 - 1).
  { intros ->. unfold wadd, wrap in *. rewrite Z.sub_add, Z.mod_same in *; lia. }
  unfold wadd, wrap. rewrite Z.mod_small by lia. apply IH; lia.
Qed.

(** Mining the genesis block: with one round of fuel per nonce the search
    returns, and the block it returns carries the first nonce whose RandomX
    hash is at most the genesis target, the Merkle root of its only
    transaction, and a coinbase worth the first subsidy. *)
Theorem create_genesis_block_correct fuel message pk :
  2 ^ 64 <= Z.of_nat fuel →
  (∃ e, create_genesis_block fuel message pk = Err e) ∨
  ∃ b target, create_genesis_block fuel message pk = Ok b ∧
    compact_to_target (bits (header b)) = Ok target ∧ meets_target (header b) target ∧
    0 <= nonce (header b) < 2 ^ 64 ∧
    (∀ m, 0 <= m < nonce (header b) → ¬ meets_target (with_nonce (header b) m) target) ∧
    compute_merkle_root (txs b) = Ok (merkle_root (header b)) ∧
    ∃ cb, txs b = [cb] ∧ is_coinbase cb = true ∧ value <$> outputs cb = [INITIAL_SUBSIDY].
Proof.
  intros Hf. unfold create_genesis_block.
  destruct (compute_merkle_root_Ok [genesis_coinbase message pk]) as [root Hroot]. rewrite Hroot.
  cbn [mbind outcome_bind]. set (h0 := mkBlockHeader 1 zero_hash root GENESIS_TIMESTAMP _ 0).
  destruct (compact_to_target (bits h0)) as [target| | |] eqn:Et; [|by eauto|by vm_compute in Et..].
  cbn [mbind outcome_bind].
  destruct (genesis_loop_returns fuel h0 target 0 ltac:(lia) ltac:(lia)) as [[h' E]|[e E]];
    rewrite E; simpl; [right|by eauto].
  apply genesis_loop_Ok in E as (k & Hk & -> & Hm & Hmin); [|lia].
  eexists _, target. split_and!; [done|exact Et|done|simpl; lia|simpl; lia|exact Hmin|done|].
  eexists. split_and!; [done|by vm_compute|by vm_compute].
Qed.

End GenesisFacts.

(** ** Scripts *)

Section ScriptFacts.
  Context {CR : Crypto} {CD : Codec}.

(** A spend of a pay-to-public-key-hash output that passes the script
    check carries a public key with the hash of the output and an ECDSA
    signature, under that key, of the transaction digest for its input. *)
Theorem validate_script_p2pkh input output t i :
  length (script_pubkey output) = 25%nat →
  validate_script_with_timeout input output t i = Ok tt →
  ∃ pubkey sig pk s msg ty,
    hash160 pubkey = sub_bytes 3 23 (script_pubkey output) ∧
    PublicKey_from_slice pubkey = Some pk ∧ Signature_from_der sig = Some s ∧
    sighash t i (script_pubkey output) ty = Ok msg ∧
    ∃ m, Message_from_slice msg = Some m ∧ verify_ecdsa m s pk = true.
Proof.
  intros Hlen. unfold validate_script_with_timeout. rewrite Hlen. simpl.
  unfold validate_p2pkh, verify_sig. intros H. inv_ok. zbool. naive_solver.
Qed.

(** A script that ends right after its signature makes the check panic. *)
Theorem validate_script_truncated_panics output t i :
  length (script_pubkey output) = 25%nat →
  take 3 (script_pubkey output) = [0x76; 0xa9; 0x14] →
  drop 23 (script_pubkey output) = [0x88; 0xac] →
  validate_script_with_timeout (mkTXInput zero_hash 0 [0] 0) output t i = Panic.
Proof.
  destruct output as [v spk c]. simpl. intros Hlen H1 H2.
  do 25 (destruct spk as [|? spk]; [done|]). destruct spk; [|done]. simplify_eq/=. reflexivity.
Qed.

End ScriptFacts.

(** ** Anonymous transactions *)

Section AnonymousFacts.
  Context {CR : Crypto} {CD : Codec} {RK : Rocks} {RKO : RocksOk}.

(** What the loop establishes for one input: its key image, its ring signature
    over the transaction, and the output it refers to. *)
Definition anon_input_ok (db : DB) (outs : gmap (bytes * Z) TXOutput) (t : Transaction)
    (vin : TXInput) (r : bytes * TXOutput) : Prop :=
  (KeyImage_from_slice (take 32 (script_sig vin)) = Some r.1) ∧
  (contents db !! ("key_images", r.1) = None) ∧
  (outs !! outpoint vin = Some r.2) ∧
  (∃ c, Clsag_deserialize (drop 32 (script_sig vin)) = Some c ∧
        0 ≠ Clsag_ring_len c ∧ Clsag_ring_len c <= MAX_RING_SIZE ∧
        Clsag_verify c (tx_hash t) r.1 = true).

Lemma validate_anon_input_Ok db outs t acc vin acc' :
  validate_anon_input db outs t acc vin = Ok acc' →
  ∃ r, anon_input_ok db outs t vin r ∧ (r.1 ∉ anon_seen acc) ∧
       anon_seen acc' = r.1 :: anon_seen acc ∧ anon_input_sum acc' = anon_input_sum acc + value r.2.
Proof.
  unfold validate_anon_input, slice_from. intros H.
  repeat (apply bind_Ok in H as (? & ? & H)). case_bool_decide; inv_ok. zbool.
  match goal with H : get_cf _ _ _ = _ |- _ => apply get_cf_sound in H end.
  match goal with H : checked_add _ _ _ = _ |- _ => apply checked_add_Some in H as [-> _] end.
  match goal with H1 : KeyImage_from_slice _ = Some ?k, H2 : outs !! _ = Some ?o |- _ => exists (k, o) end.
  subst. unfold anon_input_ok. split_and!; try done. eexists. split_and!; eauto; lia.
Qed.

Lemma validate_anon_inputs_Ok db outs t l acc acc' :
  for_each (validate_anon_input db outs t) acc l = Ok acc' →
  ∃ rs, Forall2 (anon_input_ok db outs t) l rs ∧ NoDup rs.*1 ∧
        (∀ k, k ∈ rs.*1 → k ∉ anon_seen acc) ∧
        anon_input_sum acc' = anon_input_sum acc + sumZ (value <$> rs.*2).
Proof.
  revert acc. induction l as [|vin l IH]; intros acc; simpl.
  { intros H. inv_ok. exists []. split_and!; [constructor|constructor|set_solver|simpl; lia]. }
  intros (a1 & (r & Hr & Hn & Hseen & Hsum)%validate_anon_input_Ok & Hl)%bind_Ok.
  apply IH in Hl as (rs & Hrs & Hnd & Hdis & Hs). exists (r :: rs). rewrite Hseen in Hdis.
  split_and!; [by constructor| | |csimpl; lia].
  - csimpl. apply NoDup_cons. split; [|done]. intros Hin. by apply Hdis in Hin; set_solver.
  - csimpl. set_solver.
Qed.

(** C11.  An anonymous transaction that passes its own validation spends each
    key image once, none of them already stored, each under a verified ring
    signature over an existing output, and creates no more value than it
    consumes. *)
Theorem validate_anonymous_tx_sound db outs t :
  Forall (λ o, 0 <= value o) (outputs t) →
  validate_anonymous_tx db outs t = Ok tt →
  ∃ rs, Forall2 (anon_input_ok db outs t) (inputs t) rs ∧ NoDup rs.*1 ∧
        sumZ (value <$> outputs t) <= sumZ (value <$> rs.*2).
Proof.
  intros Hpos. unfold validate_anonymous_tx.
  intros (acc & (rs & Hrs & Hnd & _ & Hs)%validate_anon_inputs_Ok & H)%bind_Ok. simpl in Hs.
  apply bind_Ok in H as (os & Ho & H). apply bind_Ok in H as (fee & Hfee & _). inv_ok.
  apply try_sum_Some in Ho as [-> _]; [|lia|by apply Forall_fmap].
  apply checked_sub_Some in Hfee as [_ Hle]. exists rs. split_and!; [done|done|lia].
Qed.

End AnonymousFacts.

(** ** Sample data and witnesses *)

Definition sample_id : bytes := replicate 32 7.

Definition sample_in (s : bytes) : TXInput := mkTXInput sample_id 0 s u32_MAX.

Definition sample_out (v : Z) : TXOutput := mkTXOutput v (replicate 25 0) None.

Definition sample_tx (s : bytes) : Transaction :=
  mkTransaction 1 false [sample_in s] [sample_out 1000] 0 [].

Definition sample_db : MemDB :=
  mkMemDB all_cfs {[("utxo", utxo_key sample_id 0) := serialize (sample_out 5000)]} [].

Lemma validate_transaction_sound_witness :
  NoDup (outpoint <$> inputs (sample_tx [])) ∧
  Forall (mature (RK:=mem_rocks) sample_db 150) (inputs (sample_tx [])) ∧
  ∃ outs, Forall2 (stored (RK:=mem_rocks) sample_db) (inputs (sample_tx [])) outs ∧
    sumZ (value <$> outputs (sample_tx [])) + MIN_FEE_PER_BYTE * tx_size (sample_tx [])
      <= sumZ (value <$> outs).
Proof.
  apply (validate_transaction_sound (RK:=mem_rocks) sample_db 149 (sample_tx []) 150);
    [by apply (bool_decide_unpack _); vm_compute|by vm_compute..].
Defined.

Definition sample_anon_tx : Transaction :=
  mkTransaction 1 true [sample_in (replicate 40 1)] [] 0 [].

Lemma anonymous_never_valid_witness :
  validate_transaction (RK:=mem_rocks) sample_db 149 sample_anon_tx 150 ≠ Ok tt.
Proof.
  apply (anonymous_never_valid (RK:=mem_rocks) sample_db 149 sample_anon_tx 150);
    [by apply (bool_decide_unpack _); vm_compute|by vm_compute..].
Defined.

Lemma signatures_not_checked_witness :
  validate_transaction (RK:=mem_rocks) sample_db 149 (sample_tx [1; 2; 3]) 150
  = validate_transaction (RK:=mem_rocks) sample_db 149 (sample_tx [9; 9; 9]) 150.
Proof.
  apply (signatures_not_checked (RK:=mem_rocks) sample_db 149 (sample_tx [1; 2; 3]) (sample_tx [9; 9; 9]) 150);
    by vm_compute.
Defined.

(** The transaction above is accepted, under any unlocking script. *)
Example sample_tx_accepted :
  validate_transaction (RK:=mem_rocks) sample_db 149 (sample_tx [9; 9; 9]) 150 = Ok tt.
Proof. by vm_compute. Qed.

(** A hash that forgets everything after 32 bytes: two blocks with different
    transactions have one root, and the collision is found. *)
Definition forgetful (l : bytes) : bytes := take 32 ((wrap 8 <$> l) ++ replicate 32 0).

Lemma forgetful_array l : wf_array 32 (forgetful l).
Proof.
  unfold forgetful. split; [|rewrite length_take, length_app, length_replicate; lia].
  apply Forall_take, Forall_app. split; [|by apply Forall_replicate].
  apply Forall_fmap, Forall_true. intros x. apply (Z.mod_pos_bound x 256). lia.
Qed.

Definition forgetful_crypto : Crypto := {|
  sha256 := forgetful;
  ripemd160 := @ripemd160 sample_crypto;
  calculate_hash := @calculate_hash sample_crypto;
  PublicKey := @PublicKey sample_crypto;
  PublicKey_from_slice := @PublicKey_from_slice sample_crypto;
  PublicKey_serialize := @PublicKey_serialize sample_crypto;
  Signature := @Signature sample_crypto;
  Signature_from_der := @Signature_from_der sample_crypto;
  Message_from_slice := @Message_from_slice sample_crypto;
  verify_ecdsa := @verify_ecdsa sample_crypto;
  KeyImage_from_slice := @KeyImage_from_slice sample_crypto;
  Clsag := @Clsag sample_crypto;
  Clsag_deserialize := @Clsag_deserialize sample_crypto;
  Clsag_ring_len := @Clsag_ring_len sample_crypto;
  Clsag_verify := @Clsag_verify sample_crypto;
  Point := @Point sample_crypto;
  Point_add := @Point_add sample_crypto;
  Point_eqb := @Point_eqb sample_crypto;
  CompressedRistretto_from_slice := @CompressedRistretto_from_slice sample_crypto;
  pc_commit := @pc_commit sample_crypto;
  RangeProof := @RangeProof sample_crypto;
  RangeProof_deserialize := @RangeProof_deserialize sample_crypto;
  batch_verify := @batch_verify sample_crypto;
  AnonPublicKey := @AnonPublicKey sample_crypto;
  AnonPublicKey_from_bytes := @AnonPublicKey_from_bytes sample_crypto;
  AnonPublicKey_to_bytes := @AnonPublicKey_to_bytes sample_crypto;
  to_base58check := @to_base58check sample_crypto;
  from_check := @from_check sample_crypto;
|}.

Lemma forgetful_crypto_ok : CryptoOk (H:=forgetful_crypto).
Proof. destruct sample_crypto_ok as [_ ? ? ? ? ? ?]. split; try done. apply forgetful_array. Qed.

#[local] Abbreviation confused n := [sample_tx []; mkTransaction n false [] [] 0 []].

Lemma merkle_root_binding_witness :
  ∃ x y, merkle_collision (CR:=forgetful_crypto) (confused 1) (confused 2) = Some (x, y) ∧
    collision (CR:=forgetful_crypto) x y.
Proof.
  destruct (compute_merkle_root_Ok (CR:=forgetful_crypto) (confused 1)) as [r Hr].
  assert (compute_merkle_root (CR:=forgetful_crypto) (confused 2) = Ok r) as Hr' by (rewrite <- Hr; by vm_compute).
  destruct (merkle_root_binding (CRO:=forgetful_crypto_ok) (confused 1) (confused 2) r eq_refl Hr Hr') as [E|H]; [|exact H].
  exfalso. vm_compute in E. discriminate E.
Defined.

(** A one-entry cache. *)
#[export] Instance sample_lru : Lru bytes bytes := {|
  LruCache := option (bytes * bytes);
  lru_get c k := (match c with Some (k', v) => if bool_decide (k' = k) then Some v else None | None => None end, c);
  lru_put _ k v := Some (k, v);
|}.

#[export] Instance sample_lru_ok : LruOk bytes bytes.
Proof.
  refine {| lru_entry := λ (c : LruCache bytes bytes) k v, c = Some (k, v) |}; simpl.
  - intros [[k' v']|] k v; [|done]. case_bool_decide; naive_solver.
  - done.
  - intros c k v k' v' [= -> ->]. by left.
Defined.

Lemma Transaction_hash_correct_witness :
  (Transaction_hash (sample_tx []) (None : LruCache bytes bytes)).1 = Ok (tx_hash (sample_tx [])) ∧
  cache_ok (Transaction_hash (sample_tx []) (None : LruCache bytes bytes)).2.
Proof. apply Transaction_hash_correct. by intros k v [=]. Defined.

Lemma create_genesis_block_correct_witness :
  (∃ e, create_genesis_block (Z.to_nat (2 ^ 64)) (bstr "Lyrion") [] = Err e) ∨
  ∃ b target, create_genesis_block (Z.to_nat (2 ^ 64)) (bstr "Lyrion") [] = Ok b ∧
    compact_to_target (bits (header b)) = Ok target ∧ meets_target (header b) target ∧
    0 <= nonce (header b) < 2 ^ 64 ∧
    (∀ m, 0 <= m < nonce (header b) → ¬ meets_target (with_nonce (header b) m) target) ∧
    compute_merkle_root (txs b) = Ok (merkle_root (header b)) ∧
    ∃ cb, txs b = [cb] ∧ is_coinbase cb = true ∧ value <$> outputs cb = [INITIAL_SUBSIDY].
Proof. apply create_genesis_block_correct. rewrite Z2Nat.id; lia. Defined.

(** The search of the sample instance succeeds at once. *)
Example sample_genesis_mined :
  nonce ∘ header <$> create_genesis_block 1 (bstr "Lyrion") [] = Ok 0.
Proof. by vm_compute. Qed.

Definition sample_key : bytes := replicate 33 2.

Definition sample_p2pkh_out : TXOutput := mkTXOutput 5000 (p2pkh_script sample_key) None.

(** The signature of the sample instance, followed by the sighash type. *)
Definition sample_sig : bytes :=
  match sighash (sample_tx []) 0 (script_pubkey sample_p2pkh_out) 1 with
  | Ok m => sample_ripemd160 (m ++ sample_key) ++ [1]
  | _ => []
  end.

Definition sample_script_sig : bytes :=
  Z.of_nat (length sample_sig) :: sample_sig ++ 33 :: sample_key.

Lemma validate_script_p2pkh_witness :
  ∃ pubkey sig pk s msg ty,
    hash160 pubkey = sub_bytes 3 23 (script_pubkey sample_p2pkh_out) ∧
    PublicKey_from_slice pubkey = Some pk ∧ Signature_from_der sig = Some s ∧
    sighash (sample_tx sample_script_sig) 0 (script_pubkey sample_p2pkh_out) ty = Ok msg ∧
    ∃ m, Message_from_slice msg = Some m ∧ verify_ecdsa m s pk = true.
Proof.
  apply (validate_script_p2pkh (sample_in sample_script_sig) sample_p2pkh_out
           (sample_tx sample_script_sig) 0); by vm_compute.
Defined.

Definition sample_anon_out : TXOutput := mkTXOutput 40 [] (Some (40 :: replicate 31 0)).

Lemma validate_anonymous_tx_sound_witness :
  ∃ rs, Forall2 (anon_input_ok (RK:=mem_rocks) sample_db {[(sample_id, 0) := sample_anon_out]} sample_anon_tx)
          (inputs sample_anon_tx) rs ∧ NoDup rs.*1 ∧
        sumZ (value <$> outputs sample_anon_tx) <= sumZ (value <$> rs.*2).
Proof.
  apply (validate_anonymous_tx_sound (RK:=mem_rocks)); [by constructor|by vm_compute].
Defined.
