(* ===== verification/Ledger.v ===== *)
(** * Ledger: the UTXO set and its two summaries

    The part of src/111/src/chain.rs that turns a block into database
    operations: [hash_utxo_entry], [xor_hash], [handle_utxo_action] and
    [apply_utxo_changes].  A block reads the database as it was before the
    block (the snapshot), and accumulates a write batch, the inverse operations
    used when the write fails, and the running XOR hash and total value of the
    set of unspent outputs.

    [handle_utxo_action] uses [height], [cf_key_images] and [self.conn], which
    are not in its scope; they are read as the height of the block and the
    handles that its caller has. *)
From S2P Require Import Prelude Errors Types Externals Instances Utils Keys Tx.

Create HintDb ledger.

Section Ledger.
  Context {CR : Crypto} {CD : Codec} {RK : Rocks}.

Definition hash_utxo_entry (id : bytes) (n : Z) (output : TXOutput) : bytes :=
  sha256d (id ++ to_be_bytes 4 n ++ to_be_bytes 8 (value output) ++ script_pubkey output
           ++ default [] (commitment output)).

(** [xor_hash(a, b)] on two arrays of 32 bytes. *)
Definition xor_hash (a b : bytes) : bytes := zip_xor a b.

Record utxo_acc := mkUtxoAcc {
  ua_batch : WriteBatch;
  ua_rollback : list (cf * bytes * option bytes);
  ua_set_hash : bytes;
  ua_supply : Z;
}.

Definition push_op (o : batch_op) (a : utxo_acc) : utxo_acc :=
  mkUtxoAcc (ua_batch a ++ [o]) (ua_rollback a) (ua_set_hash a) (ua_supply a).

Definition push_rollback (c : cf) (k : bytes) (v : option bytes) (a : utxo_acc) : utxo_acc :=
  mkUtxoAcc (ua_batch a) (ua_rollback a ++ [(c, k, v)]) (ua_set_hash a) (ua_supply a).

(** [if let Some(prev) = .. { rollback_ops.push((cf, key, Some(prev))) }] *)
Definition push_rollback_if (c : cf) (k : bytes) (prev : option bytes) (a : utxo_acc) : utxo_acc :=
  match prev with Some _ => push_rollback c k prev a | None => a end.

(** [xor_hash(current_set_hash, h)] and the update of [current_supply]. *)
Definition account (h : bytes) (s : Z) (a : utxo_acc) : utxo_acc :=
  mkUtxoAcc (ua_batch a) (ua_rollback a) (xor_hash (ua_set_hash a) h) s.

Definition output_cf (anon : bool) : cf := if anon then "anonymous" else "utxo".

(** The coinbase branch. *)
Definition handle_coinbase (snapshot : DB) (height : Z) (is_connect : bool) (t : Transaction)
    (a : utxo_acc) : outcome utxo_acc :=
  (if cf_handle snapshot "coinbase" then Ok tt else Panic);;
  let id := tx_hash t in
  if is_connect then
    Ok (push_rollback "coinbase" id None (push_op (BPut "coinbase" id (to_be_bytes 8 height)) a))
  else
    prev ← get_cf snapshot "coinbase" id;
    Ok (push_op (BDelete "coinbase" id) (push_rollback_if "coinbase" id prev a)).

(** The key image of an anonymous input. *)
Definition handle_key_image (snapshot : DB) (height : Z) (is_connect : bool) (vin : TXInput)
    (a : utxo_acc) : outcome utxo_acc :=
  (ensure (negb (length (script_sig vin) <? 32)%nat) InvalidScript);;
  ki ← slice 0 32 (script_sig vin);
  key_image ← ok_or (KeyImage_from_slice ki) InvalidKeyImage;
  known ← get_cf snapshot "key_images" key_image;
  (ensure (negb (bool_decide (known ≠ None) && is_connect)) DoubleSpend);;
  if is_connect then
    Ok (push_rollback "key_images" key_image None
          (push_op (BPut "key_images" key_image (to_be_bytes 8 height)) a))
  else
    prev ← get_cf snapshot "key_images" key_image;
    Ok (push_op (BDelete "key_images" key_image) (push_rollback_if "key_images" key_image prev a)).

(** One input: the output it spends leaves the set (connect) or comes back. *)
Definition handle_input (snapshot : DB) (height : Z) (is_connect anon : bool) (a : utxo_acc)
    (vin : TXInput) : outcome utxo_acc :=
  a ← (if anon then handle_key_image snapshot height is_connect vin a else Ok a);
  let c := output_cf anon in
  let key := output_key anon (txid vin) (vout vin) in
  found ← get_cf snapshot c key;
  match found with
  | None => bail MissingUTXO
  | Some prev =>
      prev_out ← ok_or (deserialize (A:=TXOutput) prev) (Anyhow "Deserialize prev_out failed");
      let element_hash := hash_utxo_entry (txid vin) (vout vin) prev_out in
      if is_connect then
        s ← ok_or (checked_sub (ua_supply a) (value prev_out)) ValueOverflow;
        Ok (push_op (BDelete c key) (push_rollback c key (Some prev) (account element_hash s a)))
      else
        s ← ok_or (checked_add 64 (ua_supply a) (value prev_out)) ValueOverflow;
        Ok (push_rollback c key None (push_op (BPut c key prev) (account element_hash s a)))
  end.

(** One output, at the index [vout] the iterator gives it. *)
Definition handle_output (snapshot : DB) (is_connect anon : bool) (t : Transaction) (a : utxo_acc)
    (io : nat * TXOutput) : outcome utxo_acc :=
  let '(i, out) := io in
  let n := wrap 32 (Z.of_nat i) in
  let c := output_cf anon in
  let key := output_key anon (tx_hash t) n in
  let element_hash := hash_utxo_entry (tx_hash t) n out in
  a ← (if is_connect then
         s ← ok_or (checked_add 64 (ua_supply a) (value out)) ValueOverflow;
         Ok (push_rollback c key None (push_op (BPut c key (serialize out)) (account element_hash s a)))
       else
         s ← ok_or (checked_sub (ua_supply a) (value out)) ValueOverflow;
         prev ← get_cf snapshot c key;
         Ok (push_op (BDelete c key) (push_rollback_if c key prev (account element_hash s a))));
  if anon then Ok a else
  let akey := addr_key (script_pubkey out) (tx_hash t) n in
  if is_connect then
    Ok (push_rollback "addr_index" akey None
          (push_op (BPut "addr_index" akey (to_be_bytes 8 (value out))) a))
  else
    prev ← get_cf snapshot "addr_index" akey;
    Ok (push_op (BDelete "addr_index" akey) (push_rollback_if "addr_index" akey prev a)).

(** [outputs.iter().enumerate()] when connecting, [outputs.iter().rev().enumerate()]
    when disconnecting: the index counts the reversed sequence. *)
Definition enumerated (is_connect : bool) (outs : list TXOutput) : list (nat * TXOutput) :=
  imap pair (if is_connect then outs else reverse outs).

Definition handle_utxo_action (snapshot : DB) (height : Z) (is_connect : bool) (a : utxo_acc)
    (t : Transaction) : outcome utxo_acc :=
  if is_coinbase t then handle_coinbase snapshot height is_connect t a else
  a ← for_each (handle_input snapshot height is_connect (is_anonymous t)) a (inputs t);
  for_each (handle_output snapshot is_connect (is_anonymous t) t) a (enumerated is_connect (outputs t)).

(** [apply_utxo_changes]: starts from the set hash and supply held in memory,
    returns the extended batch with both summaries stored at its end. *)
Definition apply_utxo_changes (snapshot : DB) (height : Z) (is_connect : bool) (b : Block)
    (set_hash : bytes) (supply : Z) (batch : WriteBatch) : outcome utxo_acc :=
  a ← for_each (handle_utxo_action snapshot height is_connect) (mkUtxoAcc batch [] set_hash supply) (txs b);
  Ok (push_op (Put DB_KEY_TOTAL_SUPPLY (to_be_bytes 8 (ua_supply a)))
        (push_op (Put DB_KEY_UTXO_SET_HASH (ua_set_hash a)) a)).

End Ledger.

(** ** The set of unspent outputs and its summaries *)

Section LedgerSpec.
  Context {CR : Crypto} {CRO : CryptoOk} {CD : Codec} {CDO : CodecOk}.

(** The two column families that hold unspent outputs. *)
Definition utxo_cf (c : cf) : bool := bool_decide (c = "utxo") || bool_decide (c = "anonymous").

(** The outpoint a key of those families stands for. *)
Definition key_outpoint (k : bytes) : bytes * Z := (sub_bytes 2 34 k, from_be_bytes (sub_bytes 34 38 k)).

(** What an entry of the database contributes to each summary. *)
Definition entry_value (ck : cf * bytes) (v : bytes) : Z :=
  if utxo_cf ck.1 then match deserialize (A:=TXOutput) v with Some o => value o | None => 0 end else 0.

Definition entry_hash (ck : cf * bytes) (v : bytes) : bytes :=
  if utxo_cf ck.1 then
    match deserialize (A:=TXOutput) v with
    | Some o => hash_utxo_entry (key_outpoint ck.2).1 (key_outpoint ck.2).2 o
    | None => zero_hash
    end
  else zero_hash.

(** The value of all unspent outputs, and the XOR of their hashes. *)
Definition supply_of (m : gmap (cf * bytes) bytes) : Z := summary Z.add 0 entry_value m.

Definition set_hash_of (m : gmap (cf * bytes) bytes) : bytes :=
  summary zip_xor zero_hash entry_hash m.

(** The pair (hash, supply) summarises the unspent outputs stored in [m]. *)
Definition tracks (m : gmap (cf * bytes) bytes) (h : bytes) (s : Z) : Prop :=
  h = set_hash_of m ∧ s = supply_of m.

Lemma length_entry_hash ck v : length (entry_hash ck v) = 32%nat.
Proof. unfold entry_hash, hash_utxo_entry. repeat case_match; first [apply length_sha256d|done]. Qed.

Lemma length_set_hash_of m : length (set_hash_of m) = 32%nat.
Proof.
  unfold set_hash_of. apply (summary_inv _ _ _ (λ a, length a = 32%nat)); [done|].
  intros k v a Ha. apply length_zip_xor; [apply length_entry_hash|done].
Qed.

Lemma zip_xor_zero_l n a : length a = n → zip_xor (replicate n 0) a = a.
Proof. intros <-. induction a; simpl; [done|]. by f_equal. Qed.

Lemma zip_xor_assoc_r x y z : zip_xor x (zip_xor y z) = zip_xor (zip_xor x y) z.
Proof. by rewrite zip_xor_assoc. Qed.

#[local] Hint Resolve Z.add_assoc Z.add_comm zip_xor_assoc_r zip_xor_comm : core.

(** A fresh unspent output is accounted for by adding it to both summaries. *)
Lemma tracks_insert m h s ck v o :
  utxo_cf ck.1 = true → m !! ck = None → deserialize v = Some o → tracks m h s →
  tracks (<[ck:=v]> m) (zip_xor h (hash_utxo_entry (key_outpoint ck.2).1 (key_outpoint ck.2).2 o))
    (s + value o).
Proof.
  intros Hc Hk Hv [-> ->]. unfold tracks, set_hash_of, supply_of.
  rewrite !summary_insert by auto. unfold entry_hash at 2, entry_value at 2. rewrite Hc, Hv.
  split; [apply zip_xor_comm|lia].
Qed.

(** A stored output that is spent leaves both summaries. *)
Lemma tracks_delete m h s ck v o :
  utxo_cf ck.1 = true → m !! ck = Some v → deserialize v = Some o → tracks m h s →
  tracks (delete ck m) (zip_xor h (hash_utxo_entry (key_outpoint ck.2).1 (key_outpoint ck.2).2 o))
    (s - value o).
Proof.
  intros Hc Hk Hv [-> ->]. unfold tracks.
  assert (Hh : set_hash_of m = zip_xor (entry_hash ck v) (set_hash_of (delete ck m))).
  { unfold set_hash_of. apply summary_delete; auto. }
  assert (Hs : supply_of m = entry_value ck v + supply_of (delete ck m)).
  { unfold supply_of. apply summary_delete; auto. }
  rewrite Hh, Hs. unfold entry_hash, entry_value. rewrite Hc, Hv. split; [|lia].
  rewrite (zip_xor_comm _ (set_hash_of _)), zip_xor_cancel; [done|].
  rewrite length_set_hash_of. symmetry. apply length_sha256d.
Qed.

(** Operations on other column families do not matter. *)
Lemma tracks_other m h s o :
  utxo_cf (op_key o).1 = false → tracks m h s → tracks (apply_op m o) h s.
Proof.
  intros Hc [-> ->]. unfold tracks.
  assert (E : apply_op m o = match (match o with BPut _ _ v => Some v | BDelete _ _ => None end) with
              | Some v => <[op_key o := v]> m | None => delete (op_key o) m end) by by destruct o.
  rewrite E. unfold set_hash_of, supply_of. rewrite !summary_other; [done|auto..].
  - intros v m'. unfold entry_value. by rewrite Hc.
  - intros v m'. unfold entry_hash. rewrite Hc. apply zip_xor_zero_l, length_set_hash_of.
Qed.

Lemma key_outpoint_output_key b id n :
  length id = 32%nat → uint 32 n → key_outpoint (output_key b id n) = (id, n).
Proof.
  intros Hid Hn. unfold key_outpoint.
  assert (∀ p : bytes, length p = 2%nat →
    (sub_bytes 2 34 (p ++ id ++ to_be_bytes 4 n), from_be_bytes (sub_bytes 34 38 (p ++ id ++ to_be_bytes 4 n))) = (id, n)) as Hp.
  { intros p Hp. f_equal; [by apply sub_bytes_app_mid; rewrite ?Hid|].
    rewrite app_assoc, <- (app_nil_r (to_be_bytes 4 n)), sub_bytes_app_mid.
    - by apply (from_to_be_bytes 4).
    - rewrite length_app. lia.
    - rewrite length_to_be_bytes. lia. }
  destruct b; by apply Hp.
Qed.

End LedgerSpec.

(** ** Connecting a block *)

Section Connect.
  Context {CR : Crypto} {CRO : CryptoOk} {CD : Codec} {CDO : CodecOk} {RK : Rocks} {RKO : RocksOk}.

Definition pending (snapshot : DB) (a : utxo_acc) : gmap (cf * bytes) bytes :=
  apply_batch (ua_batch a) (contents snapshot).

(** Database entries a transaction spends and creates. *)
Definition spent_key (t : Transaction) (i : TXInput) : cf * bytes :=
  (output_cf (is_anonymous t), output_key (is_anonymous t) (txid i) (vout i)).

Definition created_entry (t : Transaction) (io : nat * TXOutput) : (cf * bytes) * bytes :=
  ((output_cf (is_anonymous t), output_key (is_anonymous t) (tx_hash t) (wrap 32 (Z.of_nat io.1))),
   serialize io.2).

Definition spent_keys (t : Transaction) : list (cf * bytes) :=
  if is_coinbase t then [] else spent_key t <$> inputs t.

Definition created_entries (t : Transaction) : list ((cf * bytes) * bytes) :=
  if is_coinbase t then [] else created_entry t <$> enumerated true (outputs t).

Lemma utxo_cf_output_cf b : utxo_cf (output_cf b) = true.
Proof. by destruct b. Qed.

(** The state of the accumulator after the entries [S] have been spent and the
    entries [C] created. *)
Record connected (snapshot : DB) (S : list (cf * bytes)) (C : list ((cf * bytes) * bytes))
    (a : utxo_acc) : Prop := mkConnected {
  con_tracks : tracks (pending snapshot a) (ua_set_hash a) (ua_supply a);
  con_same : ∀ ck, utxo_cf ck.1 = true → ck ∉ S → ck ∉ C.*1 →
    pending snapshot a !! ck = contents snapshot !! ck;
  con_spent : ∀ ck, ck ∈ S → is_Some (contents snapshot !! ck) ∧ pending snapshot a !! ck = None;
  con_created : ∀ ck v, (ck, v) ∈ C → pending snapshot a !! ck = Some v;
  con_cf : ∀ ck, ck ∈ S ∨ ck ∈ C.*1 → utxo_cf ck.1 = true;
}.

Lemma pending_push_op db o a : pending db (push_op o a) = apply_op (pending db a) o.
Proof. unfold pending. simpl. by rewrite apply_batch_app. Qed.

Lemma pending_push_rollback db c k v a : pending db (push_rollback c k v a) = pending db a.
Proof. done. Qed.

Lemma pending_account db h s a : pending db (account h s a) = pending db a.
Proof. done. Qed.

Lemma connected_rollback db S C c k v a :
  connected db S C (push_rollback c k v a) ↔ connected db S C a.
Proof. split; intros []; by split. Qed.

(** Operations on other column families keep the invariant. *)
Lemma connected_other db S C o a :
  utxo_cf (op_key o).1 = false → connected db S C a → connected db S C (push_op o a).
Proof.
  intros Ho [Ht Hsame Hsp Hcr Hcf].
  assert (Hne : ∀ ck, utxo_cf ck.1 = true → pending db (push_op o a) !! ck = pending db a !! ck).
  { intros ck Hck. rewrite pending_push_op, apply_op_ne; [done|]. intros <-. congruence. }
  split.
  - rewrite pending_push_op. by apply tracks_other.
  - intros. rewrite Hne by done. auto.
  - intros ck Hck. rewrite Hne by auto. auto.
  - intros ck v Hck. rewrite Hne; [auto|]. apply Hcf. right. apply list_elem_of_fmap. by exists (ck, v).
  - done.
Qed.

Lemma connected_spend db S C a ck v o s :
  utxo_cf ck.1 = true → ck ∉ S → (∀ ck', ck' ∈ C.*1 → contents db !! ck' = None) →
  contents db !! ck = Some v → deserialize v = Some o → s = ua_supply a - value o →
  connected db S C a →
  connected db (ck :: S) C
    (push_op (BDelete ck.1 ck.2)
       (account (hash_utxo_entry (key_outpoint ck.2).1 (key_outpoint ck.2).2 o) s a)).
Proof.
  intros Hcf HS Hfresh Hv Ho -> [Ht Hsame Hsp Hcr Hall].
  assert (HC : ck ∉ C.*1) by (intros Hin; rewrite (Hfresh _ Hin) in Hv; done).
  assert (Hp : pending db a !! ck = Some v) by by rewrite Hsame.
  split; rewrite ?pending_push_op, ?pending_account; simpl; rewrite <- ?surjective_pairing.
  - by eapply tracks_delete.
  - intros ck' Hc' Hs' HC'. rewrite lookup_delete_ne by set_solver. apply Hsame; set_solver.
  - intros ck' [->|Hin]%elem_of_cons; [rewrite lookup_delete_eq; by eauto|].
    rewrite lookup_delete_ne by (intros ->; done). auto.
  - intros ck' v' Hin. rewrite lookup_delete_ne; [auto|]. intros ->.
    apply HC, list_elem_of_fmap. by exists (ck', v').
  - intros ck' [[->|?]%elem_of_cons|?]; auto.
Qed.

Lemma connected_create db S C a ck v o s :
  utxo_cf ck.1 = true → ck ∉ C.*1 → contents db !! ck = None → deserialize v = Some o →
  s = ua_supply a + value o → connected db S C a →
  connected db S ((ck, v) :: C)
    (push_op (BPut ck.1 ck.2 v)
       (account (hash_utxo_entry (key_outpoint ck.2).1 (key_outpoint ck.2).2 o) s a)).
Proof.
  intros Hcf HC Hfresh Ho -> [Ht Hsame Hsp Hcr Hall].
  assert (HS : ck ∉ S) by (intros [[? ?] _]%Hsp; congruence).
  assert (Hp : pending db a !! ck = None) by by rewrite Hsame.
  split; rewrite ?pending_push_op, ?pending_account; simpl; rewrite <- ?surjective_pairing.
  - by eapply tracks_insert.
  - intros ck' Hc' Hs' HC'. rewrite lookup_insert_ne by set_solver. apply Hsame; set_solver.
  - intros ck' Hin. rewrite lookup_insert_ne by (intros ->; done). auto.
  - intros ck' v' [[= -> ->]|Hin]%elem_of_cons; [by rewrite lookup_insert_eq|].
    rewrite lookup_insert_ne; [auto|]. intros ->. apply HC, list_elem_of_fmap. by exists (ck', v').
  - intros ck' [?|[->|?]%elem_of_cons]; auto.
Qed.

Lemma handle_key_image_connected db height S C vin a a' :
  handle_key_image db height true vin a = Ok a' → connected db S C a → connected db S C a'.
Proof.
  unfold handle_key_image. intros H. inv_ok. intros Hc.
  apply connected_rollback. by apply connected_other.
Qed.

Lemma handle_input_connected db height t S C a vin a' :
  wf_input vin → spent_key t vin ∉ S → (∀ ck, ck ∈ C.*1 → contents db !! ck = None) →
  handle_input db height true (is_anonymous t) a vin = Ok a' →
  connected db S C a → connected db (spent_key t vin :: S) C a'.
Proof.
  intros ([_ Hid] & Hvout & _) HS Hfresh H Hc. unfold handle_input in H.
  apply bind_Ok in H as (a1 & Ha1 & H). apply bind_Ok in H as (found & Hf & H).
  assert (Hc1 : connected db S C a1).
  { destruct (is_anonymous t); [by eapply handle_key_image_connected|by inv_ok]. }
  apply get_cf_sound in Hf. destruct found as [prev|]; [|done]. inv_ok.
  match goal with H : checked_sub _ _ = _ |- _ => apply checked_sub_Some in H as [-> _] end.
  pose proof (connected_spend db S C a1 (spent_key t vin) prev x _ (utxo_cf_output_cf _) HS Hfresh
    (eq_sym Hf) ltac:(done) eq_refl Hc1) as Hres.
  unfold spent_key in *. cbn [fst snd] in Hres. rewrite key_outpoint_output_key in Hres by done.
  destruct Hres. by split.
Qed.

Lemma handle_output_connected db t S C a io a' :
  Z.of_nat io.1 < 2 ^ 32 → wf_output io.2 → (created_entry t io).1 ∉ C.*1 →
  contents db !! (created_entry t io).1 = None →
  handle_output db true (is_anonymous t) t a io = Ok a' →
  connected db S C a → connected db S (created_entry t io :: C) a'.
Proof.
  destruct io as [i out]. simpl. intros Hi Hwf HC Hfresh H Hc. inv_ok.
  match goal with H : checked_add _ _ _ = _ |- _ => apply checked_add_Some in H as [-> _] end.
  pose proof (connected_create db S C a (created_entry t (i, out)).1 (serialize out) out _
    (utxo_cf_output_cf _) HC Hfresh (deserialize_serialize _ Hwf) eq_refl Hc) as Hres.
  unfold created_entry in *. cbn [fst snd] in Hres.
  rewrite key_outpoint_output_key in Hres by (try apply length_sha256d; by apply wrap_uint).
  destruct (is_anonymous t); inv_ok; [by apply connected_rollback|].
  apply connected_rollback, connected_other; [done|]. by apply connected_rollback.
Qed.

(** The transactions of a block, one after the other. *)
Definition block_spent (l : list Transaction) : list (cf * bytes) := l ≫= spent_keys.

Definition block_created (l : list Transaction) : list ((cf * bytes) * bytes) := l ≫= created_entries.

(** Values of the Rust types whose output indices fit in 32 bits. *)
Definition wf_tx_outputs (t : Transaction) : Prop :=
  wf_tx t ∧ Z.of_nat (length (outputs t)) < 2 ^ 32.

Lemma handle_inputs_connected db height t S C a l a' :
  Forall wf_input l → NoDup ((spent_key t <$> l) ++ S) →
  (∀ ck, ck ∈ C.*1 → contents db !! ck = None) →
  for_each (handle_input db height true (is_anonymous t)) a l = Ok a' →
  connected db S C a → connected db (reverse (spent_key t <$> l) ++ S) C a'.
Proof.
  intros Hwf Hnd Hfresh. revert S a Hnd. induction Hwf as [|i l Hi Hl IH]; intros S a Hnd H Hc; csimpl in *.
  { by inv_ok. }
  apply bind_Ok in H as (a1 & H1 & H). apply NoDup_cons in Hnd as [Hn Hnd].
  rewrite reverse_cons, <- app_assoc. apply (IH _ a1); [|done|].
  - simpl. rewrite <- Permutation_middle. by apply NoDup_cons.
  - eapply handle_input_connected; eauto. intros Hin. apply Hn, elem_of_app. by right.
Qed.

Lemma handle_outputs_connected db t S C a l a' :
  Forall (λ io, Z.of_nat io.1 < 2 ^ 32 ∧ wf_output io.2) l →
  NoDup ((created_entry t <$> l).*1 ++ C.*1) →
  (∀ ck, ck ∈ (created_entry t <$> l).*1 → contents db !! ck = None) →
  for_each (handle_output db true (is_anonymous t) t) a l = Ok a' →
  connected db S C a → connected db S (reverse (created_entry t <$> l) ++ C) a'.
Proof.
  intros Hwf. revert C a. induction Hwf as [|io l [Hi Hio] Hl IH]; intros C a Hnd Hfresh H Hc; csimpl in *.
  { by inv_ok. }
  apply bind_Ok in H as (a1 & H1 & H). apply NoDup_cons in Hnd as [Hn Hnd].
  rewrite reverse_cons, <- app_assoc. apply (IH _ a1); [| |done|].
  - csimpl. rewrite <- Permutation_middle. by apply NoDup_cons.
  - intros ck Hck. apply Hfresh. by right.
  - apply (handle_output_connected db t S C a io a1); [done|done| |apply Hfresh; by left|done|done].
    intros Hin. apply Hn, elem_of_app. by right.
Qed.

Lemma enumerated_bound t :
  wf_tx_outputs t → Forall (λ io, Z.of_nat io.1 < 2 ^ 32 ∧ wf_output io.2) (enumerated true (outputs t)).
Proof.
  intros [(_ & _ & _ & Ho & _) Hl]. unfold enumerated. apply Forall_forall. intros [i o] Hin.
  apply list_elem_of_lookup in Hin as [j Hj]. rewrite list_lookup_imap in Hj.
  destruct (outputs t !! j) as [o'|] eqn:E; [|done]. simplify_eq/=. split.
  - apply lookup_lt_Some in E. lia.
  - by eapply Forall_lookup_1 in E.
Qed.

Lemma handle_utxo_action_connected db height t S C a a' :
  wf_tx_outputs t → NoDup (spent_keys t ++ S) → NoDup ((created_entries t).*1 ++ C.*1) →
  (∀ ck, ck ∈ (created_entries t).*1 ++ C.*1 → contents db !! ck = None) →
  handle_utxo_action db height true a t = Ok a' → connected db S C a →
  connected db (reverse (spent_keys t) ++ S) (reverse (created_entries t) ++ C) a'.
Proof.
  intros Hwf HS HC Hfresh H Hc. unfold handle_utxo_action, spent_keys, created_entries in *.
  destruct (is_coinbase t).
  - unfold handle_coinbase in H. apply bind_Ok in H as (_ & _ & H). inv_ok.
    by apply connected_rollback, connected_other.
  - apply bind_Ok in H as (a1 & H1 & H). destruct Hwf as [Hwf Hlen]. pose proof Hwf as (_ & Hin & _).
    eapply handle_outputs_connected; [by apply enumerated_bound|done| |done|].
    + intros ck Hck. apply Hfresh, elem_of_app. by left.
    + eapply handle_inputs_connected; [done|done| |done|done].
      intros ck Hck. apply Hfresh, elem_of_app. by right.
Qed.

Lemma handle_txs_connected db height l S C a a' :
  Forall wf_tx_outputs l → NoDup (block_spent l ++ S) → NoDup ((block_created l).*1 ++ C.*1) →
  (∀ ck, ck ∈ (block_created l).*1 ++ C.*1 → contents db !! ck = None) →
  for_each (handle_utxo_action db height true) a l = Ok a' → connected db S C a →
  connected db (reverse (block_spent l) ++ S) (reverse (block_created l) ++ C) a'.
Proof.
  intros Hwf. revert S C a. induction Hwf as [|t l Ht Hl IH]; intros S C a HS HC Hfresh H Hc.
  { simpl in *. by inv_ok. }
  cbn [for_each] in H. apply bind_Ok in H as (a1 & H1 & H).
  assert (Es : block_spent (t :: l) = spent_keys t ++ block_spent l) by done.
  assert (Ec : block_created (t :: l) = created_entries t ++ block_created l) by done.
  rewrite Es, Ec, fmap_app in *. rewrite !reverse_app, <- !app_assoc in *.
  apply (IH _ _ a1).
  - by rewrite <- perm_rev_swap.
  - by rewrite fmap_app, fmap_reverse, <- perm_rev_swap.
  - intros ck. rewrite fmap_app, fmap_reverse, <- perm_rev_swap. apply Hfresh.
  - done.
  - apply (handle_utxo_action_connected db height t S C a a1); [done| | | |done|done].
    + eapply NoDup_app_drop_mid. exact HS.
    + eapply NoDup_app_drop_mid. exact HC.
    + intros ck. rewrite elem_of_app. intros Hck. apply Hfresh. rewrite !elem_of_app. tauto.
Qed.

(** A block that spends nothing twice and creates only new entries. *)
Definition conflict_free (m : gmap (cf * bytes) bytes) (b : Block) : Prop :=
  Forall wf_tx_outputs (txs b) ∧ NoDup (block_spent (txs b)) ∧ NoDup (block_created (txs b)).*1 ∧
  Forall (λ ck, m !! ck = None) (block_created (txs b)).*1.

#[export] Instance wf_tx_outputs_dec t : Decision (wf_tx_outputs t).
Proof. unfold wf_tx_outputs. apply _. Defined.

#[export] Instance conflict_free_dec m b : Decision (conflict_free m b).
Proof. unfold conflict_free. apply _. Defined.

Lemma apply_utxo_changes_connected db height b h s a :
  conflict_free (contents db) b → tracks (contents db) h s →
  apply_utxo_changes db height true b h s [] = Ok a →
  connected db (reverse (block_spent (txs b))) (reverse (block_created (txs b))) a.
Proof.
  intros (Hwf & HS & HC & Hfresh) Ht H. unfold apply_utxo_changes in H. rewrite Forall_forall in Hfresh.
  apply bind_Ok in H as (a1 & H & E). inv_ok. apply connected_other, connected_other; [done..|].
  rewrite <- (app_nil_r (reverse (block_spent _))), <- (app_nil_r (reverse (block_created _))).
  eapply handle_txs_connected; [done|by rewrite app_nil_r..| |done|].
  - rewrite app_nil_r. done.
  - split; [done|done|intros ck Hck|intros ck v Hck|intros ck [Hck|Hck]];
      by apply not_elem_of_nil in Hck.
Qed.

(** C2.  For a block that spends nothing twice and creates only new outputs
    [apply_utxo_changes] returns exact summaries: if the set hash and the supply it
    is given summarise the unspent outputs stored before the block, those it
    returns summarise the outputs stored once its batch is written, and the batch
    stores them.  (What its caller then keeps in memory is another matter:
    [apply_block_action] replaces the supply by its own counter.) *)
Theorem connect_keeps_summaries db height b h s a :
  conflict_free (contents db) b → tracks (contents db) h s →
  apply_utxo_changes db height true b h s [] = Ok a →
  let m := apply_batch (ua_batch a) (contents db) in
  tracks m (ua_set_hash a) (ua_supply a) ∧
  m !! (default_cf, DB_KEY_UTXO_SET_HASH) = Some (ua_set_hash a) ∧
  m !! (default_cf, DB_KEY_TOTAL_SUPPLY) = Some (to_be_bytes 8 (ua_supply a)).
Proof.
  intros Hcf Ht H. pose proof (con_tracks _ _ _ _ (apply_utxo_changes_connected _ _ _ _ _ _ Hcf Ht H)) as Hres.
  split; [exact Hres|]. unfold apply_utxo_changes in H. apply bind_Ok in H as (a1 & _ & E). inv_ok.
  simpl. rewrite !apply_batch_app. simpl. split; [|by rewrite lookup_insert_eq].
  by rewrite lookup_insert_ne, lookup_insert_eq by done.
Qed.

(** C1.  The batch of such a block implements the abstract ledger update on the
    stored outputs: every output it creates is present with its serialised
    form, every output it spends was present and is gone, everything else is as
    before. *)
Theorem connect_refines_utxo_set db height b h s a :
  conflict_free (contents db) b → tracks (contents db) h s →
  apply_utxo_changes db height true b h s [] = Ok a →
  let m := apply_batch (ua_batch a) (contents db) in
  (∀ ck v, (ck, v) ∈ block_created (txs b) → m !! ck = Some v) ∧
  (∀ ck, ck ∈ block_spent (txs b) → is_Some (contents db !! ck) ∧ m !! ck = None) ∧
  (∀ ck, utxo_cf ck.1 = true → ck ∉ block_spent (txs b) → ck ∉ (block_created (txs b)).*1 →
         m !! ck = contents db !! ck).
Proof.
  intros Hcf Ht H. destruct (apply_utxo_changes_connected _ _ _ _ _ _ Hcf Ht H) as [_ Hsame Hsp Hcr _].
  split_and!.
  - intros ck v Hin. apply Hcr. by apply elem_of_reverse.
  - intros ck Hin. apply Hsp. by apply elem_of_reverse.
  - intros ck Hc HnS HnC. apply Hsame; [done|by rewrite elem_of_reverse|].
    by rewrite fmap_reverse, elem_of_reverse.
Qed.

(** An input is disconnected only if the output it spent is stored. *)
Lemma disconnect_needs_spent db height t a a' i :
  is_coinbase t = false → i ∈ inputs t →
  handle_utxo_action db height false a t = Ok a' → is_Some (contents db !! spent_key t i).
Proof.
  intros Hcb Hi H. unfold handle_utxo_action in H. rewrite Hcb in H.
  apply bind_Ok in H as (a1 & H1 & _). apply (for_each_elem _ _ _ _ i) in H1 as (a2 & a3 & H2); [|done].
  unfold handle_input in H2. apply bind_Ok in H2 as (a4 & _ & H2).
  apply bind_Ok in H2 as (found & Hf & H2). apply get_cf_sound in Hf. unfold spent_key.
  rewrite <- Hf. destruct found; [by eauto|done].
Qed.

(** A block that spends anything cannot be disconnected once its own batch
    is written: disconnecting looks the spent outputs up in the set they were
    removed from, so a reorganisation over it always fails. *)
Theorem disconnect_after_connect_fails db height b h s a db' h' s' batch :
  conflict_free (contents db) b → tracks (contents db) h s →
  apply_utxo_changes db height true b h s [] = Ok a →
  contents db' = apply_batch (ua_batch a) (contents db) →
  Exists (λ t, is_coinbase t = false ∧ inputs t ≠ []) (txs b) →
  ∀ a', apply_utxo_changes db' height false b h' s' batch ≠ Ok a'.
Proof.
  intros Hcf Ht H Hdb' (t & Hin & Hcb & Hne)%Exists_exists a' H'.
  destruct (apply_utxo_changes_connected _ _ _ _ _ _ Hcf Ht H) as [_ _ Hsp _ _].
  unfold apply_utxo_changes in H'. apply bind_Ok in H' as (a1 & H1 & _).
  apply (for_each_elem _ _ _ _ t) in H1 as (a2 & a3 & H2); [|done].
  destruct (inputs t) as [|i l] eqn:Ei; [done|].
  assert (Hs : is_Some (contents db' !! spent_key t i)).
  { eapply disconnect_needs_spent; eauto. rewrite Ei. by left. }
  destruct (Hsp (spent_key t i)) as [_ Hnone].
  - apply elem_of_reverse, list_elem_of_bind. exists t. split; [|done].
    unfold spent_keys. rewrite Hcb, Ei. by left.
  - rewrite Hdb' in Hs. unfold pending in Hnone. rewrite Hnone in Hs. by destruct Hs.
Qed.

(** The coinbase transaction touches no unspent output: what it pays never
    enters the set. *)
Theorem coinbase_creates_no_output db height t a a' ck :
  is_coinbase t = true → utxo_cf ck.1 = true →
  handle_utxo_action db height true a t = Ok a' →
  pending db a' !! ck = pending db a !! ck ∧ ua_supply a' = ua_supply a ∧ ua_set_hash a' = ua_set_hash a.
Proof.
  intros Hcb Hck H. unfold handle_utxo_action, handle_coinbase in H. rewrite Hcb in H.
  apply bind_Ok in H as (_ & _ & H). inv_ok. split; [|done].
  rewrite pending_push_rollback, pending_push_op, apply_op_ne; [done|]. simpl. intros <-. done.
Qed.

End Connect.

(** ** The inverse operations

    When the write of a block fails, the code writes the inverse operations it
    has collected.  If the keys a block creates are unused, each of them
    restates what the snapshot holds. *)

Section Rollback.
  Context {CR : Crypto} {CD : Codec} {RK : Rocks} {RKO : RocksOk}.

Definition created_keys (t : Transaction) : list (cf * bytes) :=
  if is_coinbase t then [("coinbase", tx_hash t)] else
  '(i, out) ← enumerated true (outputs t);
  let n := wrap 32 (Z.of_nat i) in
  (output_cf (is_anonymous t), output_key (is_anonymous t) (tx_hash t) n) ::
  (if is_anonymous t then [] else [("addr_index", addr_key (script_pubkey out) (tx_hash t) n)]).

(** No key the block creates is in use. *)
Definition unused_keys (m : gmap (cf * bytes) bytes) (b : Block) : Prop :=
  Forall (λ ck, m !! ck = None) (txs b ≫= created_keys).

#[export] Instance unused_keys_dec m b : Decision (unused_keys m b).
Proof. unfold unused_keys. apply _. Defined.

Definition faithful (db : DB) (a : utxo_acc) : Prop :=
  Forall (λ o : cf * bytes * option bytes, contents db !! o.1 = o.2) (ua_rollback a).

Lemma faithful_push db c k v a :
  contents db !! (c, k) = v → faithful db a → faithful db (push_rollback c k v a).
Proof. intros Hv Ha. unfold faithful. simpl. rewrite Forall_app, Forall_singleton. done. Qed.

Lemma handle_input_faithful db height anon a vin a' :
  faithful db a → handle_input db height true anon a vin = Ok a' → faithful db a'.
Proof.
  intros Ha H. unfold handle_input in H. apply bind_Ok in H as (a1 & H1 & H).
  assert (Ha1 : faithful db a1).
  { destruct anon; [|by injection H1 as <-]. unfold handle_key_image in H1.
    repeat (apply bind_Ok in H1 as (? & ? & H1)). injection H1 as <-.
    match goal with H : get_cf _ _ _ = Ok ?k, H' : ensure _ DoubleSpend = _ |- _ =>
      apply get_cf_sound in H; apply ensure_Ok in H'; subst k; zbool end.
    rewrite andb_true_r in *. zbool.
    apply faithful_push; [by apply dec_stable|done]. }
  apply bind_Ok in H as ([prev|] & Hf & H); [|done]. apply get_cf_sound in Hf.
  inv_ok. by apply faithful_push.
Qed.

Lemma handle_output_faithful db t a io a' :
  is_coinbase t = false → io ∈ enumerated true (outputs t) →
  Forall (λ ck, contents db !! ck = None) (created_keys t) →
  faithful db a → handle_output db true (is_anonymous t) t a io = Ok a' → faithful db a'.
Proof.
  intros Hcb Hio Hf Ha H. destruct io as [i out]. unfold created_keys in Hf. rewrite Hcb in Hf.
  rewrite Forall_forall in Hf. unfold handle_output in H. apply bind_Ok in H as (a1 & H1 & H).
  inv_ok. assert (Hk : ∀ ck, ck ∈ (output_cf (is_anonymous t), output_key (is_anonymous t) (tx_hash t) (wrap 32 (Z.of_nat i)))
      :: (if is_anonymous t then [] else [("addr_index", addr_key (script_pubkey out) (tx_hash t) (wrap 32 (Z.of_nat i)))])
      → contents db !! ck = None).
  { intros ck Hck. apply Hf, list_elem_of_bind. by exists (i, out). }
  destruct (is_anonymous t).
  - injection H as <-. apply faithful_push; [|done]. apply Hk. by left.
  - injection H as <-. apply faithful_push; [apply Hk; by right; left|].
    apply faithful_push; [|done]. apply Hk. by left.
Qed.

Lemma handle_utxo_action_faithful db height t a a' :
  Forall (λ ck, contents db !! ck = None) (created_keys t) →
  faithful db a → handle_utxo_action db height true a t = Ok a' → faithful db a'.
Proof.
  intros Hf Ha H. unfold handle_utxo_action in H. destruct (is_coinbase t) eqn:Hcb.
  - unfold handle_coinbase in H. apply bind_Ok in H as (_ & _ & H). injection H as <-.
    apply faithful_push; [|done]. unfold created_keys in Hf. rewrite Hcb in Hf.
    by inversion Hf.
  - apply bind_Ok in H as (a1 & H1 & H).
    apply (for_each_inv (faithful db)) in H1; [| |done].
    + eapply (for_each_inv (faithful db)); [|exact H1|exact H].
      intros x io y Hio Hx Hy. by eapply handle_output_faithful.
    + intros x i y _ Hx Hy. by eapply handle_input_faithful.
Qed.

Lemma connect_rollback_faithful db height b h s batch a :
  unused_keys (contents db) b → apply_utxo_changes db height true b h s batch = Ok a → faithful db a.
Proof.
  intros Hu H. unfold apply_utxo_changes in H. apply bind_Ok in H as (a1 & H1 & H).
  injection H as <-. change (faithful db a1).
  eapply (for_each_inv (faithful db)); [| |exact H1]; [|constructor].
  intros x t y Ht Hx Hy. eapply handle_utxo_action_faithful; [|done..].
  unfold unused_keys in Hu. rewrite Forall_forall in Hu |- *. intros ck Hck. apply Hu.
  apply list_elem_of_bind. by exists t.
Qed.

End Rollback.

(** ** The keys a block writes *)

Section Keys.
  Context {CR : Crypto} {CD : Codec} {RK : Rocks}.

(** The column families of the ledger; block storage uses the default one. *)
Definition ledger_cfs : list cf := ["utxo"; "anonymous"; "coinbase"; "key_images"; "addr_index"].

Definition only_ledger (batch : WriteBatch) (a : utxo_acc) : Prop :=
  ∃ ops, ua_batch a = batch ++ ops ∧ Forall (λ o, (op_key o).1 ∈ ledger_cfs) ops.

Lemma only_ledger_push batch o a :
  (op_key o).1 ∈ ledger_cfs → only_ledger batch a → only_ledger batch (push_op o a).
Proof.
  intros Ho (ops & E & Hops). exists (ops ++ [o]). simpl. rewrite E, app_assoc. split; [done|].
  by rewrite Forall_app, Forall_singleton.
Qed.

Lemma only_ledger_rollback_if batch c k prev a :
  only_ledger batch a → only_ledger batch (push_rollback_if c k prev a).
Proof. by destruct prev. Qed.

Lemma output_cf_ledger b : output_cf b ∈ ledger_cfs.
Proof. destruct b; set_solver. Qed.

#[local] Hint Resolve only_ledger_push only_ledger_rollback_if : ledger.
#[local] Hint Extern 0 (_ ∈ ledger_cfs) => apply output_cf_ledger : ledger.

(** [Hint Resolve] does not see through the record of the accumulator. *)
#[local] Hint Extern 1 (only_ledger ?b (push_rollback _ _ _ ?a)) => change (only_ledger b a) : ledger.
#[local] Hint Extern 1 (only_ledger ?b (account _ _ ?a)) => change (only_ledger b a) : ledger.
#[local] Hint Extern 1 (_ ∈ ledger_cfs) => by (apply (bool_decide_unpack _); vm_compute) : ledger.

Lemma handle_input_ledger snapshot height conn anon batch a vin a' :
  only_ledger batch a → handle_input snapshot height conn anon a vin = Ok a' → only_ledger batch a'.
Proof.
  intros Ha H. unfold handle_input in H. apply bind_Ok in H as (a1 & H1 & H).
  assert (Ha1 : only_ledger batch a1).
  { destruct anon; [|by injection H1 as <-]. unfold handle_key_image in H1.
    repeat (apply bind_Ok in H1 as (? & ? & H1)). destruct conn; inv_ok; eauto 6 with ledger. }
  apply bind_Ok in H as ([prev|] & Hf & H); [|done].
  destruct conn; inv_ok; eauto 8 with ledger.
Qed.

Lemma handle_output_ledger snapshot conn anon t batch a io a' :
  only_ledger batch a → handle_output snapshot conn anon t a io = Ok a' → only_ledger batch a'.
Proof.
  intros Ha H. destruct io as [i out]. unfold handle_output in H. apply bind_Ok in H as (a1 & H1 & H).
  assert (Ha1 : only_ledger batch a1) by (destruct conn; inv_ok; eauto 8 with ledger).
  destruct anon; [by injection H as <-|]. destruct conn; inv_ok; eauto 8 with ledger.
Qed.

Lemma handle_utxo_action_ledger snapshot height conn batch a t a' :
  only_ledger batch a → handle_utxo_action snapshot height conn a t = Ok a' → only_ledger batch a'.
Proof.
  intros Ha H. unfold handle_utxo_action in H. destruct (is_coinbase t).
  - unfold handle_coinbase in H. apply bind_Ok in H as (_ & _ & H).
    destruct conn; inv_ok; eauto 6 with ledger.
  - apply bind_Ok in H as (a1 & H1 & H).
    eapply (for_each_inv (only_ledger batch)); [| |exact H].
    + intros x io y _. apply handle_output_ledger.
    + eapply (for_each_inv (only_ledger batch)); [| |exact H1]; [|done].
      intros x i y _. apply handle_input_ledger.
Qed.

(** A block appends to the batch operations of the ledger families, then the
    two summaries. *)
Lemma apply_utxo_changes_shape snapshot height conn b h s batch a :
  apply_utxo_changes snapshot height conn b h s batch = Ok a →
  ∃ ops, ua_batch a = batch ++ ops ++ [Put DB_KEY_UTXO_SET_HASH (ua_set_hash a);
                                       Put DB_KEY_TOTAL_SUPPLY (to_be_bytes 8 (ua_supply a))] ∧
         Forall (λ o, (op_key o).1 ∈ ledger_cfs) ops.
Proof.
  intros H. unfold apply_utxo_changes in H. apply bind_Ok in H as (a1 & H1 & H).
  injection H as <-.
  assert (Ha : only_ledger batch a1).
  { eapply (for_each_inv (only_ledger batch)); [| |exact H1].
    - intros x t y _. apply handle_utxo_action_ledger.
    - exists []. by rewrite app_nil_r. }
  destruct Ha as (ops & E & Hops). exists ops. simpl. by rewrite E, <- !app_assoc.
Qed.

(** Keys of the default family other than the summaries are left alone. *)
Lemma apply_utxo_changes_frame snapshot height conn b h s batch a m k :
  apply_utxo_changes snapshot height conn b h s batch = Ok a →
  k ≠ DB_KEY_UTXO_SET_HASH → k ≠ DB_KEY_TOTAL_SUPPLY →
  apply_batch (ua_batch a) m !! (default_cf, k) = apply_batch batch m !! (default_cf, k).
Proof.
  intros H H1 H2. apply apply_utxo_changes_shape in H as (ops & -> & Hops).
  rewrite !apply_batch_app, apply_batch_ne, apply_batch_ne; [done| |set_solver].
  intros (o & E & Ho)%list_elem_of_fmap. rewrite Forall_forall in Hops. specialize (Hops o Ho).
  rewrite <- E in Hops. unfold ledger_cfs in Hops. set_solver.
Qed.

Lemma apply_utxo_changes_summaries snapshot height conn b h s batch a m :
  apply_utxo_changes snapshot height conn b h s batch = Ok a →
  apply_batch (ua_batch a) m !! (default_cf, DB_KEY_UTXO_SET_HASH) = Some (ua_set_hash a) ∧
  apply_batch (ua_batch a) m !! (default_cf, DB_KEY_TOTAL_SUPPLY) = Some (to_be_bytes 8 (ua_supply a)).
Proof.
  intros (ops & -> & _)%apply_utxo_changes_shape. rewrite !apply_batch_app. simpl.
  by rewrite lookup_insert_eq, lookup_insert_ne, lookup_insert_eq.
Qed.

End Keys.

(** ** Sample block and witnesses *)

Definition sample_coinbase : Transaction :=
  mkTransaction 1 false [coinbase_input [0]] [sample_out (subsidy 1 + 4000)] 0 [].

Definition sample_header : BlockHeader := mkBlockHeader 1 zero_hash zero_hash 1732060900 GENESIS_BITS 0.

Definition sample_block : Block := mkBlock sample_header [sample_coinbase; sample_tx []].

Definition sample_set_hash : bytes := hash_utxo_entry sample_id 0 (sample_out 5000).

Lemma sample_tracks : tracks (contents (sample_db : DB)) sample_set_hash 5000.
Proof. split; by vm_compute. Qed.

Lemma sample_conflict_free : conflict_free (contents (sample_db : DB)) sample_block.
Proof. apply (bool_decide_unpack _). by vm_compute. Qed.

Definition sample_connected : utxo_acc :=
  match apply_utxo_changes (RK:=mem_rocks) sample_db 150 true sample_block sample_set_hash 5000 [] with
  | Ok a => a
  | _ => mkUtxoAcc [] [] [] 0
  end.

Lemma sample_connect_Ok :
  apply_utxo_changes (RK:=mem_rocks) sample_db 150 true sample_block sample_set_hash 5000 []
  = Ok sample_connected.
Proof. by vm_compute. Qed.

Lemma connect_keeps_summaries_witness :
  let m := apply_batch (ua_batch sample_connected) (contents (sample_db : DB)) in
  tracks m (ua_set_hash sample_connected) (ua_supply sample_connected) ∧
  m !! (default_cf, DB_KEY_UTXO_SET_HASH) = Some (ua_set_hash sample_connected) ∧
  m !! (default_cf, DB_KEY_TOTAL_SUPPLY) = Some (to_be_bytes 8 (ua_supply sample_connected)).
Proof.
  exact (connect_keeps_summaries (RK:=mem_rocks) sample_db 150 sample_block _ _ _
           sample_conflict_free sample_tracks sample_connect_Ok).
Defined.

Lemma connect_refines_utxo_set_witness :
  let m := apply_batch (ua_batch sample_connected) (contents (sample_db : DB)) in
  (∀ ck v, (ck, v) ∈ block_created (txs sample_block) → m !! ck = Some v) ∧
  (∀ ck, ck ∈ block_spent (txs sample_block) →
         is_Some (contents (sample_db : DB) !! ck) ∧ m !! ck = None) ∧
  (∀ ck, utxo_cf ck.1 = true → ck ∉ block_spent (txs sample_block) →
         ck ∉ (block_created (txs sample_block)).*1 → m !! ck = contents (sample_db : DB) !! ck).
Proof.
  exact (connect_refines_utxo_set (RK:=mem_rocks) sample_db 150 sample_block _ _ _
           sample_conflict_free sample_tracks sample_connect_Ok).
Defined.

Definition sample_db_after : MemDB :=
  mkMemDB all_cfs (apply_batch (ua_batch sample_connected) (mem_map sample_db)) [].

Lemma disconnect_after_connect_fails_witness :
  apply_utxo_changes (RK:=mem_rocks) sample_db_after 150 false sample_block
    (ua_set_hash sample_connected) (ua_supply sample_connected) [] ≠ Ok sample_connected.
Proof.
  apply (disconnect_after_connect_fails (RK:=mem_rocks) sample_db 150 sample_block sample_set_hash 5000
           sample_connected sample_db_after).
  - apply sample_conflict_free.
  - apply sample_tracks.
  - apply sample_connect_Ok.
  - reflexivity.
  - right. left. split; [by vm_compute|done].
Defined.

(** The error is the one of a missing output. *)
Example sample_disconnect_error :
  apply_utxo_changes (RK:=mem_rocks) sample_db_after 150 false sample_block
    (ua_set_hash sample_connected) (ua_supply sample_connected) [] = Err MissingUTXO.
Proof. by vm_compute. Qed.

(** Two transactions of one block that spend the same output: both are looked
    up in the snapshot, the block connects and the output is subtracted twice. *)
Definition double_spend_block : Block :=
  mkBlock sample_header [sample_coinbase; sample_tx []; sample_tx [1]].

Example double_spend_in_block_connects :
  ua_supply <$> apply_utxo_changes (RK:=mem_rocks) sample_db 150 true double_spend_block
                  sample_set_hash 10000 [] = Ok (10000 - 2 * 5000 + 2 * 1000).
Proof. by vm_compute. Qed.
