(* ===== verification/Store.v ===== *)
(** * Store: blocks, headers and the tip in the database

    The part of src/111/src/chain.rs that reads and writes the default column
    family: [load_current_height], [load_current_tip], [load_block_by_height],
    [load_block_from_db], [load_header], [save_block], [get_headers], the
    reorganisation journal, and the two functions that compute consensus data
    from stored headers, [get_median_timestamp] and [calculate_next_bits].

    [h:<height>] holds the hash of the block at a height, [b:<hash>] the block,
    [hdr:<height>] its header, ["tip"] and ["height"] the best block. *)
From S2P Require Import Prelude Errors Types Externals Instances Utils Keys Tx.

Section Store.
  Context {CR : Crypto} {CD : Codec} {RK : Rocks} {RT : RetryPolicy}.

(** ** Writing *)

(** [conn.write_opt(&batch, ..)], [conn.put(k, v)], [conn.delete(k)] *)
Definition write_opt (b : WriteBatch) : M DB unit := λ db, write db b.

Definition db_put (k v : bytes) : M DB unit := write_opt [Put k v].

Definition db_delete (k : bytes) : M DB unit := write_opt [Delete k].

(** [retry(|| conn.write_opt(&batch, ..))] with [n] delays left. *)
Fixpoint retry_write (n : nat) (b : WriteBatch) : M DB unit := λ db,
  match write db b, n with
  | (Err _, db'), S n => retry_write n b db'
  | (Err _, db'), O => (Err (Anyhow "Write error"), db')
  | r, _ => r
  end.

(** [copy_from_slice] into a [[u8; 32]] panics on another length. *)
Definition array32 (l : bytes) : outcome bytes :=
  if (length l =? 32)%nat then Ok l else Panic.

(** [u32::from_be_bytes(v.try_into()?)] and the [u64] one. *)
Definition be_uint (n : nat) (l : bytes) (msg : string) : outcome Z :=
  (ensure (length l =? n)%nat (Anyhow msg));;
  Ok (from_be_bytes l).

(** ** Reading *)

Definition load_current_height (db : DB) : outcome Z :=
  v ← db_get db DB_KEY_HEIGHT;
  height_bytes ← ok_or v (Anyhow "Missing height");
  be_uint 4 height_bytes "Invalid height bytes".

Definition load_current_tip (db : DB) : outcome bytes :=
  v ← db_get db DB_KEY_TIP;
  tip ← ok_or v (Anyhow "Missing tip");
  array32 tip.

Definition load_block_by_height (db : DB) (height : Z) : outcome Block :=
  v ← db_get db (height_key height);
  hash_bytes ← ok_or v (Anyhow "Missing hash");
  v ← db_get db (block_key hash_bytes);
  block_bytes ← ok_or v (Anyhow "Missing block");
  ok_or (deserialize (A:=Block) block_bytes) (Anyhow "Deserialize block failed").

(** The same through a connection of the pool. *)
Definition load_block_from_db (db : DB) (height : Z) : outcome Block :=
  pool_get db;;
  v ← db_get db (height_key height);
  hash_bytes ← ok_or v (Anyhow "Missing hash");
  v ← db_get db (block_key hash_bytes);
  block_bytes ← ok_or v (Anyhow "Missing block");
  ok_or (deserialize (A:=Block) block_bytes) (Anyhow "Deserialize block failed").

Definition load_header (db : DB) (height : Z) : outcome BlockHeader :=
  pool_get db;;
  v ← db_get db (hdr_key height);
  match v with
  | Some b => ok_or (deserialize (A:=BlockHeader) b) (Errors.Bincode "header")
  | None => block ← load_block_from_db db height; Ok (header block)
  end.

(** ** Storing a block *)

Definition save_batch (height : Z) (hash : bytes) (block : Block) : WriteBatch :=
  [Put (block_key hash) (serialize block);
   Put (height_key height) hash;
   Put DB_KEY_TIP hash;
   Put DB_KEY_HEIGHT (to_be_bytes 4 (wrap 32 height))].

Definition save_block (height : Z) (block : Block) : M DB unit := λ db,
  ((lift (pool_get db));;
   hash ← lift (header_hash (header block));
   retry_write retry_delays (save_batch height hash block)) db.

(** ** Headers for a peer *)

Definition MAX_HEADERS : nat := 2000.

(** The loop of [get_headers] over the heights from [start_height] to the tip. *)
Fixpoint headers_loop (db : DB) (stop : bytes) (headers : list BlockHeader) (heights : list Z)
    : outcome (list BlockHeader) :=
  match heights with
  | [] => Ok headers
  | height :: heights =>
      if (MAX_HEADERS <=? length headers)%nat then Ok headers else
      hdr ← load_header db height;
      hash ← header_hash hdr;
      if bool_decide (hash = stop) then Ok (headers ++ [hdr])
      else headers_loop db stop (headers ++ [hdr]) heights
  end.

Definition get_headers (db : DB) (hash_to_height : gmap bytes Z) (best_height : Z)
    (locator stop : bytes) : outcome (list BlockHeader) :=
  match hash_to_height !! locator with
  | None => Ok []
  | Some h => headers_loop db stop [] (seqZ (h + 1) (best_height - h))
  end.

(** ** The reorganisation journal *)

Definition start_reorg_journal (id : string) (journal : ReorgJournal) : M DB unit :=
  db_put (journal_key id) (serialize journal).

Definition commit_reorg_batch (batch : WriteBatch) (id : string) : M DB unit :=
  (write_opt batch);;
  db_delete (journal_key id).

(** ** Median time and difficulty *)

(** One iteration of the loop of [get_median_timestamp]; every [expect] panics. *)
Definition push_time (db : DB) (times : list Z) (i : Z) : outcome (list Z) :=
  v ← unwrap_result (db_get db (height_key i));
  match v with
  | None => Ok times
  | Some hash_bytes =>
      v ← unwrap_result (db_get db (block_key hash_bytes));
      match v with
      | None => Ok times
      | Some block_bytes =>
          block ← unwrap (deserialize (A:=Block) block_bytes);
          Ok (times ++ [timestamp (header block)])
      end
  end.

(** [(height.saturating_sub(10)..=height).rev()] *)
Definition median_window (height : Z) : list Z :=
  let lo := saturating_sub height 10 in reverse (seqZ lo (height + 1 - lo)).

Definition get_median_timestamp (db : DB) (height : Z) : outcome Z :=
  unwrap_result (pool_get db);;
  times ← for_each (push_time db) [] (median_window height);
  let times := merge_sort Z.le times in
  match times with
  | [] => Ok 0
  | _ => index times (length times / 2)
  end.

(** The target after a period of [actual_time] seconds (already clamped). *)
Definition retarget (old_target actual_time : Z) : outcome Z :=
  new_target ← div_or_panic (old_target * actual_time) EXPECTED_TIME;
  let max_target := old_target * 4 in
  min_target ← div_or_panic old_target 4;
  let new_target := if max_target <? new_target then max_target else new_target in
  let new_target := if new_target <? min_target then min_target else new_target in
  genesis_target ← compact_to_target 0x1d00ffff;
  Ok (if genesis_target <? new_target then genesis_target else new_target).

Definition clamp (x lo hi : Z) : Z := Z.max lo (Z.min x hi).

(** The subtraction of the two [u32] timestamps wraps around. *)
Definition calculate_next_bits (db : DB) (height : Z) : outcome Z :=
  if negb (height mod DIFFICULTY_ADJUST_INTERVAL =? 0) then
    hdr ← unwrap_result (load_header db (wsub 64 height 1));
    Ok (bits hdr)
  else
    let start_height := wsub 64 height DIFFICULTY_ADJUST_INTERVAL in
    start_header ← unwrap_result (load_header db start_height);
    end_header ← unwrap_result (load_header db (wsub 64 height 1));
    let actual_time := wsub 32 (timestamp end_header) (timestamp start_header) in
    let actual_time := clamp actual_time (EXPECTED_TIME / 4) (EXPECTED_TIME * 4) in
    old_target ← compact_to_target (bits end_header);
    new_target ← retarget old_target actual_time;
    median_time ← get_median_timestamp db (wsub 64 height 1);
    let new_target := if timestamp end_header <=? median_time then old_target else new_target in
    Ok (target_to_compact new_target).

End Store.

(** ** Reading back what was written *)

Section StoreSpec.
  Context {CR : Crypto} {CRO : CryptoOk} {CD : Codec} {CDO : CodecOk} {RK : Rocks} {RKO : RocksOk}
    {RT : RetryPolicy}.

(** The connection pool serves the database and no read fails. *)
Definition readable (db : DB) : Prop :=
  pool_get db = Ok tt ∧ ∀ c k, get_cf db c k = Ok (contents db !! (c, k)).

Lemma readable_get db k : readable db → db_get db k = Ok (contents db !! (default_cf, k)).
Proof. intros [_ H]. apply H. Qed.

(** The entries that make [block] the block at [height]. *)
Definition stored_at (m : gmap (cf * bytes) bytes) (height : Z) (block : Block) : Prop :=
  ∃ hash, m !! (default_cf, height_key height) = Some hash ∧
          m !! (default_cf, block_key hash) = Some (serialize block).

Lemma load_block_from_db_eq db height :
  pool_get db = Ok tt → load_block_from_db db height = load_block_by_height db height.
Proof. unfold load_block_from_db. by intros ->. Qed.

Lemma load_block_stored db height block :
  readable db → wf_block block → stored_at (contents db) height block →
  load_block_by_height db height = Ok block ∧ load_block_from_db db height = Ok block.
Proof.
  intros Hr Hb (hash & H1 & H2).
  assert (load_block_by_height db height = Ok block) as E.
  { unfold load_block_by_height. rewrite readable_get, H1 by done. simpl.
    rewrite readable_get, H2 by done. simpl. by rewrite deserialize_serialize. }
  split; [done|]. rewrite load_block_from_db_eq; [done|apply Hr].
Qed.

(** A block read from the database is one that was stored under its hash. *)
Lemma load_block_by_height_Ok db height block :
  load_block_by_height db height = Ok block →
  ∃ hash data, contents db !! (default_cf, height_key height) = Some hash ∧
    contents db !! (default_cf, block_key hash) = Some data ∧ deserialize data = Some block.
Proof.
  unfold load_block_by_height, db_get. intros H. inv_ok.
  repeat match goal with H : get_cf _ _ _ = Ok _ |- _ => apply get_cf_sound in H; subst end.
  eauto 10.
Qed.

(** *** Retried writes *)

Lemma retry_write_spec n b db r db' :
  retry_write n b db = (r, db') →
  (r = Ok tt ∧ contents db' = apply_batch b (contents db)) ∨
  (r = Err (Anyhow "Write error") ∧ contents db' = contents db).
Proof.
  revert db. induction n as [|n IH]; intros db; simpl;
    destruct (write db b) as [r1 db1] eqn:E;
    destruct (write_outcome db b) as [E1|[e E1]]; rewrite E in E1; simpl in E1; subst r1.
  - intros [= <- <-]. left. split; [done|by apply write_ok].
  - intros [= <- <-]. right. split; [done|by eapply write_err].
  - intros [= <- <-]. left. split; [done|by apply write_ok].
  - intros [[-> H]|[-> H]]%IH; [left|right]; (split; [done|]); rewrite H;
      by erewrite write_err.
Qed.

(** [retry] is worth what it costs: the write goes through unless every one
    of its [n + 1] attempts fails. *)
Fixpoint failures (n : nat) (b : WriteBatch) (db : DB) : Prop :=
  (∃ e, (write db b).1 = Err e) ∧
  match n with O => True | S n => failures n b (write db b).2 end.

Lemma retry_write_gives_up n b db :
  (∃ e, (retry_write n b db).1 = Err e) ↔ failures n b db.
Proof.
  revert db. induction n as [|n IH]; intros db; simpl;
    destruct (write db b) as [r1 db1] eqn:E;
    destruct (write_outcome db b) as [E1|[e E1]]; rewrite E in E1; simpl in *; subst r1; simpl.
  - naive_solver.
  - naive_solver.
  - naive_solver.
  - rewrite IH. naive_solver.
Qed.

(** *** Saving a block *)

Lemma save_block_spec height block db r db' :
  save_block height block db = (r, db') →
  (∃ hash, header_hash (header block) = Ok hash ∧ r = Ok tt ∧
     contents db' = apply_batch (save_batch height hash block) (contents db)) ∨
  (r ≠ Ok tt ∧ contents db' = contents db).
Proof.
  unfold save_block, lift, mbind, M_bind. intros H.
  destruct (pool_get db) as [[]| | |]; [|by simplify_eq; right..].
  destruct (header_hash (header block)) as [hash| | |]; [|by simplify_eq; right..].
  apply retry_write_spec in H as [[-> H]|[-> H]]; [left|right]; eauto.
Qed.

Lemma save_batch_keys height hash block m :
  apply_batch (save_batch height hash block) m =
  <[(default_cf, DB_KEY_HEIGHT) := to_be_bytes 4 (wrap 32 height)]>
    (<[(default_cf, DB_KEY_TIP) := hash]>
      (<[(default_cf, height_key height) := hash]>
        (<[(default_cf, block_key hash) := serialize block]> m))).
Proof. done. Qed.

Lemma save_batch_lookups height hash block m :
  let m' := apply_batch (save_batch height hash block) m in
  m' !! (default_cf, DB_KEY_HEIGHT) = Some (to_be_bytes 4 (wrap 32 height)) ∧
  m' !! (default_cf, DB_KEY_TIP) = Some hash ∧
  m' !! (default_cf, height_key height) = Some hash ∧
  m' !! (default_cf, block_key hash) = Some (serialize block).
Proof.
  cbn zeta. rewrite save_batch_keys.
  split_and!; repeat first [rewrite lookup_insert_eq | rewrite lookup_insert_ne by done]; done.
Qed.

Lemma load_current_stored db h hash :
  readable db → uint 32 h → length hash = 32%nat →
  contents db !! (default_cf, DB_KEY_HEIGHT) = Some (to_be_bytes 4 h) →
  contents db !! (default_cf, DB_KEY_TIP) = Some hash →
  load_current_height db = Ok h ∧ load_current_tip db = Ok hash.
Proof.
  intros Hr Hh Hl E1 E2. split.
  - unfold load_current_height. rewrite readable_get, E1 by done. cbn [mbind outcome_bind ok_or].
    unfold be_uint. rewrite length_to_be_bytes. cbn [Nat.eqb ensure mbind outcome_bind].
    f_equal. by apply (from_to_be_bytes 4).
  - unfold load_current_tip. rewrite readable_get, E2 by done. cbn [mbind outcome_bind ok_or].
    unfold array32. by rewrite Hl.
Qed.

Lemma length_header_hash hdr hash : header_hash hdr = Ok hash → length hash = 32%nat.
Proof. unfold header_hash, pow_hash. intros H. inv_ok. by apply (calculate_hash_array _ _ ltac:(eassumption)). Qed.

Lemma save_block_read_back height block db db' :
  wf_block block →
  save_block height block db = (Ok tt, db') → readable db' →
  load_block_from_db db' height = Ok block ∧ load_block_by_height db' height = Ok block ∧
  load_current_height db' = Ok (wrap 32 height) ∧
  (∃ hash, header_hash (header block) = Ok hash ∧ load_current_tip db' = Ok hash).
Proof.
  intros Hb H Hr.
  apply save_block_spec in H as [(hash & Hhash & _ & Hc)|[]]; [|done].
  pose proof (save_batch_lookups height hash block (contents db)) as (L1 & L2 & L3 & L4).
  rewrite <- Hc in L1, L2, L3, L4.
  destruct (load_block_stored db' height block) as [E1 E2]; [done..|by exists hash|].
  destruct (load_current_stored db' (wrap 32 height) hash) as [E3 E4];
    [done|apply wrap_uint; lia|by eapply length_header_hash|done|done|].
  split_and!; [done..|by exists hash].
Qed.

(** C33. Storing a block and reading it back: after a successful [save_block]
    the block, the tip and the height (as a [u32]) are read back, whatever the
    database held before. *)
Theorem save_block_round_trip height block db db' :
  wf_block block →
  save_block height block db = (Ok tt, db') → readable db' →
  load_block_from_db db' height = Ok block ∧ load_block_by_height db' height = Ok block ∧
  load_current_height db' = Ok (wrap 32 height) ∧
  (∃ hash, header_hash (header block) = Ok hash ∧ load_current_tip db' = Ok hash).
Proof. apply save_block_read_back. Qed.

(** [save_block] is all or nothing: it succeeds with its whole batch
    applied, or it returns an error and the database holds what it held. *)
Theorem save_block_atomic height block db :
  let '(r, db') := save_block height block db in
  match r with
  | Ok _ => ∃ hash, header_hash (header block) = Ok hash ∧
              contents db' = apply_batch (save_batch height hash block) (contents db)
  | _ => contents db' = contents db
  end.
Proof.
  destruct (save_block height block db) as [r db'] eqn:E.
  apply save_block_spec in E as [(hash & ? & -> & ?)|[Hr ?]]; [by eauto|].
  by destruct r as [[]| | |].
Qed.

End StoreSpec.

(** ** Headers *)

Section Headers.
  Context {CR : Crypto} {CD : Codec} {RK : Rocks}.

(** The loop answers a prefix of the headers at [heights], cut after the stop
    hash or at the limit. *)
Lemma headers_loop_Ok db stop acc heights l :
  (length acc ≤ MAX_HEADERS)%nat →
  headers_loop db stop acc heights = Ok l →
  ∃ k, l = acc ++ k ∧ (length l ≤ MAX_HEADERS)%nat ∧
    (∀ i hdr, k !! i = Some hdr → ∃ h, heights !! i = Some h ∧ load_header db h = Ok hdr) ∧
    (∀ i hdr, k !! i = Some hdr → header_hash hdr = Ok stop → S i = length k) ∧
    (length k = length heights ∨ length l = MAX_HEADERS ∨
     ∃ hdr, last k = Some hdr ∧ header_hash hdr = Ok stop).
Proof.
  revert acc. induction heights as [|h hs IH]; intros acc Hacc; cbn [headers_loop].
  { intros [= <-]. exists []. rewrite app_nil_r. split_and!; try done. by left. }
  destruct (Nat.leb_spec MAX_HEADERS (length acc)) as [Hm|Hm].
  { intros [= <-]. exists []. rewrite app_nil_r. split_and!; try done. right; left. lia. }
  intros (hdr & Hld & H)%bind_Ok. apply bind_Ok in H as (hash & Hhash & H).
  case_bool_decide as Hs; [subst hash|].
  - injection H as <-. exists [hdr]. rewrite length_app. simpl. split_and!.
    + done.
    + lia.
    + intros [|i] hdr'; [|done]. intros [= <-]. eauto.
    + by intros [|i] hdr'.
    + right; right. eauto.
  - apply IH in H; [|rewrite length_app; simpl; lia].
    destruct H as (k & -> & Hlen & Hk & Hstop & Hmax). exists (hdr :: k).
    rewrite <- app_assoc in *. split_and!; [done|done| | |].
    + intros [|i] hdr'; simpl; [intros [= <-]; eauto|apply Hk].
    + intros [|i] hdr'; simpl; [intros [= <-]; congruence|]. intros E1 E2. f_equal. eauto.
    + destruct Hmax as [E|[E|(hdr' & E & E')]]; [left; simpl; lia|by right; left|].
      right; right. exists hdr'. split; [|done]. destruct k; [done|exact E].
Qed.

(** [get_headers] answers at most 2000 headers, those of consecutive
    heights after the locator and never above the tip, cut right after the stop
    hash; it stops short only for one of these three reasons. *)
Theorem get_headers_spec db hash_to_height best_height locator stop h l :
  hash_to_height !! locator = Some h →
  get_headers db hash_to_height best_height locator stop = Ok l →
  (length l ≤ MAX_HEADERS)%nat ∧
  (∀ i hdr, l !! i = Some hdr →
     load_header db (h + 1 + Z.of_nat i) = Ok hdr ∧ h + 1 + Z.of_nat i <= best_height) ∧
  (∀ i hdr, l !! i = Some hdr → header_hash hdr = Ok stop → S i = length l) ∧
  (Z.of_nat (length l) = Z.max 0 (best_height - h) ∨ length l = MAX_HEADERS ∨
   ∃ hdr, last l = Some hdr ∧ header_hash hdr = Ok stop).
Proof.
  unfold get_headers. intros -> H.
  apply headers_loop_Ok in H as (k & -> & Hlen & Hk & Hstop & Hmax); [|simpl; lia].
  split_and!; [done| |done|].
  - intros i hdr (h' & [-> Hi]%lookup_seqZ & Hld)%Hk. split; [done|lia].
  - rewrite length_seqZ in Hmax. destruct Hmax as [E|E]; [left|by right].
    simpl. rewrite E. lia.
Qed.

End Headers.

(** ** Median time *)

Section Median.
  Context {CR : Crypto} {CD : Codec} {RK : Rocks} {RKO : RocksOk}.

(** The number of elements up to [m], and from [m] on. *)
Definition count_le (m : Z) (l : list Z) : nat := length (filter (λ x, x <= m) l).

Definition count_ge (m : Z) (l : list Z) : nat := length (filter (λ x, m <= x) l).

(** At least half of a sorted list is on each side of the middle element. *)
Lemma sorted_middle (l : list Z) m :
  StronglySorted Z.le l → l !! (length l / 2)%nat = Some m →
  (length l < 2 * count_le m l)%nat ∧ (length l ≤ 2 * count_ge m l)%nat.
Proof.
  intros Hs Hm. set (i := (length l / 2)%nat) in *.
  pose proof (lookup_lt_Some _ _ _ Hm) as Hi.
  assert (Hd : (2 * i ≤ length l < 2 * i + 2)%nat).
  { unfold i. pose proof (Nat.div_mod_eq (length l) 2).
    pose proof (Nat.mod_upper_bound (length l) 2). lia. }
  rewrite <- (take_drop_middle l i m Hm) in Hs |- *.
  assert (Hl : length (take i l) = i) by (rewrite length_take; lia).
  assert (Hr : length (drop (S i) l) = (length l - S i)%nat) by (rewrite length_drop; lia).
  apply StronglySorted_app in Hs as (Hlr & _ & Hs2). apply StronglySorted_cons in Hs2 as [Hge _].
  unfold count_le, count_ge. rewrite !filter_app, !length_app, !filter_cons. cbn [length].
  rewrite !decide_True by lia. cbn [length].
  rewrite (filter_Forall_id (λ x, x <= m) (take i l)); last first.
  { apply Forall_forall. intros x Hx. apply Hlr; [done|by left]. }
  rewrite (filter_Forall_id (λ x, m <= x) (drop (S i) l)) by done.
  rewrite Hl, Hr. lia.
Qed.

Lemma push_time_Ok db times i times' :
  push_time db times i = Ok times' →
  times' = times ∨
  ∃ b, load_block_by_height db i = Ok b ∧ times' = times ++ [timestamp (header b)].
Proof.
  unfold push_time, load_block_by_height. intros (v & ->%unwrap_result_Ok & H)%bind_Ok.
  destruct v as [hash|]; simpl in *; [|injection H as <-; by left].
  apply bind_Ok in H as (v & ->%unwrap_result_Ok & H).
  destruct v as [data|]; simpl in *; [|injection H as <-; by left].
  apply bind_Ok in H as (b & ->%unwrap_Ok & H). injection H as <-. simpl. eauto.
Qed.

Lemma push_times_length db l times times' :
  for_each (push_time db) times l = Ok times' → (length times' ≤ length times + length l)%nat.
Proof.
  revert times. induction l as [|i l IH]; intros times; simpl; [intros [= <-]; lia|].
  intros (t1 & H1 & H)%bind_Ok. apply IH in H.
  apply push_time_Ok in H1 as [->|(b & _ & ->)]; rewrite ?length_app in *; simpl in *; lia.
Qed.

Lemma length_median_window h : 0 <= h → (length (median_window h) ≤ 11)%nat.
Proof.
  intros. unfold median_window, saturating_sub. rewrite length_reverse, length_seqZ. lia.
Qed.

Lemma push_times_elem db l times times' t :
  for_each (push_time db) times l = Ok times' → t ∈ times' →
  t ∈ times ∨ ∃ i b, i ∈ l ∧ load_block_by_height db i = Ok b ∧ timestamp (header b) = t.
Proof.
  revert times. induction l as [|i l IH]; intros times; simpl; [intros [= <-]; by left|].
  intros (t1 & H1 & H)%bind_Ok Ht. destruct (IH _ H Ht) as [Hin|(j & b & Hj & ?)].
  - apply push_time_Ok in H1 as [->|(b & Hb & ->)]; [by left|].
    rewrite elem_of_app, list_elem_of_singleton in Hin. destruct Hin as [?| ->]; [by left|].
    right. exists i, b. split; [by left|done].
  - right. exists j, b. split; [by right|done].
Qed.

(** The median time of a height is 0 when none of the last eleven blocks
    is stored, and otherwise the timestamp of one of them with at least half of
    the collected timestamps on each side. *)
Theorem median_timestamp_spec db height m :
  0 <= height →
  get_median_timestamp db height = Ok m →
  ∃ times, for_each (push_time db) [] (median_window height) = Ok times ∧
    (length times ≤ 11)%nat ∧
    match times with
    | [] => m = 0
    | _ => (∃ i b, height - 10 <= i <= height ∧ load_block_by_height db i = Ok b ∧
                   timestamp (header b) = m) ∧
           (length times < 2 * count_le m times)%nat ∧
           (length times ≤ 2 * count_ge m times)%nat
    end.
Proof.
  intros Hh. unfold get_median_timestamp. intros (? & _ & H)%bind_Ok.
  apply bind_Ok in H as (times & Ht & H). exists times.
  pose proof (push_times_length _ _ _ _ Ht) as Hl. pose proof (length_median_window _ Hh). simpl in Hl.
  split_and!; [done|lia|].
  pose proof (merge_sort_Permutation Z.le times) as Hp.
  pose proof (StronglySorted_merge_sort Z.le times) as Hsort.
  assert (Hm : times ≠ [] → merge_sort Z.le times !! (length (merge_sort Z.le times) / 2)%nat = Some m).
  { intros Hne. destruct (merge_sort Z.le times) as [|t0 k] eqn:E.
    - by apply Permutation_nil_l in Hp.
    - by apply unwrap_Ok in H. }
  destruct times as [|t ts] eqn:Et; [by injection H|]. rewrite <- Et in *.
  specialize (Hm ltac:(congruence)). split.
  - apply list_elem_of_lookup_2 in Hm. rewrite Hp in Hm.
    destruct (push_times_elem _ _ _ _ _ Ht Hm) as [Hn|(i & b & Hi & ?)];
      [by apply not_elem_of_nil in Hn|].
    exists i, b. split; [|done]. unfold median_window in Hi.
    rewrite elem_of_reverse, elem_of_seqZ in Hi. unfold saturating_sub in Hi. lia.
  - pose proof (sorted_middle _ _ Hsort Hm) as [H1 H2].
    unfold count_le, count_ge in *. by rewrite !Hp in H1, H2.
Qed.

End Median.

(** ** Difficulty *)

Section Difficulty.
  Context {CR : Crypto} {CD : Codec} {RK : Rocks}.

(** The easiest target, [compact_to_target(0x1d00ffff)]. *)
Definition genesis_target : Z := 0xffff * 2 ^ 208.

(** The textbook rule: scale by the clamped duration of the period, never
    easier than the genesis target. *)
Definition next_target (old_target duration : Z) : Z :=
  Z.min genesis_target
    (old_target * clamp duration (EXPECTED_TIME / 4) (EXPECTED_TIME * 4) / EXPECTED_TIME).

Lemma clamp_bounds x lo hi : lo <= hi → lo <= clamp x lo hi <= hi.
Proof. unfold clamp. lia. Qed.

Lemma scale_bounds old t :
  0 <= old → EXPECTED_TIME / 4 <= t <= EXPECTED_TIME * 4 →
  old / 4 <= old * t / EXPECTED_TIME <= old * 4.
Proof.
  change (EXPECTED_TIME / 4) with 30240. change (EXPECTED_TIME * 4) with 483840.
  change EXPECTED_TIME with 120960. intros Ho Ht. split.
  - apply Z.div_le_lower_bound; [lia|]. pose proof (Z.mul_div_le old 4 ltac:(lia)).
    pose proof (Z.mul_le_mono_nonneg_l 30240 t old Ho ltac:(lia)). lia.
  - apply Z.div_le_upper_bound; [lia|].
    pose proof (Z.mul_le_mono_nonneg_l t 483840 old Ho ltac:(lia)). lia.
Qed.

(** The two limits of the code never bind: the clamp has done their work. *)
Lemma retarget_reference old d :
  0 <= old → retarget old (clamp d (EXPECTED_TIME / 4) (EXPECTED_TIME * 4)) = Ok (next_target old d).
Proof.
  intros Ho. unfold retarget, next_target.
  set (t := clamp d (EXPECTED_TIME / 4) (EXPECTED_TIME * 4)).
  assert (Ht : EXPECTED_TIME / 4 <= t <= EXPECTED_TIME * 4) by (apply clamp_bounds; by vm_compute).
  pose proof (scale_bounds old t Ho Ht) as Hb. remember (old * t / EXPECTED_TIME) as n eqn:En.
  replace (div_or_panic (old * t) EXPECTED_TIME) with (Ok n) by by rewrite En.
  change (div_or_panic old 4) with (Ok (old / 4)).
  change (compact_to_target 0x1d00ffff) with (Ok genesis_target). cbn [mbind outcome_bind].
  destruct (Z.ltb_spec (old * 4) n); [lia|]. destruct (Z.ltb_spec n (old / 4)); [lia|].
  f_equal. destruct (Z.ltb_spec genesis_target n); lia.
Qed.

Lemma next_target_bounds old d :
  0 <= old → Z.min genesis_target (old / 4) <= next_target old d <= Z.min genesis_target (old * 4).
Proof.
  intros Ho. unfold next_target.
  pose proof (scale_bounds old (clamp d (EXPECTED_TIME / 4) (EXPECTED_TIME * 4)) Ho).
  assert (EXPECTED_TIME / 4 <= clamp d (EXPECTED_TIME / 4) (EXPECTED_TIME * 4) <= EXPECTED_TIME * 4)
    by (apply clamp_bounds; by vm_compute).
  lia.
Qed.

(** C32. The difficulty rule: inside a period the bits of the previous header
    are kept; at a multiple of 2016 they encode the previous target scaled by
    the clamped duration of the period and capped by the genesis target, unless
    the last header is not newer than the median time.  The target moves by at
    most a factor of four before it is encoded. *)
Theorem calculate_next_bits_spec db height end_header :
  1 <= height < 2 ^ 64 →
  load_header db (height - 1) = Ok end_header →
  if height mod DIFFICULTY_ADJUST_INTERVAL =? 0 then
    ∀ start_header median_time old_target,
    load_header db (height - DIFFICULTY_ADJUST_INTERVAL) = Ok start_header →
    get_median_timestamp db (height - 1) = Ok median_time →
    compact_to_target (bits end_header) = Ok old_target →
    ∃ new_target, calculate_next_bits db height = Ok (target_to_compact new_target) ∧
      new_target = (if timestamp end_header <=? median_time then old_target
                    else next_target old_target
                           (wsub 32 (timestamp end_header) (timestamp start_header))) ∧
      Z.min genesis_target (old_target / 4) <= new_target <= old_target * 4
  else calculate_next_bits db height = Ok (bits end_header).
Proof.
  intros Hh Hend. unfold calculate_next_bits.
  rewrite (wsub_small 64 height 1) by lia. rewrite Hend.
  destruct (Z.eqb_spec (height mod DIFFICULTY_ADJUST_INTERVAL) 0) as [Hm|Hm]; cbn [negb]; [|done].
  intros sh m old Hsh Hmed Hold.
  assert (DIFFICULTY_ADJUST_INTERVAL <= height).
  { apply Z.mod_divide in Hm as [k ->]; [|done]. unfold DIFFICULTY_ADJUST_INTERVAL in *. lia. }
  unfold DIFFICULTY_ADJUST_INTERVAL in *. rewrite (wsub_small 64 height 2016) by lia.
  assert (0 <= old).
  { destruct (Z_lt_le_dec 80 (bits end_header / 2 ^ 24)).
    - destruct (compact_to_target_too_large (bits end_header)) as [e E]; congruence.
    - rewrite compact_to_target_value in Hold by done. injection Hold as <-.
      apply compact_value_nonneg. }
  rewrite Hsh. cbn [unwrap_result mbind outcome_bind]. rewrite Hold. cbn [mbind outcome_bind].
  rewrite retarget_reference by done. cbn [mbind outcome_bind]. rewrite Hmed. cbn [mbind outcome_bind]. eexists. split; [done|]. split; [done|].
  pose proof (next_target_bounds old (wsub 32 (timestamp end_header) (timestamp sh))).
  case_match; [|lia]. pose proof (Z.mul_div_le old 4 ltac:(lia)). lia.
Qed.

End Difficulty.

(** ** Witnesses *)

Definition sample_hdr (ts : Z) : BlockHeader :=
  mkBlockHeader 1 zero_hash zero_hash ts GENESIS_BITS 0.

Definition sample_stored_block : Block := mkBlock (sample_hdr 1000) [].

Definition saved_db : MemDB := (save_block (RK:=mem_rocks) 7 sample_stored_block empty_db).2.

Lemma mem_readable db : readable (RK:=mem_rocks) db.
Proof. done. Defined.

Lemma save_block_round_trip_witness :
  load_block_from_db (RK:=mem_rocks) saved_db 7 = Ok sample_stored_block ∧
  load_block_by_height (RK:=mem_rocks) saved_db 7 = Ok sample_stored_block ∧
  load_current_height (RK:=mem_rocks) saved_db = Ok (wrap 32 7) ∧
  (∃ hash, header_hash (header sample_stored_block) = Ok hash ∧
           load_current_tip (RK:=mem_rocks) saved_db = Ok hash).
Proof.
  apply (save_block_round_trip (RK:=mem_rocks) 7 sample_stored_block empty_db saved_db).
  - apply (bool_decide_unpack _). by vm_compute.
  - apply run_eta. by vm_compute.
  - apply mem_readable.
Defined.

(** Headers at the two ends of a period that took exactly its nominal time,
    and the last block of the period. *)
Definition period_db : MemDB :=
  mkMemDB all_cfs
    (<[(default_cf, hdr_key 0) := serialize (sample_hdr 1000)]>
     (<[(default_cf, hdr_key 2015) := serialize (sample_hdr (1000 + EXPECTED_TIME))]>
      (<[(default_cf, height_key 2014) := [9]]>
       (<[(default_cf, block_key [9]) := serialize (mkBlock (sample_hdr 5000) [])]> ∅)))) [].

Lemma get_headers_spec_witness :
  ∃ l, get_headers (RK:=mem_rocks) period_db {[ [5] := 2014 ]} 2015 [5] [] = Ok l ∧
       (length l ≤ MAX_HEADERS)%nat.
Proof.
  exists [sample_hdr (1000 + EXPECTED_TIME)]. split; [by vm_compute|].
  apply (get_headers_spec (RK:=mem_rocks) period_db {[ [5] := 2014 ]} 2015 [5] [] 2014); by vm_compute.
Defined.

Lemma median_timestamp_spec_witness :
  ∃ times, for_each (push_time (RK:=mem_rocks) period_db) [] (median_window 2015) = Ok times ∧
    (length times ≤ 11)%nat ∧
    match times with
    | [] => 5000 = 0
    | _ => (∃ i b, 2015 - 10 <= i <= 2015 ∧ load_block_by_height (RK:=mem_rocks) period_db i = Ok b ∧
                   timestamp (header b) = 5000) ∧
           (length times < 2 * count_le 5000 times)%nat ∧
           (length times ≤ 2 * count_ge 5000 times)%nat
    end.
Proof. apply (median_timestamp_spec (RK:=mem_rocks) period_db 2015 5000); [lia|by vm_compute]. Defined.

Lemma calculate_next_bits_spec_witness :
  ∃ new_target, calculate_next_bits (RK:=mem_rocks) period_db 2016 = Ok (target_to_compact new_target).
Proof.
  destruct (calculate_next_bits_spec (RK:=mem_rocks) period_db 2016 (sample_hdr (1000 + EXPECTED_TIME))
              ltac:(lia) ltac:(by vm_compute) (sample_hdr 1000) 5000 genesis_target) as (t & H & _).
  - by vm_compute.
  - by vm_compute.
  - by vm_compute.
  - by exists t.
Defined.

(** A period that took exactly its nominal time, at the easiest difficulty:
    the new word denotes a target of about half the size. *)
Example retarget_on_schedule :
  calculate_next_bits (RK:=mem_rocks) period_db 2016 = Ok 0x1c7fffff ∧
  compact_to_target 0x1c7fffff = Ok (0x7fffff * 2 ^ 200) ∧
  2 * (0x7fffff * 2 ^ 200) < genesis_target + 2 ^ 208.
Proof. by vm_compute. Qed.
