(* ===== verification/Chain.v ===== *)
(** * Chain: the state of the node's chain and the operations that change it

    The struct [Chain] of src/111/src/chain.rs with [ChainState] and
    [StateChanges], and the methods [new], [apply_block_action], [prune] and
    [build_block_ops]; the other methods are in Startup, BlockValidation,
    Supply and AddBlock.

    - [state_lock] is a [tokio::sync::Mutex<()>]: the model keeps whether it is
      held, a method that locks it while it is held never returns ([Hang]), and
      the guard releases it on every return.
    - The database is part of the state; an operation that fails keeps what it
      has already changed.
    - The clock is an argument: [now] is [Instant::now()] in milliseconds,
      [ms] a result of [now_ms()].
    - [load_supply_from_db] and the free function [build_block_ops] that
      [recover_pending_reorgs] calls are not defined in the repository: they
      are parameters.
    - [target_cache], [work_cache] and the metrics are left out: the first
      memoises [compact_to_target], the others are never read.  So are
      [compact_range], which does not change what the database holds, and the
      test on [changes.timestamps], a field [StateChanges] does not have. *)
From S2P Require Import Prelude Errors Types Externals Instances Utils Keys Tx Ledger Store.

(** What the chain asks of the mempool: to forget a transaction. *)
Class MempoolOps := {
  mempool : Type;
  mempool_remove : bytes → M mempool unit;
}.

(** [load_supply_from_db(&conn)] *)
Class SupplyReader {RK : Rocks} := load_supply_from_db : DB → outcome Z.

Record ChainState := mkChainState {
  blocks : gmap Z Block;
  height_to_hash : gmap Z bytes;
  hash_to_height : gmap bytes Z;
  cumulative_work : gmap Z Z;
  timestamps : list Z;
  utxo_set_hash : bytes;
  total_supply : Z;
}.

Record StateChanges := mkStateChanges {
  new_blocks : gmap Z Block;
  new_height_to_hash : gmap Z bytes;
  new_hash_to_height : gmap bytes Z;
  new_cumulative_work : gmap Z Z;
  timestamp_change : option Z;
  ch_utxo_set_hash : bytes;
  ch_total_supply : Z;
  new_hdr : option (Z * BlockHeader);
  new_tx_index : list (bytes * (Z * Z));
  deleted_tx_index : list bytes;
}.

Inductive BlockAction := Connect | Disconnect.

Definition is_connect (a : BlockAction) : bool :=
  match a with Connect => true | Disconnect => false end.

Section Chain.
  Context {CR : Crypto} {CD : Codec} {RK : Rocks} {RT : RetryPolicy} {HO : HashOrder}
    {MP : MempoolOps} {SR : SupplyReader}.

Record Chain := mkChain {
  db : DB;
  state : ChainState;
  best_tip : bytes;
  best_height : Z;
  orphan_blocks : gmap bytes (Block * Z);
  genesis_hash : bytes;
  batch_pending : bool;
  read_only_mode : bool;
  state_lock : bool;
  checkpoint_hashes : gmap Z bytes;
  chain_mempool : mempool;
}.

Definition set_db (d : DB) (c : Chain) : Chain :=
  mkChain d (state c) (best_tip c) (best_height c) (orphan_blocks c) (genesis_hash c)
    (batch_pending c) (read_only_mode c) (state_lock c) (checkpoint_hashes c) (chain_mempool c).

Definition set_state (s : ChainState) (c : Chain) : Chain :=
  mkChain (db c) s (best_tip c) (best_height c) (orphan_blocks c) (genesis_hash c)
    (batch_pending c) (read_only_mode c) (state_lock c) (checkpoint_hashes c) (chain_mempool c).

Definition set_best (tip : bytes) (h : Z) (c : Chain) : Chain :=
  mkChain (db c) (state c) tip h (orphan_blocks c) (genesis_hash c)
    (batch_pending c) (read_only_mode c) (state_lock c) (checkpoint_hashes c) (chain_mempool c).

Definition set_orphans (o : gmap bytes (Block * Z)) (c : Chain) : Chain :=
  mkChain (db c) (state c) (best_tip c) (best_height c) o (genesis_hash c)
    (batch_pending c) (read_only_mode c) (state_lock c) (checkpoint_hashes c) (chain_mempool c).

Definition set_pending (b : bool) (c : Chain) : Chain :=
  mkChain (db c) (state c) (best_tip c) (best_height c) (orphan_blocks c) (genesis_hash c)
    b (read_only_mode c) (state_lock c) (checkpoint_hashes c) (chain_mempool c).

Definition set_read_only (b : bool) (c : Chain) : Chain :=
  mkChain (db c) (state c) (best_tip c) (best_height c) (orphan_blocks c) (genesis_hash c)
    (batch_pending c) b (state_lock c) (checkpoint_hashes c) (chain_mempool c).

Definition set_locked (b : bool) (c : Chain) : Chain :=
  mkChain (db c) (state c) (best_tip c) (best_height c) (orphan_blocks c) (genesis_hash c)
    (batch_pending c) (read_only_mode c) b (checkpoint_hashes c) (chain_mempool c).

Definition set_mempool (m : mempool) (c : Chain) : Chain :=
  mkChain (db c) (state c) (best_tip c) (best_height c) (orphan_blocks c) (genesis_hash c)
    (batch_pending c) (read_only_mode c) (state_lock c) (checkpoint_hashes c) m.

(** Operations on a part of the chain. *)
Definition on_db {A} (m : M DB A) : M Chain A := λ c,
  let '(r, d) := m (db c) in (r, set_db d c).

Definition on_mempool {A} (m : M mempool A) : M Chain A := λ c,
  let '(r, p) := m (chain_mempool c) in (r, set_mempool p c).

(** [let _lock = self.state_lock.lock().await;] around a body. *)
Definition with_lock {A} (m : M Chain A) : M Chain A := λ c,
  if state_lock c then (Hang, c) else
  match m (set_locked true c) with
  | (Hang, c') => (Hang, c')
  | (r, c') => (r, set_locked false c')
  end.

(** The [Result] of an operation as a value, not yet examined. *)
Definition attempt {S A} (m : M S A) : M S (outcome A) := λ s,
  match m s with
  | (Ok a, s') => (Ok (Ok a), s')
  | (Err e, s') => (Ok (Err e), s')
  | (Panic, s') => (Panic, s')
  | (Hang, s') => (Hang, s')
  end.

(** ** Applying a block *)

Definition require_cfs (d : DB) : outcome unit :=
  require_cf d "utxo" "UTXO CF missing";;
  require_cf d "anonymous" "Anonymous CF missing";;
  require_cf d "key_images" "Key images CF missing";;
  require_cf d "coinbase" "Coinbase CF missing";;
  require_cf d "addr_index" "ADDR INDEX CF missing";;
  require_cf d "tx_index" "TX INDEX CF missing".

(** Header and transaction index entries: written on connect; on disconnect
    the transaction index entries go and the header stays. *)
Definition tx_index_entries (height : Z) (block : Block) : list (bytes * (Z * Z)) :=
  imap (λ idx t, (tx_hash t, (height, Z.of_nat idx))) (txs block).

Definition index_ops (action : BlockAction) (height : Z) (block : Block) : WriteBatch :=
  match action with
  | Connect =>
      Put (hdr_key height) (serialize (header block))
      :: ((λ e, BPut "tx_index" e.1 (serialize e.2)) <$> tx_index_entries height block)
  | Disconnect => (λ t, BDelete "tx_index" (tx_hash t)) <$> txs block
  end.

(** [prev_work + work], or [work] alone; [height - 1] wraps at height 0. *)
Definition work_after (s : ChainState) (height work : Z) : Z :=
  match cumulative_work s !! wsub 64 height 1 with
  | Some prev_work => prev_work + work
  | None => work
  end.

Definition block_changes (s : ChainState) (action : BlockAction) (height work : Z) (block : Block)
    (hash set_hash : bytes) (supply : Z) : StateChanges :=
  mkStateChanges {[ height := block ]} {[ height := hash ]} {[ hash := height ]}
    {[ height := work_after s height work ]}
    (if is_connect action then Some (timestamp (header block)) else None)
    set_hash supply
    (if is_connect action then Some (height, header block) else None)
    (if is_connect action then tx_index_entries height block else [])
    (if is_connect action then [] else tx_hash <$> txs block).

(** [build_block_ops]: what the block adds to the batch.  The two [put]s at its
    end name [current_set_hash] and [current_supply], the summaries that
    [apply_utxo_changes] has computed. *)
Definition build_block_ops (c : Chain) (block : Block) (height work : Z) (action : BlockAction)
    (batch : WriteBatch) : outcome WriteBatch :=
  pool_get (db c);;
  require_cfs (db c);;
  hash ← header_hash (header block);
  a ← apply_utxo_changes (db c) height (is_connect action) block
        (utxo_set_hash (state c)) (total_supply (state c)) batch;
  Ok (ua_batch a ++ index_ops action height block ++
      [Put DB_KEY_UTXO_SET_HASH (ua_set_hash a);
       Put DB_KEY_TOTAL_SUPPLY (to_be_bytes 8 (ua_supply a))]).

(** Everything [apply_block_action] computes before it writes. *)
Record prepared := mkPrepared {
  p_hash : bytes;
  p_batch : WriteBatch;
  p_rollback : list (cf * bytes * option bytes);
  p_changes : StateChanges;
}.

Definition prepare_action (c : Chain) (block : Block) (height : Z) (action : BlockAction) (work : Z)
    (batch : WriteBatch) : outcome prepared :=
  pool_get (db c);;
  require_cfs (db c);;
  hash ← header_hash (header block);
  a ← apply_utxo_changes (db c) height (is_connect action) block
        (utxo_set_hash (state c)) (total_supply (state c)) batch;
  current_supply ← load_supply_from_db (db c);
  let new_supply := if is_connect action then wadd 64 current_supply (subsidy height)
                    else wsub 64 current_supply (subsidy height) in
  Ok (mkPrepared hash
        (ua_batch a ++ index_ops action height block ++
         [Put DB_KEY_STATE_TOTAL_SUPPLY (to_le_bytes 8 new_supply)])
        (ua_rollback a)
        (block_changes (state c) action height work block hash (ua_set_hash a) new_supply)).

(** [for (cf, key, value) in rollback_ops.into_iter().rev()] *)
Definition rollback_batch (ops : list (cf * bytes * option bytes)) : WriteBatch :=
  (λ '(c, k, v), match v with Some v => BPut c k v | None => BDelete c k end) <$> reverse ops.

(** [while rollback_attempts < 3]: whether one of [n] attempts succeeds. *)
Fixpoint try_rollback (n : nat) (b : WriteBatch) : M DB bool :=
  match n with
  | O => mret false
  | S n =>
      res ← attempt (write_opt b);
      match res with Ok _ => mret true | _ => try_rollback n b end
  end.

(** The update of the in-memory state after a successful write; a block that
    is disconnected is inserted into the maps as well. *)
Definition push_timestamp (ts : Z) (l : list Z) : list Z :=
  let l := l ++ [ts] in if (11 <? length l)%nat then tail l else l.

Definition commit_changes (ch : StateChanges) (s : ChainState) : ChainState :=
  mkChainState (new_blocks ch ∪ blocks s)
    (new_height_to_hash ch ∪ height_to_hash s)
    (new_hash_to_height ch ∪ hash_to_height s)
    (new_cumulative_work ch ∪ cumulative_work s)
    (match timestamp_change ch with
     | Some ts => push_timestamp ts (timestamps s)
     | None => take (length (timestamps s) - 1) (timestamps s)
     end)
    (ch_utxo_set_hash ch) (ch_total_supply ch).

Definition remove_block (height : Z) (s : ChainState) : ChainState :=
  mkChainState (delete height (blocks s)) (height_to_hash s) (hash_to_height s)
    (cumulative_work s) (timestamps s) (utxo_set_hash s) (total_supply s).

(** [0..tx.outputs.len() as u32] *)
Definition prune_ops (block : Block) : WriteBatch :=
  t ← txs block;
  if is_anonymous t then [] else
  let n := Z.to_nat (wrap 32 (Z.of_nat (length (outputs t)))) in
  imap (λ i out, BDelete "addr_index" (addr_key (script_pubkey out) (tx_hash t) (Z.of_nat i)))
    (take n (outputs t)).

Definition prune (height : Z) (batch : WriteBatch) : M Chain WriteBatch :=
  with_lock (
    c ← get;
    match blocks (state c) !! height with
    | None => mret batch
    | Some block =>
        modify (set_state (remove_block height (state c)));;
        hash ← lift (header_hash (header block));
        mret (batch ++ Delete (block_key hash) :: prune_ops block)
    end).

(** The tip moves, and a block that is deep enough is pruned. *)
Definition advance_tip (hash : bytes) (height : Z) (batch : WriteBatch) : M Chain unit :=
  modify (set_best hash height);;
  if PRUNE_DEPTH <? height then prune (height - PRUNE_DEPTH) batch;; mret tt
  else mret tt.

Definition apply_block_action (block : Block) (height : Z) (action : BlockAction) (is_best : bool)
    (work : Z) (batch : WriteBatch) : M Chain unit :=
  with_lock (
    c ← get;
    if batch_pending c then lift (bail (Anyhow "Batch pending, cannot apply action")) else
    if read_only_mode c && is_connect action
    then lift (bail (Anyhow "Chain in read-only mode due to previous failure")) else
    modify (set_pending true);;
    p ← lift (prepare_action c block height action work batch);
    res ← attempt (on_db (retry_write retry_delays (p_batch p)));
    match res with
    | Err e =>
        rolled_back ← on_db (try_rollback 3 (rollback_batch (p_rollback p)));
        (if rolled_back : bool then mret tt else modify (set_read_only true));;
        lift (Err e)
    | _ =>
        modify (λ c, set_state (commit_changes (p_changes p) (state c)) c);;
        (if is_connect action && is_best then advance_tip (p_hash p) height (p_batch p) else mret tt);;
        modify (set_pending false)
    end).

(** ** A new chain *)

(** db.rs: the column families the connection pool opens (besides the default
    one, which always exists). *)
Definition RocksManager_cfs : list cf := ["utxo"; "blocks"; "headers"; "metadata"].

Definition empty_state : ChainState := mkChainState ∅ ∅ ∅ ∅ [] zero_hash 0.

Definition fresh_chain (d : DB) (tip : bytes) (height : Z) (genesis : bytes) (cps : gmap Z bytes)
    (m : mempool) : Chain :=
  mkChain d empty_state tip height ∅ genesis false false false cps m.

(** [TWO_POW_256 / (target + 1)] *)
Definition block_work (target : Z) : Z := TWO_POW_256 / (target + 1).

Definition init_genesis (genesis : Block) : M Chain unit :=
  target ← lift (compact_to_target (bits (header genesis)));
  apply_block_action genesis 0 Connect true (block_work target) [].

(** [Chain::new]; the database survives a failure. *)
Definition Chain_new (genesis : Block) (cps : gmap Z bytes) (m : mempool) : M DB Chain := λ d,
  match header_hash (header genesis) with
  | Ok genesis_hash =>
      let '(r, c) := init_genesis genesis (fresh_chain d zero_hash 0 genesis_hash cps m) in
      (r;; Ok c, db c)
  | Err e => (Err e, d)
  | Panic => (Panic, d)
  | Hang => (Hang, d)
  end.

End Chain.

(** ** Applying a block: properties *)

Section Apply.
  Context {CR : Crypto} {CD : Codec} {RK : Rocks} {RKO : RocksOk} {RT : RetryPolicy}
    {MP : MempoolOps} {SR : SupplyReader}.

Lemma try_rollback_spec n b d :
  ∃ ok d', try_rollback n b d = (Ok ok, d') ∧
    contents d' = (if ok : bool then apply_batch b (contents d) else contents d).
Proof.
  revert d. induction n as [|n IH]; intros d; simpl; [by exists false, d|].
  unfold mbind, M_bind, attempt, write_opt.
  destruct (write d b) as [r d1] eqn:E.
  destruct (write_outcome d b) as [E1|[e E1]]; rewrite E in E1; simpl in E1; subst r.
  - exists true, d1. split; [done|by apply write_ok].
  - destruct (IH d1) as (ok & d' & -> & Hc). exists ok, d'. split; [done|].
    by rewrite Hc, (write_err _ _ _ _ E).
Qed.

(** Rollback operations that restate what the database holds change nothing. *)
Lemma rollback_batch_id ops m :
  Forall (λ o, m !! o.1 = o.2) ops → apply_batch (rollback_batch ops) m = m.
Proof.
  intros H. unfold rollback_batch. apply Forall_reverse in H. revert H.
  induction (reverse ops) as [|[[c k] v] l IH]; intros H; [done|].
  apply Forall_cons in H as [Hv H]. simpl in *.
  assert (apply_op m (match v with Some v => BPut c k v | None => BDelete c k end) = m) as E.
  { destruct v; simpl; [by apply insert_id|by apply delete_id]. }
  rewrite E. by apply IH.
Qed.

(** The chain after a successful action. *)
Definition applied (c : Chain) (d : DB) (p : prepared) (height : Z) (best : bool) : Chain :=
  let c := set_state (commit_changes (p_changes p) (state c)) (set_db d c) in
  if best then set_best (p_hash p) height c else c.

Lemma db_applied c d p height best : db (applied c d p height best) = d.
Proof. by destruct best. Qed.

(** What an action that is allowed to start does, case by case. *)
Lemma apply_block_action_run block height action is_best work batch c :
  state_lock c = false → batch_pending c = false → read_only_mode c && is_connect action = false →
  apply_block_action block height action is_best work batch c =
  match prepare_action c block height action work batch with
  | Ok p =>
      match retry_write retry_delays (p_batch p) (db c) with
      | (Ok _, d) =>
          if is_connect action && is_best && (PRUNE_DEPTH <? height)
          then (Hang, set_locked true (set_pending true (applied c d p height true)))
          else (Ok tt, applied c d p height (is_connect action && is_best))
      | (Err e, d) =>
          let '(ok, d') := try_rollback 3 (rollback_batch (p_rollback p)) d in
          (Err e, set_pending true (set_db d'
                    (match ok with Ok true => c | _ => set_read_only true c end)))
      | (Panic, d) => (Panic, set_pending true (set_db d c))
      | (Hang, d) => (Hang, set_locked true (set_pending true (set_db d c)))
      end
  | Err e => (Err e, set_pending true c)
  | Panic => (Panic, set_pending true c)
  | Hang => (Hang, set_locked true (set_pending true c))
  end.
Proof.
  intros Hl Hp Hr. destruct c as [d st tip bh orph gh pend ro lk cps mp]. simpl in Hl, Hp, Hr. subst lk pend.
  set (c := mkChain _ _ _ _ _ _ _ _ _ _ _).
  unfold apply_block_action, with_lock, mbind, M_bind, get, modify, lift, attempt, on_db. cbn -[try_rollback].
  rewrite Hr. cbn -[try_rollback].
  change (prepare_action (set_locked true c)) with (prepare_action c).
  destruct (prepare_action c block height action work batch) as [p|e| |]; try done.
  destruct (retry_write retry_delays (p_batch p) d) as [[u|e| |] d1]; cbn -[try_rollback]; try done.
  - destruct (is_connect action && is_best); cbn; [|done]. unfold advance_tip, mbind, M_bind, modify. cbn.
    by destruct (PRUNE_DEPTH <? height).
  - destruct (try_rollback_spec 3 (rollback_batch (p_rollback p)) d1) as ([|] & d2 & -> & _); done.
Qed.

(** The lock and the two guards at the start of an action. *)
Lemma apply_block_action_locked block height action is_best work batch c :
  state_lock c = true → apply_block_action block height action is_best work batch c = (Hang, c).
Proof. intros H. unfold apply_block_action, with_lock. by rewrite H. Qed.

Lemma apply_block_action_pending block height action is_best work batch c :
  state_lock c = false → batch_pending c = true →
  apply_block_action block height action is_best work batch c =
  (Err (Anyhow "Batch pending, cannot apply action"), c).
Proof. destruct c. simpl. by intros -> ->. Qed.

Lemma apply_block_action_read_only block height action is_best work batch c :
  state_lock c = false → batch_pending c = false → read_only_mode c && is_connect action = true →
  apply_block_action block height action is_best work batch c =
  (Err (Anyhow "Chain in read-only mode due to previous failure"), c).
Proof.
  destruct c. simpl. intros -> -> H. unfold apply_block_action, with_lock, mbind, M_bind, get. cbn.
  by rewrite H.
Qed.

(** A successful action: the guards held, and these are its two computations. *)
Lemma apply_block_action_Ok block height action is_best work batch c c' :
  apply_block_action block height action is_best work batch c = (Ok tt, c') →
  state_lock c = false ∧ batch_pending c = false ∧ read_only_mode c && is_connect action = false ∧
  (is_connect action && is_best = true → height <= PRUNE_DEPTH) ∧
  ∃ p d, prepare_action c block height action work batch = Ok p ∧
    retry_write retry_delays (p_batch p) (db c) = (Ok tt, d) ∧
    c' = applied c d p height (is_connect action && is_best).
Proof.
  intros H. destruct (state_lock c) eqn:Hl.
  { by rewrite apply_block_action_locked in H. }
  destruct (batch_pending c) eqn:Hp.
  { by rewrite apply_block_action_pending in H. }
  destruct (read_only_mode c && is_connect action) eqn:Hr.
  { by rewrite apply_block_action_read_only in H. }
  rewrite apply_block_action_run in H by done.
  destruct (prepare_action c block height action work batch) as [p| | |] eqn:Ep; try done.
  destruct (retry_write retry_delays (p_batch p) (db c)) as [[[]|e| |] d] eqn:Ew; try done;
    [|destruct (try_rollback 3 (rollback_batch (p_rollback p)) d); done].
  destruct (is_connect action && is_best) eqn:Hb; simpl in H.
  - destruct (Z.ltb_spec PRUNE_DEPTH height); [done|]. injection H as <-.
    split_and!; [done..|]. exists p, d. done.
  - injection H as <-. split_and!; [done..|]. exists p, d. done.
Qed.

Lemma prepare_action_Ok c block height action work batch p :
  prepare_action c block height action work batch = Ok p →
  ∃ hash a supply, header_hash (header block) = Ok hash ∧
    apply_utxo_changes (db c) height (is_connect action) block
      (utxo_set_hash (state c)) (total_supply (state c)) batch = Ok a ∧
    load_supply_from_db (db c) = Ok supply ∧
    let new_supply := if is_connect action then wadd 64 supply (subsidy height)
                      else wsub 64 supply (subsidy height) in
    p = mkPrepared hash
          (ua_batch a ++ index_ops action height block ++
           [Put DB_KEY_STATE_TOTAL_SUPPLY (to_le_bytes 8 new_supply)])
          (ua_rollback a)
          (block_changes (state c) action height work block hash (ua_set_hash a) new_supply).
Proof.
  intros H. unfold prepare_action in H.
  apply bind_Ok in H as (_ & _ & H). apply bind_Ok in H as (_ & _ & H).
  apply bind_Ok in H as (hash & Hh & H). apply bind_Ok in H as (a & Ha & H).
  apply bind_Ok in H as (supply & Hs & H). injection H as <-. by exists hash, a, supply.
Qed.

(** Index operations only touch the transaction index and the header key. *)
Lemma index_ops_keys action height block ck :
  ck ∈ op_key <$> index_ops action height block →
  ck.1 = "tx_index" ∨ ck = (default_cf, hdr_key height).
Proof.
  destruct action; simpl.
  - rewrite elem_of_cons. intros [->|(o & -> & (e & -> & _)%list_elem_of_fmap)%list_elem_of_fmap];
      [by right|by left].
  - intros (o & -> & (e & -> & _)%list_elem_of_fmap)%list_elem_of_fmap. by left.
Qed.

(** Everything a successful connection changes. *)
Lemma connect_effects block height is_best work c c' :
  apply_block_action block height Connect is_best work [] c = (Ok tt, c') →
  ∃ hash a supply,
    header_hash (header block) = Ok hash ∧
    apply_utxo_changes (db c) height true block
      (utxo_set_hash (state c)) (total_supply (state c)) [] = Ok a ∧
    load_supply_from_db (db c) = Ok supply ∧
    (∀ ck, ck.1 ≠ "tx_index" → ck ≠ (default_cf, hdr_key height) →
           ck ≠ (default_cf, DB_KEY_STATE_TOTAL_SUPPLY) →
           contents (db c') !! ck = apply_batch (ua_batch a) (contents (db c)) !! ck) ∧
    contents (db c') !! (default_cf, hdr_key height) = Some (serialize (header block)) ∧
    contents (db c') !! (default_cf, DB_KEY_STATE_TOTAL_SUPPLY)
      = Some (to_le_bytes 8 (wadd 64 supply (subsidy height))) ∧
    blocks (state c') = <[height := block]> (blocks (state c)) ∧
    height_to_hash (state c') = <[height := hash]> (height_to_hash (state c)) ∧
    hash_to_height (state c') = <[hash := height]> (hash_to_height (state c)) ∧
    cumulative_work (state c') = <[height := work_after (state c) height work]> (cumulative_work (state c)) ∧
    total_supply (state c') = wadd 64 supply (subsidy height) ∧
    utxo_set_hash (state c') = ua_set_hash a ∧
    (best_tip c', best_height c') = (if is_best then (hash, height) else (best_tip c, best_height c)) ∧
    batch_pending c' = false ∧ state_lock c' = false ∧ orphan_blocks c' = orphan_blocks c.
Proof.
  intros H. apply apply_block_action_Ok in H as (Hl & Hp & _ & _ & p & d & Hprep & Hw & ->).
  apply prepare_action_Ok in Hprep as (hash & a & supply & Hh & Ha & Hs & ->).
  exists hash, a, supply. apply retry_write_spec in Hw as [[_ Hc]|[]]; [|done].
  rewrite db_applied, Hc. cbn [p_batch is_connect]. rewrite !apply_batch_app.
  split_and!; [done..| | | | | | | | | | | | |]; try (destruct is_best; done).
  - intros ck H1 H2 H3. rewrite apply_batch_ne by set_solver.
    apply apply_batch_ne. by intros [?|?]%index_ops_keys.
  - rewrite apply_batch_ne by set_solver. simpl. rewrite apply_batch_ne.
    + by rewrite lookup_insert_eq.
    + intros (o & E & (e & -> & _)%list_elem_of_fmap)%list_elem_of_fmap. done.
  - simpl. by rewrite lookup_insert_eq.
  - destruct is_best; simpl; by rewrite insert_union_singleton_l.
  - destruct is_best; simpl; by rewrite insert_union_singleton_l.
  - destruct is_best; simpl; by rewrite insert_union_singleton_l.
  - destruct is_best; simpl; by rewrite insert_union_singleton_l.
Qed.

(** The last operation on a key decides. *)
Lemma apply_batch_put b1 c k v b2 m :
  (c, k) ∉ op_key <$> b2 → apply_batch (b1 ++ BPut c k v :: b2) m !! (c, k) = Some v.
Proof.
  intros H. rewrite apply_batch_app. change (BPut c k v :: b2) with ([BPut c k v] ++ b2). rewrite apply_batch_app, apply_batch_ne by done.
  apply lookup_insert_eq.
Qed.

(** The entry of a transaction is that of its last occurrence in the block. *)
Lemma index_ops_entry height block m i t :
  txs block !! i = Some t → (∀ j u, (i < j)%nat → txs block !! j = Some u → tx_hash u ≠ tx_hash t) →
  apply_batch (index_ops Connect height block) m !! ("tx_index", tx_hash t) = Some (serialize (height, Z.of_nat i)).
Proof.
  intros Hi Hlast. set (f := λ k u, BPut "tx_index" (tx_hash u) (serialize (height, Z.of_nat k))).
  assert (index_ops Connect height block = Put (hdr_key height) (serialize (header block)) :: imap f (txs block)) as ->.
  { unfold index_ops, tx_index_entries. f_equal. apply fmap_imap. }
  rewrite <- (take_drop_middle _ _ _ Hi) at 1. rewrite imap_app, app_comm_cons. cbn [imap].
  unfold f at 2. rewrite length_take_le by (apply lookup_lt_Some in Hi; lia). unfold compose. rewrite Nat.add_0_r.
  apply apply_batch_put. intros ([c k v|] & E & Ho)%list_elem_of_fmap; [|by apply list_elem_of_lookup_1 in Ho as [q Ho]; rewrite list_lookup_imap in Ho; destruct (_ !! q)].
  apply list_elem_of_lookup_1 in Ho as [q Ho]. rewrite list_lookup_imap in Ho.
  destruct (drop (S i) (txs block) !! q) as [u|] eqn:Hu; [|done]. rewrite lookup_drop in Hu. injection Ho as <- <- <-. injection E as E.
  by apply (Hlast (S i + q)%nat u); [lia|done|].
Qed.

(** C9. Connecting a block that succeeds has exactly these effects.  On disk: the
    operations of the ledger, the header under its height, the supply counter
    advanced by the subsidy, the place of every transaction in the index, and
    nothing else.  In memory: the block, its hash, height and cumulative work, its
    time at the end of the last eleven, the new set hash and the counter; the tip
    moves when the block is the best one; no other field of the chain changes, and
    it accepts further actions. *)
Theorem apply_connect_effects block height is_best work c c' :
  apply_block_action block height Connect is_best work [] c = (Ok tt, c') →
  ∃ hash a supply,
    header_hash (header block) = Ok hash ∧
    apply_utxo_changes (db c) height true block
      (utxo_set_hash (state c)) (total_supply (state c)) [] = Ok a ∧
    load_supply_from_db (db c) = Ok supply ∧
    (∀ i t, txs block !! i = Some t → (∀ j u, (i < j)%nat → txs block !! j = Some u → tx_hash u ≠ tx_hash t) →
       contents (db c') !! ("tx_index", tx_hash t) = Some (serialize (height, Z.of_nat i))) ∧
    contents (db c') !! (default_cf, hdr_key height) = Some (serialize (header block)) ∧
    contents (db c') !! (default_cf, DB_KEY_STATE_TOTAL_SUPPLY)
      = Some (to_le_bytes 8 (wadd 64 supply (subsidy height))) ∧
    (∀ ck, (∀ t, t ∈ txs block → ck ≠ ("tx_index", tx_hash t)) → ck ≠ (default_cf, hdr_key height) →
       ck ≠ (default_cf, DB_KEY_STATE_TOTAL_SUPPLY) →
       contents (db c') !! ck = apply_batch (ua_batch a) (contents (db c)) !! ck) ∧
    c' = mkChain (db c')
           (mkChainState (<[height := block]> (blocks (state c))) (<[height := hash]> (height_to_hash (state c)))
              (<[hash := height]> (hash_to_height (state c)))
              (<[height := work_after (state c) height work]> (cumulative_work (state c)))
              (let times := timestamps (state c) ++ [timestamp (header block)] in
               if (11 <? length times)%nat then tail times else times)
              (ua_set_hash a) (wadd 64 supply (subsidy height)))
           (if is_best then hash else best_tip c) (if is_best then height else best_height c)
           (orphan_blocks c) (genesis_hash c) false (read_only_mode c) false (checkpoint_hashes c) (chain_mempool c).
Proof.
  intros H. apply apply_block_action_Ok in H as (Hl & Hp & _ & _ & p & d & Hprep & Hw & ->).
  apply prepare_action_Ok in Hprep as (hash & a & supply & Hh & Ha & Hs & ->).
  exists hash, a, supply. apply retry_write_spec in Hw as [[_ Hc]|[]]; [|done].
  rewrite db_applied, Hc. cbn [p_batch is_connect]. rewrite !apply_batch_app. set (m := apply_batch (ua_batch a) (contents (db c))).
  assert (Hne : ∀ ck, ck ≠ (default_cf, DB_KEY_STATE_TOTAL_SUPPLY) → ∀ m v,
    apply_batch [Put DB_KEY_STATE_TOTAL_SUPPLY v] m !! ck = m !! ck) by (intros ck Hck m' v; apply apply_batch_ne; set_solver).
  split_and!; [done..| | | | |].
  - intros i t Hi Hlast. rewrite Hne by done. by apply index_ops_entry.
  - rewrite Hne by done. simpl. rewrite apply_batch_ne; [by rewrite lookup_insert_eq|].
    intros (o & E & (e & -> & _)%list_elem_of_fmap)%list_elem_of_fmap. done.
  - simpl. by rewrite lookup_insert_eq.
  - intros ck H1 H2 H3. rewrite Hne by done. apply apply_batch_ne. cbn [index_ops]. rewrite fmap_cons, elem_of_cons. intros [->|Hck]; [done|].
    apply list_elem_of_fmap in Hck as (o & -> & (e & -> & He)%list_elem_of_fmap). unfold tx_index_entries in He.
    apply list_elem_of_lookup_1 in He as [k He]. rewrite list_lookup_imap in He. destruct (txs block !! k) as [t|] eqn:Ht; [|done].
    injection He as <-. apply (H1 t); [by eapply list_elem_of_lookup_2|done].
  - unfold applied, commit_changes, block_changes. destruct c as [? st ? ? ? ? bp ro lk ? ?], st, is_best;
      cbn in Hl, Hp |- *; subst; by rewrite !insert_union_singleton_l.
Qed.

(** C13. A block that creates only keys that are not in use, and whose write
    fails, leaves no trace on disk: every attempt was atomic and the inverse
    operations restate what was stored.  The memory state and the tip are
    unchanged; if the three rollback attempts fail too, the chain is read-only.
    (For a block that creates a key in use the inverse operations delete it,
    see [rollback_deletes_coinbase].) *)
Theorem failed_write_restores block height is_best work c p e d :
  state_lock c = false → batch_pending c = false → read_only_mode c = false →
  unused_keys (contents (db c)) block →
  prepare_action c block height Connect work [] = Ok p →
  retry_write retry_delays (p_batch p) (db c) = (Err e, d) →
  ∃ ok c', apply_block_action block height Connect is_best work [] c = (Err e, c') ∧
    contents (db c') = contents (db c) ∧ state c' = state c ∧
    best_tip c' = best_tip c ∧ best_height c' = best_height c ∧
    (try_rollback 3 (rollback_batch (p_rollback p)) d).1 = Ok ok ∧
    read_only_mode c' = negb ok.
Proof.
  intros Hl Hp Hr Hu Hprep Hw. rewrite apply_block_action_run, Hprep, Hw by (by rewrite ?Hr).
  destruct (try_rollback_spec 3 (rollback_batch (p_rollback p)) d) as (ok & d' & -> & Hc).
  apply retry_write_spec in Hw as [[]|[_ Hd]]; [done|].
  apply prepare_action_Ok in Hprep as (hash & a & supply & _ & Ha & _ & ->).
  apply connect_rollback_faithful in Ha; [|done].
  exists ok. eexists. split; [done|]. cbn [p_rollback] in Hc. rewrite Hd in Hc.
  assert (contents d' = contents (db c)) as E.
  { destruct ok; [|done]. by rewrite Hc, rollback_batch_id. }
  destruct ok; simpl; by rewrite ?Hr.
Qed.

(** An action that fails after its guards leaves [batch_pending] set: the
    chain in memory is unchanged, but every later action is refused. *)
Theorem failed_action_wedges block height action is_best work batch c e c' :
  state_lock c = false → batch_pending c = false → read_only_mode c = false →
  apply_block_action block height action is_best work batch c = (Err e, c') →
  state c' = state c ∧
  ∀ block' height' action' is_best' work' batch',
    apply_block_action block' height' action' is_best' work' batch' c' =
    (Err (Anyhow "Batch pending, cannot apply action"), c').
Proof.
  intros Hl Hp Hr H. rewrite apply_block_action_run in H by (by rewrite ?Hr).
  assert (state c' = state c ∧ state_lock c' = false ∧ batch_pending c' = true) as (E & E1 & E2).
  { destruct (prepare_action c block height action work batch) as [p| | |]; simplify_eq; [|done].
    destruct (retry_write retry_delays (p_batch p) (db c)) as [[[]|e'| |] d]; simplify_eq.
    - by destruct (is_connect action && is_best && (PRUNE_DEPTH <? height)).
    - destruct (try_rollback 3 (rollback_batch (p_rollback p)) d) as [[[|]| | |] d']; by simplify_eq. }
  split; [done|]. intros. by apply apply_block_action_pending.
Qed.

(** No block above the pruning depth can become the best one through
    [apply_block_action]: [prune] locks the lock its caller holds, after the
    block is on disk and in memory. *)
Theorem prune_deadlock block height work batch c p d :
  state_lock c = false → batch_pending c = false → read_only_mode c = false →
  PRUNE_DEPTH < height →
  prepare_action c block height Connect work batch = Ok p →
  retry_write retry_delays (p_batch p) (db c) = (Ok tt, d) →
  ∃ c', apply_block_action block height Connect true work batch c = (Hang, c') ∧
    db c' = d ∧ best_height c' = height ∧ batch_pending c' = true ∧ state_lock c' = true.
Proof.
  intros Hl Hp Hr Hh Hprep Hw. rewrite apply_block_action_run, Hprep, Hw by (by rewrite ?Hr).
  simpl. rewrite (proj2 (Z.ltb_lt _ _)) by done. by eexists.
Qed.

(** ** A new chain *)

Lemma init_genesis_Ok genesis c c' :
  init_genesis genesis c = (Ok tt, c') →
  ∃ target, compact_to_target (bits (header genesis)) = Ok target ∧
    apply_block_action genesis 0 Connect true (block_work target) [] c = (Ok tt, c').
Proof.
  intros (target & c1 & H1 & H)%M_bind_Ok. unfold lift in H1. injection H1 as H1 <-. eauto.
Qed.

Lemma new_chain_state genesis cps m d c d' :
  Chain_new genesis cps m d = (Ok c, d') →
  ∃ hash target, header_hash (header genesis) = Ok hash ∧
    compact_to_target (bits (header genesis)) = Ok target ∧
    db c = d' ∧ genesis_hash c = hash ∧ best_tip c = hash ∧ best_height c = 0 ∧
    hash_to_height (state c) = {[ hash := 0 ]} ∧
    cumulative_work (state c) = {[ 0 := block_work target ]} ∧
    state_lock c = false ∧ batch_pending c = false ∧
    contents d' !! (default_cf, hdr_key 0) = Some (serialize (header genesis)) ∧
    (∀ k, k ∈ [DB_KEY_TIP; DB_KEY_HEIGHT; DB_KEY_GENESIS_HASH; height_key 0; block_key hash] →
          contents d' !! (default_cf, k) = contents d !! (default_cf, k)).
Proof.
  unfold Chain_new. destruct (header_hash (header genesis)) as [hash| | |] eqn:Eh; try done.
  destruct (init_genesis genesis (fresh_chain d zero_hash 0 hash cps m)) as [[[]| | |] c1] eqn:E;
    try done. intros [= <- <-].
  apply init_genesis_Ok in E as (target & Ht & H). exists hash, target.
  pose proof (apply_block_action_Ok _ _ _ _ _ _ _ _ H) as (_ & _ & _ & _ & p & d2 & _ & _ & Hc).
  apply connect_effects in H
    as (hash' & a & s & Eh' & Ha & Hs & Hf & Hhdr & _ & _ & _ & Hth & Hcw & _ & _ & [= Htip Hbh] & Hpd & Hl & _).
  rewrite Eh in Eh'. injection Eh' as <-.
  assert (genesis_hash c1 = hash) by by rewrite Hc.
  split_and!; [done..|by rewrite Hth|by rewrite Hcw|done|done|done|].
  intros k Hk. rewrite Hf, (apply_utxo_changes_frame _ _ _ _ _ _ _ _ _ _ Ha); [done|..].
  all: rewrite !elem_of_cons in Hk; destruct_or!; subst; try done; by apply not_elem_of_nil in Hk.
Qed.

(** A chain created from a genesis block knows exactly that block, as its
    tip at height 0 with its own work; its header is stored, but neither the
    block nor the tip, the height or the genesis hash is written to disk. *)
Theorem Chain_new_state genesis cps m d c d' :
  Chain_new genesis cps m d = (Ok c, d') →
  ∃ hash target, header_hash (header genesis) = Ok hash ∧
    compact_to_target (bits (header genesis)) = Ok target ∧
    db c = d' ∧ genesis_hash c = hash ∧ best_tip c = hash ∧ best_height c = 0 ∧
    hash_to_height (state c) = {[ hash := 0 ]} ∧
    cumulative_work (state c) = {[ 0 := block_work target ]} ∧
    state_lock c = false ∧ batch_pending c = false ∧
    contents d' !! (default_cf, hdr_key 0) = Some (serialize (header genesis)) ∧
    (∀ k, k ∈ [DB_KEY_TIP; DB_KEY_HEIGHT; DB_KEY_GENESIS_HASH; height_key 0; block_key hash] →
          contents d' !! (default_cf, k) = contents d !! (default_cf, k)).
Proof. apply new_chain_state. Qed.

(** On a database opened by the pool of db.rs no chain can be created:
    the pool opens the families ["utxo"], ["blocks"], ["headers"] and
    ["metadata"], and the first action asks for ["anonymous"]. *)
Theorem Chain_new_on_pool genesis cps m d hash target :
  pool_get d = Ok tt →
  (∀ f, cf_handle d f = bool_decide (f ∈ default_cf :: RocksManager_cfs)) →
  header_hash (header genesis) = Ok hash → compact_to_target (bits (header genesis)) = Ok target →
  Chain_new genesis cps m d = (Err (Anyhow "Anonymous CF missing"), d).
Proof.
  intros Hp Hcf Hh Ht. unfold Chain_new. rewrite Hh. unfold init_genesis, mbind at 1, M_bind, lift.
  rewrite Ht. rewrite apply_block_action_run by done. cbn [fresh_chain db].
  assert (prepare_action (fresh_chain d zero_hash 0 hash cps m) genesis 0 Connect (block_work target) []
          = Err (Anyhow "Anonymous CF missing")) as ->; [|done].
  unfold prepare_action, fresh_chain. cbn [db]. rewrite Hp. unfold require_cfs, require_cf.
  by rewrite !Hcf.
Qed.

End Apply.

(** ** Witnesses *)

#[export] Instance sample_supply_reader : SupplyReader (RK:=mem_rocks) := λ d,
  v ← get_cf (Rocks:=mem_rocks) d default_cf DB_KEY_STATE_TOTAL_SUPPLY; Ok (from_le_bytes (default [] v)).

(** A mempool that only remembers what it was told to forget. *)
#[export] Instance sample_mempool_ops : MempoolOps := {|
  mempool := list bytes;
  mempool_remove id := modify (cons id);
|}.

Definition sample_chain (d : MemDB) : Chain (RK:=mem_rocks) :=
  set_state (mkChainState ∅ ∅ ∅ ∅ [] sample_set_hash 5000)
    (fresh_chain (RK:=mem_rocks) d zero_hash 149 zero_hash ∅ []).

Definition sample_applied : Chain (RK:=mem_rocks) :=
  (apply_block_action sample_block 150 Connect true 12 [] (sample_chain sample_db)).2.

Lemma sample_applied_run :
  apply_block_action sample_block 150 Connect true 12 [] (sample_chain sample_db) = (Ok tt, sample_applied).
Proof. unfold sample_applied. apply run_eta. by vm_compute. Qed.

Lemma apply_connect_effects_witness :
  hash_to_height (state sample_applied) !! [1] = None ∧ best_height sample_applied = 150.
Proof.
  destruct (apply_connect_effects (RK:=mem_rocks) sample_block 150 true 12 (sample_chain sample_db) sample_applied)
    as (hash & a & s & Hh & _ & _ & _ & _ & _ & _ & Hc).
  - apply sample_applied_run.
  - rewrite Hc. cbn [state hash_to_height best_height]. split; [|done]. rewrite lookup_insert_ne; [done|].
    intros ->. by vm_compute in Hh.
Defined.

(** A disk on which the next six writes fail. *)
Definition faulty_db : MemDB := mkMemDB all_cfs (mem_map sample_db) (repeat true 6).

Definition sample_prepared (d : MemDB) : prepared :=
  match prepare_action (sample_chain d) sample_block 150 Connect 12 [] with
  | Ok p => p
  | _ => mkPrepared [] [] [] (block_changes empty_state Connect 0 0 sample_block [] [] 0)
  end.

Lemma failed_write_restores_witness :
  ∃ ok c', apply_block_action sample_block 150 Connect true 12 [] (sample_chain faulty_db)
           = (Err (Anyhow "Write error"), c') ∧
    contents (db c' : DB (Rocks:=mem_rocks)) = contents (faulty_db : DB (Rocks:=mem_rocks)) ∧
    read_only_mode c' = negb ok.
Proof.
  destruct (failed_write_restores (RK:=mem_rocks) sample_block 150 true 12 (sample_chain faulty_db)
              (sample_prepared faulty_db) (Anyhow "Write error")
              (retry_write (RK:=mem_rocks) retry_delays (p_batch (sample_prepared faulty_db)) faulty_db).2)
    as (ok & c' & H & Hc & _ & _ & _ & _ & Hr); [done|done|done| | | |by exists ok, c'].
  - apply (bool_decide_unpack _). by vm_compute.
  - by vm_compute.
  - apply run_eta. by vm_compute.
Defined.

(** The coinbase of the block is already recorded, its write fails three times
    and the roll-back, which never looked, removes the record. *)
Definition recorded_db : MemDB :=
  mkMemDB all_cfs (<[("coinbase", tx_hash sample_coinbase) := to_be_bytes 8 7]> (mem_map sample_db)) (repeat true 3).

Example rollback_deletes_coinbase :
  let c' := (apply_block_action sample_block 150 Connect true 12 [] (sample_chain recorded_db)).2 in
  contents (recorded_db : DB (Rocks:=mem_rocks)) !! ("coinbase", tx_hash sample_coinbase) = Some (to_be_bytes 8 7) ∧
  contents (db c' : DB (Rocks:=mem_rocks)) !! ("coinbase", tx_hash sample_coinbase) = None ∧ read_only_mode c' = false.
Proof. by split_and!; vm_compute. Qed.

Lemma failed_action_wedges_witness :
  let c' := (apply_block_action sample_block 150 Connect true 12 [] (sample_chain faulty_db)).2 in
  apply_block_action sample_block 150 Connect true 12 [] c'
  = (Err (Anyhow "Batch pending, cannot apply action"), c').
Proof.
  apply (failed_action_wedges (RK:=mem_rocks) sample_block 150 Connect true 12 [] (sample_chain faulty_db)
           (Anyhow "Write error")); [done|done|done|].
  apply run_eta. by vm_compute.
Defined.

Definition deep_prepared : prepared :=
  match prepare_action (sample_chain sample_db) sample_block 10081 Connect 12 [] with
  | Ok p => p
  | _ => sample_prepared sample_db
  end.

Lemma prune_deadlock_witness :
  ∃ c', apply_block_action sample_block 10081 Connect true 12 [] (sample_chain sample_db) = (Hang, c').
Proof.
  destruct (prune_deadlock (RK:=mem_rocks) sample_block 10081 12 [] (sample_chain sample_db) deep_prepared
              (retry_write (RK:=mem_rocks) retry_delays (p_batch deep_prepared) sample_db).2)
    as (c' & H & _); [done|done|done|done| | |by exists c'].
  - by vm_compute.
  - apply run_eta. by vm_compute.
Defined.

Definition genesis_sample : Block := mkBlock sample_header [sample_coinbase].

Definition new_chain : outcome (Chain (RK:=mem_rocks)) * MemDB :=
  Chain_new (RK:=mem_rocks) (MP:=sample_mempool_ops) genesis_sample ∅ [] empty_db.

Definition new_chain_value : Chain (RK:=mem_rocks) :=
  match new_chain.1 with Ok c => c | _ => sample_chain empty_db end.

Lemma new_chain_run : new_chain = (Ok new_chain_value, new_chain.2).
Proof.
  apply run_eta. unfold new_chain_value.
  assert (match new_chain.1 with Ok _ => true | _ => false end = true) by by vm_compute.
  by destruct (new_chain.1).
Qed.

Lemma Chain_new_state_witness :
  best_height new_chain_value = 0 ∧
  contents (new_chain.2 : DB (Rocks:=mem_rocks)) !! (default_cf, DB_KEY_TIP) = None.
Proof.
  destruct (Chain_new_state (RK:=mem_rocks) (MP:=sample_mempool_ops) genesis_sample ∅ [] empty_db new_chain_value new_chain.2)
    as (hash & target & _ & _ & _ & _ & _ & Hb & _ & _ & _ & _ & _ & Hk).
  - apply new_chain_run.
  - split; [done|]. apply (Hk DB_KEY_TIP). constructor.
Defined.

Lemma Chain_new_on_pool_witness :
  Chain_new (RK:=mem_rocks) (MP:=sample_mempool_ops) genesis_sample ∅ [] (mkMemDB (default_cf :: RocksManager_cfs) ∅ [])
  = (Err (Anyhow "Anonymous CF missing"), mkMemDB (default_cf :: RocksManager_cfs) ∅ []).
Proof.
  eapply (Chain_new_on_pool (RK:=mem_rocks) (MP:=sample_mempool_ops)); [done|done|by vm_compute|by vm_compute].
Defined.
