(* ===== verification/BlockValidation.v ===== *)
(** * BlockValidation: the consensus checks on a block

    [Chain::validate_block] of src/111/src/chain.rs: size, proof of work,
    difficulty, Merkle root, coinbase, transactions, coinbase value, range
    proofs and commitments of the whole block, timestamp and checkpoint, in the
    order of the code. *)
From S2P Require Import Prelude Errors Types Externals Instances Utils Keys Tx Ledger Store Chain.

Section BlockValidation.
  Context {CR : Crypto} {CD : Codec} {RK : Rocks} {MP : MempoolOps}.

(** The outputs the transactions of the block spend, as far as they are
    stored: transparent ones and anonymous ones. *)
Record loaded := mkLoaded {
  utxos : gmap (bytes * Z) TXOutput;
  anon_outputs : gmap (bytes * Z) TXOutput;
}.

Definition load_input (d : DB) (anon : bool) (l : loaded) (vin : TXInput) : outcome loaded :=
  v ← get_cf d (output_cf anon) (output_key anon (txid vin) (vout vin));
  match v with
  | None => Ok l
  | Some v =>
      output ← ok_or (deserialize (A:=TXOutput) v) (Anyhow "Deserialize output failed");
      Ok (if anon then mkLoaded (utxos l) (<[(txid vin, vout vin) := output]> (anon_outputs l))
          else mkLoaded (<[(txid vin, vout vin) := output]> (utxos l)) (anon_outputs l))
  end.

Definition load_inputs (d : DB) (ts : list Transaction) : outcome loaded :=
  for_each (λ l t, for_each (load_input d (is_anonymous t)) l (inputs t)) (mkLoaded ∅ ∅) ts.

(** [tx.fee(if tx.is_anonymous { &anon_outputs } else { &utxos })] *)
Definition fee_in (l : loaded) (t : Transaction) : Z :=
  tx_fee (if is_anonymous t then anon_outputs l else utxos l) t.

(** The commitments and range proofs collected over the block. *)
Record commitments := mkCommitments {
  block_input_commitments : list Point;
  block_output_commitments : list Point;
  batch_verifier : list (RangeProof * Point * Z);
}.

Definition push_commitment (l : list Point) (comm : option bytes) : outcome (list Point) :=
  match comm with
  | None => Ok l
  | Some comm => p ← decompress comm; Ok (l ++ [p])
  end.

Definition collect_tx (anon : gmap (bytes * Z) TXOutput) (acc : commitments) (t : Transaction)
    : outcome commitments :=
  if negb (is_anonymous t) then Ok acc else
  ins ← for_each (λ l vin,
          match anon !! (txid vin, vout vin) with
          | Some out => push_commitment l (commitment out)
          | None => Ok l
          end) (block_input_commitments acc) (inputs t);
  outs ← for_each (λ l out, push_commitment l (commitment out)) (block_output_commitments acc) (outputs t);
  queue ← queue_proofs t;
  Ok (mkCommitments ins outs (batch_verifier acc ++ queue)).

(** [iter().fold(pc.commit(0, 0), |acc, comm| acc + comm)] *)
Definition sum_points (l : list Point) : Point := foldl Point_add (pc_commit 0 0) l.

(** The range-proof and balance checks; the verifier's verdict is only tested
    with [is_ok()], so a verdict of [false] passes. *)
Definition check_commitments (anon : gmap (bytes * Z) TXOutput) (block : Block) (total_fees : Z)
    : outcome unit :=
  acc ← for_each (collect_tx anon) (mkCommitments [] [] []) (txs block);
  (ensure (bool_decide (is_Some (batch_verify (batch_verifier acc)))) InvalidRangeProof);;
  ensure (Point_eqb (sum_points (block_input_commitments acc))
            (Point_add (sum_points (block_output_commitments acc)) (pc_commit total_fees 0)))
    InvalidCommitment.

Definition check_coinbase_value (block : Block) (expected : Z) : bool :=
  match txs block with
  | cb :: _ => match outputs cb with o :: _ => value o =? expected | [] => false end
  | [] => false
  end.

Definition validate_block (c : Chain) (block : Block) (height : Z) (ms : outcome Z) : outcome unit :=
  (ensure (negb (MAX_BLOCK_SIZE <? block_size block)) (InvalidBlock "Block too large"));;
  hash ← header_hash (header block);
  target ← compact_to_target (bits (header block));
  (ensure (negb (target <? u256_from_be hash)) InsufficientPoW);;
  next_bits ← calculate_next_bits (db c) height;
  (ensure (bits (header block) =? next_bits) (InvalidBlock "Invalid bits"));;
  root ← compute_merkle_root (txs block);
  (ensure (bool_decide (merkle_root (header block) = root)) (InvalidBlock "Invalid Merkle root"));;
  (ensure (match txs block with t :: _ => is_coinbase t | [] => false end) (InvalidBlock "No coinbase"));;
  pool_get (db c);;
  require_cf (db c) "utxo" "cf";;
  require_cf (db c) "anonymous" "cf";;
  l ← load_inputs (db c) (tail (txs block));
  for_each (λ _ t, validate_transaction (db c) (best_height c) t height) tt (tail (txs block));;
  total_fees ← ok_or (try_sum 64 (fee_in l <$> tail (txs block))) InvalidCoinbaseFee;
  expected ← ok_or (checked_add 64 (subsidy height) total_fees) InvalidCoinbaseFee;
  (ensure (check_coinbase_value block expected) InvalidCoinbaseFee);;
  check_commitments (anon_outputs l) block total_fees;;
  median_time ← get_median_timestamp (db c) (wsub 64 height 1);
  now ← ms;
  let current_time := wrap 32 (now / 1000) in
  (ensure (negb ((timestamp (header block) <=? median_time) ||
                 (wadd 32 current_time 7200 <? timestamp (header block)))) InvalidTimestamp);;
  match checkpoint_hashes c !! height with
  | Some expected_hash => ensure (bool_decide (hash = expected_hash)) AttackDetected
  | None => Ok tt
  end.

End BlockValidation.

(** ** What an accepted block satisfies *)

Section Soundness.
  Context {CR : Crypto} {CRO : CryptoOk} {CD : Codec} {CDO : CodecOk} {RK : Rocks} {RKO : RocksOk}
    {MP : MempoolOps}.

(** *** The outputs loaded for the fees *)

Definition loaded_sound (d : DB) (l : loaded) : Prop :=
  ∀ op o, utxos l !! op = Some o →
    ∃ v, get_cf d "utxo" (utxo_key op.1 op.2) = Ok (Some v) ∧ deserialize v = Some o.

Definition loaded_le (l1 l2 : loaded) : Prop :=
  ∀ op o, utxos l1 !! op = Some o → utxos l2 !! op = Some o.

(** Loading one input keeps what was loaded and adds what the input spends. *)
Lemma load_input_Ok d anon l vin l' :
  loaded_sound d l → load_input d anon l vin = Ok l' →
  loaded_sound d l' ∧ loaded_le l l' ∧
  (∀ o, anon = false → stored d vin o → utxos l' !! outpoint vin = Some o).
Proof.
  intros Hs H. unfold load_input in H. apply bind_Ok in H as (v & Hv & H).
  pose proof (get_cf_sound _ _ _ _ Hv) as Hc. destruct anon; simpl in *.
  { assert (utxos l' = utxos l) as E by (destruct v; inv_ok; done).
    unfold loaded_sound, loaded_le in *. rewrite E. split_and!; [done|done|done]. }
  destruct v as [v|]; inv_ok.
  - match goal with H : deserialize v = Some ?o |- _ => rename o into out; rename H into Ho end.
    split_and!.
    + intros op o. simpl. rewrite lookup_insert_Some. intros [[<- <-]|[_ Hop]]; [|by apply Hs].
      by exists v.
    + intros op o Hop. simpl. destruct (decide (op = (txid vin, vout vin))) as [->|];
        [|by rewrite lookup_insert_ne].
      rewrite lookup_insert_eq. destruct (Hs _ _ Hop) as (v' & Hv' & Ho').
      cbn [fst snd] in Hv'. congruence.
    + intros o _ (v' & Hv' & Ho'). simpl. unfold outpoint. rewrite lookup_insert_eq. congruence.
  - split_and!; [done|by intros ??|]. intros o _ (v' & Hv' & _). congruence.
Qed.

Lemma load_tx_Ok d anon l ins l' :
  loaded_sound d l → for_each (load_input d anon) l ins = Ok l' →
  loaded_sound d l' ∧ loaded_le l l' ∧
  (∀ vin o, anon = false → vin ∈ ins → stored d vin o → utxos l' !! outpoint vin = Some o).
Proof.
  revert l. induction ins as [|i ins IH]; intros l Hs; simpl.
  { intros [= <-]. split_and!; [done|by intros ??|]. by intros ??? ?%not_elem_of_nil. }
  intros (l1 & H1 & H)%bind_Ok. apply load_input_Ok in H1 as (Hs1 & Hle1 & Hi1); [|done].
  apply IH in H as (Hs2 & Hle2 & Hi2); [|done]. split_and!; [done|by intros ???; auto|].
  intros vin o Ha [->|Hin]%elem_of_cons Hst; [|by eauto]. by apply Hle2, Hi1.
Qed.

Lemma load_inputs_Ok d ts l :
  load_inputs d ts = Ok l →
  ∀ t vin o, t ∈ ts → is_anonymous t = false → vin ∈ inputs t → stored d vin o →
             utxos l !! outpoint vin = Some o.
Proof.
  unfold load_inputs. assert (loaded_sound d (mkLoaded ∅ ∅)) as Hs by done.
  revert Hs. generalize (mkLoaded ∅ ∅) as l0.
  induction ts as [|t0 ts IH]; intros l0 Hs; simpl; [by intros _ t ? ? ?%not_elem_of_nil|].
  intros (l1 & H1 & H)%bind_Ok t vin o. apply load_tx_Ok in H1 as (Hs1 & _ & Hi1); [|done].
  intros [->|Hin]%elem_of_cons Ha Hv Hst; [|by eapply IH].
  assert (∀ l2 l3, loaded_sound d l2 →
    for_each (λ l t, for_each (load_input d (is_anonymous t)) l (inputs t)) l2 ts = Ok l3 → loaded_le l2 l3) as Hmono.
  { clear -RKO. induction ts as [|t ts IH]; intros l2 l3 Hs; simpl; [intros [= <-]; by intros ??|].
    intros (l4 & H1 & H)%bind_Ok. apply load_tx_Ok in H1 as (Hs4 & Hle & _); [|done].
    intros op o Hop. eapply IH; eauto. }
  eapply Hmono; eauto.
Qed.

(** *** Inversion of the checks *)

Lemma for_each_unit {A} (f : A → outcome unit) l u :
  for_each (λ _ x, f x) u l = Ok tt → Forall (λ x, f x = Ok tt) l.
Proof.
  revert u. induction l as [|x l IH]; intros u; simpl; [constructor|].
  intros ([] & Hx & H)%bind_Ok. constructor; eauto.
Qed.

(** The facts an accepted block has, with the values the checks computed. *)
Record accepted (c : Chain) (block : Block) (height : Z) (ms : outcome Z)
    (hash : bytes) (target : Z) (l : loaded) (fees : Z) : Prop := mkAccepted {
  acc_size : block_size block <= MAX_BLOCK_SIZE;
  acc_hash : header_hash (header block) = Ok hash;
  acc_target : compact_to_target (bits (header block)) = Ok target;
  acc_pow : u256_from_be hash <= target;
  acc_bits : calculate_next_bits (db c) height = Ok (bits (header block));
  acc_merkle : compute_merkle_root (txs block) = Ok (merkle_root (header block));
  acc_coinbase : ∃ cb rest, txs block = cb :: rest ∧ is_coinbase cb = true ∧
    ∃ o outs, outputs cb = o :: outs ∧ value o = subsidy height + fees;
  acc_loaded : load_inputs (db c) (tail (txs block)) = Ok l;
  acc_txs : Forall (λ t, validate_transaction (db c) (best_height c) t height = Ok tt) (tail (txs block));
  acc_fees : try_sum 64 (fee_in l <$> tail (txs block)) = Some fees;
  acc_commitments : check_commitments (anon_outputs l) block fees = Ok tt;
  acc_time : ∃ median now, get_median_timestamp (db c) (wsub 64 height 1) = Ok median ∧ ms = Ok now ∧
    median < timestamp (header block) <= wadd 32 (wrap 32 (now / 1000)) 7200;
  acc_checkpoint : ∀ h, checkpoint_hashes c !! height = Some h → hash = h;
}.

Lemma validate_block_accepted c block height ms :
  validate_block c block height ms = Ok tt →
  ∃ hash target l fees, accepted c block height ms hash target l fees.
Proof.
  intros H. unfold validate_block in H.
  apply bind_Ok in H as (? & Hsize & H). apply ensure_Ok in Hsize.
  apply bind_Ok in H as (hash & Hhash & H). apply bind_Ok in H as (target & Htarget & H).
  apply bind_Ok in H as (? & Hpow & H). apply ensure_Ok in Hpow.
  apply bind_Ok in H as (nb & Hnb & H). apply bind_Ok in H as (? & Hbits & H). apply ensure_Ok in Hbits.
  apply bind_Ok in H as (root & Hroot & H). apply bind_Ok in H as (? & Hmr & H). apply ensure_Ok in Hmr.
  apply bind_Ok in H as (? & Hcb & H). apply ensure_Ok in Hcb.
  do 3 (apply bind_Ok in H as (? & _ & H)).
  apply bind_Ok in H as (l & Hl & H). apply bind_Ok in H as ([] & Htxs & H).
  apply bind_Ok in H as (fees & Hfees & H). apply ok_or_Ok in Hfees.
  apply bind_Ok in H as (expected & Hexp & H). apply ok_or_Ok in Hexp.
  apply checked_add_Some in Hexp as [-> _].
  apply bind_Ok in H as (? & Hval & H). apply ensure_Ok in Hval.
  apply bind_Ok in H as ([] & Hcom & H). apply bind_Ok in H as (median & Hmed & H).
  apply bind_Ok in H as (now & Hnow & H). apply bind_Ok in H as (? & Hts & H). apply ensure_Ok in Hts.
  zbool. subst root nb. exists hash, target, l, fees. split; try done.
  - unfold check_coinbase_value in Hval. destruct (txs block) as [|cb rest]; [done|].
    exists cb, rest. split_and!; [done|done|]. destruct (outputs cb) as [|o outs]; [done|].
    exists o, outs. split; [done|]. by apply Z.eqb_eq.
  - by apply for_each_unit in Htxs.
  - exists median, now. split_and!; [done|done|lia|lia].
  - intros h Hh. rewrite Hh in H. apply ensure_Ok in H. by zbool.
Qed.

(** C4. An accepted block carries enough work for the difficulty the chain
    requires at its height, commits to its transactions, starts with a coinbase
    and contains only valid transactions; the fees are exactly what the inputs
    of its transparent transactions leave over, and the first output of the
    coinbase pays the subsidy plus the sum of the fees. *)
Theorem validate_block_sound c block height ms :
  validate_block c block height ms = Ok tt →
  ∃ hash target l fees,
    header_hash (header block) = Ok hash ∧ compact_to_target (bits (header block)) = Ok target ∧
    u256_from_be hash <= target ∧ calculate_next_bits (db c) height = Ok (bits (header block)) ∧
    compute_merkle_root (txs block) = Ok (merkle_root (header block)) ∧
    (∃ cb rest o outs, txs block = cb :: rest ∧ is_coinbase cb = true ∧
       outputs cb = o :: outs ∧ value o = subsidy height + fees) ∧
    fees = sumZ (fee_in l <$> tail (txs block)) ∧
    (∀ t, t ∈ tail (txs block) →
       validate_transaction (db c) (best_height c) t height = Ok tt ∧
       (wf_tx t → tx_size t < 2 ^ 60 → is_coinbase t = false → is_anonymous t = false →
        ∃ outs, Forall2 (stored (db c)) (inputs t) outs ∧
          fee_in l t = sumZ (value <$> outs) - sumZ (value <$> outputs t) ∧
          MIN_FEE_PER_BYTE * tx_size t <= fee_in l t)).
Proof.
  intros (hash & target & l & fees & [])%validate_block_accepted.
  exists hash, target, l, fees. split_and!; try done.
  - destruct acc_coinbase0 as (cb & rest & E & Hcb & o & outs & Eo & Hv). by exists cb, rest, o, outs.
  - apply try_sum_Some in acc_fees0 as [? _]; [done|lia|].
    apply Forall_fmap, Forall_forall. intros t _. apply tx_fee_nonneg.
  - intros t Ht. rewrite Forall_forall in acc_txs0. specialize (acc_txs0 t Ht). split; [done|].
    intros Hwf Hsz Hcb Han. unfold fee_in. rewrite Han. eapply valid_tx_fee; eauto.
    intros i o Hi Hst. by eapply load_inputs_Ok.
Qed.

(** *** Only coinbase transactions *)

Lemma accepted_tx_size c block height ms hash target l fees :
  accepted c block height ms hash target l fees → Forall (λ t, tx_size t < 2 ^ 59) (txs block).
Proof.
  intros []. apply Forall_forall. intros t Ht. pose proof (serialize_block_tx block t Ht).
  unfold tx_size, block_size, MAX_BLOCK_SIZE in *. lia.
Qed.

(** On an empty set of unspent outputs nothing but coinbase is valid. *)
Lemma accepted_without_utxos c block height ms :
  (∀ ck, utxo_cf ck.1 = true → contents (db c) !! ck = None) →
  wf_block block → validate_block c block height ms = Ok tt →
  Forall (λ t, is_coinbase t = true) (txs block).
Proof.
  intros Hempty (_ & Hwf & _) (hash & target & l & fees & Hacc)%validate_block_accepted.
  pose proof (accepted_tx_size _ _ _ _ _ _ _ _ Hacc) as Hsz. destruct Hacc.
  destruct acc_coinbase0 as (cb & rest & E & Hcb & _). rewrite E in *. cbn [tail] in *.
  constructor; [done|]. apply Forall_forall. intros t Ht. destruct (is_coinbase t) eqn:Hc; [done|].
  rewrite Forall_forall in Hwf, Hsz, acc_txs0. specialize (acc_txs0 t Ht).
  assert (Ht' : t ∈ cb :: rest) by by right.
  destruct (is_anonymous t) eqn:Ha.
  { by destruct (anonymous_invalid (db c) (best_height c) t height (Hwf t Ht') (Hsz t Ht') Hc Ha acc_txs0). }
  destruct (valid_tx_fee (db c) (best_height c) t height (utxos l)) as (outs & Hst & Hf & Hle); auto.
  { specialize (Hsz t Ht'). lia. }
  { intros i o Hi Ho. eapply load_inputs_Ok; eauto. }
  destruct Hst as [|i o ? ? (v & Hv & _) _]; [|by rewrite Hempty in Hv].
  pose proof (serialize_tx_nonempty t). fold (tx_size t) in *.
  pose proof (sumZ_nonneg _ (wf_tx_outputs_nonneg t (Hwf t Ht'))).
  unfold MIN_FEE_PER_BYTE in Hle. simpl in Hf. lia.
Qed.

Lemma collect_transparent anon acc ts :
  Forall (λ t, is_anonymous t = false) ts → for_each (collect_tx anon) acc ts = Ok acc.
Proof.
  induction 1 as [|t ts Ht _ IH]; cbn [for_each]; [done|].
  assert (collect_tx anon acc t = Ok acc) as -> by (unfold collect_tx; by rewrite Ht). exact IH.
Qed.

(** No block with a payment is ever accepted: the commitments of the block
    must balance with the fees of all its transactions, and transparent fees
    are never matched by a commitment, so every transaction of an accepted
    block (without coinbase flagged anonymous) is a coinbase. *)
Theorem accepted_only_coinbase c block height ms :
  wf_block block →
  Forall (λ t, is_coinbase t = true → is_anonymous t = false) (txs block) →
  validate_block c block height ms = Ok tt →
  Forall (λ t, is_coinbase t = true) (txs block).
Proof.
  intros (_ & Hwf & _) Hna (hash & target & l & fees & Hacc)%validate_block_accepted.
  pose proof (accepted_tx_size _ _ _ _ _ _ _ _ Hacc) as Hsz. destruct Hacc.
  destruct acc_coinbase0 as (cb & rest & E & Hcb & _). rewrite E in *. cbn [tail] in *.
  apply Forall_cons in Hwf as [_ Hwf]. apply Forall_cons in Hsz as [_ Hsz].
  rewrite Forall_forall in Hwf, Hsz, acc_txs0.
  assert (Han : ∀ t, t ∈ rest → is_anonymous t = false).
  { intros t Ht. destruct (is_coinbase t) eqn:Hc.
    - rewrite Forall_forall in Hna. apply Hna; [by right|done].
    - destruct (is_anonymous t) eqn:Ha; [|done].
      by destruct (anonymous_invalid (db c) (best_height c) t height (Hwf t Ht) (Hsz t Ht) Hc Ha (acc_txs0 t Ht)). }
  assert (Hnn : Forall (λ x, 0 <= x) (fee_in l <$> rest)).
  { apply Forall_fmap, Forall_forall. intros t _. apply tx_fee_nonneg. }
  apply try_sum_Some in acc_fees0 as [-> Hlt]; [|lia|done].
  constructor; [done|]. apply Forall_forall. intros t Ht. destruct (is_coinbase t) eqn:Hc; [done|].
  assert (Hpos : 0 < sumZ (fee_in l <$> rest)).
  { destruct (valid_tx_fee (db c) (best_height c) t height (utxos l)) as (outs & _ & _ & Hle); auto.
    - specialize (Hsz t Ht). lia.
    - intros i o Hi Hst. eapply load_inputs_Ok; eauto.
    - pose proof (serialize_tx_nonempty t). fold (tx_size t) in *. unfold MIN_FEE_PER_BYTE in Hle.
      pose proof (sumZ_elem_le _ (fee_in l t) Hnn ltac:(by apply list_elem_of_fmap_2)) as Hf.
      unfold fee_in at 1 in Hf. rewrite Han in Hf by done. lia. }
  unfold check_commitments in acc_commitments0. rewrite E in acc_commitments0.
  rewrite collect_transparent in acc_commitments0.
  - cbn [mbind outcome_bind] in acc_commitments0.
    apply bind_Ok in acc_commitments0 as (_ & _ & Hc').
    apply ensure_Ok in Hc'. unfold sum_points in Hc'. simpl in Hc'.
    rewrite pc_commit_value in Hc'; [done|lia].
  - constructor; [|by apply Forall_forall]. rewrite Forall_forall in Hna. apply Hna; [by left|done].
Qed.

End Soundness.

(** ** Witnesses *)

Definition paying_coinbase (outs : list TXOutput) : Transaction :=
  mkTransaction 1 false [coinbase_input [1]] outs 0 [].

(** A block on top of [prev] with a correct Merkle root. *)
Definition mined_block (prev : bytes) (ts : Z) (l : list Transaction) : Block :=
  mkBlock (mkBlockHeader 1 prev (match compute_merkle_root l with Ok r => r | _ => [] end) ts GENESIS_BITS 0) l.

Definition block_1 : Block :=
  mined_block (best_tip new_chain_value) 1732061000 [paying_coinbase [sample_out (subsidy 1)]].

Lemma block_1_valid : validate_block new_chain_value block_1 1 (Ok 1732061000000) = Ok tt.
Proof. by vm_compute. Qed.

Lemma validate_block_sound_witness :
  ∃ hash target, header_hash (header block_1) = Ok hash ∧
    compact_to_target (bits (header block_1)) = Ok target ∧ u256_from_be hash <= target.
Proof.
  destruct (validate_block_sound (RK:=mem_rocks) new_chain_value block_1 1 (Ok 1732061000000))
    as (hash & target & l & fees & H1 & H2 & H3 & _); [apply block_1_valid|by exists hash, target].
Defined.

Lemma accepted_only_coinbase_witness : Forall (λ t, is_coinbase t = true) (txs block_1).
Proof.
  apply (accepted_only_coinbase (RK:=mem_rocks) new_chain_value block_1 1 (Ok 1732061000000)).
  - apply (bool_decide_unpack _). by vm_compute.
  - by repeat constructor.
  - apply block_1_valid.
Defined.

(** A block with a valid payment that pays its fee is refused. *)
Definition funded_chain : Chain (RK:=mem_rocks) :=
  sample_chain (mkMemDB all_cfs (<[(default_cf, hdr_key 149) := serialize (sample_hdr 1000)]> (mem_map sample_db)) []).

Definition payment_block : Block :=
  mined_block zero_hash 2000 [paying_coinbase [sample_out (subsidy 150 + 4000)]; sample_tx []].

Example payment_block_refused :
  validate_transaction (RK:=mem_rocks) (db funded_chain) 149 (sample_tx []) 150 = Ok tt ∧
  validate_block funded_chain payment_block 150 (Ok 2000000) = Err InvalidCommitment.
Proof. split; by vm_compute. Qed.

(** Only the first output of the coinbase is checked: a second one may pay any
    amount, and so may further coinbase transactions. *)
Definition greedy_block : Block :=
  mined_block (best_tip new_chain_value) 1732061000
    [paying_coinbase [sample_out (subsidy 1); sample_out (10 ^ 18)]; paying_coinbase [sample_out (10 ^ 19)]].

Example greedy_block_accepted :
  validate_block new_chain_value greedy_block 1 (Ok 1732061000000) = Ok tt.
Proof. by vm_compute. Qed.
