(* ===== verification/Supply.v ===== *)
(** * Supply: the consistency checks on the money supply

    [validate_state], [validate_state_full], [validate_supply_full] and
    [validate_supply_smart] of src/111/src/chain.rs.  Three numbers are
    compared: the value of the stored unspent outputs, the two counters kept in
    the database and in memory, and the sum of the block subsidies. *)
From S2P Require Import Prelude Errors Types Externals Instances Utils Keys Tx Ledger Store Chain.

Section Supply.
  Context {CR : Crypto} {CD : Codec} {RK : Rocks} {MP : MempoolOps}.

Definition validate_state (c : Chain) : outcome unit :=
  pool_get (db c);;
  stored_supply_bytes ← db_get (db c) DB_KEY_TOTAL_SUPPLY;
  match stored_supply_bytes with
  | None => Ok tt
  | Some b =>
      db_val ← be_uint 8 b "Invalid supply bytes";
      ensure (db_val =? total_supply (state c)) SupplyMismatch
  end.

(** [for h in 0..=self.best_height { total = total.checked_add(subsidy(h))? }] *)
Definition theoretical_supply (best : Z) : outcome Z :=
  for_each (λ s h, ok_or (checked_add 64 s (subsidy h)) ValueOverflow) 0 (seqZ 0 (best + 1)).

(** The same loop in [u128]. *)
Definition theoretical_supply_u128 (best : Z) : Z :=
  foldl (λ s h, wadd 128 s (subsidy h)) 0 (seqZ 0 (best + 1)).

(** Both column families are summed before either result is examined; the sum
    of the two [u64] wraps around. *)
Definition stored_supply (c : Chain) : outcome Z :=
  pool_get (db c);;
  require_cf (db c) "utxo" "UTXO CF missing";;
  require_cf (db c) "anonymous" "Anonymous CF missing";;
  utxo_supply ← compute_cf_supply (db c) "utxo";
  anon_supply ← compute_cf_supply (db c) "anonymous";
  Ok (wadd 64 utxo_supply anon_supply).

Definition validate_state_full (c : Chain) : outcome unit :=
  full_supply ← stored_supply c;
  total ← theoretical_supply (best_height c);
  ensure (full_supply =? total) (InvalidBlock "Supply mismatch").

Definition validate_supply_full (c : Chain) : outcome unit :=
  supply ← stored_supply c;
  calculated_supply ← theoretical_supply (best_height c);
  ensure (supply =? calculated_supply) SupplyMismatch.

Definition set_summaries (h : bytes) (s : Z) (st : ChainState) : ChainState :=
  mkChainState (blocks st) (height_to_hash st) (hash_to_height st) (cumulative_work st)
    (timestamps st) h s.

Definition validate_supply_smart : M Chain unit :=
  c ← get;
  lift (pool_get (db c));;
  saved_hash ← lift (db_get (db c) DB_KEY_UTXO_SET_HASH);
  saved_supply ← lift (db_get (db c) DB_KEY_TOTAL_SUPPLY);
  match saved_hash, saved_supply with
  | Some hash_bytes, Some supply_bytes =>
      hash ← lift (array32 hash_bytes);
      supply ← lift (be_uint 8 supply_bytes "Invalid supply bytes");
      if negb (theoretical_supply_u128 (best_height c) =? supply) then lift (bail SupplyMismatch)
      else modify (λ c, set_state (set_summaries hash supply (state c)) c)
  | _, _ => lift (validate_supply_full c)
  end.

End Supply.

(** ** The theoretical supply *)

Lemma theoretical_supply_loop n k :
  Z.of_nat (n + k) < 64 * HALVING_INTERVAL →
  for_each (λ s h, ok_or (checked_add 64 s (subsidy h)) ValueOverflow)
    (total_subsidy n) (seqZ (Z.of_nat n) (Z.of_nat k)) = Ok (total_subsidy (n + k)).
Proof.
  revert n. induction k as [|k IH]; intros n Hn.
  { by rewrite Nat.add_0_r. }
  rewrite seqZ_cons by lia. cbn [for_each].
  destruct (total_subsidy_small (S n) ltac:(lia)) as [Hb Hmax].
  rewrite total_subsidy_S in Hb.
  assert (checked_add 64 (total_subsidy n) (subsidy (Z.of_nat n)) = Some (total_subsidy (S n))) as ->.
  { apply checked_add_Some. rewrite total_subsidy_S. lia. }
  cbn [ok_or mbind outcome_bind].
  replace (Z.succ (Z.of_nat n)) with (Z.of_nat (S n)) by lia.
  replace (Z.pred (Z.of_nat (S k))) with (Z.of_nat k) by lia.
  rewrite IH by lia. do 2 f_equal. lia.
Qed.

(** Up to the end of the last halving era the checked sum never overflows. *)
Lemma theoretical_supply_Ok n :
  Z.of_nat n + 1 < 64 * HALVING_INTERVAL →
  theoretical_supply (Z.of_nat n) = Ok (total_subsidy (S n)).
Proof.
  intros Hn. pose proof (theoretical_supply_loop 0 (S n)) as H. unfold theoretical_supply.
  replace (Z.of_nat n + 1) with (Z.of_nat (S n)) by lia. apply H. lia.
Qed.

Lemma theoretical_supply_u128_loop n k :
  Z.of_nat (n + k) < 64 * HALVING_INTERVAL →
  foldl (λ s h, wadd 128 s (subsidy h)) (total_subsidy n) (seqZ (Z.of_nat n) (Z.of_nat k))
  = total_subsidy (n + k).
Proof.
  revert n. induction k as [|k IH]; intros n Hn.
  { by rewrite Nat.add_0_r. }
  rewrite seqZ_cons by lia. cbn [foldl].
  destruct (total_subsidy_small (S n) ltac:(lia)) as [Hb Hmax].
  rewrite total_subsidy_S in Hb. rewrite wadd_small, <- total_subsidy_S by lia.
  replace (Z.succ (Z.of_nat n)) with (Z.of_nat (S n)) by lia.
  replace (Z.pred (Z.of_nat (S k))) with (Z.of_nat k) by lia.
  rewrite IH by lia. f_equal. lia.
Qed.

Lemma theoretical_supply_u128_eq n :
  Z.of_nat n + 1 < 64 * HALVING_INTERVAL →
  theoretical_supply_u128 (Z.of_nat n) = total_subsidy (S n).
Proof.
  intros Hn. pose proof (theoretical_supply_u128_loop 0 (S n)) as H. unfold theoretical_supply_u128.
  replace (Z.of_nat n + 1) with (Z.of_nat (S n)) by lia. apply H. lia.
Qed.

(** The subsidy of the genesis block alone is positive. *)
Lemma total_subsidy_pos n : INITIAL_SUBSIDY <= total_subsidy (S n).
Proof.
  induction n as [|n IH]; [by vm_compute|]. rewrite total_subsidy_S.
  pose proof (subsidy_bounds (Z.of_nat (S n)) ltac:(lia)). lia.
Qed.

Section SupplySpec.
  Context {CR : Crypto} {CRO : CryptoOk} {CD : Codec} {CDO : CodecOk} {RK : Rocks} {RKO : RocksOk}
    {RT : RetryPolicy} {MP : MempoolOps} {SR : SupplyReader}.

(** The full supply check is exact: it accepts precisely when the values
    of all stored unspent outputs, transparent and anonymous, add up (modulo
    2^64) to the subsidies of the heights up to the tip. *)
Theorem validate_supply_full_exact c n s1 s2 :
  best_height c = Z.of_nat n → Z.of_nat n + 1 < 64 * HALVING_INTERVAL →
  pool_get (db c) = Ok tt → cf_handle (db c) "utxo" = true → cf_handle (db c) "anonymous" = true →
  compute_cf_supply (db c) "utxo" = Ok s1 → compute_cf_supply (db c) "anonymous" = Ok s2 →
  validate_supply_full c =
  if wadd 64 s1 s2 =? total_subsidy (S n) then Ok tt else Err SupplyMismatch.
Proof.
  intros Hb Hn Hp Hu Ha H1 H2. unfold validate_supply_full, stored_supply, require_cf.
  rewrite Hp, Hu, Ha. cbn [ensure mbind outcome_bind]. rewrite H1. cbn [mbind outcome_bind].
  rewrite H2. cbn [mbind outcome_bind]. rewrite Hb, theoretical_supply_Ok by done. done.
Qed.

(** *** The two counters disagree *)

Lemma coinbase_block_supply d height b h s batch a :
  Forall (λ t, is_coinbase t = true) (txs b) →
  apply_utxo_changes d height true b h s batch = Ok a → ua_supply a = s ∧ ua_set_hash a = h.
Proof.
  intros Hcb H. unfold apply_utxo_changes in H. apply bind_Ok in H as (a1 & H1 & H).
  injection H as <-. simpl.
  apply (for_each_inv (λ x, ua_supply x = s ∧ ua_set_hash x = h)) in H1; [done| |done].
  intros x t y Ht [Hx1 Hx2] Hy. rewrite Forall_forall in Hcb. specialize (Hcb t Ht).
  unfold handle_utxo_action, handle_coinbase in Hy. rewrite Hcb in Hy.
  apply bind_Ok in Hy as (_ & _ & Hy). by injection Hy as <-.
Qed.

Lemma be_uint_to_be_bytes n x msg :
  uint (8 * Z.of_nat n) x → be_uint n (to_be_bytes n x) msg = Ok x.
Proof.
  intros Hx. unfold be_uint. rewrite length_to_be_bytes, Nat.eqb_refl.
  cbn [ensure mbind outcome_bind]. f_equal. by apply from_to_be_bytes.
Qed.

(** The genesis block breaks the supply check of the code: it adds the
    subsidy to the counter in memory, while the counter in the database follows
    the unspent outputs, which a coinbase never enters. *)
Theorem genesis_fails_validate_state genesis cps m d c d' :
  load_supply_from_db d = Ok 0 →
  Forall (λ t, is_coinbase t = true) (txs genesis) →
  Chain_new genesis cps m d = (Ok c, d') → readable d' →
  validate_state c = Err SupplyMismatch.
Proof.
  intros Hs0 Hcb H Hr. unfold Chain_new in H.
  destruct (header_hash (header genesis)) as [hash| | |] eqn:Eh; try done.
  destruct (init_genesis genesis (fresh_chain d zero_hash 0 hash cps m)) as [[[]| | |] c1] eqn:E;
    try done. injection H as <- <-.
  apply init_genesis_Ok in E as (target & Ht & H).
  apply connect_effects in H
    as (hash' & a & s & _ & Ha & Hs & Hf & _ & _ & _ & _ & _ & _ & Hts & _).
  cbn [fresh_chain db state empty_state utxo_set_hash total_supply] in *.
  rewrite Hs0 in Hs. injection Hs as <-.
  destruct (coinbase_block_supply _ _ _ _ _ _ _ Hcb Ha) as [Es _].
  destruct (apply_utxo_changes_summaries _ _ _ _ _ _ _ _ (contents d) Ha) as [_ Hsum].
  unfold validate_state. rewrite (proj1 Hr). cbn [mbind outcome_bind].
  rewrite readable_get, Hf, Hsum, Es by done. cbn [mbind outcome_bind].
  rewrite be_uint_to_be_bytes by (by split). cbn [mbind outcome_bind]. rewrite Hts. done.
Qed.

End SupplySpec.

(** ** Witnesses *)

Lemma validate_supply_full_exact_witness :
  validate_supply_full (fresh_chain (RK:=mem_rocks) (MP:=sample_mempool_ops) empty_db zero_hash 0 zero_hash ∅ [])
  = if wadd 64 0 0 =? total_subsidy 1 then Ok tt else Err SupplyMismatch.
Proof.
  apply (validate_supply_full_exact (RK:=mem_rocks)
           (fresh_chain (RK:=mem_rocks) (MP:=sample_mempool_ops) empty_db zero_hash 0 zero_hash ∅ []) 0); by vm_compute.
Defined.

Lemma genesis_fails_validate_state_witness : validate_state new_chain_value = Err SupplyMismatch.
Proof.
  apply (genesis_fails_validate_state (RK:=mem_rocks) (MP:=sample_mempool_ops)
           genesis_sample ∅ [] empty_db new_chain_value new_chain.2).
  - by vm_compute.
  - by repeat constructor.
  - apply new_chain_run.
  - apply mem_readable.
Defined.
