(* ===== verification/AddBlock.v ===== *)
(** * AddBlock: accepting a block from a peer or from the miner

    [Chain::add_block] and [Chain::process_orphans] of src/111/src/chain.rs.
    The two call each other; [add_block n] lets the recursion go [n] levels
    deep, and a theorem below shows that one level is all there is, because the
    inner call waits for the lock the outer one holds. *)
From stdpp Require Import pretty.
From S2P Require Import Prelude Errors Types Externals Instances Utils Keys Tx Ledger Store Chain.
From S2P Require Import BlockValidation Supply.

(** The clock readings of one call, in milliseconds. *)
Record clock := mkClock {
  clk_instant : Z;
  clk_validate : outcome Z;
  clk_journal : outcome Z;
}.

Section AddBlock.
  Context {CR : Crypto} {CD : Codec} {RK : Rocks} {RT : RetryPolicy} {HO : HashOrder}
    {MP : MempoolOps} {SR : SupplyReader}.

(** ** Orphans *)

Abbreviation orphans := (gmap bytes (Block * Z)).

(** [iter().min_by_key(|(_, (_, time))| *time)]: the first entry of minimal time. *)
Fixpoint oldest (l : list (bytes * (Block * Z))) : option (bytes * (Block * Z)) :=
  match l with
  | [] => None
  | e :: l =>
      match oldest l with
      | Some e' => Some (if e'.2.2 <? e.2.2 then e' else e)
      | None => Some e
      end
  end.

Definition MAX_ORPHANS : nat := 500.

Definition evict_oldest (o : orphans) : outcome orphans :=
  if (MAX_ORPHANS <? size o)%nat then
    e ← unwrap (oldest (hash_iter o));
    Ok (delete e.1 o)
  else Ok o.

(** ** The heavier branch: disconnect down to the fork point, connect *)

(** [while current_h > prev_height], from the tip down. *)
Definition disconnect_heights (best prev : Z) : list Z := reverse (seqZ (prev + 1) (best - prev)).

Definition disconnect_ops (c : Chain) (batch : WriteBatch) (h : Z) : outcome WriteBatch :=
  blk ← load_block_from_db (db c) h;
  build_block_ops c blk h 0 Disconnect batch.

Definition reorg_batch (c : Chain) (block : Block) (prev_height height work : Z) : outcome WriteBatch :=
  batch ← for_each (disconnect_ops c) [] (disconnect_heights (best_height c) prev_height);
  build_block_ops c block height work Connect batch.

Definition connect_heavier (clk : clock) (block : Block) (prev_height height new_work current_work work : Z)
    : M Chain unit :=
  c ← get;
  (if REORG_MAX_DEPTH <? saturating_sub (best_height c) prev_height then lift (bail ReorgTooDeep)
   else mret tt);;
  (if new_work <=? current_work * 99 / 100 then lift (bail ReorgTooDeep) else mret tt);;
  ms ← lift (clk_journal clk);
  let journal_id := pretty ms in
  let disconnect_depth := wsub 64 (best_height c) prev_height in
  let journal := mkReorgJournal journal_id (best_height c) (best_tip c) disconnect_depth block in
  lift (pool_get (db c));;
  on_db (start_reorg_journal journal_id journal);;
  c ← get;
  batch ← lift (reorg_batch c block prev_height height work);
  on_db (commit_reorg_batch batch journal_id);;
  modify (λ c, set_best (best_tip c) height c).

(** What follows a block that was connected. *)
Definition finish_block (process_orphans : M Chain unit) (block : Block) (height : Z) : M Chain unit :=
  on_db (save_block height block);;
  mfor (λ t, on_mempool (mempool_remove (tx_hash t))) (txs block);;
  process_orphans;;
  if height mod 1000 =? 0 then c ← get; lift (validate_state c) else mret tt.

Definition insert_orphan (clk : clock) (hash : bytes) (block : Block) : M Chain unit :=
  c ← get;
  o ← lift (evict_oldest (<[hash := (block, clk_instant clk)]> (orphan_blocks c)));
  modify (set_orphans o).

Definition connect_block (clk : clock) (block : Block) (prev_height : Z) : M Chain bool :=
  c ← get;
  let height := prev_height + 1 in
  lift (validate_block c block height (clk_validate clk));;
  target ← lift (compact_to_target (bits (header block)));
  let work := block_work target in
  let prev_work := default 0 (cumulative_work (state c) !! prev_height) in
  let new_work := prev_work + work in
  let current_work := default 0 (cumulative_work (state c) !! best_height c) in
  if current_work <? new_work then
    connect_heavier clk block prev_height height new_work current_work work;; mret true
  else
    apply_block_action block height Connect false work [];; mret false.

Definition add_block_body (process_orphans : M Chain unit) (clk : clock) (block : Block) : M Chain bool :=
  with_lock (
    hash ← lift (header_hash (header block));
    c ← get;
    if bool_decide (is_Some (hash_to_height (state c) !! hash)) then mret false else
    match hash_to_height (state c) !! prev_hash (header block) with
    | None => insert_orphan clk hash block;; mret false
    | Some prev_height =>
        reorg ← connect_block clk block prev_height;
        finish_block process_orphans block (prev_height + 1);;
        mret reorg
    end).

(** One round over the orphans: those that were not added are kept. *)
Fixpoint orphan_round (add : Block → M Chain bool) (l : list (bytes * Block))
    : M Chain (bool * list (bytes * Block)) :=
  match l with
  | [] => mret (false, [])
  | (hash, block) :: l =>
      added ← add block;
      r ← orphan_round add l;
      mret (if added : bool then (true, r.2) else (r.1, (hash, block) :: r.2))
  end.

Fixpoint orphan_rounds (n : nat) (add : Block → M Chain bool) (to_process : list (bytes * Block))
    : M Chain (list (bytes * Block)) :=
  match to_process, n with
  | [], _ | _, O => mret to_process
  | _, S n =>
      r ← orphan_round add to_process;
      if negb r.1 then mret r.2 else orphan_rounds n add r.2
  end.

Definition fresh_orphan (now : Z) (e : bytes * (Block * Z)) : Prop :=
  saturating_sub now e.2.2 < ORPHAN_TTL.

#[export] Instance fresh_orphan_dec now e : Decision (fresh_orphan now e).
Proof. unfold fresh_orphan. apply _. Defined.

Definition process_orphans_body (add : Block → M Chain bool) (now : Z) : M Chain unit :=
  modify (λ c, set_orphans (filter (fresh_orphan now) (orphan_blocks c)) c);;
  c ← get;
  o ← lift (evict_oldest (orphan_blocks c));
  modify (set_orphans ∅);;
  rest ← orphan_rounds MAX_ORPHANS add ((λ e, (e.1, e.2.1)) <$> hash_iter o);
  modify (λ c, set_orphans (foldl (λ m e, <[e.1 := (e.2, now)]> m) (orphan_blocks c) rest) c).

Fixpoint add_block (n : nat) (clk : clock) (block : Block) : M Chain bool :=
  match n with
  | O => λ c, (Hang, c)
  | S n => add_block_body (process_orphans_body (add_block n clk) (clk_instant clk)) clk block
  end.

Definition process_orphans (clk : clock) : M Chain unit :=
  process_orphans_body (add_block 2 clk) (clk_instant clk).

End AddBlock.

(** ** What stays fixed under the lock *)

Section Frame.
  Context {CR : Crypto} {CD : Codec} {RK : Rocks} {RKO : RocksOk} {RT : RetryPolicy} {HO : HashOrder}
    {HOO : HashOrderOk} {MP : MempoolOps} {SR : SupplyReader}.

(** All of the chain but the database, the height of the tip, the orphans, the
    lock and the mempool. *)
Definition core (c : Chain) :=
  (state c, best_tip c, genesis_hash c, batch_pending c, read_only_mode c, checkpoint_hashes c).

(** An update under which the property [P] of the chain is stable. *)
Class Stable (P : Chain → Prop) (upd : Chain → Chain) : Prop := stable : ∀ c, P c → P (upd c).

(** Most updates do not touch the field the property is about. *)
#[local] Hint Extern 0 (Stable _ _) => (let Hc := fresh in intros ? Hc; exact Hc) : typeclass_instances.

(** An operation that, run under the lock, keeps the lock and the property. *)
Class Keeps {A} (P : Chain → Prop) (m : M Chain A) : Prop :=
  keeps : ∀ c, state_lock c = true → P c → state_lock (m c).2 = true ∧ P (m c).2.

#[export] Instance keeps_ret {A} P (a : A) : Keeps P (mret a).
Proof. by intros c. Qed.

#[export] Instance keeps_get P : Keeps P get.
Proof. by intros c. Qed.

#[export] Instance keeps_lift {A} P (o : outcome A) : Keeps P (lift o).
Proof. by intros c. Qed.

#[export] Instance keeps_modify P f :
  Stable P f → Stable (λ c, state_lock c = true) f → Keeps P (modify f).
Proof. intros H1 H2 c Hl Hc. split; [by apply H2|by apply H1]. Qed.

#[export] Instance keeps_on_db {A} P (m : M DB A) : (∀ d, Stable P (set_db d)) → Keeps P (on_db m).
Proof. intros H c Hl Hc. unfold on_db. destruct (m (db c)). split; [done|by apply H]. Qed.

#[export] Instance keeps_on_mempool {A} P (m : M mempool A) :
  (∀ p, Stable P (set_mempool p)) → Keeps P (on_mempool m).
Proof. intros H c Hl Hc. unfold on_mempool. destruct (m (chain_mempool c)). split; [done|by apply H]. Qed.

(** An action waits for the lock. *)
#[export] Instance keeps_apply_block_action P block height action is_best work batch :
  Keeps P (apply_block_action block height action is_best work batch).
Proof. intros c Hl Hc. by rewrite apply_block_action_locked. Qed.

#[export] Instance keeps_bind {A B} P (m : M Chain A) (f : A → M Chain B) :
  Keeps P m → (∀ a, Keeps P (f a)) → Keeps P (m ≫= f).
Proof.
  intros Hm Hf c Hl Hc. destruct (Hm c Hl Hc) as [Hl1 Hc1]. unfold mbind, M_bind.
  destruct (m c) as [[a| | |] c1]; try done. by apply Hf.
Qed.

#[export] Instance keeps_if {A} P (b : bool) (m1 m2 : M Chain A) :
  Keeps P m1 → Keeps P m2 → Keeps P (if b then m1 else m2).
Proof. by destruct b. Qed.

#[export] Instance keeps_mfor {A} P (f : A → M Chain unit) l : (∀ a, Keeps P (f a)) → Keeps P (mfor f l).
Proof. intros Hf. induction l; simpl; apply _. Qed.

#[export] Instance keeps_connect_heavier P clk block ph h nw cw w :
  (∀ d, Stable P (set_db d)) → Stable P (λ c, set_best (best_tip c) h c) →
  Keeps P (connect_heavier clk block ph h nw cw w).
Proof. intros. unfold connect_heavier. apply _. Qed.

#[export] Instance keeps_connect_block P clk block ph :
  (∀ d, Stable P (set_db d)) → Stable P (λ c, set_best (best_tip c) (ph + 1) c) →
  Keeps P (connect_block clk block ph).
Proof. intros. unfold connect_block. apply _. Qed.

(** ** One level of recursion is enough *)

Lemma add_block_locked n clk block c :
  state_lock c = true → add_block n clk block c = (Hang, c).
Proof.
  intros Hl. destruct n; [done|]. cbn [add_block]. unfold add_block_body, with_lock. by rewrite Hl.
Qed.

(** The two runs of a bind agree when the continuations agree where the first
    part can end. *)
Lemma bind_cong {A B} (m : M Chain A) (f g : A → M Chain B) `{!Keeps (λ _, True) m} c :
  state_lock c = true → (∀ a c', state_lock c' = true → f a c' = g a c') → (m ≫= f) c = (m ≫= g) c.
Proof.
  intros Hl Hfg. destruct (keeps (P:=λ _, True) c Hl I) as [Hc _]. unfold mbind, M_bind.
  destruct (m c) as [[a| | |] c1]; try done. by apply Hfg.
Qed.

(** Under the lock, processing the orphans does not depend on the recursive
    call, which can only wait. *)
Definition waits (add : Block → M Chain bool) : Prop :=
  ∀ b c, state_lock c = true → add b c = (Hang, c).

Lemma orphan_rounds_locked n add l c :
  waits add → state_lock c = true →
  orphan_rounds (S n) add l c = (if decide (l = []) then Ok [] else Hang, c).
Proof.
  intros Hadd Hl. destruct l as [|[h b] l]; [done|]. cbn. unfold mbind at 1, M_bind.
  cbn [orphan_round]. unfold mbind at 1, M_bind. by rewrite Hadd.
Qed.

Definition drained (now : Z) (c : Chain) : outcome (list (bytes * Block)) :=
  o ← evict_oldest (filter (fresh_orphan now) (orphan_blocks c));
  Ok ((λ e, (e.1, e.2.1)) <$> hash_iter o).

(** The result of [process_orphans] under the lock. *)
Lemma process_orphans_locked add now c :
  waits add → state_lock c = true →
  process_orphans_body add now c =
  match evict_oldest (filter (fresh_orphan now) (orphan_blocks c)) with
  | Ok o => (if decide (((λ e, (e.1, e.2.1)) <$> hash_iter o) = []) then Ok tt else Hang, set_orphans ∅ c)
  | Err e => (Err e, set_orphans (filter (fresh_orphan now) (orphan_blocks c)) c)
  | Panic => (Panic, set_orphans (filter (fresh_orphan now) (orphan_blocks c)) c)
  | Hang => (Hang, set_orphans (filter (fresh_orphan now) (orphan_blocks c)) c)
  end.
Proof.
  intros Hadd Hl. unfold process_orphans_body, modify, get, lift, mbind, M_bind.
  cbn [orphan_blocks set_orphans].
  destruct (evict_oldest _) as [o| | |]; try done.
  set (c1 := set_orphans ∅ _). assert (c1 = set_orphans ∅ c) as -> by done.
  change MAX_ORPHANS with (S 499). rewrite orphan_rounds_locked by done. by case_decide.
Qed.

Lemma process_orphans_cong add add' now c :
  waits add → waits add' → state_lock c = true →
  process_orphans_body add now c = process_orphans_body add' now c.
Proof. intros. by rewrite !process_orphans_locked. Qed.

Lemma waits_add_block n clk : waits (add_block n clk).
Proof. intros b c. apply add_block_locked. Qed.

Lemma finish_block_cong p q block height c :
  (∀ c, state_lock c = true → p c = q c) → state_lock c = true →
  finish_block p block height c = finish_block q block height c.
Proof.
  intros Hpq Hl. unfold finish_block. apply bind_cong; [apply _|done|]. intros _ c1 Hl1.
  apply bind_cong; [apply _|done|]. intros _ c2 Hl2. unfold mbind, M_bind. by rewrite Hpq.
Qed.

Lemma add_block_body_cong p q clk block c :
  (∀ c, state_lock c = true → p c = q c) →
  add_block_body p clk block c = add_block_body q clk block c.
Proof.
  intros Hpq. unfold add_block_body, with_lock. destruct (state_lock c); [done|].
  match goal with |- match ?x with _ => _ end = match ?y with _ => _ end => assert (x = y) as ->; [|done] end.
  apply bind_cong; [apply _|done|]. intros hash c1 Hl1. apply bind_cong; [apply _|done|]. intros c2 c3 Hl3.
  case_bool_decide; [done|]. destruct (_ !! prev_hash (header block)) as [ph|]; [|done].
  apply bind_cong; [apply _|done|]. intros reorg c4 Hl4.
  unfold mbind, M_bind. by rewrite (finish_block_cong p q).
Qed.

(** The recursion between [add_block] and [process_orphans] is one level
    deep: more fuel never changes the result. *)
Theorem add_block_fuel n clk block c : add_block (S n) clk block c = add_block 1 clk block c.
Proof.
  cbn [add_block]. apply add_block_body_cong. intros c1 Hl.
  apply process_orphans_cong; [apply waits_add_block|apply (waits_add_block 0 clk)|done].
Qed.

(** ** What a block can change *)

Lemma keeps_process_orphans P add now :
  waits add → (∀ o, Stable P (set_orphans o)) → Keeps P (process_orphans_body add now).
Proof.
  intros Hadd HP c Hl Hc. rewrite process_orphans_locked by done.
  destruct (evict_oldest _); (split; [done|by apply HP]).
Qed.

Lemma keeps_finish_block P p block height :
  (∀ d, Stable P (set_db d)) → (∀ m, Stable P (set_mempool m)) → Keeps P p →
  Keeps P (finish_block p block height).
Proof. intros. unfold finish_block. apply _. Qed.

(** A property that survives every update of [add_block] survives [add_block],
    whatever its outcome. *)
Lemma add_block_keeps P n clk block c :
  (∀ d, Stable P (set_db d)) → (∀ m, Stable P (set_mempool m)) →
  (∀ o, Stable P (set_orphans o)) → (∀ b, Stable P (set_locked b)) →
  (∀ ph, hash_to_height (state c) !! prev_hash (header block) = Some ph →
         Stable P (λ c, set_best (best_tip c) (ph + 1) c)) →
  P c → P (add_block n clk block c).2.
Proof.
  intros Hd Hm Ho Hlk Hb Hc. destruct n as [|n]; [done|]. cbn [add_block].
  unfold add_block_body, with_lock. destruct (state_lock c) eqn:Hl; [done|].
  match goal with |- P (match ?m ?c0 with _ => _ end).2 =>
    assert (P (m c0).2) as Hin; [|destruct (m c0) as [[]]; by try apply Hlk] end.
  unfold mbind at 1, M_bind, lift. destruct (header_hash (header block)) as [hash| | |]; try by apply Hlk.
  unfold mbind at 1, M_bind, get. cbn [state set_locked].
  case_bool_decide; [by apply Hlk|].
  destruct (hash_to_height (state c) !! prev_hash (header block)) as [ph|] eqn:Eph.
  - specialize (Hb ph eq_refl). pose proof (waits_add_block n clk) as Hw.
    pose proof (keeps_process_orphans P _ (clk_instant clk) Hw Ho).
    pose proof (keeps_finish_block P (process_orphans_body (add_block n clk) (clk_instant clk)) block (ph + 1)
                  Hd Hm _).
    apply (keeps (P:=P)); [done|by apply Hlk].
  - unfold insert_orphan. apply (keeps (P:=P)); [done|by apply Hlk].
Qed.

Lemma add_block_state n clk block c :
  state (add_block n clk block c).2 = state c ∧ best_tip (add_block n clk block c).2 = best_tip c.
Proof.
  assert (core (add_block n clk block c).2 = core c) as [=]; [|done].
  apply (add_block_keeps (λ c', core c' = core c)); try done; intros; intros ? E; exact E.
Qed.

(** [add_block] never touches the state in memory: whatever the block and
    the outcome, the maps of known blocks, the cumulative work, the supply and
    the tip hash stay as they are. *)
Theorem add_block_keeps_state n clk block c :
  state (add_block n clk block c).2 = state c ∧ best_tip (add_block n clk block c).2 = best_tip c.
Proof. apply add_block_state. Qed.

(** The height of the tip stays or becomes one more than a known block's. *)
Lemma add_block_height n clk block c :
  best_height (add_block n clk block c).2 = best_height c ∨
  ∃ ph, hash_to_height (state c) !! prev_hash (header block) = Some ph ∧
        best_height (add_block n clk block c).2 = ph + 1.
Proof.
  apply (add_block_keeps (λ c', best_height c' = best_height c ∨
    ∃ ph, hash_to_height (state c) !! prev_hash (header block) = Some ph ∧ best_height c' = ph + 1)).
  1-4: intros; intros ? E; exact E.
  - intros ph Hph c' _. right. by exists ph.
  - by left.
Qed.

(** ** The three ways [add_block] returns *)

Lemma set_locked_id c : state_lock c = false → set_locked false (set_locked true c) = c.
Proof. destruct c. simpl. by intros ->. Qed.

Lemma add_block_Ok n clk block c b c' :
  add_block n clk block c = (Ok b, c') →
  state_lock c = false ∧
  ∃ hash, header_hash (header block) = Ok hash ∧
    let known := hash_to_height (state c) in
    ((is_Some (known !! hash) ∧ b = false ∧ c' = c) ∨
     (known !! hash = None ∧ known !! prev_hash (header block) = None ∧ b = false ∧
      ∃ o, evict_oldest (<[hash := (block, clk_instant clk)]> (orphan_blocks c)) = Ok o ∧
           c' = set_orphans o c) ∨
     (known !! hash = None ∧ ∃ add ph c1 c2, waits add ∧ known !! prev_hash (header block) = Some ph ∧
        connect_block clk block ph (set_locked true c) = (Ok b, c1) ∧
        finish_block (process_orphans_body add (clk_instant clk)) block (ph + 1) c1 = (Ok tt, c2) ∧
        c' = set_locked false c2)).
Proof.
  destruct n as [|n]; [done|]. cbn [add_block]. unfold add_block_body, with_lock.
  destruct (state_lock c) eqn:Hl; [done|]. intros H. split; [done|].
  match type of H with (match ?m ?c0 with _ => _ end) = _ =>
    destruct (m c0) as [[b'| | |] c1] eqn:E; try done end.
  injection H as <- <-.
  apply M_bind_Ok in E as (hash & c2 & Eh & E). unfold lift in Eh. injection Eh as Eh <-.
  exists hash. split; [done|]. cbn zeta.
  apply M_bind_Ok in E as (c3 & c4 & [= <- <-] & E). cbn [state set_locked] in E.
  case_bool_decide as Hk.
  { injection E as <- <-. left. by rewrite set_locked_id. }
  apply eq_None_not_Some in Hk. right.
  destruct (hash_to_height (state c) !! prev_hash (header block)) as [ph|]; [right|left].
  - split; [done|]. apply M_bind_Ok in E as (r & c5 & Hc & E). apply M_bind_Ok in E as ([] & c6 & Hf & E).
    injection E as <- <-. exists (add_block n clk), ph, c5, c6. split_and!; try done.
    apply waits_add_block.
  - split_and!; [done|done|..].
    + apply M_bind_Ok in E as (_ & c5 & _ & E). by injection E.
    + apply M_bind_Ok in E as ([] & c5 & Hi & E). injection E as _ <-.
      apply M_bind_Ok in Hi as (c6 & c7 & [= <- <-] & Hi). apply M_bind_Ok in Hi as (o & c8 & Ho & Hi).
      unfold lift in Ho. injection Ho as Ho <-. injection Hi as <-. exists o. split; [done|].
      destruct c. simpl in *. by subst.
Qed.

(** The heavier branch, decomposed. *)
Lemma connect_heavier_Ok clk block ph h nw cw w c u c1 :
  connect_heavier clk block ph h nw cw w c = (Ok u, c1) →
  saturating_sub (best_height c) ph <= REORG_MAX_DEPTH ∧
  ∃ ms d1 d2 batch journal, clk_journal clk = Ok ms ∧
    start_reorg_journal (pretty ms) journal (db c) = (Ok tt, d1) ∧
    reorg_batch (set_db d1 c) block ph h w = Ok batch ∧
    commit_reorg_batch batch (pretty ms) d1 = (Ok tt, d2) ∧
    c1 = set_best (best_tip c) h (set_db d2 c).
Proof.
  unfold connect_heavier. intros H. apply M_bind_Ok in H as (c0 & c0' & [= <- <-] & H).
  apply M_bind_Ok in H as ([] & c2 & Hd & H).
  destruct (Z.ltb_spec REORG_MAX_DEPTH (saturating_sub (best_height c) ph)); [done|]. injection Hd as <-.
  split; [done|]. apply M_bind_Ok in H as ([] & c3 & Hw & H).
  destruct (nw <=? cw * 99 / 100); [done|]. injection Hw as <-.
  apply M_bind_Ok in H as (ms & c4 & Hms & H). unfold lift in Hms. injection Hms as Hms <-.
  apply M_bind_Ok in H as ([] & c5 & Hp & H). unfold lift in Hp. injection Hp as Hp <-.
  apply M_bind_Ok in H as ([] & c6 & Hj & H). unfold on_db in Hj.
  destruct (start_reorg_journal _ _ (db c)) as [rj d1] eqn:Ej. injection Hj as -> <-.
  apply M_bind_Ok in H as (c7 & c8 & [= <- <-] & H).
  apply M_bind_Ok in H as (batch & c9 & Hb & H). unfold lift in Hb. injection Hb as Hb <-.
  apply M_bind_Ok in H as ([] & c10 & Hc & H). unfold on_db in Hc. cbn [db set_db] in Hc.
  destruct (commit_reorg_batch batch (pretty ms) d1) as [rc d2] eqn:Ec. injection Hc as -> <-.
  injection H as <- <-. by exists ms, d1, d2, batch, (mkReorgJournal (pretty ms) (best_height c) (best_tip c) (wsub 64 (best_height c) ph) block).
Qed.

(** Under the lock a block is connected only if it is valid and heavier. *)
Lemma connect_block_Ok clk block ph c b c1 :
  state_lock c = true → connect_block clk block ph c = (Ok b, c1) →
  b = true ∧ validate_block c block (ph + 1) (clk_validate clk) = Ok tt ∧
  ∃ target nw cw, compact_to_target (bits (header block)) = Ok target ∧
    nw = default 0 (cumulative_work (state c) !! ph) + block_work target ∧
    cw = default 0 (cumulative_work (state c) !! best_height c) ∧ cw < nw ∧
    connect_heavier clk block ph (ph + 1) nw cw (block_work target) c = (Ok tt, c1).
Proof.
  intros Hl H. unfold connect_block in H. apply M_bind_Ok in H as (c0 & c0' & [= <- <-] & H).
  apply M_bind_Ok in H as ([] & c2 & Hv & H). unfold lift in Hv. injection Hv as Hv <-.
  apply M_bind_Ok in H as (target & c3 & Ht & H). unfold lift in Ht. injection Ht as Ht <-.
  destruct (Z.ltb_spec (default 0 (cumulative_work (state c) !! best_height c))
              (default 0 (cumulative_work (state c) !! ph) + block_work target)) as [Hlt|Hge].
  - apply M_bind_Ok in H as ([] & c4 & Hh & H). injection H as <- <-.
    split_and!; [done|done|]. by eexists target, _, _.
  - apply M_bind_Ok in H as ([] & c4 & Hh & H). by rewrite apply_block_action_locked in Hh.
Qed.

(** Under the lock the bookkeeping after a block succeeds only if no orphan is
    waiting. *)
Lemma finish_block_Ok add now block height c u c1 :
  waits add → state_lock c = true →
  finish_block (process_orphans_body add now) block height c = (Ok u, c1) →
  ∃ d m o, save_block height block (db c) = (Ok tt, d) ∧
    evict_oldest (filter (fresh_orphan now) (orphan_blocks c)) = Ok o ∧ hash_iter o = [] ∧
    c1 = set_orphans ∅ (set_mempool m (set_db d c)).
Proof.
  intros Hadd Hl H. unfold finish_block in H. apply M_bind_Ok in H as ([] & c2 & Hs & H).
  unfold on_db in Hs. destruct (save_block height block (db c)) as [rs d] eqn:Es. injection Hs as -> <-.
  apply M_bind_Ok in H as ([] & c3 & Hm & H).
  assert (∃ m, c3 = set_mempool m (set_db d c)) as [m ->].
  { clear -Hm. set (c0 := set_db d c) in *. clearbody c0. revert c0 Hm.
    induction (txs block) as [|t l IH]; intros c0 Hm; simpl in Hm.
    - injection Hm as <-. exists (chain_mempool c0). by destruct c0.
    - apply M_bind_Ok in Hm as ([] & c2 & H1 & Hm). unfold on_mempool in H1.
      destruct (mempool_remove (tx_hash t) (chain_mempool c0)) as [r p]. injection H1 as _ <-.
      apply IH in Hm as [m ->]. by exists m. }
  apply M_bind_Ok in H as ([] & c4 & Hp & H). rewrite process_orphans_locked in Hp by done.
  cbn [orphan_blocks set_mempool set_db] in Hp.
  destruct (evict_oldest (filter (fresh_orphan now) (orphan_blocks c))) as [o| | |] eqn:Eo; try done.
  case_decide as Hd; [|done]. injection Hp as <-. exists d, m, o. split_and!; [done|done| |].
  - by apply fmap_nil_inv in Hd.
  - destruct ((height mod 1000 =? 0)); [|by injection H].
    apply M_bind_Ok in H as (c5 & c6 & [= <- <-] & H). unfold lift in H. by injection H.
Qed.

(** ** Orphans *)

Lemma evict_oldest_size o o' :
  evict_oldest o = Ok o' → (size o ≤ MAX_ORPHANS)%nat ∧ o' = o ∨ (MAX_ORPHANS ≤ size o')%nat.
Proof.
  unfold evict_oldest. destruct (Nat.ltb_spec MAX_ORPHANS (size o)) as [H|H].
  - intros (e & _ & [= <-])%bind_Ok. right. rewrite map_size_delete. destruct (o !! e.1); simpl; lia.
  - intros [= <-]. by left.
Qed.

Lemma hash_iter_nil {K V} `{Countable K} (m : gmap K V) : hash_iter m = [] → m = ∅.
Proof.
  intros E. pose proof (hash_iter_perm m) as Hp. rewrite E in Hp.
  apply Permutation_nil_l in Hp. by apply map_to_list_empty_iff.
Qed.

(** While a live orphan is waiting, no block extends the chain: the block
    is written to disk, then [process_orphans] tries to add the orphan under
    the lock that [add_block] holds and the call never returns. *)
Theorem orphan_blocks_extension n clk block c k b t c' :
  orphan_blocks c !! k = Some (b, t) → saturating_sub (clk_instant clk) t < ORPHAN_TTL →
  add_block n clk block c ≠ (Ok true, c').
Proof.
  intros Hk Ht H. apply add_block_Ok in H as (_ & hash & _ & [(_ & [=] & _)|[(_ & _ & [=] & _)|H]]).
  destruct H as (_ & add & ph & c1 & c2 & Hadd & _ & Hc & Hf & _).
  destruct (keeps (P:=λ c', orphan_blocks c' = orphan_blocks c) (m:=connect_block clk block ph)
              (set_locked true c) eq_refl eq_refl) as [Hl1 Ho1].
  rewrite Hc in Hl1, Ho1. simpl in Hl1, Ho1.
  apply finish_block_Ok in Hf as (d & m & o & _ & He & Hn%hash_iter_nil & _); [|done|done].
  subst o. rewrite Ho1 in He.
  apply evict_oldest_size in He as [[_ He]|He]; [|rewrite map_size_empty in He; unfold MAX_ORPHANS in He; lia].
  assert (filter (fresh_orphan (clk_instant clk)) (orphan_blocks c) !! k = Some (b, t)) as Hin.
  { by apply map_lookup_filter_Some. }
  by rewrite <- He, lookup_empty in Hin.
Qed.

End Frame.

(** ** Accepted blocks *)

Section Extend.
  Context {CR : Crypto} {CRO : CryptoOk} {CD : Codec} {CDO : CodecOk} {RK : Rocks} {RKO : RocksOk}
    {RT : RetryPolicy} {HO : HashOrder} {HOO : HashOrderOk} {MP : MempoolOps} {SR : SupplyReader}.

Lemma extension n clk block c c' :
  wf_block block → add_block n clk block c = (Ok true, c') → readable (db c') →
  ∃ hash ph target, header_hash (header block) = Ok hash ∧
    hash_to_height (state c) !! hash = None ∧
    hash_to_height (state c) !! prev_hash (header block) = Some ph ∧
    validate_block c block (ph + 1) (clk_validate clk) = Ok tt ∧
    compact_to_target (bits (header block)) = Ok target ∧
    default 0 (cumulative_work (state c) !! best_height c)
      < default 0 (cumulative_work (state c) !! ph) + block_work target ∧
    best_height c - ph <= REORG_MAX_DEPTH ∧
    best_height c' = ph + 1 ∧ orphan_blocks c' = ∅ ∧ state_lock c' = false ∧
    load_block_from_db (db c') (ph + 1) = Ok block ∧
    load_current_height (db c') = Ok (wrap 32 (ph + 1)) ∧ load_current_tip (db c') = Ok hash.
Proof.
  intros Hwf H Hr. apply add_block_Ok in H as (_ & hash & Hh & [(_ & [=] & _)|[(_ & _ & [=] & _)|H]]).
  destruct H as (Hnew & add & ph & c1 & c2 & Hadd & Hph & Hc & Hf & ->).
  apply connect_block_Ok in Hc as (_ & Hv & target & nw & cw & Ht & -> & -> & Hlt & Hc); [|done].
  apply connect_heavier_Ok in Hc as (Hdepth & ms & d1 & d2 & batch & journal & _ & _ & _ & _ & ->).
  apply finish_block_Ok in Hf as (d3 & m & o & Hs & _ & _ & ->); [|done|done].
  exists hash, ph, target. cbn [db set_locked set_orphans set_mempool set_db] in *.
  destruct (save_block_read_back (ph + 1) block d2 d3) as (E1 & _ & E2 & hash' & E3 & E4); [done|done|done|].
  rewrite Hh in E3. injection E3 as <-.
  split_and!; try done. unfold saturating_sub in Hdepth. simpl in Hdepth. lia.
Qed.

(** C5. A block that [add_block] reports as added was unknown, has a known
    parent at most 2016 below the tip, passed validation with more cumulative
    work than the recorded work of the tip, and is on disk as the block at its
    height and as the tip. *)
Theorem add_block_extends n clk block c c' :
  wf_block block → add_block n clk block c = (Ok true, c') → readable (db c') →
  ∃ hash ph target, header_hash (header block) = Ok hash ∧
    hash_to_height (state c) !! hash = None ∧
    hash_to_height (state c) !! prev_hash (header block) = Some ph ∧
    validate_block c block (ph + 1) (clk_validate clk) = Ok tt ∧
    compact_to_target (bits (header block)) = Ok target ∧
    default 0 (cumulative_work (state c) !! best_height c)
      < default 0 (cumulative_work (state c) !! ph) + block_work target ∧
    best_height c - ph <= REORG_MAX_DEPTH ∧
    best_height c' = ph + 1 ∧ orphan_blocks c' = ∅ ∧ state_lock c' = false ∧
    load_block_from_db (db c') (ph + 1) = Ok block ∧
    load_current_height (db c') = Ok (wrap 32 (ph + 1)) ∧ load_current_tip (db c') = Ok hash.
Proof. apply extension. Qed.

(** The child of a block that was just added is filed as an orphan: the
    map of known blocks was not updated, so the chain does not grow further. *)
Theorem child_is_orphan n n' clk clk' block child c c' hash hash' :
  wf_block block → add_block n clk block c = (Ok true, c') → readable (db c') →
  header_hash (header block) = Ok hash → header_hash (header child) = Ok hash' →
  prev_hash (header child) = hash → hash_to_height (state c) !! hash' = None →
  add_block (S n') clk' child c' = (Ok false, set_orphans {[ hash' := (child, clk_instant clk') ]} c').
Proof.
  intros Hwf H Hr Hh Hh' Hp Hn.
  pose proof (proj1 (add_block_state n clk block c)) as Es. rewrite H in Es. simpl in Es.
  destruct (extension n clk block c c' Hwf H Hr)
    as (h & ph & target & E & Hnew & _ & _ & _ & _ & _ & _ & Ho & Hl & _).
  rewrite Hh in E. injection E as <-.
  cbn [add_block]. unfold add_block_body, with_lock. rewrite Hl.
  unfold mbind at 1, M_bind, lift. rewrite Hh'. unfold mbind at 1, M_bind, get.
  cbn [state set_locked]. rewrite Es, Hn. cbn [bool_decide]. rewrite bool_decide_eq_false_2 by (by intros []).
  rewrite Hp, Hnew. unfold insert_orphan, mbind, M_bind, get, lift, modify.
  cbn [orphan_blocks set_locked]. rewrite Ho, insert_empty.
  unfold evict_oldest. rewrite map_size_singleton. cbn.
  by destruct c'; simpl in Hl; subst.
Qed.

End Extend.

(** ** Witnesses *)

Definition sample_clock : clock := mkClock 0 (Ok 1732061000000) (Ok 1732061000000).

Definition extended_chain : Chain (RK:=mem_rocks) := (add_block 1 sample_clock block_1 new_chain_value).2.

Lemma extended_run : add_block 1 sample_clock block_1 new_chain_value = (Ok true, extended_chain).
Proof. unfold extended_chain. apply run_eta. by vm_compute. Qed.

Lemma block_1_wf : wf_block block_1.
Proof. apply (bool_decide_unpack _). by vm_compute. Qed.

Lemma add_block_extends_witness :
  best_height extended_chain = 1 ∧ load_block_from_db (db extended_chain) 1 = Ok block_1.
Proof.
  destruct (add_block_extends (RK:=mem_rocks) 1 sample_clock block_1 new_chain_value extended_chain
              block_1_wf extended_run (mem_readable _))
    as (hash & ph & target & _ & _ & Hph & _ & _ & _ & _ & Hb & _ & _ & Hl & _).
  assert (hash_to_height (state new_chain_value) !! prev_hash (header block_1) = Some 0) as E
    by (by vm_compute).
  rewrite E in Hph. injection Hph as <-. split; [exact Hb|exact Hl].
Defined.

Definition block_hash (b : Block) : bytes :=
  match header_hash (header b) with Ok h => h | _ => [] end.

(** A valid child of [block_1]. *)
Definition block_2 : Block :=
  mined_block (block_hash block_1) 1732061100 [paying_coinbase [sample_out (subsidy 2)]].

Lemma child_is_orphan_witness :
  add_block 1 sample_clock block_2 extended_chain
  = (Ok false, set_orphans {[ block_hash block_2 := (block_2, 0) ]} extended_chain).
Proof.
  apply (child_is_orphan (RK:=mem_rocks) 1 0 sample_clock sample_clock block_1 block_2 new_chain_value
           extended_chain (block_hash block_1)).
  - apply block_1_wf.
  - apply extended_run.
  - apply mem_readable.
  - by vm_compute.
  - by vm_compute.
  - by vm_compute.
  - by vm_compute.
Defined.

Definition orphaned_chain : Chain (RK:=mem_rocks) := (add_block 1 sample_clock block_2 extended_chain).2.

Lemma orphan_blocks_extension_witness :
  add_block 1 sample_clock block_1 orphaned_chain ≠ (Ok true, orphaned_chain).
Proof.
  apply (orphan_blocks_extension (RK:=mem_rocks) 1 sample_clock block_1 orphaned_chain (block_hash block_2)
           block_2 0); by vm_compute.
Defined.

(** The tip can be added again, and again as a reorganisation; with an orphan
    in the pool the same call hangs. *)
Example tip_added_twice :
  (add_block 1 sample_clock block_1 extended_chain).1 = Ok true ∧
  (add_block 1 sample_clock block_1 orphaned_chain).1 = Hang.
Proof. split; by vm_compute. Qed.
