(* ===== verification/History.v ===== *)
(** * History: what the chain can become over time

    The chain as a transition system: it is created by [Chain::new] and then
    changed only by [add_block], the one entry point that net.rs and miner.rs
    use.  A step is a call that returns, with a value or with an error; a call
    that panics or never returns ends the run. *)
From stdpp Require Import pretty.
From S2P Require Import Prelude Errors Types Externals Instances Utils Keys Tx Ledger Store Chain.
From S2P Require Import BlockValidation Supply AddBlock.

Section History.
  Context {CR : Crypto} {CRO : CryptoOk} {CD : Codec} {CDO : CodecOk} {RK : Rocks} {RKO : RocksOk}
    {RT : RetryPolicy} {HO : HashOrder} {HOO : HashOrderOk} {MP : MempoolOps} {SR : SupplyReader}.

Definition returned {A} (r : outcome A) : Prop :=
  match r with Ok _ | Err _ => True | Panic | Hang => False end.

Inductive chain_step (c : Chain) : Chain → Prop :=
  | step_add_block n clk block r c' :
      wf_block block → add_block (S n) clk block c = (r, c') → returned r → chain_step c c'.

(** ** The chain does not grow *)

Lemma step_state c c' : chain_step c c' → state c' = state c ∧ best_tip c' = best_tip c.
Proof.
  intros [n clk block r c'' _ H _]. pose proof (add_block_state (S n) clk block c) as E. by rewrite H in E.
Qed.

(** C24. A chain started from a genesis block never gets above height 1: in
    every reachable state the known blocks, the work and the supply are those of
    the genesis block, the tip hash is its hash, and the height is 0 or 1. *)
Theorem chain_never_grows genesis cps m d c0 d' c :
  Chain_new genesis cps m d = (Ok c0, d') → rtc chain_step c0 c →
  state c = state c0 ∧ best_tip c = genesis_hash c0 ∧ (best_height c = 0 ∨ best_height c = 1).
Proof.
  intros H0 Hs. apply new_chain_state in H0
    as (hash & target & _ & _ & _ & Eg & Et & Eh & Hk & _).
  revert c Hs. apply (rtc_ind_r (λ c, state c = state c0 ∧ best_tip c = genesis_hash c0 ∧
                                      (best_height c = 0 ∨ best_height c = 1))).
  { split_and!; [done|congruence|by left]. }
  intros c c' _ Hstep (Es & Et' & Hh). destruct (step_state _ _ Hstep) as [E1 E2].
  split_and!; [congruence|congruence|]. destruct Hstep as [n clk block r c'' _ H _].
  destruct (add_block_height (S n) clk block c) as [E|(ph & Hp & E)]; rewrite H in E; simpl in E.
  - by rewrite E.
  - right. rewrite Es, Hk in Hp. apply lookup_singleton_Some in Hp as [_ <-]. done.
Qed.

(** ** No output is ever created *)

Definition no_utxo (m : gmap (cf * bytes) bytes) : Prop := ∀ ck, utxo_cf ck.1 = true → m !! ck = None.

(** Every stored block consists of coinbase transactions. *)
Definition coinbase_only (m : gmap (cf * bytes) bytes) : Prop :=
  ∀ h v (b : Block), m !! (default_cf, block_key h) = Some v → deserialize v = Some b →
                     Forall (λ t, is_coinbase t = true) (txs b).

Definition barren (m : gmap (cf * bytes) bytes) : Prop := no_utxo m ∧ coinbase_only m.

(** An operation on neither the unspent outputs nor a stored block. *)
Definition harmless (o : batch_op) : Prop :=
  utxo_cf (op_key o).1 = false ∧ ∀ h, op_key o ≠ (default_cf, block_key h).

Lemma barren_harmless b m : Forall harmless b → barren m → barren (apply_batch b m).
Proof.
  intros Hb [H1 H2]. rewrite Forall_forall in Hb.
  split.
  - intros ck Hck. rewrite apply_batch_ne; [by apply H1|].
    intros (o & -> & [Ho _]%Hb)%list_elem_of_fmap. congruence.
  - intros h v b' Hv. rewrite apply_batch_ne in Hv; [by apply (H2 h)|].
    intros (o & E & [_ Ho]%Hb)%list_elem_of_fmap. by destruct (Ho h).
Qed.

Lemma barren_save height hash block m :
  wf_block block → Forall (λ t, is_coinbase t = true) (txs block) →
  barren m → barren (apply_batch (save_batch height hash block) m).
Proof.
  intros Hwf Hcb Hm. rewrite save_batch_keys.
  assert (barren (<[(default_cf, block_key hash) := serialize block]> m)) as Hm1.
  { destruct Hm as [H1 H2]. split.
    - intros ck Hck. rewrite lookup_insert_ne; [by apply H1|]. by intros <-.
    - intros h v b. destruct (decide (block_key h = block_key hash)) as [E|E].
      + rewrite E, lookup_insert_eq. intros [= <-]. rewrite deserialize_serialize by done. by intros [= <-].
      + rewrite lookup_insert_ne by congruence. apply H2. }
  apply (barren_harmless [Put (height_key height) hash; Put DB_KEY_TIP hash;
                          Put DB_KEY_HEIGHT (to_be_bytes 4 (wrap 32 height))]); [|done].
  repeat constructor; by intros.
Qed.

(** The operations of a block without payments are harmless. *)
Lemma coinbase_changes_harmless d height conn b h s batch a :
  Forall (λ t, is_coinbase t = true) (txs b) →
  apply_utxo_changes d height conn b h s batch = Ok a →
  ∃ ops, ua_batch a = batch ++ ops ∧ Forall harmless ops.
Proof.
  intros Hcb H. unfold apply_utxo_changes in H. apply bind_Ok in H as (a1 & H1 & H).
  injection H as <-.
  apply (for_each_inv (λ x, ∃ ops, ua_batch x = batch ++ ops ∧ Forall harmless ops)) in H1
    as (ops & E & Hops).
  - simpl. rewrite E, <- !app_assoc. eexists. split; [done|].
    apply Forall_app. split; [done|]. repeat constructor; by intros.
  - intros x t y Ht (ops & E & Hops) Hy. rewrite Forall_forall in Hcb.
    unfold handle_utxo_action, handle_coinbase in Hy. rewrite (Hcb t Ht) in Hy.
    apply bind_Ok in Hy as (_ & _ & Hy).
    destruct conn; [injection Hy as <-|apply bind_Ok in Hy as (prev & _ & Hy); injection Hy as <-; destruct prev];
      simpl; rewrite E, <- app_assoc; (eexists; split; [done|]); apply Forall_app; (split; [done|]);
      repeat constructor; by intros.
  - exists []. by rewrite app_nil_r.
Qed.

Lemma index_ops_harmless action height b : Forall harmless (index_ops action height b).
Proof.
  destruct action; simpl; [constructor; [by split; intros|]|];
    apply Forall_fmap, Forall_forall; intros x _; by split; intros.
Qed.

Lemma build_block_ops_harmless c b height work action batch batch' :
  Forall (λ t, is_coinbase t = true) (txs b) →
  build_block_ops c b height work action batch = Ok batch' →
  Forall harmless batch → Forall harmless batch'.
Proof.
  intros Hcb H Hb. unfold build_block_ops in H.
  do 3 (apply bind_Ok in H as (? & _ & H)). apply bind_Ok in H as (a & Ha & H). injection H as <-.
  apply coinbase_changes_harmless in Ha as (ops & -> & Hops); [|done].
  rewrite !Forall_app. split_and!; [done|done|apply index_ops_harmless|]. repeat constructor; by intros.
Qed.

Lemma reorg_batch_harmless c b ph height work batch :
  barren (contents (db c)) → Forall (λ t, is_coinbase t = true) (txs b) →
  reorg_batch c b ph height work = Ok batch → Forall harmless batch.
Proof.
  intros [_ Hblocks] Hcb H. unfold reorg_batch in H. apply bind_Ok in H as (b1 & H1 & H).
  eapply build_block_ops_harmless; [done|exact H|].
  apply (for_each_inv (Forall harmless)) in H1; [done| |constructor].
  intros x i y _ Hx Hy. unfold disconnect_ops in Hy. apply bind_Ok in Hy as (blk & Hl & Hy).
  eapply build_block_ops_harmless; [|exact Hy|done].
  unfold load_block_from_db in Hl. apply bind_Ok in Hl as (_ & _ & Hl).
  apply load_block_by_height_Ok in Hl as (hash & data & _ & Hd & Hdes). by eapply Hblocks.
Qed.

(** *** Every write of [add_block] keeps the store barren *)

Definition barren_chain (c : Chain) : Prop := barren (contents (db c)).

#[local] Hint Extern 0 (Stable _ _) => (let Hc := fresh in intros ? Hc; exact Hc) : typeclass_instances.

Lemma write_opt_barren b d :
  Forall harmless b → barren (contents d) → barren (contents (write_opt b d).2).
Proof.
  intros Hb Hd. unfold write_opt. destruct (write d b) as [r d1] eqn:E. simpl.
  destruct (write_outcome d b) as [E1|[e E1]]; rewrite E in E1; simpl in E1; subst r.
  - rewrite (write_ok _ _ _ E). by apply barren_harmless.
  - by rewrite (write_err _ _ _ _ E).
Qed.

Lemma commit_barren b id d :
  Forall harmless b → barren (contents d) → barren (contents (commit_reorg_batch b id d).2).
Proof.
  intros Hb Hd. pose proof (write_opt_barren b d Hb Hd) as H1. unfold commit_reorg_batch, mbind, M_bind.
  destruct (write_opt b d) as [[]]; try done. apply write_opt_barren; [|done]. repeat constructor; by intros.
Qed.

Lemma save_block_barren height block d :
  wf_block block → Forall (λ t, is_coinbase t = true) (txs block) →
  barren (contents d) → barren (contents (save_block height block d).2).
Proof.
  intros Hwf Hcb Hd. destruct (save_block height block d) as [r d'] eqn:E. simpl.
  apply save_block_spec in E as [(hash & _ & _ & ->)|[_ ->]]; [by apply barren_save|done].
Qed.

Lemma connect_heavier_barren clk block ph h nw cw w c :
  Forall (λ t, is_coinbase t = true) (txs block) → barren_chain c →
  barren_chain (connect_heavier clk block ph h nw cw w c).2.
Proof.
  intros Hcb Hc. unfold connect_heavier, mbind, M_bind, get, lift, modify.
  destruct (REORG_MAX_DEPTH <? saturating_sub (best_height c) ph); [done|].
  destruct (nw <=? cw * 99 / 100); [done|]. cbn.
  destruct (clk_journal clk) as [ms| | |]; try done.
  destruct (pool_get (db c)); try done. unfold on_db.
  pose proof (write_opt_barren [Put (journal_key (pretty ms))
     (serialize (mkReorgJournal (pretty ms) (best_height c) (best_tip c) (wsub 64 (best_height c) ph) block))]
     (db c) ltac:(repeat constructor; by intros) Hc) as Hj.
  unfold start_reorg_journal, db_put. destruct (write_opt _ (db c)) as [[u|e| |] d1]; try done.
  destruct (reorg_batch (set_db d1 c) block ph h w) as [batch| | |] eqn:Eb; try done.
  apply reorg_batch_harmless in Eb; [|done|done].
  pose proof (commit_barren batch (pretty ms) d1 Eb Hj) as Hcm. cbn [db set_db].
  by destruct (commit_reorg_batch batch (pretty ms) d1) as [[]].
Qed.

(** Connecting under the lock; if it succeeds the block holds no payment. *)
Lemma connect_block_barren clk block ph c :
  wf_block block → state_lock c = true → barren_chain c →
  barren_chain (connect_block clk block ph c).2 ∧
  (∀ b c', connect_block clk block ph c = (Ok b, c') → Forall (λ t, is_coinbase t = true) (txs block)).
Proof.
  intros Hwf Hl Hc. unfold connect_block, mbind, M_bind, get, lift.
  destruct (validate_block c block (ph + 1) (clk_validate clk)) as [[]| | |] eqn:Hv; try done.
  apply accepted_without_utxos in Hv as Hcb; [|apply Hc|done]. split; [|by intros].
  destruct (compact_to_target (bits (header block))) as [target| | |]; try done.
  destruct (_ <? _).
  - match goal with |- context [connect_heavier ?a ?b ?c ?d ?e ?f ?g ?h] =>
      pose proof (connect_heavier_barren a b c d e f g h Hcb Hc) as Hh;
      destruct (connect_heavier a b c d e f g h) as [[]]; done end.
  - by rewrite apply_block_action_locked.
Qed.

Lemma finish_block_barren add now block height c :
  wf_block block → Forall (λ t, is_coinbase t = true) (txs block) → waits add →
  state_lock c = true → barren_chain c →
  barren_chain (finish_block (process_orphans_body add now) block height c).2.
Proof.
  intros Hwf Hcb Hadd Hl Hc. unfold finish_block.
  assert (∀ {A B} (m : M Chain A) (f : A → M Chain B) c,
    state_lock c = true → (state_lock (m c).2 = true ∧ barren_chain (m c).2) →
    (∀ a, Keeps barren_chain (f a)) → barren_chain ((m ≫= f) c).2) as Hbind.
  { intros A B m f c1 Hl1 [Hl2 Hb] Hf. unfold mbind, M_bind. destruct (m c1) as [[a| | |] c2]; try done.
    by apply Hf. }
  apply Hbind; [done| |].
  - unfold on_db. pose proof (save_block_barren height block (db c) Hwf Hcb Hc).
    by destruct (save_block height block (db c)).
  - intros _. pose proof (keeps_process_orphans barren_chain add now Hadd (λ o c H, H)).
    apply _.
Qed.

Lemma add_block_barren n clk block c :
  wf_block block → barren_chain c → barren_chain (add_block n clk block c).2.
Proof.
  intros Hwf Hc. destruct n as [|n]; [done|]. cbn [add_block]. unfold add_block_body, with_lock.
  destruct (state_lock c); [done|].
  match goal with |- barren_chain (match ?m ?c0 with _ => _ end).2 =>
    assert (barren_chain (m c0).2) as Hin; [|by destruct (m c0) as [[]]] end.
  unfold mbind at 1, M_bind, lift. destruct (header_hash (header block)) as [hash| | |]; try done.
  unfold mbind at 1, M_bind, get. cbn [state set_locked]. case_bool_decide; [done|].
  destruct (hash_to_height (state c) !! prev_hash (header block)) as [ph|].
  - destruct (connect_block_barren clk block ph (set_locked true c) Hwf eq_refl Hc) as [H1 H2].
    destruct (keeps (P:=λ _, True) (m:=connect_block clk block ph) (set_locked true c) eq_refl I) as [H3 _].
    unfold mbind, M_bind. destruct (connect_block clk block ph (set_locked true c)) as [[b| | |] c1]; try done.
    pose proof (finish_block_barren (add_block n clk) (clk_instant clk) block (ph + 1) c1 Hwf
                  (H2 _ _ eq_refl) (waits_add_block n clk) H3 H1) as H4.
    by destruct (finish_block _ block (ph + 1) c1) as [[]].
  - unfold insert_orphan, mbind, M_bind, get, lift, modify. by destruct (evict_oldest _).
Qed.

(** C25. On a fresh database no unspent output ever exists: whatever blocks are
    offered, the UTXO set of every reachable state is empty, because a coinbase
    creates no output and everything else would have to spend one. *)
Theorem utxo_set_stays_empty genesis cps m d c0 d' c :
  contents d = ∅ → Forall (λ t, is_coinbase t = true) (txs genesis) →
  Chain_new genesis cps m d = (Ok c0, d') → rtc chain_step c0 c →
  ∀ ck, utxo_cf ck.1 = true → contents (db c) !! ck = None.
Proof.
  intros Hd Hcb H0 Hs.
  assert (barren_chain c0) as Hc0.
  { unfold Chain_new in H0. destruct (header_hash (header genesis)) as [hash| | |]; try done.
    destruct (init_genesis genesis (fresh_chain d zero_hash 0 hash cps m)) as [[[]| | |] c1] eqn:E;
      try done. injection H0 as <- <-. apply init_genesis_Ok in E as (target & _ & H).
    apply apply_block_action_Ok in H as (_ & _ & _ & _ & p & d2 & Hp & Hw & ->).
    apply prepare_action_Ok in Hp as (h & a & s & _ & Ha & _ & ->).
    apply retry_write_spec in Hw as [[_ Hw]|[]]; [|done]. unfold barren_chain. rewrite db_applied, Hw.
    apply coinbase_changes_harmless in Ha as (ops & E & Hops); [|done].
    apply barren_harmless; [|by cbn; rewrite Hd].
    cbn [p_batch]. rewrite E, !Forall_app. split_and!; [constructor|done|apply index_ops_harmless|].
    repeat constructor; by intros. }
  assert (barren_chain c) as [Hc _]; [|done].
  revert c Hs. apply (rtc_ind_r barren_chain); [done|].
  intros c1 c2 _ [n clk block r c' Hwf H _] Hc1.
  pose proof (add_block_barren (S n) clk block c1 Hwf Hc1) as Hb. by rewrite H in Hb.
Qed.

End History.

(** ** Witnesses *)

Lemma extended_reachable : rtc chain_step new_chain_value extended_chain.
Proof. apply rtc_once. exact (step_add_block _ 0 sample_clock block_1 (Ok true) _ block_1_wf extended_run I). Qed.

Lemma chain_never_grows_witness :
  state extended_chain = state new_chain_value ∧ best_tip extended_chain = genesis_hash new_chain_value ∧
  (best_height extended_chain = 0 ∨ best_height extended_chain = 1).
Proof.
  apply (chain_never_grows (RK:=mem_rocks) (MP:=sample_mempool_ops) genesis_sample ∅ [] empty_db
           new_chain_value new_chain.2); [apply new_chain_run|apply extended_reachable].
Defined.

Lemma utxo_set_stays_empty_witness :
  contents (db extended_chain : DB (Rocks:=mem_rocks)) !! ("utxo", utxo_key sample_id 0) = None.
Proof.
  apply (utxo_set_stays_empty (RK:=mem_rocks) (MP:=sample_mempool_ops) genesis_sample ∅ [] empty_db
           new_chain_value new_chain.2 extended_chain).
  - reflexivity.
  - by repeat constructor.
  - apply new_chain_run.
  - apply extended_reachable.
  - reflexivity.
Defined.
