(* ===== verification/Startup.v ===== *)
(** * Startup: recovery and loading of the chain

    [recover_pending_reorgs] and [Chain::load_from_db] of src/111/src/chain.rs:
    what a node does when it opens an existing database.  The journal entries
    left by an interrupted reorganisation are replayed or discarded; the headers
    of all heights and the last [PRUNE_DEPTH] blocks are read back; the supply is
    checked. *)
From S2P Require Import Prelude Errors Types Externals Instances Utils Keys Tx Ledger Store Chain Supply.

(** The free function [build_block_ops(&blk, h, &zero, action, &mut batch, conn,
    pow_engine)] that the recovery calls; the repository does not define it. *)
Class FreeBlockOps {RK : Rocks} :=
  build_ops_at : DB → Block → Z → BlockAction → WriteBatch → outcome WriteBatch.

Section Startup.
  Context {CR : Crypto} {CD : Codec} {RK : Rocks} {MP : MempoolOps} {FB : FreeBlockOps}.

(** ** Recovery *)

(** [for _ in 0..depth]: the batch and the height reached. *)
Fixpoint recover_disconnect (d : DB) (depth : nat) (h : Z) (batch : WriteBatch)
    : outcome (WriteBatch * Z) :=
  match depth with
  | O => Ok (batch, h)
  | S depth =>
      blk ← load_block_by_height d h;
      batch ← build_ops_at d blk h Disconnect batch;
      recover_disconnect d depth (wsub 64 h 1) batch
  end.

Definition recovery_batch (d : DB) (journal : ReorgJournal) (current_height : Z) : outcome WriteBatch :=
  r ← recover_disconnect d (Z.to_nat (disconnect_depth journal)) current_height [];
  build_ops_at d (new_block journal) (wadd 64 r.2 1) Connect r.1.

Definition recover_one (k v : bytes) : M DB unit :=
  journal ← lift (ok_or (deserialize (A:=ReorgJournal) v) (Errors.Bincode "journal"));
  d ← get;
  current_height ← lift (load_current_height d);
  current_tip ← lift (load_current_tip d);
  if (current_height =? old_tip_height journal) && bool_decide (current_tip = old_tip_hash journal) then
    batch ← lift (recovery_batch d journal current_height);
    write_opt batch;;
    db_delete k
  else db_delete k.

(** The loop stops at the first key without the prefix. *)
Fixpoint recover_loop (l : list (bytes * bytes)) : M DB unit :=
  match l with
  | [] => mret tt
  | (k, v) :: l =>
      if negb (starts_with journal_prefix k) then mret tt else
      recover_one k v;;
      recover_loop l
  end.

(** The iterator reads the database as it was when it was created. *)
Definition recover_pending_reorgs : M DB unit :=
  d ← get;
  l ← lift (iterator_from d journal_prefix);
  recover_loop l.

(** ** Loading *)

Definition set_loaded (h : Z) (hash : bytes) (cum_work : Z) (st : ChainState) : ChainState :=
  mkChainState (blocks st) (<[h := hash]> (height_to_hash st)) (<[hash := h]> (hash_to_height st))
    (<[h := cum_work]> (cumulative_work st)) (timestamps st) (utxo_set_hash st) (total_supply st).

Definition set_block (h : Z) (b : Block) (st : ChainState) : ChainState :=
  mkChainState (<[h := b]> (blocks st)) (height_to_hash st) (hash_to_height st)
    (cumulative_work st) (push_timestamp (timestamp (header b)) (timestamps st))
    (utxo_set_hash st) (total_supply st).

(** One iteration of the loop over the heights; the accumulator is the state
    and the cumulative work so far. *)
Definition load_height (d : DB) (prune_start : Z) (acc : ChainState * Z) (h : Z)
    : outcome (ChainState * Z) :=
  v ← db_get d (height_key h);
  hash_bytes ← ok_or v (Anyhow "Missing hash");
  hash ← array32 hash_bytes;
  r ← (if prune_start <=? h then
         full ← load_block_from_db d h;
         Ok (set_block h full acc.1, header full)
       else hdr ← load_header d h; Ok (acc.1, hdr));
  target ← compact_to_target (bits r.2);
  let cum_work := acc.2 + block_work target in
  Ok (set_loaded h hash cum_work r.1, cum_work).

Definition load_heights (d : DB) (best : Z) : outcome (ChainState * Z) :=
  for_each (load_height d (saturating_sub best PRUNE_DEPTH)) (empty_state, 0) (seqZ 0 (best + 1)).

Definition loaded_chain (d : DB) (cps : gmap Z bytes) (m : mempool) : outcome Chain :=
  v ← db_get d DB_KEY_TIP;
  tip ← ok_or v (Anyhow "Missing tip");
  best_tip ← array32 tip;
  v ← db_get d DB_KEY_HEIGHT;
  height_bytes ← ok_or v (Anyhow "Missing height");
  best ← be_uint 4 height_bytes "Invalid height bytes";
  v ← db_get d DB_KEY_GENESIS_HASH;
  genesis_hash_bytes ← ok_or v (Anyhow "Missing genesis_hash");
  genesis ← array32 genesis_hash_bytes;
  r ← load_heights d best;
  (ensure (bool_decide (cumulative_work r.1 !! best = Some r.2)) (InvalidBlock "Chain work mismatch"));;
  Ok (set_state r.1 (fresh_chain d best_tip best genesis cps m)).

Definition load_from_db (cps : gmap Z bytes) (m : mempool) : M DB Chain := λ d,
  ((lift (pool_get d));;
   recover_pending_reorgs;;
   d ← get;
   c ← lift (loaded_chain d cps m);
   (lift (validate_state c));;
   let '(r, c) := validate_supply_smart c in
   (lift r);;
   mret c) d.

End Startup.

(** ** Recovery clears the journal *)

Section Recovery.
  Context {CR : Crypto} {CD : Codec} {RK : Rocks} {RKO : RocksOk} {MP : MempoolOps} {FB : FreeBlockOps}.

Definition journal_entry (ck : cf * bytes) : Prop := ck.1 = default_cf ∧ starts_with journal_prefix ck.2 = true.

(** Keys that the operations of a block never name are not in a recovery batch. *)
Lemma recovery_batch_avoids (P : cf * bytes → Prop) d journal h batch :
  (∀ d b h a batch batch', build_ops_at d b h a batch = Ok batch' →
     ∀ ck, ck ∈ op_key <$> batch' → ck ∈ op_key <$> batch ∨ ¬ P ck) →
  recovery_batch d journal h = Ok batch → ∀ ck, ck ∈ op_key <$> batch → ¬ P ck.
Proof.
  intros Hkeys H. unfold recovery_batch in H. apply bind_Ok in H as (r & Hr & H).
  assert (Hd : ∀ n h b r, recover_disconnect d n h b = Ok r →
    (∀ ck, ck ∈ op_key <$> b → ¬ P ck) → ∀ ck, ck ∈ op_key <$> r.1 → ¬ P ck).
  { clear H Hr. induction n as [|n IH]; intros h0 b r0; simpl; [by intros [= <-]|].
    intros (blk & _ & H)%bind_Ok Hb. apply bind_Ok in H as (b1 & Hb1 & H).
    eapply IH; [exact H|]. intros ck Hck. destruct (Hkeys _ _ _ _ _ _ Hb1 ck Hck); auto. }
  intros ck Hck. destruct (Hkeys _ _ _ _ _ _ H ck Hck) as [Hin|]; [|done].
  eapply Hd; [exact Hr| |exact Hin]. intros ck' Hin'. by apply not_elem_of_nil in Hin'.
Qed.

(** The operations of a block name no journal entry. *)
Context (build_ops_keys : ∀ d b h a batch batch',
  build_ops_at d b h a batch = Ok batch' →
  ∀ ck, ck ∈ op_key <$> batch' → ck ∈ op_key <$> batch ∨ ¬ journal_entry ck).

Lemma recover_one_Ok k v d d' u :
  starts_with journal_prefix k = true → recover_one k v d = (Ok u, d') →
  ∀ ck, journal_entry ck →
    contents d' !! ck = if decide (ck = (default_cf, k)) then None else contents d !! ck.
Proof using build_ops_keys RKO.
  intros Hk H ck Hj. destruct u. unfold recover_one in H.
  apply M_bind_Ok in H as (journal & d0 & Hdes & H). unfold lift in Hdes. injection Hdes as _ <-.
  apply M_bind_Ok in H as (d1 & d2 & [= <- <-] & H).
  apply M_bind_Ok in H as (ch & d3 & Hh & H). unfold lift in Hh. injection Hh as _ <-.
  apply M_bind_Ok in H as (ct & d4 & Ht & H). unfold lift in Ht. injection Ht as _ <-.
  assert (Hdel : ∀ d1 d2, db_delete k d1 = (Ok tt, d2) → contents d1 !! ck = contents d !! ck →
    contents d2 !! ck = if decide (ck = (default_cf, k)) then None else contents d !! ck).
  { intros d1 d2 Hw E. unfold db_delete, write_opt in Hw. apply write_ok in Hw. rewrite Hw.
    change (apply_batch [Delete k] (contents d1)) with (delete (default_cf, k) (contents d1)).
    destruct (decide (ck = (default_cf, k))) as [->|]; [apply lookup_delete_eq|by rewrite lookup_delete_ne]. }
  destruct (_ && _).
  - apply M_bind_Ok in H as (batch & d5 & Hb & H). unfold lift in Hb. injection Hb as Hb <-.
    apply M_bind_Ok in H as ([] & d6 & Hw & H). eapply Hdel; [exact H|].
    unfold write_opt in Hw. apply write_ok in Hw. rewrite Hw, apply_batch_ne; [done|].
    intros Hin. by apply (recovery_batch_avoids journal_entry _ _ _ _ build_ops_keys Hb) in Hin.
  - by eapply Hdel.
Qed.

(** The loop removes the entries of the run of journal keys at the front. *)
Lemma recover_loop_Ok l d d' u :
  recover_loop l d = (Ok u, d') →
  ∀ k, starts_with journal_prefix k = true →
    (contents d !! (default_cf, k) = None → contents d' !! (default_cf, k) = None) ∧
    (StronglySorted (λ x y, bytes_ltb x.1 y.1 = true) l → Forall (λ kv, bytes_ltb kv.1 journal_prefix = false) l →
     k ∈ l.*1 → contents d' !! (default_cf, k) = None).
Proof using build_ops_keys RKO.
  revert d. induction l as [|[k0 v0] l IH]; intros d; cbn [recover_loop].
  { intros [= _ <-] k Hk. split; [done|]. by intros _ _ ?%not_elem_of_nil. }
  destruct (starts_with journal_prefix k0) eqn:E0; cbn [negb].
  - intros ([] & d1 & H1 & H)%M_bind_Ok k Hk.
    pose proof (recover_one_Ok _ _ _ _ _ E0 H1 (default_cf, k) (conj eq_refl Hk)) as E.
    destruct (IH _ H k Hk) as [IH1 IH2]. split.
    + intros Hn. apply IH1. rewrite E. by case_decide.
    + csimpl. intros [_ Hs]%StronglySorted_cons [_ Hf]%Forall_cons [->|Hin]%elem_of_cons; [|by apply IH2].
      apply IH1. rewrite E. by rewrite decide_True.
  - intros [= _ <-] k Hk. split; [done|]. intros [Hle Hs]%StronglySorted_cons [Hf0 Hf]%Forall_cons. csimpl.
    intros [->|(kv & -> & Hin)%list_elem_of_fmap]%elem_of_cons; [congruence|].
    rewrite Forall_forall in Hle. specialize (Hle kv Hin).
    pose proof (beyond_prefix _ _ _ Hf0 E0 Hle) as Hb. congruence.
Qed.

(** Recovery clears the journal: when it succeeds no pending entry is left,
    whether it was replayed or discarded as stale.  The prefix scan of the code,
    which stops at the first other key, misses none. *)
Theorem recovery_clears_journal d d' :
  recover_pending_reorgs d = (Ok tt, d') →
  ∀ id, contents d' !! (default_cf, journal_key id) = None.
Proof using build_ops_keys RKO.
  intros H id. apply M_bind_Ok in H as (d0 & d1 & [= <- <-] & H).
  apply M_bind_Ok in H as (l & d2 & Hl & H). unfold lift in Hl. injection Hl as Hl <-.
  unfold iterator_from in Hl. apply bind_Ok in Hl as (l0 & Hit & [= <-]).
  destruct (iterator_cf_sound _ _ _ Hit) as [_ Hmem].
  destruct (seek_spec journal_prefix l0 (iterator_cf_sorted _ _ _ Hit)) as (Hs & Hf & Hin).
  assert (Hk : starts_with journal_prefix (journal_key id) = true) by apply starts_with_app.
  destruct (recover_loop_Ok _ _ _ _ H _ Hk) as [Hn Hy].
  destruct (contents d !! (default_cf, journal_key id)) as [v|] eqn:E; [|by apply Hn].
  apply Hy; [done|done|]. apply list_elem_of_fmap. exists (journal_key id, v). split; [done|].
  apply Hin; [by apply Hmem|]. by apply prefix_not_below.
Qed.

End Recovery.

(** ** The loaded state *)

Section Loading.
  Context {CR : Crypto} {CRO : CryptoOk} {CD : Codec} {RK : Rocks} {RKO : RocksOk} {MP : MempoolOps}
    {FB : FreeBlockOps}.

(** What the state holds for one height. *)
Definition height_loaded (d : DB) (prune_start : Z) (st : ChainState) (h : Z) : Prop :=
  ∃ hash hdr target,
    contents d !! (default_cf, height_key h) = Some hash ∧ height_to_hash st !! h = Some hash ∧
    (if prune_start <=? h then ∃ b, load_block_from_db d h = Ok b ∧ blocks st !! h = Some b ∧ hdr = header b
     else load_header d h = Ok hdr) ∧
    compact_to_target (bits hdr) = Ok target ∧
    cumulative_work st !! h = Some (default 0 (cumulative_work st !! (h - 1)) + block_work target).

Definition loaded_upto (d : DB) (prune_start n : Z) (acc : ChainState * Z) : Prop :=
  (∀ h, 0 <= h < n → height_loaded d prune_start acc.1 h) ∧
  acc.2 = default 0 (cumulative_work acc.1 !! (n - 1)) ∧ cumulative_work acc.1 !! (-1) = None.

Lemma load_height_Ok d ps n acc acc' :
  0 <= n → loaded_upto d ps n acc → load_height d ps acc n = Ok acc' → loaded_upto d ps (n + 1) acc'.
Proof.
  intros Hn (Hg & Hw & Hneg) H. destruct acc as [st w]. cbn [fst snd] in *. unfold load_height in H.
  apply bind_Ok in H as (v & Hv & H). apply get_cf_sound in Hv.
  apply bind_Ok in H as (hb & ->%ok_or_Ok & H).
  apply bind_Ok in H as (hash & Hh & H). unfold array32 in Hh.
  destruct (length hb =? 32)%nat; [|done]. injection Hh as <-.
  apply bind_Ok in H as (r & Hr & H). apply bind_Ok in H as (target & Ht & H). injection H as <-.
  assert (Hst : height_to_hash r.1 = height_to_hash st ∧ cumulative_work r.1 = cumulative_work st ∧
    (∀ h, h ≠ n → blocks r.1 !! h = blocks st !! h) ∧
    (if ps <=? n then ∃ b, load_block_from_db d n = Ok b ∧ blocks r.1 !! n = Some b ∧ r.2 = header b
     else load_header d n = Ok r.2)).
  { destruct (ps <=? n); apply bind_Ok in Hr as (b & Hb & [= <-]); simpl; split_and!; try done.
    - intros h Hne. by rewrite lookup_insert_ne.
    - exists b. by rewrite lookup_insert_eq. }
  destruct Hst as (E1 & E2 & E3 & E4). split_and!; cbn [fst snd set_loaded cumulative_work height_to_hash blocks].
  - intros h Hh. unfold height_loaded. cbn [set_loaded cumulative_work height_to_hash blocks].
    destruct (decide (h = n)) as [->|Hne].
    + exists hb, r.2, target. rewrite !lookup_insert_eq, lookup_insert_ne, E2, <- Hw by lia. done.
    + destruct (Hg h ltac:(lia)) as (hash & hdr & t & G1 & G2 & G3 & G4 & G5).
      exists hash, hdr, t. rewrite !lookup_insert_ne, E1, E2 by lia. split_and!; try done.
      destruct (ps <=? h); [|done]. destruct G3 as (b & ? & ? & ?). exists b. by rewrite E3.
  - replace (n + 1 - 1) with n by lia. by rewrite lookup_insert_eq.
  - rewrite lookup_insert_ne, E2 by lia. done.
Qed.

Lemma load_heights_loop d ps n k acc acc' :
  0 <= n → loaded_upto d ps n acc →
  for_each (load_height d ps) acc (seqZ n (Z.of_nat k)) = Ok acc' → loaded_upto d ps (n + Z.of_nat k) acc'.
Proof.
  revert n acc. induction k as [|k IH]; intros n acc Hn Hacc.
  { simpl. intros [= <-]. by rewrite Z.add_0_r. }
  rewrite seqZ_cons by lia. cbn [for_each]. intros (acc1 & H1 & H)%bind_Ok.
  replace (Z.pred (Z.of_nat (S k))) with (Z.of_nat k) in H by lia.
  replace (n + Z.of_nat (S k)) with (Z.succ n + Z.of_nat k) by lia.
  eapply IH; [lia| |exact H]. eapply load_height_Ok in H1; [|done|done]. exact H1.
Qed.

(** Loading rebuilds the memory state from disk: for every height up to the
    tip the stored hash and the cumulative work (that of the height below plus
    the work of its header) are recorded, and for the last [PRUNE_DEPTH] heights
    the block itself. *)
Theorem load_heights_state d best st w :
  0 <= best → load_heights d best = Ok (st, w) →
  (∀ h, 0 <= h <= best → height_loaded d (saturating_sub best PRUNE_DEPTH) st h) ∧
  cumulative_work st !! best = Some w.
Proof.
  intros Hb H. unfold load_heights in H. replace (best + 1) with (Z.of_nat (Z.to_nat (best + 1))) in H by lia.
  apply load_heights_loop in H as (Hg & Hw & _); [|lia|by split_and!; [intros; lia|..]].
  cbn [fst snd] in *. assert (Hg' : ∀ h, 0 <= h <= best → height_loaded d (saturating_sub best PRUNE_DEPTH) st h).
  { intros h Hh. apply Hg. lia. }
  split; [done|]. destruct (Hg' best ltac:(lia)) as (hash & hdr & t & _ & _ & _ & _ & E).
  replace (0 + Z.of_nat (Z.to_nat (best + 1)) - 1) with best in Hw by lia. by rewrite E, Hw, E.
Qed.

Lemma load_heights_supply d best st w :
  load_heights d best = Ok (st, w) → total_supply st = 0.
Proof.
  intros H. unfold load_heights in H.
  apply (for_each_inv (λ acc, total_supply acc.1 = 0)) in H; [done| |done].
  intros [st0 w0] h acc' _ H0 Hl. unfold load_height in Hl. cbn [fst snd] in *.
  do 3 (apply bind_Ok in Hl as (? & _ & Hl)). apply bind_Ok in Hl as (r & Hr & Hl).
  apply bind_Ok in Hl as (? & _ & [= <-]). simpl.
  destruct (_ <=? h); by apply bind_Ok in Hr as (? & _ & [= <-]).
Qed.

(** A database that holds both ledger summaries cannot be loaded (within
    the halving eras): the check before the last one compares the stored supply
    with a memory supply that is still 0, the last one compares it with the sum
    of the subsidies.  Every connected block stores both summaries. *)
Theorem load_needs_missing_summary cps m d c d' :
  load_from_db cps m d = (Ok c, d') → 0 <= best_height c < 64 * HALVING_INTERVAL - 1 →
  contents d' !! (default_cf, DB_KEY_TOTAL_SUPPLY) = None ∨
  contents d' !! (default_cf, DB_KEY_UTXO_SET_HASH) = None.
Proof.
  intros H Hb. unfold load_from_db in H.
  apply M_bind_Ok in H as (? & d0 & Hp & H). apply M_bind_Ok in H as (? & d1 & _ & H).
  apply M_bind_Ok in H as (d2 & d3 & [= <- <-] & H).
  apply M_bind_Ok in H as (c1 & d4 & Hc & H). unfold lift in Hc. injection Hc as Hc <-.
  apply M_bind_Ok in H as ([] & d5 & Hv & H). unfold lift in Hv. injection Hv as Hv <-.
  destruct (validate_supply_smart c1) as [r c2] eqn:Es.
  apply M_bind_Ok in H as ([] & d6 & Hr & H). unfold lift in Hr. injection Hr as -> <-.
  injection H as <- <-.
  assert (total_supply (state c1) = 0 ∧ db c1 = d1) as [H0 Hd].
  { unfold loaded_chain in Hc. do 9 (apply bind_Ok in Hc as (? & _ & Hc)).
    apply bind_Ok in Hc as ([st w] & Hl & Hc). apply bind_Ok in Hc as (_ & _ & [= <-]).
    split; [by eapply load_heights_supply|done]. }
  destruct (contents d1 !! (default_cf, DB_KEY_TOTAL_SUPPLY)) as [tb|] eqn:Et; [|by left].
  destruct (contents d1 !! (default_cf, DB_KEY_UTXO_SET_HASH)) as [hb|] eqn:Eh; [|by right]. exfalso.
  unfold validate_state in Hv. apply bind_Ok in Hv as (_ & _ & Hv). apply bind_Ok in Hv as (v & Hg & Hv).
  apply get_cf_sound in Hg. rewrite Hd, Et in Hg. subst v.
  apply bind_Ok in Hv as (dv & Hdv & Hv). apply ensure_Ok in Hv. zbool. rewrite H0 in Hv. subst dv.
  unfold validate_supply_smart in Es. apply M_bind_Ok in Es as (c3 & c4 & [= <- <-] & Es).
  apply M_bind_Ok in Es as (? & c5 & Hp5 & Es). unfold lift in Hp5. injection Hp5 as _ <-.
  apply M_bind_Ok in Es as (v1 & c6 & Hg1 & Es). unfold lift in Hg1. injection Hg1 as Hg1 <-.
  apply M_bind_Ok in Es as (v2 & c7 & Hg2 & Es). unfold lift in Hg2. injection Hg2 as Hg2 <-.
  apply get_cf_sound in Hg1, Hg2. rewrite Hd, Eh in Hg1. rewrite Hd, Et in Hg2. subst v1 v2.
  apply M_bind_Ok in Es as (hash & c8 & Ha & Es). unfold lift in Ha. injection Ha as _ <-.
  apply M_bind_Ok in Es as (s & c9 & Hs & Es). unfold lift in Hs. injection Hs as Hs <-.
  assert (s = 0) as ->.
  { unfold be_uint in *. apply bind_Ok in Hs as (_ & _ & [= <-]). by apply bind_Ok in Hdv as (_ & _ & [= ?]). }
  destruct (theoretical_supply_u128 (best_height c1) =? 0) eqn:E; [|done]. injection Es as <-.
  apply Z.eqb_eq in E. cbn [best_height set_state] in Hb.
  rewrite <- (Z2Nat.id (best_height c1)), theoretical_supply_u128_eq in E by (rewrite ?Z2Nat.id; lia).
  pose proof (total_subsidy_pos (Z.to_nat (best_height c1))). unfold INITIAL_SUBSIDY in *. lia.
Qed.

End Loading.

(** ** Witnesses *)

#[export] Instance sample_block_ops : FreeBlockOps (RK:=mem_rocks) := λ _ b h a batch,
  Ok (batch ++ index_ops a h b).

Lemma sample_block_ops_keys d b h a batch batch' :
  build_ops_at (RK:=mem_rocks) d b h a batch = Ok batch' →
  ∀ ck, ck ∈ op_key <$> batch' → ck ∈ op_key <$> batch ∨ ¬ journal_entry ck.
Proof.
  intros [= <-] ck. rewrite fmap_app, elem_of_app. intros [?|Hck]; [by left|right].
  intros [E1 E2].
  destruct a; simpl in Hck.
  - apply elem_of_cons in Hck as [->|(o & -> & (e & -> & _)%list_elem_of_fmap)%list_elem_of_fmap]; done.
  - apply list_elem_of_fmap in Hck as (o & -> & (e & -> & _)%list_elem_of_fmap). done.
Qed.

(** A one-block database with the hash, the tip and one output worth the first
    subsidy, as a node would need it to load. *)
Definition loadable_map : gmap (cf * bytes) bytes :=
  let hash := zero_hash in
  <[(default_cf, DB_KEY_TIP) := hash]>
   (<[(default_cf, DB_KEY_HEIGHT) := to_be_bytes 4 0]>
    (<[(default_cf, DB_KEY_GENESIS_HASH) := hash]>
     (<[(default_cf, height_key 0) := hash]>
      (<[(default_cf, block_key hash) := serialize genesis_sample]>
       {[ ("utxo", utxo_key sample_id 0) := serialize (sample_out (subsidy 0)) ]})))).

Definition loadable_db : MemDB := mkMemDB all_cfs loadable_map [].

(** A journal of a reorganisation from another tip. *)
Definition stale_journal : ReorgJournal := mkReorgJournal "1" 5 zero_hash 1 genesis_sample.

(** A journal that applies: nothing to disconnect, one block to connect. *)
Definition live_journal : ReorgJournal := mkReorgJournal "2" 0 zero_hash 0 genesis_sample.

Definition journaled_db : MemDB :=
  mkMemDB all_cfs
    (<[(default_cf, journal_key "1") := serialize stale_journal]>
     (<[(default_cf, journal_key "2") := serialize live_journal]> loadable_map)) [].

Definition recovered_db : MemDB := (recover_pending_reorgs (RK:=mem_rocks) journaled_db).2.

Lemma recovery_clears_journal_witness :
  contents (recovered_db : DB (Rocks:=mem_rocks)) !! (default_cf, journal_key "2") = None.
Proof.
  apply (recovery_clears_journal (RK:=mem_rocks) sample_block_ops_keys journaled_db recovered_db).
  unfold recovered_db. apply run_eta. by vm_compute.
Defined.

Definition loaded_result : outcome (Chain (RK:=mem_rocks)) * MemDB :=
  load_from_db (RK:=mem_rocks) (MP:=sample_mempool_ops) ∅ [] loadable_db.

Definition loaded_value : Chain (RK:=mem_rocks) :=
  match loaded_result.1 with Ok c => c | _ => new_chain_value end.

Lemma loaded_run : loaded_result = (Ok loaded_value, loaded_result.2).
Proof.
  apply run_eta. unfold loaded_value.
  assert (match loaded_result.1 with Ok _ => true | _ => false end = true) by by vm_compute.
  by destruct (loaded_result.1).
Qed.

Lemma load_needs_missing_summary_witness :
  contents (loaded_result.2 : DB (Rocks:=mem_rocks)) !! (default_cf, DB_KEY_TOTAL_SUPPLY) = None ∨
  contents (loaded_result.2 : DB (Rocks:=mem_rocks)) !! (default_cf, DB_KEY_UTXO_SET_HASH) = None.
Proof.
  apply (load_needs_missing_summary (RK:=mem_rocks) (MP:=sample_mempool_ops) ∅ [] loadable_db loaded_value).
  - apply loaded_run.
  - assert (best_height loaded_value = 0) as -> by by vm_compute. by split.
Defined.

Lemma load_heights_state_witness :
  ∃ st w, load_heights (RK:=mem_rocks) loadable_db 0 = Ok (st, w) ∧ cumulative_work st !! 0 = Some w.
Proof.
  destruct (load_heights (RK:=mem_rocks) loadable_db 0) as [[st w]| | |] eqn:E;
    [|by vm_compute in E..].
  exists st, w. split; [done|]. by apply (load_heights_state (RK:=mem_rocks) loadable_db 0 st w).
Defined.

(** With the summaries that every connected block writes, the same database
    no longer loads. *)
Example summaries_prevent_loading :
  best_height <$>
  (load_from_db (RK:=mem_rocks) (MP:=sample_mempool_ops) ∅ []
     (mkMemDB all_cfs
        (<[(default_cf, DB_KEY_TOTAL_SUPPLY) := to_be_bytes 8 (subsidy 0)]>
         (<[(default_cf, DB_KEY_UTXO_SET_HASH) := zero_hash]> loadable_map)) [])).1 = Err SupplyMismatch.
Proof. by vm_compute. Qed.
