(* ===== verification/Mempool.v ===== *)
(** * Mempool: the pool of unconfirmed transactions

    src/111/src/mempool.rs.  The pool keeps its transactions with several
    indices: by parent, by fee rate, by time, by key image, and a running
    average of the fee rates behind a mutex.

    - A [DashMap] is a finite map; the order in which it (or a [HashSet]) is
      iterated is [hash_iter].  A [BinaryHeap] is the list of its elements;
      which of several greatest elements [pop] returns and the order of [iter]
      are parameters.
    - [avg_fee] is a mutex: the model keeps its value and whether it is held.
    - [lru], a cache that nothing reads, and the metrics are left out. *)
From S2P Require Import Prelude Errors Types Externals Instances Utils Keys Tx Ledger Store Chain.

(** std::collections::BinaryHeap, for an order given as "[x] is below [y]":
    [pop] and the elements in the order of [iter].  No theorem below depends on
    which of the elements they choose. *)
Class HeapOrder := {
  heap_pop : ∀ {A : Type}, (A → A → bool) → list A → option (A * list A);
  heap_iter : ∀ {A : Type}, (A → A → bool) → list A → list A;
}.

Record MempoolEntry := mkMempoolEntry {
  entry_tx : Transaction;
  fee_per_byte : Z;
  entry_time : Z;
  depends_on : gset bytes;
  fee : Z;
}.

(** [Ord for MempoolEntry]: the greatest entry has the lowest fee rate, and
    among those the latest time. *)
Definition entry_lt (x y : MempoolEntry) : bool :=
  (fee_per_byte y <? fee_per_byte x) ||
  ((fee_per_byte x =? fee_per_byte y) && (entry_time x <? entry_time y)).

(** The order of the pairs (time, id). *)
Definition ttl_lt (x y : Z * bytes) : bool :=
  (x.1 <? y.1) || ((x.1 =? y.1) && bytes_ltb x.2 y.2).

Record Mempool := mkMempool {
  pool_txs : gmap bytes MempoolEntry;
  heap : list MempoolEntry;
  total_bytes : Z;
  by_parent : gmap bytes (list bytes);
  fee_index : gmap Z (gset bytes);
  ttl_heap : list (Z * bytes);
  max_size : Z;
  expiration_index : gmap Z (list bytes);
  avg_fee : Z;
  avg_fee_lock : bool;
  key_images : gmap bytes bytes;
  (** the static [FEE_CACHE] *)
  FEE_CACHE : gmap bytes Z;
}.

Section Mempool.
  Context {CR : Crypto} {CD : Codec} {RK : Rocks} {HO : HashOrder} {HP : HeapOrder}.

Definition set_iter (s : gset bytes) : list bytes := (hash_iter (gset_to_gmap () s)).*1.

Definition Mempool_new (max : Z) : Mempool :=
  mkMempool ∅ [] 0 ∅ ∅ [] max ∅ 0 false ∅ ∅.

Definition update_max_size (new_max : Z) (m : Mempool) : Mempool :=
  mkMempool (pool_txs m) (heap m) (total_bytes m) (by_parent m) (fee_index m) (ttl_heap m)
    (Z.min new_max (256 * 1024 * 1024)) (expiration_index m) (avg_fee m) (avg_fee_lock m)
    (key_images m) (FEE_CACHE m).

(** ** Updates of one field *)

Definition set_heap (h : list MempoolEntry) (m : Mempool) : Mempool :=
  mkMempool (pool_txs m) h (total_bytes m) (by_parent m) (fee_index m) (ttl_heap m) (max_size m)
    (expiration_index m) (avg_fee m) (avg_fee_lock m) (key_images m) (FEE_CACHE m).

Definition set_by_parent (b : gmap bytes (list bytes)) (m : Mempool) : Mempool :=
  mkMempool (pool_txs m) (heap m) (total_bytes m) b (fee_index m) (ttl_heap m) (max_size m)
    (expiration_index m) (avg_fee m) (avg_fee_lock m) (key_images m) (FEE_CACHE m).

Definition set_ttl_heap (t : list (Z * bytes)) (m : Mempool) : Mempool :=
  mkMempool (pool_txs m) (heap m) (total_bytes m) (by_parent m) (fee_index m) t (max_size m)
    (expiration_index m) (avg_fee m) (avg_fee_lock m) (key_images m) (FEE_CACHE m).

Definition set_indices (f : gmap Z (gset bytes)) (x : gmap Z (list bytes)) (m : Mempool) : Mempool :=
  mkMempool (pool_txs m) (heap m) (total_bytes m) (by_parent m) f (ttl_heap m) (max_size m)
    x (avg_fee m) (avg_fee_lock m) (key_images m) (FEE_CACHE m).

Definition set_avg (avg : Z) (locked : bool) (m : Mempool) : Mempool :=
  mkMempool (pool_txs m) (heap m) (total_bytes m) (by_parent m) (fee_index m) (ttl_heap m) (max_size m)
    (expiration_index m) avg locked (key_images m) (FEE_CACHE m).

Definition pool_len (m : Mempool) : Z := Z.of_nat (size (pool_txs m)).

(** [let mut avg = self.avg_fee.lock().await;] returns the value. *)
Definition lock_avg : M Mempool Z := λ m,
  if avg_fee_lock m then (Hang, m) else (Ok (avg_fee m), set_avg (avg_fee m) true m).

(** Store the value and drop the guard. *)
Definition unlock_avg (avg : Z) : M Mempool unit := modify (set_avg avg false).

(** ** Removal *)

(** The key images of the inputs, for those long enough to hold one. *)
Definition image_of (vin : TXInput) : option bytes :=
  if (32 <=? length (script_sig vin))%nat then Some (take 32 (script_sig vin)) else None.

Definition tx_images (t : Transaction) : list bytes :=
  if is_anonymous t then omap image_of (inputs t) else [].

(** [txs.remove], the key images, [total_bytes] and [FEE_CACHE]. *)
Definition drop_entry (id : bytes) (e : MempoolEntry) (m : Mempool) : Mempool :=
  mkMempool (delete id (pool_txs m)) (heap m) (wsub 64 (total_bytes m) (tx_size (entry_tx e)))
    (by_parent m) (fee_index m) (ttl_heap m) (max_size m) (expiration_index m) (avg_fee m)
    (avg_fee_lock m) (foldl (λ k i, delete i k) (key_images m) (tx_images (entry_tx e)))
    (delete id (FEE_CACHE m)).

(** Remove the first occurrence. *)
Fixpoint remove_first (x : bytes) (l : list bytes) : list bytes :=
  match l with
  | [] => []
  | y :: l => if bool_decide (x = y) then l else y :: remove_first x l
  end.

Definition unindex (id : bytes) (e : MempoolEntry) (m : Mempool) : Mempool :=
  set_indices (alter (λ s, s ∖ {[ id ]}) (fee_per_byte e) (fee_index m))
    (alter (remove_first id) (entry_time e) (expiration_index m)) m.

(** The average after a removal: the division panics on an empty pool. *)
Definition average_down (e : MempoolEntry) : M Mempool unit :=
  avg ← lock_avg;
  m ← get;
  new ← lift (div_or_panic (wsub 64 (wmul 64 avg (wadd 64 (pool_len m) 1)) (fee_per_byte e)) (pool_len m));
  unlock_avg new.

(** [remove], recursive over the children; [n] bounds the depth. *)
Fixpoint remove_fuel (n : nat) (id : bytes) : M Mempool unit :=
  match n with
  | O => lift Hang
  | S n =>
      m ← get;
      match pool_txs m !! id with
      | None => mret tt
      | Some e =>
          modify (drop_entry id e);;
          (match by_parent m !! id with
           | None => mret tt
           | Some children =>
               modify (λ m, set_by_parent (delete id (by_parent m)) m);;
               mfor (remove_fuel n) children
           end);;
          modify (unindex id e);;
          average_down e
      end
  end.

Definition remove (id : bytes) : M Mempool unit := λ m, remove_fuel (S (size (pool_txs m))) id m.

(** An entry whose parent has left the pool. *)
Definition orphaned (m : Mempool) (e : MempoolEntry) : bool :=
  bool_decide (¬ set_Forall (λ dep, is_Some (pool_txs m !! dep)) (depends_on e)).

Definition remove_orphaned_txs : M Mempool unit :=
  m ← get;
  mfor remove (filter (λ kv, orphaned m kv.2 = true) (hash_iter (pool_txs m))).*1.

Definition evict_low_fee_package : M Mempool unit :=
  avg ← lock_avg;
  unlock_avg avg;;
  m ← get;
  match heap_pop entry_lt (heap m) with
  | None => mret tt
  | Some (low, rest) =>
      modify (set_heap rest);;
      if fee_per_byte low <? avg / 2 then
        let id := tx_hash (entry_tx low) in
        remove id;;
        m ← get;
        match by_parent m !! id with
        | Some children => mfor remove children
        | None => mret tt
        end
      else mret tt
  end.

(** ** Insertion *)

(** The walk over the unconfirmed ancestors; the stack is a list with its top
    first.  [MAX_PACKAGE_DEPTH] iterations at most; the fuel left tells whether
    the limit was reached. *)
Fixpoint ancestors (fuel : nat) (pool : gmap bytes MempoolEntry) (deps : gset bytes)
    (stack : list bytes) : outcome (gset bytes * nat) :=
  match stack, fuel with
  | [], _ | _, O => Ok (deps, fuel)
  | parent :: stack, S fuel =>
      if bool_decide (parent ∈ deps) then bail (Anyhow "Cycle detected in dependencies") else
      let more := match pool !! parent with Some e => reverse (set_iter (depends_on e)) | None => [] end in
      ancestors fuel pool ({[ parent ]} ∪ deps) (more ++ stack)
  end.

Definition package_size (m : Mempool) (size : Z) (deps : gset bytes) : outcome Z :=
  for_each (λ acc dep,
    let acc := match pool_txs m !! dep with Some e => wadd 64 acc (tx_size (entry_tx e)) | None => acc end in
    if MAX_PACKAGE_SIZE <? acc then bail (Anyhow "Package size exceeded") else Ok acc)
    size (set_iter deps).

(** One input: a confirmed output counts, an unconfirmed parent only becomes a
    dependency. *)
Definition pool_input (d : DB) (m : Mempool) (anon : bool) (acc : Z * gset bytes) (vin : TXInput)
    : outcome (Z * gset bytes) :=
  v ← get_cf d (if anon then "anonymous" else "utxo") (output_key anon (txid vin) (vout vin));
  match v with
  | Some v =>
      output ← ok_or (deserialize (A:=TXOutput) v) (Anyhow "Deserialize output failed");
      s ← ok_or (checked_add 64 acc.1 (value output)) ValueOverflow;
      Ok (s, acc.2)
  | None =>
      if bool_decide (is_Some (pool_txs m !! txid vin)) then Ok (acc.1, {[ txid vin ]} ∪ acc.2)
      else bail MissingUTXO
  end.

(** An anonymous input must carry a key image the pool does not know. *)
Definition check_image (m : Mempool) (vin : TXInput) : outcome unit :=
  (ensure (negb (length (script_sig vin) <? 32)%nat) InvalidScript);;
  ensure (bool_decide (key_images m !! take 32 (script_sig vin) = None)) DoubleSpend.

(** Everything [insert] checks before it changes the pool. *)
Definition check_entry (d : DB) (m : Mempool) (t : Transaction) (ms : outcome Z) : outcome MempoolEntry :=
  let size := tx_size t in
  (ensure (negb ((size =? 0) || (500000 <? size))) (InvalidTx "Invalid size"));;
  pool_get d;;
  require_cf d "utxo" "cf";;
  require_cf d "anonymous" "cf";;
  let stack := reverse (filter (λ id, is_Some (pool_txs m !! id)) (txid <$> inputs t)) in
  r ← ancestors (Z.to_nat MAX_PACKAGE_DEPTH) (pool_txs m) ∅ stack;
  (ensure (negb (r.2 =? 0)%nat) PackageDepthExceeded);;
  package_size m size r.1;;
  s ← for_each (pool_input d m (is_anonymous t)) (0, r.1) (inputs t);
  output_sum ← ok_or (try_sum 64 (value <$> outputs t)) ValueOverflow;
  paid ← ok_or (checked_sub s.1 output_sum) ValueOverflow;
  rate ← div_or_panic paid size;
  (match pool_txs m !! tx_hash t with
   | Some old => ensure (negb (paid <? wadd 64 (fee old) (wmul 64 (wmul 64 MIN_FEE_PER_BYTE 2) size))) InsufficientFee
   | None => Ok tt
   end);;
  (if is_anonymous t then for_each (λ _ vin, check_image m vin) tt (inputs t) else Ok tt);;
  time ← ms;
  Ok (mkMempoolEntry t rate time s.2 paid).

(** [entry(k).or_insert_with(Vec::new).push(id)] *)
Definition push_at {K} `{Countable K} (id : bytes) (k : K) (x : gmap K (list bytes)) : gmap K (list bytes) :=
  partial_alter (λ o, Some (default [] o ++ [id])) k x.

(** The pool with the entry in every index. *)
Definition add_entry (id : bytes) (e : MempoolEntry) (m : Mempool) : Mempool :=
  mkMempool (<[id := e]> (pool_txs m)) (heap m ++ [e]) (wadd 64 (total_bytes m) (tx_size (entry_tx e)))
    (foldl (λ b dep, push_at id dep b) (by_parent m) (set_iter (depends_on e)))
    (partial_alter (λ o, Some ({[ id ]} ∪ default ∅ o)) (fee_per_byte e) (fee_index m))
    (ttl_heap m ++ [(entry_time e, id)]) (max_size m)
    (push_at id (entry_time e) (expiration_index m)) (avg_fee m) (avg_fee_lock m)
    (foldl (λ k i, <[i := id]> k) (key_images m) (tx_images (entry_tx e)))
    (<[id := fee e]> (FEE_CACHE m)).

Definition MAX_POOL_TXS : Z := 50000.

Definition over_limit (m : Mempool) : bool :=
  (max_size m <? total_bytes m) || (MAX_POOL_TXS <? pool_len m).

(** [while over the limit { evict }] for at most [n] rounds. *)
Fixpoint evict_loop (n : nat) : M Mempool unit :=
  m ← get;
  if over_limit m then
    match n with
    | O => lift Hang
    | S n => evict_low_fee_package;; evict_loop n
    end
  else mret tt.

Definition average_up (avg : Z) (e : MempoolEntry) : M Mempool Z :=
  m ← get;
  lift (div_or_panic (wadd 64 (wmul 64 avg (wsub 64 (pool_len m) 1)) (fee_per_byte e)) (pool_len m)).

(** [insert]; the guard of [avg_fee] lives until the end. *)
Definition insert (n : nat) (d : DB) (t : Transaction) (ms : outcome Z) : M Mempool bool :=
  m ← get;
  let id := tx_hash t in
  if bool_decide (is_Some (pool_txs m !! id)) then mret false else
  e ← lift (check_entry d m t ms);
  modify (add_entry id e);;
  avg ← lock_avg;
  new ← average_up avg e;
  modify (set_avg new true);;
  evict_loop n;;
  remove_orphaned_txs;;
  unlock_avg new;;
  mret true.

(** ** Expiration *)

(** The ids collected from the heap: up to the first that is not expired. *)
Fixpoint expired_prefix (now expiration : Z) (l : list (Z * bytes)) : list bytes :=
  match l with
  | [] => []
  | (time, id) :: l =>
      if expiration <? saturating_sub now time then id :: expired_prefix now expiration l else []
  end.

(** [self.remove(&txid); ttl_heap.pop();] *)
Definition expire_one (id : bytes) : M Mempool unit :=
  remove id;;
  modify (λ m, set_ttl_heap (match heap_pop ttl_lt (ttl_heap m) with Some (_, r) => r | None => [] end) m).

Definition clean_expired (expiration : Z) (ms : outcome Z) : M Mempool unit :=
  now ← lift ms;
  m ← get;
  mfor expire_one (expired_prefix now expiration (heap_iter ttl_lt (ttl_heap m)));;
  modify (λ m, set_indices (fee_index m)
    (filter (λ kv, ¬ expiration < saturating_sub now kv.1) (expiration_index m)) m).

(** ** Selection for a block template *)

(** [BTreeSet::iter]: ascending. *)
Definition bytes_le (a b : bytes) : Prop := bytes_ltb b a = false.

#[export] Instance bytes_le_dec a b : Decision (bytes_le a b).
Proof. unfold bytes_le. apply _. Defined.

Definition ordered (s : gset bytes) : list bytes := merge_sort bytes_le (elements s).

(** A transaction with its unconfirmed ancestors: the package, its size and
    the ids, while the stack is walked for at most [MAX_PACKAGE_DEPTH] steps. *)
Record package := mkPackage {
  p_txs : list Transaction;
  p_size : Z;
  p_include : list bytes;
  p_visited : list bytes;
}.

Fixpoint gather (fuel : nat) (pool : gmap bytes MempoolEntry) (stack : list bytes) (p : package) : package :=
  match stack, fuel with
  | [], _ | _, O => p
  | parent :: stack, S fuel =>
      if bool_decide (parent ∈ p_visited p) then gather fuel pool stack p else
      let visited := parent :: p_visited p in
      match pool !! parent with
      | Some e =>
          gather fuel pool (reverse (set_iter (depends_on e)) ++ stack)
            (mkPackage (entry_tx e :: p_txs p) (wadd 64 (p_size p) (tx_size (entry_tx e)))
               (p_include p ++ [parent]) visited)
      | None => gather fuel pool stack (mkPackage (p_txs p) (p_size p) (p_include p) visited)
      end
  end.

Record selection := mkSelection {
  selected : list Transaction;
  sel_size : Z;
  included : list bytes;
  visited_packages : list bytes;
}.

Definition select_one (pool : gmap bytes MempoolEntry) (max : Z) (s : selection) (id : bytes) : selection :=
  if bool_decide (id ∈ included s) || bool_decide (id ∈ visited_packages s) then s else
  match pool !! id with
  | None => s
  | Some e =>
      let p := gather (Z.to_nat MAX_PACKAGE_DEPTH) pool (reverse (set_iter (depends_on e)))
                 (mkPackage [entry_tx e] (tx_size (entry_tx e)) [id] []) in
      let visited := p_visited p ++ visited_packages s in
      if (p_size p <=? wsub 64 max (sel_size s)) && (p_size p <=? MAX_PACKAGE_SIZE)
      then mkSelection (selected s ++ p_txs p) (wadd 64 (sel_size s) (p_size p))
             (p_include p ++ included s) visited
      else mkSelection (selected s) (sel_size s) (included s) visited
  end.

(** The fee rates in descending order; a rate is skipped once the size is
    reached (the loop breaks). *)
Definition fee_rates (m : Mempool) : list Z :=
  reverse (merge_sort Z.le (hash_iter (fee_index m)).*1).

Definition select_rate (m : Mempool) (max : Z) (s : selection) (rate : Z) : selection :=
  if max <=? sel_size s then s else
  match fee_index m !! rate with
  | None => s
  | Some ids => foldl (select_one (pool_txs m) max) s (ordered ids)
  end.

Definition select (max : Z) (m : Mempool) : selection :=
  foldl (select_rate m max) (mkSelection [] 0 [] []) (fee_rates m).

Definition select_txs (max : Z) (m : Mempool) : list Transaction := selected (select max m).

End Mempool.

(** ** Removal: properties *)

Section RemoveSpec.
  Context {CR : Crypto} {CD : Codec}.

#[local] Instance preserves_modify P (f : Mempool → Mempool) : (∀ m, P m → P (f m)) → Preserves P (modify f).
Proof. intros Hf m Hm. by apply Hf. Qed.

(** The only outcomes of [average_down]. *)
Lemma average_down_pool e m :
  pool_txs (average_down e m).2 = pool_txs m ∧ total_bytes (average_down e m).2 = total_bytes m ∧
  key_images (average_down e m).2 = key_images m ∧ by_parent (average_down e m).2 = by_parent m.
Proof.
  unfold average_down, lock_avg, mbind, M_bind, get, lift, unlock_avg, modify.
  destruct (avg_fee_lock m); [done|]. by destruct (div_or_panic _ _).
Qed.

(** Removal only shrinks the pool. *)
Lemma remove_fuel_subset n id m : pool_txs (remove_fuel n id m).2 ⊆ pool_txs m.
Proof.
  revert id m. induction n as [|n IH]; intros id m; [done|]. cbn [remove_fuel].
  unfold mbind at 1, M_bind, get. destruct (pool_txs m !! id) as [e|]; [|done].
  assert (Preserves (λ m', pool_txs m' ⊆ pool_txs m)
    (modify (drop_entry id e);;
     match by_parent m !! id with
     | None => mret tt
     | Some children =>
         modify (λ m, set_by_parent (delete id (by_parent m)) m);; mfor (remove_fuel n) children
     end;; modify (unindex id e);; average_down e)) as Hp; [|by apply Hp].
  apply preserves_bind.
  { apply preserves_modify. intros m' Hm. simpl. etrans; [apply delete_subseteq|done]. }
  intros _. apply preserves_bind.
  { destruct (by_parent m !! id) as [children|]; [|apply _].
    apply preserves_bind; [by apply preserves_modify|]. intros _. apply preserves_mfor.
    intros c m' Hm. etrans; [apply IH|done]. }
  intros _. apply preserves_bind; [by apply preserves_modify|]. intros _ m' Hm.
  by rewrite (proj1 (average_down_pool e m')).
Qed.

(** ** The byte counter and the key images *)

(** The bytes of all pooled transactions. *)
Definition pool_bytes (m : Mempool) : Z :=
  summary Z.add 0 (λ (_ : bytes) e, tx_size (entry_tx e)) (pool_txs m).

(** The counter is the sum (in [usize]), every key image of a pooled
    transaction is registered for it, and the entries are filed under their
    hash and have an accepted size. *)
Record wf_mempool (m : Mempool) : Prop := mkWfMempool {
  wf_total : total_bytes m = wrap 64 (pool_bytes m);
  wf_images : ∀ id e i, pool_txs m !! id = Some e → i ∈ tx_images (entry_tx e) →
                        key_images m !! i = Some id;
  wf_entries : ∀ id e, pool_txs m !! id = Some e →
                       id = tx_hash (entry_tx e) ∧ 1 <= tx_size (entry_tx e) <= 500000;
}.

Lemma foldl_delete_lookup (l : list bytes) (k : gmap bytes bytes) i :
  foldl (λ k i, delete i k) k l !! i = if bool_decide (i ∈ l) then None else k !! i.
Proof.
  revert k. induction l as [|j l IH]; intros k; cbn [foldl]; [done|]. rewrite IH.
  destruct (decide (i = j)) as [->|Hne].
  - rewrite (bool_decide_eq_true_2 (j ∈ j :: l)) by by left.
    case_bool_decide; [done|]. apply lookup_delete_eq.
  - rewrite lookup_delete_ne by done. erewrite (bool_decide_ext (i ∈ l)); [done|].
    rewrite elem_of_cons. naive_solver.
Qed.

Lemma foldl_insert_lookup (id : bytes) (l : list bytes) (k : gmap bytes bytes) i :
  foldl (λ k i, <[i := id]> k) k l !! i = if bool_decide (i ∈ l) then Some id else k !! i.
Proof.
  revert k. induction l as [|j l IH]; intros k; cbn [foldl]; [done|]. rewrite IH.
  destruct (decide (i = j)) as [->|Hne].
  - rewrite (bool_decide_eq_true_2 (j ∈ j :: l)) by by left.
    case_bool_decide; [done|]. apply lookup_insert_eq.
  - rewrite lookup_insert_ne by done. erewrite (bool_decide_ext (i ∈ l)); [done|].
    rewrite elem_of_cons. naive_solver.
Qed.

(** Updates that touch neither the transactions, the counter nor the images. *)
Lemma wf_mempool_frame m m' :
  pool_txs m' = pool_txs m → total_bytes m' = total_bytes m → key_images m' = key_images m →
  wf_mempool m → wf_mempool m'.
Proof.
  intros E1 E2 E3 [H1 H2 H3]. split.
  - unfold pool_bytes in *. by rewrite E1, E2.
  - intros id e i. rewrite E1, E3. apply H2.
  - by rewrite E1.
Qed.

Lemma drop_entry_wf id e m :
  pool_txs m !! id = Some e → wf_mempool m → wf_mempool (drop_entry id e m).
Proof.
  intros He [H1 H2 H3]. split; cbn [drop_entry pool_txs total_bytes key_images].
  - unfold pool_bytes in *. rewrite H1. cbn [pool_txs].
    rewrite (summary_delete Z.add 0 (λ (_ : bytes) e, tx_size (entry_tx e)) Z.add_assoc Z.add_comm _ _ _ He).
    cbv beta. unfold wsub, wrap. rewrite Zminus_mod_idemp_l. f_equal. cbn [drop_entry pool_txs]. lia.
  - intros id' e' i. rewrite lookup_delete_Some. intros [Hne He'] Hi.
    rewrite foldl_delete_lookup, bool_decide_eq_false_2; [by eapply H2|].
    intros Hin. pose proof (H2 _ _ _ He Hin). pose proof (H2 _ _ _ He' Hi). congruence.
  - intros id' e' [_ He']%lookup_delete_Some. by apply H3.
Qed.

Lemma add_entry_wf {HO : HashOrder} id e m :
  pool_txs m !! id = None → id = tx_hash (entry_tx e) → 1 <= tx_size (entry_tx e) <= 500000 →
  (∀ i, i ∈ tx_images (entry_tx e) → key_images m !! i = None) →
  wf_mempool m → wf_mempool (add_entry id e m).
Proof.
  intros Hid Hhash Hsize Hnew [H1 H2 H3]. split; cbn [add_entry pool_txs total_bytes key_images].
  - unfold pool_bytes in *. rewrite H1. cbn [add_entry pool_txs].
    rewrite (summary_insert Z.add 0 (λ (_ : bytes) e, tx_size (entry_tx e)) Z.add_assoc Z.add_comm _ _ _ Hid).
    cbv beta. unfold wadd, wrap. rewrite Zplus_mod_idemp_l. f_equal. cbn [add_entry pool_txs]. lia.
  - intros id' e' i. rewrite foldl_insert_lookup, lookup_insert_Some.
    intros [[<- <-]|[Hne He']] Hi; [by rewrite bool_decide_eq_true_2|].
    rewrite bool_decide_eq_false_2; [by eapply H2|].
    intros Hin. pose proof (H2 _ _ _ He' Hi). rewrite Hnew in *; done.
  - intros id' e' [[<- <-]|[_ He']]%lookup_insert_Some; [done|]. by apply H3.
Qed.

Lemma remove_fuel_wf n id : Preserves wf_mempool (remove_fuel n id).
Proof.
  revert id. induction n as [|n IH]; intros id m Hm; [done|]. cbn [remove_fuel].
  unfold mbind at 1, M_bind, get. destruct (pool_txs m !! id) as [e|] eqn:He; [|done].
  unfold mbind at 1, M_bind, modify. apply (drop_entry_wf id e) in Hm; [|done]. cbn beta iota. revert Hm. generalize (drop_entry id e m).
  assert (Preserves wf_mempool
    (match by_parent m !! id with
     | None => mret tt
     | Some children =>
         modify (λ m, set_by_parent (delete id (by_parent m)) m);; mfor (remove_fuel n) children
     end;; modify (unindex id e);; average_down e)) as Hp; [|exact Hp].
  apply preserves_bind.
  { destruct (by_parent m !! id) as [children|]; [|apply _].
    apply preserves_bind; [by apply preserves_modify; intros m'; apply wf_mempool_frame|]. intros _. apply _. }
  intros _. apply preserves_bind; [by apply preserves_modify; intros m'; apply wf_mempool_frame|].
  intros _ m' Hm. destruct (average_down_pool e m') as (E1 & E2 & E3 & _). by eapply wf_mempool_frame.
Qed.

#[export] Instance remove_wf id : Preserves wf_mempool (remove id).
Proof. intros m. apply remove_fuel_wf. Qed.

(** *** What a removal achieves *)

Lemma average_down_Ok e m u m' : average_down e m = (Ok u, m') → pool_len m ≠ 0 ∧ avg_fee_lock m = false ∧ avg_fee_lock m' = false.
Proof.
  unfold average_down, lock_avg, mbind, M_bind, get, lift, unlock_avg, modify.
  destruct (avg_fee_lock m); [done|]. unfold div_or_panic. cbn.
  destruct (Z.eqb_spec (pool_len (set_avg (avg_fee m) true m)) 0) as [E|E]; [done|].
  by intros [= _ <-].
Qed.

(** A loop of removals leaves none of its ids, once each of them is gone after
    its own turn. *)
Lemma mfor_removed n l m u m' :
  (∀ id m u m', remove_fuel n id m = (Ok u, m') → pool_txs m' !! id = None) →
  mfor (remove_fuel n) l m = (Ok u, m') →
  ∀ id, id ∈ l → pool_txs m' !! id = None.
Proof.
  intros Hn. revert m. induction l as [|x l IH]; intros m H id Hin; [by apply not_elem_of_nil in Hin|].
  cbn [mfor] in H. apply M_bind_Ok in H as (u1 & m1 & H1 & H).
  apply elem_of_cons in Hin as [->|Hin]; [|by eapply IH].
  apply Hn in H1. assert (pool_txs m' ⊆ pool_txs m1) as Hsub.
  { pose proof (preserves_mfor (λ m', pool_txs m' ⊆ pool_txs m1) (remove_fuel n) l) as Hp.
    specialize (Hp (λ c m2 H2, transitivity (remove_fuel_subset n c m2) H2) m1 (reflexivity _)).
    by rewrite H in Hp. }
  destruct (pool_txs m' !! x) as [e|] eqn:E; [|done].
  by rewrite (lookup_weaken _ _ _ _ E Hsub) in H1.
Qed.

Lemma remove_fuel_Ok n id m u m' :
  remove_fuel n id m = (Ok u, m') →
  pool_txs m' ⊆ pool_txs m ∧ pool_txs m' !! id = None ∧
  (is_Some (pool_txs m !! id) →
     (∀ l c, by_parent m !! id = Some l → c ∈ l → pool_txs m' !! c = None) ∧
     pool_len m' ≠ 0 ∧ avg_fee_lock m' = false).
Proof.
  revert id m u m'. induction n as [|n IH]; intros id m u m' H; [done|].
  pose proof (remove_fuel_subset (S n) id m) as Hsub. rewrite H in Hsub. split; [done|]. cbn [snd] in Hsub.
  cbn [remove_fuel] in H. apply M_bind_Ok in H as (m0 & m1 & [= <- <-] & H).
  destruct (pool_txs m !! id) as [e|] eqn:He; [|injection H as _ <-; split; [done|by intros []]].
  apply M_bind_Ok in H as (u1 & m1 & H1 & H). injection H1 as _ <-.
  apply M_bind_Ok in H as (u2 & m2 & H2 & H). apply M_bind_Ok in H as (u3 & m3 & H3 & H).
  injection H3 as _ <-.
  destruct (average_down_pool e (unindex id e m2)) as (E & _). rewrite H in E. cbn in E.
  apply average_down_Ok in H as (Hlen & _ & Hlk). unfold pool_len in *. rewrite E.
  cbn [unindex set_indices pool_txs] in Hlen.
  destruct (by_parent m !! id) as [children|] eqn:Hc.
  - apply M_bind_Ok in H2 as (u4 & m4 & H4 & H2). injection H4 as _ <-.
    assert (Hsub2 : pool_txs m2 ⊆ delete id (pool_txs m)).
    { pose proof (preserves_mfor (λ m', pool_txs m' ⊆ delete id (pool_txs m)) (remove_fuel n) children) as Hp.
      match type of H2 with mfor _ _ ?s = _ =>
        specialize (Hp (λ c m2 H2, transitivity (remove_fuel_subset n c m2) H2) s (reflexivity _)) end.
      by rewrite H2 in Hp. }
    split.
    { destruct (pool_txs m2 !! id) eqn:E2; [|done].
      pose proof (lookup_weaken _ _ _ _ E2 Hsub2) as E3. by rewrite lookup_delete_eq in E3. }
    intros _. split_and!; [|done|done]. intros l c [= <-] Hin.
    eapply (mfor_removed n); [|exact H2|done]. intros ???? Hr. by apply IH in Hr as (_ & ? & _).
  - injection H2 as _ <-. cbn [drop_entry pool_txs]. split; [apply lookup_delete_eq|].
    intros _. by split_and!.
Qed.

(** *** No transaction outlives its unconfirmed parents *)

(** Every pooled transaction, but those of [P], has its dependencies in the
    pool and is filed under each of them. *)
Definition closed_but (P : list bytes) (m : Mempool) : Prop :=
  ∀ id e dep, pool_txs m !! id = Some e → dep ∈ depends_on e → id ∉ P →
    is_Some (pool_txs m !! dep) ∧ ∃ l, by_parent m !! dep = Some l ∧ id ∈ l.

Lemma closed_but_frame P m m' :
  pool_txs m' = pool_txs m → by_parent m' = by_parent m → closed_but P m → closed_but P m'.
Proof. unfold closed_but. by intros -> ->. Qed.

(** A removed transaction leaves its children to be removed. *)
Lemma drop_entry_closed P id e m :
  closed_but P m →
  closed_but (default [] (by_parent m !! id) ++ P) (set_by_parent (delete id (by_parent m)) (drop_entry id e m)).
Proof.
  intros Hc id' e' dep. cbn [set_by_parent drop_entry pool_txs by_parent].
  rewrite lookup_delete_Some. intros [Hne He'] Hdep [Hin HP]%not_elem_of_app.
  destruct (Hc _ _ _ He' Hdep HP) as (Hd & l & Hl & Hid).
  destruct (decide (dep = id)) as [->|Hne2]; [by rewrite Hl in Hin|].
  rewrite !lookup_delete_ne by done. eauto.
Qed.

Lemma remove_fuel_closed n id P : PreservesOk (closed_but P) (remove_fuel n id).
Proof.
  revert id P. induction n as [|n IH]; intros id P m u m' H Hc; [done|].
  cbn [remove_fuel] in H. apply M_bind_Ok in H as (m0 & m1 & [= <- <-] & H).
  destruct (pool_txs m !! id) as [e|]; [|by injection H as _ <-].
  apply M_bind_Ok in H as (u1 & m1 & [= _ <-] & H).
  apply M_bind_Ok in H as (u2 & m2 & H2 & H). apply M_bind_Ok in H as (u3 & m3 & [= _ <-] & H).
  destruct (average_down_pool e (unindex id e m2)) as (E1 & _ & _ & E2). rewrite H in E1, E2.
  apply (closed_but_frame _ m2); [done..|]. apply (drop_entry_closed P id e) in Hc.
  destruct (by_parent m !! id) as [children|] eqn:Hb; cbn [default] in Hc.
  - apply M_bind_Ok in H2 as (u4 & m4 & [= _ <-] & H2).
    pose proof (mfor_removed n children _ _ _ (λ id m u m' Hr, proj1 (proj2 (remove_fuel_Ok n id m u m' Hr))) H2) as Hgone.
    pose proof (preserves_ok_mfor (closed_but (children ++ P)) (remove_fuel n) children (λ c, IH c _) _ _ _ H2 Hc) as Hc2.
    intros id' e' dep He' Hdep HP. apply (Hc2 _ _ _ He' Hdep). rewrite not_elem_of_app. split; [|done].
    intros Hin. by rewrite (Hgone _ Hin) in He'.
  - injection H2 as _ <-. eapply closed_but_frame; [| |exact Hc]; [done|].
    cbn [drop_entry set_by_parent by_parent]. by rewrite delete_id.
Qed.

#[export] Instance remove_closed id P : PreservesOk (closed_but P) (remove id).
Proof. intros m. apply remove_fuel_closed. Qed.

(** *** Fuel *)

Lemma map_size_mono {K A} `{Countable K} (m1 m2 : gmap K A) : m1 ⊆ m2 → (size m1 ≤ size m2)%nat.
Proof. intros Hs. rewrite <- !(size_dom (D:=gset K)). by apply subseteq_size, subseteq_dom. Qed.

(** Each level of the recursion has removed an entry: the size of the pool
    bounds its depth. *)
Lemma remove_fuel_more n n' id m :
  (size (pool_txs m) < n)%nat → (size (pool_txs m) < n')%nat → remove_fuel n id m = remove_fuel n' id m.
Proof.
  revert n' id m. induction n as [|n IH]; intros [|n'] id m H1 H2; try lia. cbn [remove_fuel].
  unfold mbind, M_bind, get, modify. destruct (pool_txs m !! id) as [e|] eqn:He; [|done].
  assert (size (delete id (pool_txs m)) < size (pool_txs m))%nat as Hsz.
  { apply map_subset_size, delete_subset. eauto. }
  destruct (by_parent m !! id) as [children|]; [|done].
  enough (∀ s, pool_txs s ⊆ delete id (pool_txs m) → mfor (remove_fuel n) children s = mfor (remove_fuel n') children s)
    as E by (by rewrite E).
  induction children as [|c children IHc]; intros s Hs; cbn [mfor]; [done|].
  unfold mbind, M_bind. apply map_size_mono in Hs as Hle.
  rewrite (IH n') by lia. pose proof (remove_fuel_subset n' c s) as Hsub.
  destruct (remove_fuel n' c s) as [[]]; try done. apply IHc. by etrans.
Qed.

(** With the average free a removal returns or panics. *)
Lemma remove_fuel_returns n id m :
  avg_fee_lock m = false → (size (pool_txs m) < n)%nat →
  (∃ m', remove_fuel n id m = (Ok tt, m') ∧ avg_fee_lock m' = false) ∨ (∃ m', remove_fuel n id m = (Panic, m')).
Proof.
  revert id m. induction n as [|n IH]; intros id m Hl Hn; [lia|]. cbn [remove_fuel].
  unfold mbind, M_bind, get, modify. destruct (pool_txs m !! id) as [e|] eqn:He; [|left; by exists m].
  assert (size (delete id (pool_txs m)) < size (pool_txs m))%nat as Hsz by (apply map_subset_size, delete_subset; eauto).
  assert (Hend : ∀ s, avg_fee_lock s = false →
    (∃ m', average_down e (unindex id e s) = (Ok tt, m') ∧ avg_fee_lock m' = false) ∨
    (∃ m', average_down e (unindex id e s) = (Panic, m'))).
  { intros s Hs. unfold average_down, lock_avg, mbind, M_bind, get, lift, div_or_panic. cbn. rewrite Hs.
    destruct (_ =? 0); [right; by eexists|left; by eexists]. }
  destruct (by_parent m !! id) as [children|]; [|by apply Hend].
  enough (∀ s, avg_fee_lock s = false → pool_txs s ⊆ delete id (pool_txs m) →
    (∃ m', mfor (remove_fuel n) children s = (Ok tt, m') ∧ avg_fee_lock m' = false) ∨
    (∃ m', mfor (remove_fuel n) children s = (Panic, m'))) as E.
  { cbv beta. destruct (E (set_by_parent (delete id (by_parent (drop_entry id e m))) (drop_entry id e m))) as [(m1 & E1 & Hl1)|(m1 & E1)];
      [done..| |]; rewrite E1; [by apply Hend|right; by eexists]. }
  induction children as [|c children IHc]; intros s Hs Hsub; cbn [mfor]; [left; by exists s|].
  unfold mbind, M_bind. apply map_size_mono in Hsub as Hle. pose proof (remove_fuel_subset n c s) as Hsub2.
  destruct (IH c s Hs) as [(m1 & E1 & Hl1)|(m1 & E1)]; [lia| |right; rewrite E1; by eexists].
  rewrite E1 in *. apply IHc; [done|]. by etrans.
Qed.

#[export] Instance remove_no_err id : NoErr (remove id).
Proof.
  intros m. unfold remove. generalize (S (size (pool_txs m))). intros n. revert m. change (NoErr (remove_fuel n id)).
  revert id. induction n as [|n IH]; intros id; [by intros m e|]. cbn [remove_fuel].
  apply no_err_bind; [apply _|]. intros m. destruct (pool_txs m !! id) as [e|]; [|apply _].
  apply no_err_bind; [apply _|]. intros _. apply no_err_bind.
  { destruct (by_parent m !! id); apply _. }
  intros _. apply no_err_bind; [apply _|]. intros _ m1 e1. unfold average_down, lock_avg, mbind, M_bind, get, lift, div_or_panic.
  destruct (avg_fee_lock m1); [done|]. by destruct (pool_len (set_avg (avg_fee m1) true m1) =? 0).
Qed.

End RemoveSpec.

(** ** Insertion: properties *)

Section InsertSpec.
  Context {CR : Crypto} {CD : Codec} {RK : Rocks} {RKO : RocksOk} {HO : HashOrder} {HOO : HashOrderOk}
    {HP : HeapOrder}.

Lemma set_iter_perm (s : gset bytes) : set_iter s ≡ₚ elements s.
Proof.
  unfold set_iter. rewrite hash_iter_perm. apply NoDup_Permutation.
  - apply NoDup_fst_map_to_list.
  - apply NoDup_elements.
  - intros x. rewrite elem_of_elements, list_elem_of_fmap. split.
    + intros ([y u] & -> & Hin%elem_of_map_to_list%lookup_gset_to_gmap_Some). naive_solver.
    + intros Hin. exists (x, ()). split; [done|]. by apply elem_of_map_to_list, lookup_gset_to_gmap_Some.
Qed.

Lemma elem_of_set_iter (x : bytes) (s : gset bytes) : x ∈ set_iter s ↔ x ∈ s.
Proof. rewrite set_iter_perm. apply elem_of_elements. Qed.

(** The walk that ends with fuel left has visited the stack, each entry once. *)
Lemma ancestors_Ok fuel pool deps stack r k :
  ancestors fuel pool deps stack = Ok (r, k) → k ≠ 0%nat →
  deps ⊆ r ∧ (∀ x, x ∈ stack → x ∈ r ∧ x ∉ deps) ∧ NoDup stack ∧ (size r + k = size deps + fuel)%nat.
Proof.
  revert deps stack. induction fuel as [|fuel IH]; intros deps [|p stack] H Hk; cbn [ancestors] in H;
    [injection H as -> ->; split_and!; [done|set_solver|constructor|lia]
    |by injection H as _ <-
    |injection H as -> ->; split_and!; [done|set_solver|constructor|lia]|].
  case_bool_decide as Hp; [done|]. apply IH in H as (H1 & H2 & H3 & H4); [|done].
  apply NoDup_app in H3 as (_ & _ & H3). split_and!; [set_solver| | |].
  - intros x [->|Hx]%elem_of_cons; [set_solver|]. specialize (H2 x). set_solver.
  - apply NoDup_cons. split; [|done]. intros Hin. specialize (H2 p). set_solver.
  - rewrite H4, size_union, size_singleton by set_solver. lia.
Qed.

(** In a closed pool every ancestor is pooled. *)
Lemma ancestors_pooled fuel m deps stack r k :
  closed_but [] m → (∀ x, x ∈ deps → is_Some (pool_txs m !! x)) →
  (∀ x, x ∈ stack → is_Some (pool_txs m !! x)) →
  ancestors fuel (pool_txs m) deps stack = Ok (r, k) → ∀ x, x ∈ r → is_Some (pool_txs m !! x).
Proof.
  intros Hc. revert deps stack. induction fuel as [|fuel IH]; intros deps [|p stack] Hd Hs H; cbn [ancestors] in H;
    [by injection H as <- _..|].
  case_bool_decide as Hp; [done|]. refine (IH _ _ _ _ H); clear H.
  - intros x [->%elem_of_singleton|Hx]%elem_of_union; [apply Hs; by left|by apply Hd].
  - intros x [Hx|Hx]%elem_of_app; [|apply Hs; by right].
    destruct (pool_txs m !! p) as [e|] eqn:He; [|by apply not_elem_of_nil in Hx].
    rewrite elem_of_reverse, elem_of_set_iter in Hx. eapply Hc; eauto. apply not_elem_of_nil.
Qed.

(** *** Inputs *)

(** The confirmed output an input names. *)
Definition confirmed (d : DB) (anon : bool) (vin : TXInput) : option TXOutput :=
  contents d !! (if anon then "anonymous" else "utxo", output_key anon (txid vin) (vout vin)) ≫= deserialize.

(** What it counts for. *)
Definition input_value (d : DB) (anon : bool) (vin : TXInput) : Z :=
  default 0 (value <$> confirmed d anon vin).

Lemma pool_input_Ok d m anon acc vin r :
  pool_input d m anon acc vin = Ok r →
  r.1 = acc.1 + input_value d anon vin ∧
  ((is_Some (confirmed d anon vin) ∧ r.2 = acc.2) ∨ (is_Some (pool_txs m !! txid vin) ∧ r.2 = {[ txid vin ]} ∪ acc.2)).
Proof.
  unfold pool_input, input_value, confirmed. intros (v & Hv & H)%bind_Ok. apply get_cf_sound in Hv. rewrite <- Hv.
  destruct v as [v|]; cbn [mbind option_bind].
  - apply bind_Ok in H as (o & ->%ok_or_Ok & H). apply bind_Ok in H as (s & Hs%ok_or_Ok & H).
    apply checked_add_Some in Hs as [-> _]. injection H as <-. cbn. eauto.
  - case_bool_decide; [|done]. injection H as <-. cbn. split; [lia|auto].
Qed.

Lemma pool_inputs_Ok d m anon acc l r :
  for_each (pool_input d m anon) acc l = Ok r →
  r.1 = acc.1 + sumZ (input_value d anon <$> l) ∧ acc.2 ⊆ r.2 ∧
  (∀ x, x ∈ r.2 → x ∈ acc.2 ∨ (is_Some (pool_txs m !! x) ∧ x ∈ txid <$> l)) ∧
  Forall (λ vin, is_Some (confirmed d anon vin) ∨ (is_Some (pool_txs m !! txid vin) ∧ txid vin ∈ r.2)) l.
Proof.
  revert acc. induction l as [|vin l IH]; intros acc; cbn [for_each].
  { intros [= ->]. split_and!; [simpl; lia|done|by auto|constructor]. }
  intros (a & [E1 E2]%pool_input_Ok & (E3 & E4 & E5 & E6)%IH)%bind_Ok. csimpl. split_and!; [lia| | |].
  - destruct E2 as [[_ E2]|[_ E2]]; rewrite E2 in E4; set_solver.
  - intros x Hx. destruct (E5 x Hx) as [Ha|[? ?]]; [|right; split; [done|by right]].
    destruct E2 as [[_ E2]|[Hp E2]]; rewrite E2 in Ha; [by left|].
    apply elem_of_union in Ha as [->%elem_of_singleton|Ha]; [right|by left]. split; [done|by left].
  - constructor; [|done]. destruct E2 as [[? _]|[? E2]]; [by left|right]. split; [done|]. rewrite E2 in E4. set_solver.
Qed.

Lemma check_images_Ok m l u :
  for_each (λ _ vin, check_image m vin) tt l = Ok u →
  ∀ i, i ∈ omap image_of l → key_images m !! i = None.
Proof.
  intros H i (vin & Hin & Hi)%list_elem_of_omap. eapply for_each_elem in H as (_ & u2 & H); [|exact Hin].
  unfold check_image in H. inv_ok. unfold image_of in Hi. case_match; [|done]. injection Hi as <-.
  by apply bool_decide_eq_true in H.
Qed.

(** *** What [insert] checks *)

Definition dep_size (m : Mempool) (dep : bytes) : Z :=
  match pool_txs m !! dep with Some e => tx_size (entry_tx e) | None => 0 end.

Lemma package_size_Ok m size deps p :
  wf_mempool m → 0 <= size <= MAX_PACKAGE_SIZE → package_size m size deps = Ok p →
  size + sumZ (dep_size m <$> elements deps) <= MAX_PACKAGE_SIZE.
Proof.
  intros Hm. rewrite <- set_iter_perm. unfold package_size, MAX_PACKAGE_SIZE. revert size.
  induction (set_iter deps) as [|dep l IH]; intros size Hs; cbn [for_each]; csimpl; [cbn; lia|].
  intros (a & H & Hl)%bind_Ok. unfold dep_size at 1.
  destruct (pool_txs m !! dep) as [e|] eqn:He; (case_match eqn:Hle; [done|]); injection H as <-; apply Z.ltb_ge in Hle.
  - pose proof (wf_entries m Hm _ _ He) as [_ Hsz]. rewrite wadd_small in * by lia. apply IH in Hl; lia.
  - apply IH in Hl; lia.
Qed.

(** The conditions under which a transaction gets an entry. *)
Record accepts (d : DB) (m : Mempool) (t : Transaction) (e : MempoolEntry) : Prop := mkAccepts {
  acc_tx : entry_tx e = t;
  acc_size : 1 <= tx_size t <= 500000;
  (** each input is confirmed, or an unconfirmed parent is in the pool *)
  acc_inputs : Forall (λ vin, is_Some (confirmed d (is_anonymous t) vin) ∨
                       (is_Some (pool_txs m !! txid vin) ∧ txid vin ∈ depends_on e)) (inputs t);
  (** the fee counts the confirmed inputs only *)
  acc_fee : fee e = sumZ (input_value d (is_anonymous t) <$> inputs t) - sumZ (value <$> outputs t);
  acc_fee_nonneg : 0 <= fee e;
  acc_rate : fee_per_byte e = fee e / tx_size t;
  acc_images : ∀ i, i ∈ tx_images t → key_images m !! i = None;
  (** its ancestors are pooled, few and small, and no two inputs share one *)
  acc_deps : ∀ dep, dep ∈ depends_on e → is_Some (pool_txs m !! dep);
  acc_depth : Z.of_nat (size (depends_on e)) < MAX_PACKAGE_DEPTH;
  acc_package : tx_size t + sumZ (dep_size m <$> elements (depends_on e)) <= MAX_PACKAGE_SIZE;
  acc_parents : NoDup (filter (λ id, is_Some (pool_txs m !! id)) (txid <$> inputs t));
}.

Lemma tx_size_pos_ok t : (negb ((tx_size t =? 0) || (500000 <? tx_size t))) = true → 1 <= tx_size t <= 500000.
Proof.
  unfold tx_size. rewrite negb_true_iff, orb_false_iff, Z.eqb_neq, Z.ltb_ge. lia.
Qed.

Lemma check_entry_Ok d m t ms e :
  wf_mempool m → closed_but [] m → check_entry d m t ms = Ok e → accepts d m t e.
Proof.
  intros Hm Hc H. unfold check_entry in H.
  apply bind_Ok in H as (u1 & Hs%ensure_Ok%tx_size_pos_ok & H). do 3 apply bind_Ok in H as ([] & _ & H).
  apply bind_Ok in H as ([r k] & Ha & H). apply bind_Ok in H as (u2 & Hk%ensure_Ok & H). cbn [fst snd] in *.
  apply bind_Ok in H as (p & Hp & H). apply bind_Ok in H as ([a deps] & Hi & H).
  apply bind_Ok in H as (os & Hos%ok_or_Ok%try_sum_from_sum & H).
  apply bind_Ok in H as (paid & Hpaid%ok_or_Ok%checked_sub_Some & H).
  apply bind_Ok in H as (rate & Hrate & H). apply bind_Ok in H as (u3 & _ & H).
  apply bind_Ok in H as (u4 & Himg & H). apply bind_Ok in H as (time & _ & [= <-]).
  apply negb_true_iff, Nat.eqb_neq in Hk. cbn [fst snd] in *.
  pose proof (ancestors_Ok _ _ _ _ _ _ Ha Hk) as (_ & Hst & Hnd & Hsz).
  apply pool_inputs_Ok in Hi as (E1 & E2 & E3 & E4). cbn [fst snd] in *.
  set (pooled := filter (λ id, is_Some (pool_txs m !! id)) (txid <$> inputs t)) in *.
  assert (Hst' : ∀ x, x ∈ pooled → x ∈ r) by (intros x Hx; apply (Hst x), elem_of_reverse, Hx).
  assert (deps = r) as ->.
  { apply leibniz_equiv. intros x. split; [|by apply E2]. intros [Hx|[Hx Hin]]%E3; [done|].
    by apply Hst', list_elem_of_filter. }
  split; cbn [entry_tx depends_on fee fee_per_byte]; try done.
  - lia.
  - lia.
  - unfold div_or_panic in Hrate. destruct (tx_size t =? 0); [done|]. by injection Hrate as <-.
  - unfold tx_images. destruct (is_anonymous t); [by eapply check_images_Ok|intros i Hi; by apply not_elem_of_nil in Hi].
  - eapply ancestors_pooled; [exact Hc| | |exact Ha]; [by intros x ?%not_elem_of_empty|].
    intros x Hx%elem_of_reverse%list_elem_of_filter. apply Hx.
  - rewrite size_empty in Hsz. unfold MAX_PACKAGE_DEPTH in *. lia.
  - eapply package_size_Ok; [done| |exact Hp]. unfold MAX_PACKAGE_SIZE. lia.
  - by rewrite reverse_Permutation in Hnd.
Qed.

(** ** The invariant of the pool *)

(** Between calls: the counters and indices of [wf_mempool], no transaction
    without its parents, the average free, and at most [MAX_POOL_TXS]
    transactions, whose bytes the counter holds exactly. *)
Record pool_inv (m : Mempool) : Prop := mkPoolInv {
  inv_wf : wf_mempool m;
  inv_closed : closed_but [] m;
  inv_lock : avg_fee_lock m = false;
  inv_count : pool_len m <= MAX_POOL_TXS;
}.

Lemma pool_bytes_bound m : wf_mempool m → 0 <= pool_bytes m <= 500000 * pool_len m.
Proof.
  intros Hm. pose proof (wf_entries m Hm) as H. unfold pool_bytes, pool_len. revert H.
  generalize (pool_txs m). intros p. induction p as [|id e p Hid IH] using map_ind; intros H.
  { unfold summary. rewrite map_fold_empty, map_size_empty. lia. }
  rewrite (summary_insert Z.add 0 (λ (_ : bytes) e, tx_size (entry_tx e)) Z.add_assoc Z.add_comm _ _ _ Hid),
    map_size_insert_None by done.
  destruct (H id e) as [_ ?]; [by rewrite lookup_insert_eq|].
  specialize (IH (λ i x Hx, H i x ltac:(rewrite lookup_insert_ne; congruence))). lia.
Qed.

(** The counter is exact. *)
Lemma total_bytes_exact m : pool_inv m → total_bytes m = pool_bytes m.
Proof.
  intros [Hm _ _ Hn]. rewrite (wf_total m Hm). apply wrap_small. pose proof (pool_bytes_bound m Hm).
  unfold uint, MAX_POOL_TXS in *. lia.
Qed.

Lemma Mempool_new_inv max : pool_inv (Mempool_new max).
Proof.
  split; [split|..]; try done; cbn; intros *; by rewrite lookup_empty.
Qed.

(** *** Filing an entry *)

Definition listed (b : gmap bytes (list bytes)) (dep id : bytes) : Prop := ∃ l, b !! dep = Some l ∧ id ∈ l.

Lemma listed_push b dep id k x : listed b dep id ∨ (k = dep ∧ x = id) → listed (push_at x k b) dep id.
Proof.
  unfold listed, push_at. destruct (decide (k = dep)) as [->|Hne].
  - rewrite lookup_partial_alter_eq. intros [(l & -> & Hin)|[_ ->]]; eexists; (split; [done|]); cbn; set_solver.
  - rewrite lookup_partial_alter_ne by done. naive_solver.
Qed.

Lemma listed_fold x l b dep id :
  listed b dep id ∨ (dep ∈ l ∧ x = id) → listed (foldl (λ b k, push_at x k b) b l) dep id.
Proof.
  revert b. induction l as [|k l IH]; intros b; cbn [foldl]; [intros [?|[?%not_elem_of_nil _]]; done|].
  intros H. apply IH. destruct H as [H|[[->|H]%elem_of_cons ->]]; [left|left|by right]; apply listed_push; auto.
Qed.

Lemma add_entry_closed id e m :
  closed_but [] m → (∀ dep, dep ∈ depends_on e → is_Some (pool_txs m !! dep)) → closed_but [] (add_entry id e m).
Proof.
  intros Hc Hd id' e' dep. cbn [add_entry pool_txs by_parent].
  assert (Hin : ∀ x, is_Some (pool_txs m !! x) → is_Some (<[id := e]> (pool_txs m) !! x))
    by (intros x Hx; apply lookup_insert_is_Some'; auto).
  intros [[<- <-]|[Hne He']]%lookup_insert_Some Hdep Hn.
  - split; [by apply Hin, Hd|]. apply listed_fold. right. split; [by apply elem_of_set_iter|done].
  - destruct (Hc _ _ _ He' Hdep Hn) as [H1 H2]. split; [by apply Hin|]. apply listed_fold. by left.
Qed.

(** A closed pool has no orphan. *)
Lemma remove_orphaned_closed m : closed_but [] m → remove_orphaned_txs m = (Ok tt, m).
Proof.
  intros Hc. unfold remove_orphaned_txs, mbind, M_bind, get.
  replace (filter _ _) with (@nil (bytes * MempoolEntry)); [done|]. symmetry.
  apply elem_of_nil_inv. intros [id e] [H Hin%elem_of_hash_iter]%list_elem_of_filter. unfold orphaned in H.
  rewrite bool_decide_eq_true in H. apply H. intros dep Hdep. eapply Hc; eauto. apply not_elem_of_nil.
Qed.

(** *** One insertion *)

(** The average after an insertion. *)
Definition new_average (m : Mempool) (e : MempoolEntry) : Z :=
  wadd 64 (wmul 64 (avg_fee m) (wsub 64 (pool_len m + 1) 1)) (fee_per_byte e) / (pool_len m + 1).

(** While the average is locked an eviction never ends. *)
Lemma evict_loop_locked n m :
  avg_fee_lock m = true → evict_loop n m = ((if over_limit m then Hang else Ok tt), m).
Proof.
  intros Hl. destruct n as [|n]; cbn [evict_loop]; unfold mbind, M_bind, get; destruct (over_limit m); try done.
  unfold evict_low_fee_package, mbind, M_bind, lock_avg. by rewrite Hl.
Qed.

(** The whole of [insert], for a pool between calls. *)
Lemma insert_value n d t ms m :
  pool_inv m →
  insert n d t ms m =
    if bool_decide (is_Some (pool_txs m !! tx_hash t)) then (Ok false, m) else
    match check_entry d m t ms with
    | Ok e =>
        let m1 := add_entry (tx_hash t) e m in
        if over_limit m1 then (Hang, set_avg (new_average m e) true m1)
        else (Ok true, set_avg (new_average m e) false m1)
    | Err x => (Err x, m)
    | Panic => (Panic, m)
    | Hang => (Hang, m)
    end.
Proof.
  intros Hi. unfold insert. unfold mbind at 1, M_bind at 1, get. case_bool_decide as Hid; [done|].
  unfold mbind at 1, M_bind at 1, lift at 1. destruct (check_entry d m t ms) as [e| | |] eqn:He; try done.
  apply check_entry_Ok in He as Hacc; [|apply Hi..].
  assert (Hlen : pool_len (set_avg (avg_fee m) true (add_entry (tx_hash t) e m)) = pool_len m + 1).
  { unfold pool_len. cbn. rewrite map_size_insert_None by by apply eq_None_not_Some. lia. }
  unfold mbind, M_bind, modify, lock_avg. cbn [add_entry avg_fee_lock avg_fee]. rewrite (inv_lock m Hi).
  unfold average_up, mbind, M_bind, get, lift, div_or_panic. rewrite Hlen.
  destruct (Z.eqb_spec (pool_len m + 1) 0) as [E|_]; [unfold pool_len in E; lia|].
  set (m1 := add_entry (tx_hash t) e m) in *.
  assert (Hlock : ∀ avg, set_avg avg true (set_avg (avg_fee m) true m1) = set_avg avg true m1) by done.
  rewrite Hlock. fold (new_average m e). rewrite evict_loop_locked by done.
  change (over_limit (set_avg (new_average m e) true m1)) with (over_limit m1).
  destruct (over_limit m1); [done|]. rewrite remove_orphaned_closed; [done|].
  apply (closed_but_frame _ m1); [done..|]. apply add_entry_closed; [apply Hi|apply Hacc].
Qed.

Lemma pool_inv_frame m m' :
  pool_txs m' = pool_txs m → by_parent m' = by_parent m → total_bytes m' = total_bytes m →
  key_images m' = key_images m → avg_fee_lock m' = false → pool_inv m → pool_inv m'.
Proof.
  intros E1 E2 E3 E4 E5 [H1 H2 H3 H4]. split; [by eapply wf_mempool_frame|by eapply closed_but_frame|done|].
  unfold pool_len in *. by rewrite E1.
Qed.

#[export] Instance insert_keeps n d t ms : PreservesOk pool_inv (insert n d t ms).
Proof.
  intros m r m' H Hi. rewrite insert_value in H by done. case_bool_decide as Hid; [by injection H as _ <-|].
  destruct (check_entry d m t ms) as [e| | |] eqn:He; try done.
  apply check_entry_Ok in He as Hacc; [|apply Hi..]. cbv zeta in H.
  destruct (over_limit _) eqn:Hov; [done|]. injection H as _ <-. unfold over_limit in Hov.
  apply orb_false_iff in Hov as [_ Hov%Z.ltb_ge]. destruct Hi as [H1 H2 H3 H4], Hacc. subst t. split; [| |done|done].
  - apply (wf_mempool_frame (add_entry (tx_hash (entry_tx e)) e m)); [done..|]. apply add_entry_wf; [by apply eq_None_not_Some|done..].
  - apply (closed_but_frame _ (add_entry (tx_hash (entry_tx e)) e m)); [done..|]. by apply add_entry_closed.
Qed.

#[export] Instance remove_keeps id : PreservesOk pool_inv (remove id).
Proof.
  intros m u m' H [H1 H2 H3 H4]. pose proof (remove_wf id m H1) as Hw. rewrite H in Hw.
  pose proof (remove_closed id [] _ _ _ H H2) as Hc. split; [done|done| |].
  - destruct (pool_txs m !! id) as [e|] eqn:He.
    + apply remove_fuel_Ok in H as (_ & _ & H). by apply H.
    + unfold remove in H. cbn [remove_fuel] in H. unfold mbind, M_bind, get in H. rewrite He in H. by injection H as _ <-.
  - apply remove_fuel_Ok in H as (Hsub%map_size_mono & _). unfold pool_len in *. lia.
Qed.

#[export] Instance modify_keeps (f : Mempool → Mempool) :
  (∀ m, pool_txs (f m) = pool_txs m ∧ by_parent (f m) = by_parent m ∧ total_bytes (f m) = total_bytes m ∧
        key_images (f m) = key_images m ∧ avg_fee_lock (f m) = avg_fee_lock m) → PreservesOk pool_inv (modify f).
Proof.
  intros Hf m u m' [= _ <-] Hi. destruct (Hf m) as (E1 & E2 & E3 & E4 & E5).
  apply (pool_inv_frame m); try done. rewrite E5. apply Hi.
Qed.

#[export] Instance remove_orphaned_keeps : PreservesOk pool_inv remove_orphaned_txs.
Proof. unfold remove_orphaned_txs. apply _. Qed.

#[export] Instance evict_keeps : PreservesOk pool_inv evict_low_fee_package.
Proof.
  intros m u m' H Hi. unfold evict_low_fee_package, lock_avg in H.
  apply M_bind_Ok in H as (avg & m1 & H1 & H). rewrite (inv_lock m Hi) in H1. injection H1 as <- <-.
  apply M_bind_Ok in H as (u1 & m1 & [= _ <-] & H). revert H.
  assert (Hi2 : pool_inv (set_avg (avg_fee m) false (set_avg (avg_fee m) true m))) by (by apply (pool_inv_frame m)).
  revert Hi2. generalize (set_avg (avg_fee m) false (set_avg (avg_fee m) true m)). intros m1 Hi1 H. revert m1 u m' H Hi1.
  change (PreservesOk pool_inv (m1 ← get;
    match heap_pop entry_lt (heap m1) with
    | None => mret tt
    | Some (low, rest) =>
        modify (set_heap rest);;
        if fee_per_byte low <? avg_fee m / 2 then
          remove (tx_hash (entry_tx low));;
          m ← get;
          match by_parent m !! tx_hash (entry_tx low) with
          | Some children => mfor remove children
          | None => mret tt
          end
        else mret tt
    end)).
  notypeclasses refine (preserves_ok_bind _ _ _ _ _); [apply _|]. intros m1. destruct (heap_pop _ _) as [[low rest]|]; [|apply _].
  notypeclasses refine (preserves_ok_bind _ _ _ _ _); [by apply modify_keeps|]. intros _. apply preserves_ok_if; [|apply _].
  notypeclasses refine (preserves_ok_bind _ _ _ _ _); [apply _|]. intros _. notypeclasses refine (preserves_ok_bind _ _ _ _ _); [apply _|]. intros m2.
  destruct (by_parent m2 !! _); apply _.
Qed.

#[export] Instance clean_expired_keeps expiration ms : PreservesOk pool_inv (clean_expired expiration ms).
Proof.
  unfold clean_expired. notypeclasses refine (preserves_ok_bind _ _ _ _ _); [apply _|]. intros now. notypeclasses refine (preserves_ok_bind _ _ _ _ _); [apply _|].
  intros m. notypeclasses refine (preserves_ok_bind _ _ _ _ _); [|intros _; by apply modify_keeps]. apply preserves_ok_mfor. intros id.
  unfold expire_one. notypeclasses refine (preserves_ok_bind _ _ _ _ _); [apply _|]. intros _. by apply modify_keeps.
Qed.

#[export] Instance evict_no_err : NoErr evict_low_fee_package.
Proof.
  unfold evict_low_fee_package. notypeclasses refine (no_err_bind _ _ _ _).
  { intros m e. unfold lock_avg. by destruct (avg_fee_lock m). }
  intros avg. notypeclasses refine (no_err_bind _ _ _ _); [apply _|]. intros _.
  notypeclasses refine (no_err_bind _ _ _ _); [apply _|]. intros m.
  destruct (heap_pop _ _) as [[low rest]|]; [|apply _].
  notypeclasses refine (no_err_bind _ _ _ _); [apply _|]. intros _. apply no_err_if; [|apply _].
  notypeclasses refine (no_err_bind _ _ _ _); [apply _|]. intros _.
  notypeclasses refine (no_err_bind _ _ _ _); [apply _|]. intros m2. destruct (by_parent m2 !! _); apply _.
Qed.

(** ** Every state of the pool *)

(** The calls the node makes, one after the other. *)
Inductive pool_op :=
  | OpInsert (d : DB) (t : Transaction) (ms : outcome Z)
  | OpRemove (id : bytes)
  | OpEvict
  | OpClean (expiration : Z) (ms : outcome Z)
  | OpMaxSize (new_max : Z).

Definition run_op (n : nat) (o : pool_op) : M Mempool unit :=
  match o with
  | OpInsert d t ms => insert n d t ms;; mret tt
  | OpRemove id => remove id
  | OpEvict => evict_low_fee_package
  | OpClean expiration ms => clean_expired expiration ms
  | OpMaxSize new_max => modify (update_max_size new_max)
  end.

(** The pools that calls which return, with or without an error, lead to. *)
Inductive pool_reach : Mempool → Prop :=
  | reach_new max : pool_reach (Mempool_new max)
  | reach_ok m n o u m' : pool_reach m → run_op n o m = (Ok u, m') → pool_reach m'
  | reach_err m n o e m' : pool_reach m → run_op n o m = (Err e, m') → pool_reach m'.

#[local] Instance run_op_keeps n o : PreservesOk pool_inv (run_op n o).
Proof. destruct o; cbn [run_op]; try apply _. by apply modify_keeps. Qed.

(** A refused insertion leaves the pool alone. *)
Lemma insert_Err n d t ms m e m' : pool_inv m → insert n d t ms m = (Err e, m') → m' = m.
Proof.
  intros Hi. rewrite insert_value by done. case_bool_decide; [done|].
  destruct (check_entry d m t ms) as [en| | |]; try done; [|by intros [= _ <-]]. cbv zeta. by destruct (over_limit _).
Qed.

Lemma run_op_Err n o m e m' : pool_inv m → run_op n o m = (Err e, m') → m' = m.
Proof.
  intros Hi H. destruct o; cbn [run_op] in H.
  - unfold mbind, M_bind in H. destruct (insert n d t ms m) as [[b|x| |] m1] eqn:Hins; try done.
    injection H as _ <-. by eapply insert_Err.
  - pose proof (remove_no_err id m e) as Hn. by rewrite H in Hn.
  - pose proof (evict_no_err m e) as Hn. by rewrite H in Hn.
  - unfold clean_expired in H. destruct ms as [now| | |]; cbn in H; try done; [|by injection H as _ <-].
    match type of H with ?r m = _ => assert (Hn : NoErr r) end.
    { notypeclasses refine (no_err_bind _ _ _ _); [by intros s x|]. intros now'.
      notypeclasses refine (no_err_bind _ _ _ _); [apply _|]. intros m1.
      notypeclasses refine (no_err_bind _ _ _ _); [|apply _]. apply no_err_mfor. intros id.
      unfold expire_one. apply _. }
    pose proof (Hn m e) as Hne. by rewrite H in Hne.
  - done.
Qed.

Lemma pool_reach_inv m : pool_reach m → pool_inv m.
Proof.
  induction 1 as [max|m n o u m' _ IH H|m n o e m' _ IH H]; [apply Mempool_new_inv| |].
  - by eapply run_op_keeps.
  - by apply run_op_Err in H as ->.
Qed.

(** ** Selection *)

Definition pooled (m : Mempool) (t : Transaction) : Prop :=
  ∃ e, pool_txs m !! tx_hash t = Some e ∧ entry_tx e = t.

Lemma pooled_entry m id e : wf_mempool m → pool_txs m !! id = Some e → pooled m (entry_tx e) ∧ 1 <= tx_size (entry_tx e) <= 500000.
Proof. intros Hm He. destruct (wf_entries m Hm _ _ He) as [-> ?]. split; [by exists e|done]. Qed.

(** A package of pooled transactions with its exact size. *)
Definition sized (m : Mempool) (ts : list Transaction) (size : Z) : Prop :=
  Forall (pooled m) ts ∧ size = sumZ (tx_size <$> ts) ∧ 0 <= size.

Lemma gather_sized m fuel stack p :
  wf_mempool m → sized m (p_txs p) (p_size p) → p_size p + 500000 * Z.of_nat fuel < 2 ^ 64 →
  sized m (p_txs (gather fuel (pool_txs m) stack p)) (p_size (gather fuel (pool_txs m) stack p)).
Proof.
  intros Hm. revert stack p. induction fuel as [|fuel IH]; intros [|x stack] p Hp Hb; cbn [gather]; try done.
  case_bool_decide; [apply IH; [done|lia]|]. destruct (pool_txs m !! x) as [e|] eqn:He; [|by apply IH; [|cbn; lia]].
  destruct (pooled_entry m x e Hm He) as [Hpe Hsz]. destruct Hp as (H1 & H2 & H3).
  assert (wadd 64 (p_size p) (tx_size (entry_tx e)) = p_size p + tx_size (entry_tx e)) as E by (apply wadd_small; lia).
  apply IH; cbn [p_txs p_size]; rewrite E; [|lia]. split_and!; [by constructor|csimpl; lia|lia].
Qed.

Lemma select_one_sized m max s id :
  wf_mempool m → max < 2 ^ 64 → sized m (selected s) (sel_size s) → sel_size s <= max →
  let s' := select_one (pool_txs m) max s id in sized m (selected s') (sel_size s') ∧ sel_size s' <= max.
Proof.
  intros Hm Hmax Hs Hle. unfold select_one. destruct (_ || _); [done|].
  destruct (pool_txs m !! id) as [e|] eqn:He; [|done].
  destruct (pooled_entry m id e Hm He) as [Hpe Hsz].
  pose proof (gather_sized m (Z.to_nat MAX_PACKAGE_DEPTH) (reverse (set_iter (depends_on e)))
    (mkPackage [entry_tx e] (tx_size (entry_tx e)) [id] []) Hm) as Hg. cbn [p_txs p_size] in Hg.
  set (p := gather _ _ _ _) in *. cbv zeta. destruct Hg as (G1 & G2 & G3).
  { split_and!; [by constructor|simpl; lia|lia]. }
  { unfold MAX_PACKAGE_DEPTH. lia. }
  destruct Hs as (H1 & H2 & H3). rewrite wsub_small by lia.
  destruct (Z.leb_spec (p_size p) (max - sel_size s)) as [Hfit|]; [|done].
  destruct (p_size p <=? MAX_PACKAGE_SIZE); [|done]. cbn [andb selected sel_size].
  rewrite wadd_small by lia. split; [|lia]. split_and!; [by apply Forall_app|rewrite fmap_app, sumZ_app; lia|lia].
Qed.

Lemma select_sized m max :
  wf_mempool m → 0 <= max < 2 ^ 64 →
  sized m (selected (select max m)) (sel_size (select max m)) ∧ sel_size (select max m) <= max.
Proof.
  intros Hm Hmax. unfold select.
  assert (Hstep : ∀ l s, sized m (selected s) (sel_size s) ∧ sel_size s <= max →
    let s' := foldl (select_one (pool_txs m) max) s l in sized m (selected s') (sel_size s') ∧ sel_size s' <= max).
  { induction l as [|id l IH]; intros s [Hs Hle]; cbn [foldl]; [done|]. apply IH, select_one_sized; tauto || lia. }
  generalize (fee_rates m). intros rates.
  assert (H0 : sized m (selected (mkSelection [] 0 [] [])) (sel_size (mkSelection [] 0 [] [])) ∧
    sel_size (mkSelection [] 0 [] []) <= max) by (split; [split_and!; [constructor|done|done]|cbn; lia]).
  revert H0. generalize (mkSelection [] 0 [] []). induction rates as [|r rates IH]; intros s Hs; cbn [foldl]; [done|].
  apply IH. unfold select_rate. destruct (_ <=? _); [done|]. destruct (fee_index m !! r); [by apply Hstep|done].
Qed.

(** ** Claims *)

(** C10. Whatever calls were made, with or without an error, the pool is
    consistent between calls: its counter is the exact number of bytes of its
    transactions, of which there are at most 50000, each filed under its hash
    and of an accepted size; every key image in use is registered for its
    transaction; no transaction is left without a pooled parent; the average is
    not locked. *)
Theorem pool_invariant m : pool_reach m → pool_inv m ∧ total_bytes m = pool_bytes m.
Proof. intros H%pool_reach_inv. split; [done|]. by apply total_bytes_exact. Qed.

(** C14. An insertion that answers [true] had a new transaction which
    [accepts] describes, and changes the pool to exactly the one with the entry
    added and the average updated, which is within both limits. *)
Theorem insert_spec n d t ms m m' :
  pool_inv m → insert n d t ms m = (Ok true, m') →
  ∃ e, pool_txs m !! tx_hash t = None ∧ accepts d m t e ∧
       m' = set_avg (new_average m e) false (add_entry (tx_hash t) e m) ∧
       total_bytes m' = total_bytes m + tx_size t ∧ total_bytes m' <= max_size m ∧
       pool_len m' = pool_len m + 1 ∧ pool_len m' <= MAX_POOL_TXS.
Proof.
  intros Hi H. pose proof (insert_keeps n d t ms _ _ _ H Hi) as Hi'. rewrite insert_value in H by done.
  case_bool_decide as Hid; [done|]. apply eq_None_not_Some in Hid.
  destruct (check_entry d m t ms) as [e| | |] eqn:He; try done.
  apply check_entry_Ok in He; [|apply Hi..]. cbv zeta in H.
  destruct (over_limit _) eqn:Hov; [done|]. injection H as <-. exists e. split_and!; try done.
  - rewrite (total_bytes_exact m Hi), (total_bytes_exact _ Hi'). unfold pool_bytes. cbn.
    rewrite (summary_insert Z.add 0 (λ (_ : bytes) e, tx_size (entry_tx e)) Z.add_assoc Z.add_comm _ _ _ Hid).
    rewrite (acc_tx _ _ _ _ He). lia.
  - unfold over_limit in Hov. apply orb_false_iff in Hov as [Hov%Z.ltb_ge _]. exact Hov.
  - unfold pool_len. cbn. rewrite map_size_insert_None by done. lia.
  - apply Hi'.
Qed.

(** An insertion that answers [false] or an error leaves the pool as it
    was; [false] means that the transaction is already there. *)
Theorem insert_refused n d t ms m r m' :
  pool_inv m → insert n d t ms m = (r, m') → r = Ok false ∨ (∃ x, r = Err x) →
  m' = m ∧ (r = Ok false → is_Some (pool_txs m !! tx_hash t)).
Proof.
  intros Hi H [->|[x ->]]; [|split; [by eapply insert_Err|done]]. rewrite insert_value in H by done.
  case_bool_decide; [by injection H as <-|]. destruct (check_entry d m t ms); try done.
  cbv zeta in H. by destruct (over_limit _).
Qed.

(** The limits are never enforced by eviction: an accepted transaction
    that would push the pool over its limit makes [insert] wait for ever, with
    the average locked, because the eviction asks for the lock [insert] holds. *)
Theorem insert_over_limit_hangs n d t ms m e :
  pool_inv m → pool_txs m !! tx_hash t = None → check_entry d m t ms = Ok e →
  max_size m < total_bytes m + tx_size t ∨ pool_len m = MAX_POOL_TXS →
  (insert n d t ms m).1 = Hang ∧ avg_fee_lock (insert n d t ms m).2 = true.
Proof.
  intros Hi Hid He Hov. rewrite insert_value by done. rewrite bool_decide_eq_false_2 by by rewrite Hid; intros [].
  rewrite He. cbv zeta. apply check_entry_Ok in He as Hacc; [|apply Hi..].
  replace (over_limit _) with true; [done|]. symmetry. unfold over_limit, pool_len. cbn.
  rewrite map_size_insert_None, (acc_tx _ _ _ _ Hacc) by done.
  pose proof (acc_size _ _ _ _ Hacc). pose proof (pool_bytes_bound m (inv_wf m Hi)).
  pose proof (inv_count m Hi). rewrite (total_bytes_exact m Hi) in *. unfold MAX_POOL_TXS, pool_len in *.
  rewrite wadd_small by lia. rewrite orb_true_iff, !Z.ltb_lt. lia.
Qed.

(** C15. A removal that returns has taken the transaction and everything that
    depends on it out of the pool, and nothing else came in; the pool is
    consistent and, if the transaction was there, not empty. *)
Theorem remove_spec id m m' :
  pool_inv m → remove id m = (Ok tt, m') →
  pool_inv m' ∧ pool_txs m' ⊆ pool_txs m ∧ pool_txs m' !! id = None ∧
  (∀ id' e, pool_txs m' !! id' = Some e → id ∉ depends_on e) ∧
  (is_Some (pool_txs m !! id) → pool_txs m' ≠ ∅).
Proof.
  intros Hi H. pose proof (remove_keeps id _ _ _ H Hi) as Hi'. apply remove_fuel_Ok in H as (H1 & H2 & H3).
  split_and!; try done.
  - intros id' e He Hdep. destruct (inv_closed m' Hi' _ _ _ He Hdep) as [[? Hs] _]; [apply not_elem_of_nil|congruence].
  - intros Hs E. destruct (H3 Hs) as (_ & Hlen & _). unfold pool_len in Hlen. by rewrite E, map_size_empty in Hlen.
Qed.

(** With the average free every removal ends: the recursion is no deeper
    than the pool is large, and more fuel changes nothing.  It succeeds or
    panics; it panics when nothing but the transaction and what depends on it
    is in the pool (the new average is a division by zero). *)
Theorem remove_terminates id m :
  pool_inv m →
  ((remove id m).1 = Ok tt ∨ (remove id m).1 = Panic) ∧
  (∀ n, (size (pool_txs m) < n)%nat → remove_fuel n id m = remove id m) ∧
  (is_Some (pool_txs m !! id) → (∀ id' e, pool_txs m !! id' = Some e → id' = id ∨ id ∈ depends_on e) →
   (remove id m).1 = Panic).
Proof.
  intros Hi. assert (Hr : (remove id m).1 = Ok tt ∨ (remove id m).1 = Panic).
  { destruct (remove_fuel_returns (S (size (pool_txs m))) id m (inv_lock m Hi) ltac:(lia)) as [(m' & E & _)|(m' & E)];
      unfold remove; rewrite E; auto. }
  split_and!; [done|intros n Hn; apply remove_fuel_more; lia|]. intros Hs Hall. destruct Hr as [Hr|Hr]; [|done].
  apply run_eta in Hr. pose proof (remove_keeps id _ _ _ Hr Hi) as Hi'.
  apply remove_fuel_Ok in Hr as (Hsub & Hgone & Hrest). destruct (Hrest Hs) as (_ & Hlen & _). destruct Hlen.
  unfold pool_len. change 0 with (Z.of_nat 0). f_equal. apply map_size_empty_iff, map_empty. intros id'.
  destruct (pool_txs (remove id m).2 !! id') as [e|] eqn:He; [|done].
  destruct (Hall id' e) as [->|Hdep]; [by eapply lookup_weaken|congruence|].
  destruct (inv_closed _ Hi' _ _ _ He Hdep) as [[? Hs2] _]; [apply not_elem_of_nil|congruence].
Qed.

(** A transaction that spends two outputs of one unconfirmed transaction
    is never accepted. *)
Theorem same_parent_refused n d t ms m i j v1 v2 :
  pool_inv m → i ≠ j → inputs t !! i = Some v1 → inputs t !! j = Some v2 → txid v1 = txid v2 →
  is_Some (pool_txs m !! txid v1) → (insert n d t ms m).1 ≠ Ok true.
Proof.
  intros Hi Hij H1 H2 E Hp H%run_eta. rewrite insert_value in H by done. case_bool_decide as Hid; [done|].
  destruct (check_entry d m t ms) as [e| | |] eqn:He; try done. apply check_entry_Ok in He; [|apply Hi..].
  pose proof (acc_parents _ _ _ _ He) as Hnd. clear -H1 H2 E Hp Hij Hnd.
  assert (∀ a b w1 w2, (a < b)%nat → inputs t !! a = Some w1 → inputs t !! b = Some w2 → txid w1 = txid w2 →
    is_Some (pool_txs m !! txid w1) → False) as Hgen; [|destruct (Nat.lt_total i j) as [?|[?|?]]; [by eauto|done|]].
  - intros a b w1 w2 Hab E1 E2 Ew Hw. rewrite <- (take_drop_middle _ _ _ E1), fmap_app, filter_app in Hnd.
    apply NoDup_app in Hnd as (_ & _ & Hnd). rewrite fmap_cons, filter_cons_True in Hnd by done.
    apply NoDup_cons in Hnd as [Hn _]. apply Hn. apply list_elem_of_filter. split; [done|].
    rewrite Ew. apply list_elem_of_fmap_2. apply list_elem_of_lookup. exists (b - S a)%nat.
    rewrite lookup_drop. replace (S a + (b - S a))%nat with b by lia. done.
  - eapply (Hgen j i v2 v1); [lia|done..|by symmetry|congruence].
Qed.

(** C38. The selection for a block holds pooled transactions only, and their
    sizes add up to at most the size asked for. *)
Theorem select_txs_fits m max :
  pool_inv m → 0 <= max < 2 ^ 64 →
  Forall (pooled m) (select_txs max m) ∧ sumZ (tx_size <$> select_txs max m) <= max.
Proof.
  intros Hi Hmax. destruct (select_sized m max (inv_wf m Hi) Hmax) as [(H1 & H2 & _) H3]. split; [done|].
  unfold select_txs. lia.
Qed.

End InsertSpec.

(** ** Concrete pools *)

Fixpoint pop_max {A} (lt : A → A → bool) (x : A) (l : list A) : A * list A :=
  match l with
  | [] => (x, [])
  | y :: l => let '(z, r) := pop_max lt y l in if lt x z then (z, x :: r) else (x, z :: r)
  end.

#[export] Instance sample_heap_order : HeapOrder := {|
  heap_pop A lt l := match l with [] => None | x :: l => Some (pop_max lt x l) end;
  heap_iter A lt l := l;
|}.

(** A transaction that spends a confirmed output, and a child of it. *)
Definition pool_parent : Transaction := sample_tx [].

Definition pool_child : Transaction :=
  mkTransaction 1 false [mkTXInput (tx_hash pool_parent) 0 [] u32_MAX] [] 0 [].

(** A child that spends two outputs of its parent. *)
Definition pool_twice : Transaction :=
  mkTransaction 1 false [mkTXInput (tx_hash pool_parent) 0 [] u32_MAX; mkTXInput (tx_hash pool_parent) 1 [] u32_MAX] [] 0 [].

Definition pool_0 : Mempool := Mempool_new 1000.

Definition pool_1 : Mempool := (insert (RK:=mem_rocks) 0 sample_db pool_parent (Ok 5) pool_0).2.

Definition pool_2 : Mempool := (insert (RK:=mem_rocks) 0 sample_db pool_child (Ok 6) pool_1).2.

Lemma pool_1_run : insert (RK:=mem_rocks) 0 sample_db pool_parent (Ok 5) pool_0 = (Ok true, pool_1).
Proof. unfold pool_1. apply run_eta. by vm_compute. Qed.

Lemma pool_2_run : insert (RK:=mem_rocks) 0 sample_db pool_child (Ok 6) pool_1 = (Ok true, pool_2).
Proof. unfold pool_2. apply run_eta. by vm_compute. Qed.

Lemma pool_2_reach : pool_reach (RK:=mem_rocks) pool_2.
Proof.
  apply (reach_ok pool_1 0 (OpInsert (RK:=mem_rocks) sample_db pool_child (Ok 6)) tt).
  - apply (reach_ok pool_0 0 (OpInsert (RK:=mem_rocks) sample_db pool_parent (Ok 5)) tt); [apply reach_new|].
    cbn [run_op]. unfold mbind, M_bind. by rewrite pool_1_run.
  - cbn [run_op]. unfold mbind, M_bind. by rewrite pool_2_run.
Qed.

Lemma pool_0_inv : pool_inv pool_0.
Proof. apply Mempool_new_inv. Qed.

Lemma pool_1_inv : pool_inv pool_1.
Proof. eapply insert_keeps; [apply pool_1_run|apply pool_0_inv]. Qed.

Lemma pool_2_inv : pool_inv pool_2.
Proof. eapply insert_keeps; [apply pool_2_run|apply pool_1_inv]. Qed.

Lemma pool_invariant_witness : pool_inv pool_2 ∧ total_bytes pool_2 = pool_bytes pool_2.
Proof. apply (pool_invariant (RK:=mem_rocks) pool_2), pool_2_reach. Defined.

Lemma insert_spec_witness :
  ∃ e, pool_txs pool_1 !! tx_hash pool_child = None ∧ accepts (RK:=mem_rocks) sample_db pool_1 pool_child e ∧
       pool_2 = set_avg (new_average pool_1 e) false (add_entry (tx_hash pool_child) e pool_1) ∧
       total_bytes pool_2 = total_bytes pool_1 + tx_size pool_child ∧ total_bytes pool_2 <= max_size pool_1 ∧
       pool_len pool_2 = pool_len pool_1 + 1 ∧ pool_len pool_2 <= MAX_POOL_TXS.
Proof. apply (insert_spec (RK:=mem_rocks) 0 sample_db pool_child (Ok 6)); [apply pool_1_inv|apply pool_2_run]. Defined.

Lemma insert_refused_witness :
  pool_1 = pool_1 ∧ (Ok false = Ok false → is_Some (pool_txs pool_1 !! tx_hash pool_parent)).
Proof.
  apply (insert_refused (RK:=mem_rocks) 0 sample_db pool_parent (Ok 7) pool_1 (Ok false)); [apply pool_1_inv| |by left].
  rewrite insert_value by apply pool_1_inv. rewrite bool_decide_eq_true_2; [done|].
  apply (bool_decide_unpack _). by vm_compute.
Defined.

(** The same pool, allowed to hold ten bytes. *)
Definition pool_small : Mempool := Mempool_new 10.

Lemma insert_over_limit_hangs_witness :
  (insert (RK:=mem_rocks) 3 sample_db pool_parent (Ok 5) pool_small).1 = Hang ∧
  avg_fee_lock (insert (RK:=mem_rocks) 3 sample_db pool_parent (Ok 5) pool_small).2 = true.
Proof.
  destruct (check_entry (RK:=mem_rocks) sample_db pool_small pool_parent (Ok 5)) as [e| | |] eqn:He.
  2-4: by vm_compute in He.
  apply (insert_over_limit_hangs (RK:=mem_rocks) 3 sample_db pool_parent (Ok 5) pool_small e);
    [apply Mempool_new_inv|done|exact He|]. left. by vm_compute.
Defined.

Lemma remove_spec_witness :
  let m' := (remove (tx_hash pool_child) pool_2).2 in
  pool_inv m' ∧ pool_txs m' ⊆ pool_txs pool_2 ∧ pool_txs m' !! tx_hash pool_child = None ∧
  (∀ id' e, pool_txs m' !! id' = Some e → tx_hash pool_child ∉ depends_on e) ∧
  (is_Some (pool_txs pool_2 !! tx_hash pool_child) → pool_txs m' ≠ ∅).
Proof.
  apply remove_spec; [apply pool_2_inv|]. apply run_eta. by vm_compute.
Defined.

Lemma remove_terminates_witness : (remove (tx_hash pool_parent) pool_2).1 = Panic.
Proof.
  apply (remove_terminates (tx_hash pool_parent) pool_2); [apply pool_2_inv|apply (bool_decide_unpack _); by vm_compute|].
  intros id e He.
  assert (Hall : map_Forall (λ id e, id = tx_hash pool_parent ∨ tx_hash pool_parent ∈ depends_on e) (pool_txs pool_2))
    by (apply (bool_decide_unpack _); by vm_compute).
  by apply Hall.
Defined.

Lemma same_parent_refused_witness : (insert (RK:=mem_rocks) 0 sample_db pool_twice (Ok 6) pool_1).1 ≠ Ok true.
Proof.
  eapply (same_parent_refused (RK:=mem_rocks) 0 sample_db pool_twice (Ok 6) pool_1 0 1);
    [apply pool_1_inv|done|reflexivity|reflexivity|done|apply (bool_decide_unpack _); by vm_compute].
Defined.

Lemma select_txs_fits_witness :
  Forall (pooled pool_2) (select_txs 500 pool_2) ∧ sumZ (tx_size <$> select_txs 500 pool_2) <= 500.
Proof. apply select_txs_fits; [apply pool_2_inv|lia]. Defined.

(** A parent that was selected for its own fee rate is selected again with its
    child. *)
Example select_repeats_parent : select_txs 1000 pool_2 = [pool_parent; pool_parent; pool_child].
Proof. by vm_compute. Qed.

(** A child that only spends unconfirmed outputs cannot pay for its own
    outputs, whatever its parent left to it. *)
Definition pool_spender : Transaction :=
  mkTransaction 1 false [mkTXInput (tx_hash pool_parent) 0 [] u32_MAX] [sample_out 1] 0 [].

Example unconfirmed_value_ignored : check_entry (RK:=mem_rocks) sample_db pool_1 pool_spender (Ok 6) = Err ValueOverflow.
Proof. by vm_compute. Qed.

(** *** The pool as the chain sees it

    The chain shares the pool with the other tasks behind an [RwLock]; [sp_held]
    says that a write guard is alive.  A task that asks for the lock while it
    holds such a guard waits for ever. *)
Section SharedPool.
  Context {CR : Crypto} {CD : Codec}.

Record SharedPool := mkSharedPool {
  sp_pool : Mempool;
  sp_held : bool;
}.

(** [let mut m = self.mempool.write().await; m.remove(..)] *)
Definition shared_remove (id : bytes) : M SharedPool unit := λ p,
  if sp_held p then (Hang, p) else
  let '(r, m) := remove id (sp_pool p) in (r, mkSharedPool m false).

Definition pool_ops : MempoolOps := {| mempool := SharedPool; mempool_remove := shared_remove |}.

End SharedPool.
