(* ===== verification/Miner.v ===== *)
(** * Miner: block templates and the search for a nonce

    [miner_task] of src/111/src/miner.rs.  One round of its loop reads the chain
    and the mempool, builds a template, searches nonces in chunks until a tip
    change interrupts the search, and hands a found block to the chain.

    - [chain_arc] and [mempool_arc] are the chain of Chain.v and the pool of
      Mempool.v that this chain holds (main.rs passes the same objects to both).
    - The [RwLock] around the chain: the model counts the read guards the task
      holds itself.  A task that asks to write while it holds one waits for ever.
      Other tasks are not modelled; the interrupt flag they raise is an oracle.
    - [find_any] over a range of nonces and the racing stores to [found_nonce]:
      some nonce of the range that passes the test, a parameter.
    - Thread counts, hash rate and logging are left out. *)
From S2P Require Import Prelude Errors Types Externals Instances Utils Keys Tx Ledger Store Chain BlockValidation AddBlock Mempool.

#[local] Existing Instance pool_ops | 0.

(** rayon's [find_any], [str::parse::<PublicKey>]. *)
Class MinerEnv {CR : Crypto} := {
  find_any : (Z → bool) → Z → Z → option Z;
  parse_pubkey : string → option PublicKey;
}.

Class MinerEnvOk {CR : Crypto} `{!MinerEnv} := {
  find_any_Some : ∀ p a b n, find_any p a b = Some n → a <= n < b ∧ p n = true;
  find_any_None : ∀ p a b, find_any p a b = None → ∀ n, a <= n < b → p n = false;
}.

(** When the interrupt flag is seen raised: at the head of the loop, in the
    round of a chunk, and when a nonce of that chunk is tried. *)
Record interrupts := mkInterrupts {
  intr_head : nat → bool;
  intr_nonce : nat → Z → bool;
}.

Definition NONCE_CHUNK_SIZE : Z := 1000000.

Section Miner.
  Context {CR : Crypto} {CD : Codec} {RK : Rocks} {RT : RetryPolicy} {HO : HashOrder} {HP : HeapOrder}
    {SR : SupplyReader} {ME : MinerEnv}.

(** ** The template *)

Record template := mkTemplate {
  tp_height : Z;
  tp_bits : Z;
  tp_txs : list Transaction;
  tp_merkle_root : bytes;
  tp_target : Z;
}.

(** [selected.iter().map(|tx| tx.fee(&HashMap::new())).try_fold(..).expect(..)] *)
Definition template_fees (selected : list Transaction) : outcome Z :=
  unwrap (try_sum 64 (tx_fee ∅ <$> selected)).

Definition set_output0 (v : Z) (spk : bytes) (t : Transaction) : Transaction :=
  mkTransaction (tx_version t) (is_anonymous t) (inputs t)
    (match outputs t with o :: outs => mkTXOutput v spk (commitment o) :: outs | [] => [] end)
    (lock_time t) (range_proofs t).

Definition template_coinbase (height fees : Z) (extra : bytes) (pk : PublicKey) (coinbase_sk : string)
    : outcome Transaction :=
  v ← ok_or (checked_add 64 (subsidy height) fees) (Anyhow "Subsidy overflow");
  let pk := default pk (parse_pubkey coinbase_sk) in
  Ok (set_output0 v (p2pkh_script pk) (create_coinbase height extra pk)).

Definition build_template (c : Chain) (extra : bytes) (pk : PublicKey) (coinbase_sk : string) : outcome template :=
  let height := wadd 64 (best_height c) 1 in
  bits ← calculate_next_bits (db c) height;
  let selected := select_txs (MAX_BLOCK_SIZE - 1000) (sp_pool (chain_mempool c)) in
  fees ← template_fees selected;
  coinbase ← template_coinbase height fees extra pk coinbase_sk;
  let txs := coinbase :: selected in
  merkle_root ← compute_merkle_root txs;
  target ← compact_to_target bits;
  Ok (mkTemplate height bits txs merkle_root target).

(** [(now_ms()? / 1000) as u32] *)
Definition now_s (ms : outcome Z) : outcome Z := now ← ms; Ok (wrap 32 (now / 1000)).

(** ** The search *)

(** [pow_engine.hash(&input).unwrap_or([0; 32])] against the target. *)
Definition meets (base : bytes) (target n : Z) : bool :=
  let input := base ++ to_le_bytes 8 n in
  u256_from_hash (default zero_hash (calculate_hash input)) <=? target.

(** The loop over the chunks, from chunk number [k] at [start]; [fuel] bounds
    its rounds. *)
Fixpoint search (fuel : nat) (i : interrupts) (base : bytes) (target : Z) (k : nat) (start : Z)
    : outcome (option Z) :=
  match fuel with
  | O => Hang
  | S fuel =>
      if intr_head i k then Ok None else
      match find_any (λ n, negb (intr_nonce i k n) && meets base target n)
              start (wadd 64 start NONCE_CHUNK_SIZE) with
      | Some n => Ok (Some n)
      | None => search fuel i base target (S k) (wadd 64 start NONCE_CHUNK_SIZE)
      end
  end.

(** ** One round of the task *)

Record MinerState := mkMinerState {
  m_chain : Chain;
  m_reads : nat;
  readonly_attempts : Z;
  block_tx : list Block;
  tip_change_tx : list bytes;
}.

Definition set_attempts (n : Z) (s : MinerState) : MinerState :=
  mkMinerState (m_chain s) (m_reads s) n (block_tx s) (tip_change_tx s).

Definition set_reads (n : nat) (s : MinerState) : MinerState :=
  mkMinerState (m_chain s) n (readonly_attempts s) (block_tx s) (tip_change_tx s).

Definition announce (b : Block) (tip : bytes) (s : MinerState) : MinerState :=
  mkMinerState (m_chain s) (m_reads s) (readonly_attempts s) (block_tx s ++ [b]) (tip_change_tx s ++ [tip]).

(** [chain_arc.read().await]: the value, and one more guard. *)
Definition read_chain : M MinerState Chain := λ s, (Ok (m_chain s), set_reads (S (m_reads s)) s).

(** A read guard goes out of scope. *)
Definition drop_read : M MinerState unit := modify (λ s, set_reads (pred (m_reads s)) s).

(** A body behind [chain_arc.write().await]. *)
Definition write_chain {A} (m : M Chain A) : M MinerState A := λ s,
  if (m_reads s =? 0)%nat then
    let '(r, c) := m (m_chain s) in
    (r, mkMinerState c (m_reads s) (readonly_attempts s) (block_tx s) (tip_change_tx s))
  else (Hang, s).

(** What the outside world answers during a round. *)
Record round_env := mkRoundEnv {
  e_extra : bytes;
  e_intr : interrupts;
  e_template_ms : outcome Z;
  e_block_ms : outcome Z;
  e_clock : clock;
}.

Definition header_base (prev : bytes) (t : template) (ts : Z) : bytes :=
  serialize (mkHeaderWithoutNonce 1 prev (tp_merkle_root t) ts (tp_bits t)).

Definition found_block (prev : bytes) (t : template) (ts n : Z) : Block :=
  mkBlock (mkBlockHeader 1 prev (tp_merkle_root t) ts (tp_bits t) n) (tp_txs t).

(** What follows a successful search. *)
Definition submit (e : round_env) (current_tip : bytes) (b : Block) : M MinerState unit :=
  added ← (if bool_decide (prev_hash (header b) = current_tip)
           then write_chain (add_block 2 (e_clock e) b)
           else write_chain (mret false));
  if added : bool then
    tip ← lift (header_hash (header b));
    modify (announce b tip)
  else mret tt.

(** The chain is in read-only mode: wait, at most thirty times. *)
Definition read_only_round : M MinerState unit :=
  modify (λ s, set_attempts (wadd 8 (readonly_attempts s) 1) s);;
  s ← get;
  if 30 <? readonly_attempts s then lift (bail (Anyhow "Persistent read_only_mode"))
  else drop_read.

Definition mining_round (fuel : nat) (pk : PublicKey) (coinbase_sk : string) (e : round_env) (c : Chain)
    : M MinerState unit :=
  modify (set_attempts 0);;
  t ← lift (build_template c (e_extra e) pk coinbase_sk);
  ts ← lift (now_s (e_template_ms e));
  c2 ← read_chain;
  let current_tip := best_tip c2 in
  drop_read;;
  found ← lift (search fuel (e_intr e) (header_base (best_tip c) t ts) (tp_target t) 0 0);
  match found with
  | Some n =>
      ts ← lift (now_s (e_block_ms e));
      submit e current_tip (found_block (best_tip c) t ts n)
  | None => mret tt
  end.

(** The guard [chain_read] lives until the end of the round. *)
Definition miner_round (fuel : nat) (pk : PublicKey) (coinbase_sk : string) (e : round_env) : M MinerState unit :=
  c ← read_chain;
  if read_only_mode c then read_only_round
  else mining_round fuel pk coinbase_sk e c;; drop_read.

(** [loop { .. }]: the rounds of the given environments. *)
Definition miner_task (fuel : nat) (pk : PublicKey) (coinbase_sk : string) (es : list round_env) : M MinerState unit :=
  mfor (miner_round fuel pk coinbase_sk) es.

End Miner.

(** ** The search: properties *)

Section SearchSpec.
  Context {CR : Crypto} {CRO : CryptoOk} {CD : Codec} {CDO : CodecOk} {ME : MinerEnv} {MEO : MinerEnvOk}.

Lemma search_Some fuel i base target k start n :
  0 <= start → search fuel i base target k start = Ok (Some n) → uint 64 n ∧ meets base target n = true.
Proof.
  revert k start. induction fuel as [|fuel IH]; intros k start Hs H; [done|]. cbn [search] in H.
  destruct (intr_head i k); [done|]. destruct (find_any _ _ _) as [m|] eqn:E.
  - injection H as ->. apply find_any_Some in E as [Hr Hm]. apply andb_true_iff in Hm as [_ Hm].
    split; [|done]. pose proof (wrap_uint 64 (start + NONCE_CHUNK_SIZE) ltac:(lia)).
    unfold wadd, uint in *. lia.
  - apply IH in H; [done|]. by apply (wrap_uint 64).
Qed.

(** Chunks are searched in order: after [j] rounds without success the search
    is at chunk [j]. *)
Lemma search_step fuel i base target j k n0 :
  (∀ k, intr_head i k = false) → (∀ k n, intr_nonce i k n = false) →
  0 <= k → k * NONCE_CHUNK_SIZE <= n0 < (k + Z.of_nat fuel) * NONCE_CHUNK_SIZE →
  (k + Z.of_nat fuel) * NONCE_CHUNK_SIZE < 2 ^ 64 → meets base target n0 = true →
  ∃ n, search fuel i base target j (k * NONCE_CHUNK_SIZE) = Ok (Some n).
Proof.
  intros Hh Hn. revert j k. induction fuel as [|fuel IH]; intros j k Hk Hr Hb Hm; unfold NONCE_CHUNK_SIZE in *; [lia|].
  cbn [search]. rewrite Hh. change NONCE_CHUNK_SIZE with 1000000. rewrite wadd_small by lia.
  destruct (find_any _ _ _) as [n|] eqn:E; [by exists n|].
  replace (k * 1000000 + 1000000) with ((k + 1) * 1000000) by lia.
  apply IH; try lia; [|done].
  destruct (decide ((k + 1) * 1000000 <= n0)) as [|Hlt]; [lia|].
  pose proof (find_any_None _ _ _ E n0 ltac:(lia)) as Hf. cbv beta in Hf. rewrite Hn, Hm in Hf. done.
Qed.

(** The bytes the miner hashes are the serialised header. *)
Lemma header_hash_found prev t ts n :
  header_hash (header (found_block prev t ts n)) =
  ok_or (calculate_hash (header_base prev t ts ++ to_le_bytes 8 n)) (Anyhow "RandomX hash failed").
Proof. unfold header_hash, pow_hash, found_block. cbn [header]. by rewrite serialize_header_fields. Qed.

(** A block built from the nonce the search returns, with the timestamp it
    was searched for, carries the work of the template's target, if RandomX
    hashes its header at all. *)
Theorem mined_block_pow fuel i prev t ts n hash :
  search fuel i (header_base prev t ts) (tp_target t) 0 0 = Ok (Some n) →
  header_hash (header (found_block prev t ts n)) = Ok hash →
  uint 64 n ∧ u256_from_be hash <= tp_target t.
Proof.
  intros [Hn Hm]%search_Some; [|done]. rewrite header_hash_found. intros Hh%ok_or_Ok. split; [done|].
  unfold meets in Hm. rewrite Hh in Hm. by apply Z.leb_le in Hm.
Qed.

(** A machine that fails makes the first chunk a success: the miner takes the
    failed hash for zero. *)
Lemma failing_engine_finds fuel i base target :
  (∀ l, calculate_hash l = None) → intr_head i 0 = false → (∀ n, intr_nonce i 0 n = false) → 0 <= target →
  ∃ n, search (S fuel) i base target 0 0 = Ok (Some n).
Proof.
  intros Hc Hh Hn Ht. cbn [search]. rewrite Hh. destruct (find_any _ _ _) as [n|] eqn:E; [by exists n|].
  pose proof (find_any_None _ _ _ E 0 ltac:(unfold NONCE_CHUNK_SIZE; vm_compute; split; congruence)) as Hf.
  cbv beta in Hf. rewrite Hn in Hf. unfold meets in Hf. rewrite Hc in Hf. cbn [default negb andb] in Hf.
  apply Z.leb_gt in Hf. change (u256_from_hash zero_hash) with 0 in Hf. lia.
Qed.

(** A search that is not interrupted ends, and with a nonce that meets the
    target, as soon as one exists in the chunks that do not overflow: as many
    rounds as there are chunks up to it are enough. *)
Theorem search_terminates i base target n0 :
  (∀ k, intr_head i k = false) → (∀ k n, intr_nonce i k n = false) →
  0 <= n0 < 2 ^ 64 - 2 ^ 64 mod NONCE_CHUNK_SIZE - NONCE_CHUNK_SIZE → meets base target n0 = true →
  ∃ n, search (Z.to_nat (n0 / NONCE_CHUNK_SIZE + 1)) i base target 0 0 = Ok (Some n) ∧
       uint 64 n ∧ meets base target n = true.
Proof.
  intros Hh Hn Hr Hm. unfold NONCE_CHUNK_SIZE in *. change (2 ^ 64 mod 1000000) with 551616 in Hr.
  pose proof (Z.div_mod n0 1000000 ltac:(lia)). pose proof (Z.mod_pos_bound n0 1000000 ltac:(lia)).
  pose proof (Z.div_pos n0 1000000 ltac:(lia) ltac:(lia)).
  destruct (search_step (Z.to_nat (n0 / 1000000 + 1)) i base target 0 0 n0) as [n E]; try done.
  - unfold NONCE_CHUNK_SIZE. lia.
  - unfold NONCE_CHUNK_SIZE. lia.
  - exists n. split; [exact E|]. by apply search_Some in E.
Qed.

End SearchSpec.

(** ** The template: properties *)

Section TemplateSpec.
  Context {CR : Crypto} {CRO : CryptoOk} {CD : Codec} {CDO : CodecOk} {RK : Rocks} {RKO : RocksOk} {RT : RetryPolicy}
    {HO : HashOrder} {HOO : HashOrderOk} {HP : HeapOrder} {SR : SupplyReader} {ME : MinerEnv}.

Lemma template_fees_zero l : Forall wf_tx l → template_fees l = Ok 0.
Proof.
  intros H. unfold template_fees. assert (try_sum 64 (tx_fee ∅ <$> l) = Some 0) as ->; [|done].
  unfold try_sum. induction H as [|t l Ht Hl IH]; [done|]. csimpl. by rewrite tx_fee_empty.
Qed.

(** A template spends the whole next subsidy and not a coin more: the
    coinbase comes first, pays the subsidy of the next height and none of the
    fees of the transactions that follow it, which are those the pool selects;
    its difficulty and Merkle root are those the chain will ask for. *)
Theorem template_spec c extra pk sk t :
  Forall wf_tx (select_txs (MAX_BLOCK_SIZE - 1000) (sp_pool (chain_mempool c))) →
  build_template c extra pk sk = Ok t →
  ∃ cb out,
    tp_txs t = cb :: select_txs (MAX_BLOCK_SIZE - 1000) (sp_pool (chain_mempool c)) ∧
    is_coinbase cb = true ∧ is_anonymous cb = false ∧ outputs cb = [out] ∧ value out = subsidy (tp_height t) ∧
    tp_height t = wadd 64 (best_height c) 1 ∧
    calculate_next_bits (db c) (tp_height t) = Ok (tp_bits t) ∧ compact_to_target (tp_bits t) = Ok (tp_target t) ∧
    compute_merkle_root (tp_txs t) = Ok (tp_merkle_root t).
Proof.
  intros Hwf H. unfold build_template in H. apply bind_Ok in H as (nb & Hb & H).
  rewrite template_fees_zero in H by done. apply bind_Ok in H as (fees & [= <-] & H).
  apply bind_Ok in H as (cb & Hcb & H). apply bind_Ok in H as (root & Hroot & H).
  apply bind_Ok in H as (target & Ht & [= <-]). unfold template_coinbase in Hcb.
  apply bind_Ok in Hcb as (v & Hv%ok_or_Ok%checked_add_Some & [= <-]). destruct Hv as [-> _].
  eexists _, (mkTXOutput _ _ None). cbn [tp_txs tp_height tp_bits tp_target tp_merkle_root]. rewrite Z.add_0_r in *.
  by split_and!.
Qed.

(** C17. What the miner builds and what the chain accepts agree on blocks
    without payments: a block found for a template of an empty selection, whose
    hash meets the target, is accepted, provided its size, its timestamp and a
    checkpoint allow it. *)
Theorem mined_block_accepted c extra pk sk t prev ts n hash median ms now :
  select_txs (MAX_BLOCK_SIZE - 1000) (sp_pool (chain_mempool c)) = [] → 0 <= best_height c < 2 ^ 64 - 1 →
  build_template c extra pk sk = Ok t →
  let b := found_block prev t ts n in
  header_hash (header b) = Ok hash → u256_from_be hash <= tp_target t →
  block_size b <= MAX_BLOCK_SIZE →
  pool_get (db c) = Ok tt → cf_handle (db c) "utxo" = true → cf_handle (db c) "anonymous" = true →
  get_median_timestamp (db c) (best_height c) = Ok median → ms = Ok now →
  median < ts <= wadd 32 (wrap 32 (now / 1000)) 7200 →
  (∀ h, checkpoint_hashes c !! (best_height c + 1) = Some h → hash = h) →
  (** the proof libraries accept the empty batch and the neutral commitment *)
  is_Some (batch_verify []) → Point_eqb (pc_commit 0 0) (Point_add (pc_commit 0 0) (pc_commit 0 0)) = true →
  validate_block c b (best_height c + 1) ms = Ok tt.
Proof.
  intros Hsel Hh H b Hhash Hpow Hsize Hpool Hu Ha Hmed -> Hts Hcp Hbv Hpt.
  unfold build_template in H. rewrite Hsel in H. rewrite wadd_small in H by lia.
  apply bind_Ok in H as (nb & Hb & H). apply bind_Ok in H as (fees & [= <-] & H).
  apply bind_Ok in H as (cb & Hcb & H). apply bind_Ok in H as (root & Hroot & H).
  apply bind_Ok in H as (target & Ht & [= <-]). unfold template_coinbase in Hcb.
  apply bind_Ok in Hcb as (v & Hv%ok_or_Ok & [= <-]).
  cbn [tp_target] in Hpow. subst b. unfold found_block in *. cbn [tp_merkle_root tp_bits tp_txs] in *.
  unfold validate_block. cbn [header txs bits tail merkle_root timestamp] in *.
  rewrite (proj2 (Z.ltb_ge _ _) Hsize), Hhash. cbn [negb ensure mbind outcome_bind]. rewrite Ht.
  cbn [mbind outcome_bind]. rewrite (proj2 (Z.ltb_ge _ _) Hpow), Hb. cbn [negb ensure mbind outcome_bind].
  rewrite Z.eqb_refl, Hroot. cbn [ensure mbind outcome_bind]. rewrite bool_decide_eq_true_2 by done.
  cbn [ensure mbind outcome_bind]. change (is_coinbase (set_output0 _ _ _)) with true.
  cbn [ensure mbind outcome_bind]. unfold require_cf. rewrite Hpool, Hu, Ha.
  cbn [ensure mbind outcome_bind load_inputs for_each fmap list_fmap try_sum try_sum_from ok_or].
  apply checked_add_Some in Hv as [-> Hv]. rewrite (proj2 (checked_add_Some 64 _ 0 _)) by (split; [done|lia]).
  cbn [ok_or mbind outcome_bind]. unfold check_coinbase_value. cbn [txs set_output0 outputs create_coinbase value].
  rewrite Z.eqb_refl. cbn [ensure mbind outcome_bind].
  assert (check_commitments ∅ (mkBlock (mkBlockHeader 1 prev root ts nb n)
    [set_output0 (subsidy (best_height c + 1) + 0) (p2pkh_script (default pk (parse_pubkey sk)))
       (create_coinbase (best_height c + 1) extra (default pk (parse_pubkey sk)))]) 0 = Ok tt) as E.
  { unfold check_commitments, collect_tx. cbn. rewrite bool_decide_eq_true_2 by done. cbn [ensure mbind outcome_bind].
    unfold sum_points. cbn. by rewrite Hpt. }
  cbn [anon_outputs]. rewrite E. cbn [mbind outcome_bind].
  rewrite wsub_small by lia. replace (best_height c + 1 - 1) with (best_height c) by lia. rewrite Hmed.
  cbn [mbind outcome_bind]. rewrite (proj2 (Z.leb_gt ts median)) by lia.
  rewrite (proj2 (Z.ltb_ge _ ts)) by lia. cbn [orb negb ensure mbind outcome_bind].
  destruct (checkpoint_hashes c !! (best_height c + 1)) as [h|] eqn:Ec; [|done].
  by rewrite (Hcp h), bool_decide_eq_true_2.
Qed.

(** ** The task: properties *)

(** What a round leaves alone. *)
Definition untouched (s0 s : MinerState) : Prop :=
  m_chain s = m_chain s0 ∧ block_tx s = block_tx s0 ∧ tip_change_tx s = tip_change_tx s0.

Lemma write_chain_locked {A} (m : M Chain A) s : m_reads s ≠ 0%nat → write_chain m s = (Hang, s).
Proof. intros H. unfold write_chain. by rewrite (proj2 (Nat.eqb_neq _ _) H). Qed.

(** Whatever happens, a mining round that starts under a read guard only resets
    the counter; when it has found a block it waits for ever. *)
Lemma mining_round_value fuel pk sk e c s :
  m_reads s ≠ 0%nat →
  (mining_round fuel pk sk e c s).2 = set_attempts 0 s ∧
  (∀ t ts n now, build_template c (e_extra e) pk sk = Ok t → now_s (e_template_ms e) = Ok ts →
     search fuel (e_intr e) (header_base (best_tip c) t ts) (tp_target t) 0 0 = Ok (Some n) →
     e_block_ms e = Ok now → (mining_round fuel pk sk e c s).1 = Hang).
Proof.
  intros Hr. unfold mining_round, mbind, M_bind, modify, lift, read_chain, drop_read, modify.
  destruct (build_template _ _ _ _) as [t| | |]; try by (split; [done|intros *; discriminate]).
  destruct (now_s (e_template_ms e)) as [ts| | |]; try by (split; [done|intros *; discriminate]).
  assert (Hs : set_reads (pred (m_reads (set_reads (S (m_reads (set_attempts 0 s))) (set_attempts 0 s))))
    (set_reads (S (m_reads (set_attempts 0 s))) (set_attempts 0 s)) = set_attempts 0 s) by (by destruct s).
  cbv beta iota. rewrite Hs.
  destruct (search _ _ _ _ _ _) as [[n|]| | |] eqn:Hse; try by (split; [done|intros * _ [= <-]; congruence]).
  2-5: split; [done|intros t' ts' n' now [= <-] [= <-] Hc _; congruence].
  destruct (e_block_ms e) as [now| | |] eqn:Hms; cbn [now_s mbind outcome_bind];
    try by (split; [done|intros * _ _ _ [=]]).
  unfold submit. unfold mbind, M_bind.
  assert (m_reads (set_attempts 0 s) ≠ 0%nat) as Hr' by (by destruct s).
  case_bool_decide; rewrite write_chain_locked by done; (split; [done|by intros]).
Qed.

Lemma miner_round_value fuel pk sk e s :
  untouched s (miner_round fuel pk sk e s).2.
Proof.
  unfold miner_round, mbind, M_bind, read_chain.
  destruct (read_only_mode (m_chain s)).
  - unfold read_only_round, mbind, M_bind, modify, get, lift, drop_read, modify. by destruct (30 <? _).
  - destruct (mining_round_value fuel pk sk e (m_chain s) (set_reads (S (m_reads s)) s)) as [E _]; [done|].
    destruct (mining_round _ _ _ _ _ _) as [[[]| | |] s1]; cbn in E; subst s1; done.
Qed.

(** The miner never hands a block to the chain: its task leaves the chain
    as it is and announces nothing, and the round that finds a block never ends,
    because it asks for the write lock while its read guard [chain_read] is
    still alive. *)
Theorem miner_never_submits fuel pk sk es s :
  untouched s (miner_task fuel pk sk es s).2 ∧
  (∀ e es' t ts n now, es = e :: es' → read_only_mode (m_chain s) = false →
     build_template (m_chain s) (e_extra e) pk sk = Ok t → now_s (e_template_ms e) = Ok ts →
     search fuel (e_intr e) (header_base (best_tip (m_chain s)) t ts) (tp_target t) 0 0 = Ok (Some n) →
     e_block_ms e = Ok now → (miner_task fuel pk sk es s).1 = Hang).
Proof.
  split.
  - apply (preserves_mfor (untouched s)); [|done]. intros e s1 (H1 & H2 & H3).
    destruct (miner_round_value fuel pk sk e s1) as (E1 & E2 & E3). unfold untouched. by rewrite E1, E2, E3.
  - intros e es' t ts n now -> Hro Ht Hts Hse Hms. unfold miner_task. cbn [mfor]. unfold mbind at 1, M_bind.
    unfold miner_round, mbind, M_bind, read_chain. rewrite Hro.
    destruct (mining_round_value fuel pk sk e (m_chain s) (set_reads (S (m_reads s)) s)) as [_ E]; [done|].
    specialize (E _ _ _ _ Ht Hts Hse Hms). by destruct (mining_round _ _ _ _ _ _) as [[]].
Qed.

Lemma read_only_rounds fuel pk sk es s :
  read_only_mode (m_chain s) = true → 0 <= readonly_attempts s <= 30 →
  (readonly_attempts s + Z.of_nat (length es) <= 30 →
     miner_task fuel pk sk es s = (Ok tt, set_attempts (readonly_attempts s + Z.of_nat (length es)) s)) ∧
  (30 < readonly_attempts s + Z.of_nat (length es) →
     (miner_task fuel pk sk es s).1 = Err (Anyhow "Persistent read_only_mode")).
Proof.
  intros Hro. revert s Hro. induction es as [|e es IH]; intros s Hro Ha.
  { split; [|cbn; lia]. intros _. unfold miner_task. cbn. rewrite Z.add_0_r. by destruct s. }
  unfold miner_task in *. cbn [mfor length]. unfold mbind, M_bind.
  assert (Hround : miner_round fuel pk sk e s =
    if 30 <? readonly_attempts s + 1 then (Err (Anyhow "Persistent read_only_mode"),
      set_attempts (readonly_attempts s + 1) (set_reads (S (m_reads s)) s))
    else (Ok tt, set_attempts (readonly_attempts s + 1) s)).
  { unfold miner_round, mbind, M_bind, read_chain. rewrite Hro.
    unfold read_only_round, mbind, M_bind, modify, get, lift, drop_read, modify.
    cbn [set_reads readonly_attempts set_attempts]. rewrite wadd_small by lia. destruct s. cbn.
    by destruct (30 <? _). }
  rewrite Hround. destruct (Z.ltb_spec 30 (readonly_attempts s + 1)) as [Hlt|Hge]; [split; [lia|done]|].
  destruct (IH (set_attempts (readonly_attempts s + 1) s)) as [I1 I2]; [done|cbn; lia|].
  cbn [set_attempts readonly_attempts] in I1, I2. split; intros H.
  - rewrite I1 by lia. f_equal. destruct s. unfold set_attempts. cbn. f_equal. lia.
  - apply I2. lia.
Qed.

(** A chain that stays in read-only mode makes the task wait for thirty
    rounds and fail in the next one. *)
Theorem read_only_gives_up fuel pk sk es s :
  read_only_mode (m_chain s) = true → readonly_attempts s = 0 →
  ((length es ≤ 30)%nat → miner_task fuel pk sk es s = (Ok tt, set_attempts (Z.of_nat (length es)) s)) ∧
  ((30 < length es)%nat → (miner_task fuel pk sk es s).1 = Err (Anyhow "Persistent read_only_mode")).
Proof.
  intros Hro Ha. destruct (read_only_rounds fuel pk sk es s Hro ltac:(lia)) as [H1 H2]. rewrite Ha in *.
  split; intros H; [apply H1|apply H2]; lia.
Qed.

End TemplateSpec.

(** ** Witnesses *)

(** The first match of a range of [2 ^ d] numbers, by halves. *)
Fixpoint find_in (p : Z → bool) (d : nat) (a : Z) : option Z :=
  match d with
  | O => if p a then Some a else None
  | S d => match find_in p d a with Some n => Some n | None => find_in p d (a + 2 ^ Z.of_nat d) end
  end.

Lemma find_in_Some p d a n : find_in p d a = Some n → a <= n ∧ p n = true.
Proof.
  revert a. induction d as [|d IH]; intros a; cbn [find_in].
  { destruct (p a) eqn:E; [|done]. intros [= <-]. split; [lia|done]. }
  destruct (find_in p d a) eqn:E; [intros [= <-]; by apply IH|]. intros [H1 H2]%IH. split; [|done].
  pose proof (Z.pow_nonneg 2 (Z.of_nat d)). lia.
Qed.

Lemma find_in_None p d a : find_in p d a = None → ∀ n, a <= n < a + 2 ^ Z.of_nat d → p n = false.
Proof.
  revert a. induction d as [|d IH]; intros a; cbn [find_in].
  { destruct (p a) eqn:E; [done|]. intros _ n Hn. by replace n with a by (cbn in Hn; lia). }
  destruct (find_in p d a) eqn:E; [done|]. intros E2 n Hn.
  rewrite Nat2Z.inj_succ, Z.pow_succ_r in Hn by lia.
  destruct (decide (n < a + 2 ^ Z.of_nat d)); [apply (IH a E)|apply (IH _ E2)]; lia.
Qed.

#[export] Instance sample_miner_env : MinerEnv := {|
  find_any p a b := find_in (λ n, (n <? b) && p n) (Z.to_nat (Z.log2_up (b - a))) a;
  parse_pubkey _ := None;
|}.

#[export] Instance sample_miner_env_ok : MinerEnvOk.
Proof.
  split.
  - intros p a b n [H1 H2]%find_in_Some. apply andb_true_iff in H2 as [H2%Z.ltb_lt H3]. split; [lia|done].
  - intros p a b H n Hn. pose proof (find_in_None _ _ _ H n) as Hf. rewrite Z2Nat.id in Hf by apply Z.log2_up_nonneg.
    pose proof (Z.log2_up_le_pow2 (b - a) (Z.log2_up (b - a)) ltac:(lia)) as [_ Hle]. specialize (Hle (Z.le_refl _)).
    specialize (Hf ltac:(lia)). cbv beta in Hf. by rewrite (proj2 (Z.ltb_lt n b)) in Hf by lia.
Defined.

(** The chain after its genesis, with an empty pool. *)
Definition miner_chain : Chain (RK:=mem_rocks) :=
  fresh_chain (RK:=mem_rocks) new_chain.2 (best_tip new_chain_value) 0 (genesis_hash new_chain_value) ∅ (mkSharedPool pool_0 false).

Definition no_interrupts : interrupts := mkInterrupts (λ _, false) (λ _ _, false).

Definition sample_env : round_env :=
  mkRoundEnv [1; 2; 3; 4; 5; 6; 7; 8] no_interrupts (Ok 1732061000000) (Ok 1732061000000) sample_clock.

Definition miner_state (readonly : bool) : MinerState (RK:=mem_rocks) :=
  mkMinerState (set_read_only readonly miner_chain) 0 0 [] [].

Definition sample_template : template :=
  match build_template miner_chain (e_extra sample_env) sample_key ""%string with
  | Ok t => t
  | _ => mkTemplate 0 0 [] [] 0
  end.

Lemma sample_template_built : build_template miner_chain (e_extra sample_env) sample_key ""%string = Ok sample_template.
Proof.
  unfold sample_template. assert (match build_template miner_chain (e_extra sample_env) sample_key ""%string with
    Ok _ => true | _ => false end = true) by by vm_compute. by destruct (build_template _ _ _ _).
Qed.

Lemma sample_search :
  search 1 no_interrupts (header_base (best_tip miner_chain) sample_template 1732061000) (tp_target sample_template) 0 0
  = Ok (Some 0).
Proof. by vm_compute. Qed.

Definition sample_found : Block := found_block (best_tip miner_chain) sample_template 1732061000 0.

Lemma mined_block_pow_witness : uint 64 0 ∧ u256_from_be (block_hash sample_found) <= tp_target sample_template.
Proof.
  apply (mined_block_pow 1 no_interrupts (best_tip miner_chain) sample_template 1732061000 0 (block_hash sample_found));
    [apply sample_search|by vm_compute].
Defined.

Lemma search_terminates_witness :
  ∃ n, search 1 no_interrupts (header_base (best_tip miner_chain) sample_template 1732061000) (tp_target sample_template) 0 0
       = Ok (Some n) ∧ uint 64 n ∧
       meets (header_base (best_tip miner_chain) sample_template 1732061000) (tp_target sample_template) n = true.
Proof.
  apply (search_terminates no_interrupts (header_base (best_tip miner_chain) sample_template 1732061000)
           (tp_target sample_template) 7); [done|done|by vm_compute|by vm_compute].
Defined.

Lemma sample_selection : select_txs (MAX_BLOCK_SIZE - 1000) (sp_pool (chain_mempool miner_chain)) = [].
Proof. by vm_compute. Qed.

Lemma template_spec_witness :
  ∃ cb out, tp_txs sample_template = cb :: select_txs (MAX_BLOCK_SIZE - 1000) (sp_pool (chain_mempool miner_chain)) ∧ is_coinbase cb = true ∧
    outputs cb = [out] ∧ value out = subsidy (tp_height sample_template).
Proof.
  destruct (template_spec (CR:=sample_crypto) (RK:=mem_rocks) miner_chain (e_extra sample_env) sample_key ""%string sample_template)
    as (cb & out & H1 & H2 & _ & H3 & H4 & _); [rewrite sample_selection; constructor|apply sample_template_built|].
  exists cb, out. exact (conj H1 (conj H2 (conj H3 H4))).
Defined.

Lemma mined_block_accepted_witness : validate_block miner_chain sample_found 1 (Ok 1732061000000) = Ok tt.
Proof.
  apply (mined_block_accepted (CR:=sample_crypto) (RK:=mem_rocks) miner_chain (e_extra sample_env) sample_key ""%string sample_template
    (best_tip miner_chain) 1732061000 0 (block_hash sample_found) 0 (Ok 1732061000000) 1732061000000);
    [apply sample_selection|by vm_compute|apply sample_template_built|by vm_compute..|by eexists|by vm_compute].
Defined.

Lemma miner_never_submits_witness :
  (miner_task 1 sample_key ""%string [sample_env] (miner_state false)).1 = Hang.
Proof.
  destruct (miner_never_submits (CR:=sample_crypto) (RK:=mem_rocks) 1 sample_key ""%string [sample_env] (miner_state false)) as [_ H].
  apply (H sample_env [] sample_template 1732061000 0 1732061000000);
    [done|done|apply sample_template_built|done|apply sample_search|done].
Defined.

Lemma read_only_gives_up_witness :
  (miner_task 1 sample_key ""%string (repeat sample_env 31) (miner_state true)).1 = Err (Anyhow "Persistent read_only_mode").
Proof.
  apply (read_only_gives_up (CR:=sample_crypto) (RK:=mem_rocks) 1 sample_key ""%string (repeat sample_env 31) (miner_state true));
    [done|done|by vm_compute; lia].
Defined.

(** The template of a pool with a payment: the coinbase leaves the fee out. *)
Definition fee_chain : Chain (RK:=mem_rocks) := set_mempool (mkSharedPool pool_1 false : mempool) miner_chain.

Example template_ignores_fees :
  (λ t, (length (tp_txs t), value <$> (tp_txs t !! 0%nat ≫= λ cb, outputs cb !! 0%nat))) <$>
    build_template fee_chain (e_extra sample_env) sample_key ""%string
  = Ok (2%nat, Some (subsidy 1)).
Proof. by vm_compute. Qed.
