(* ===== verification/Net.v ===== *)
(** * Net: peers, handshake, messages, bans

    [Peer] and [PeerManager] of src/111/src/net.rs.

    - An [Arc<Peer>] is a number; the peers themselves are in a store, so that
      the maps by address and by identity share them.
    - What a peer is sent ([write_tx]) is the list of messages the code hands to
      its channel, and the code goes on as if each were taken.  As it stands the
      channel has no receiving half (net.rs:188), so none of them leaves the
      node: Serve.v models that.
    - [peers_written] says that a write guard of the map of peers is alive: a
      task that asks for the map while it holds one waits for ever.  The guard
      of the mempool is the one of Mempool.v.
    - TLS, the timeouts and the bytes read are inputs of the operations; the
      rate limiters only delay a message; the heartbeat and the sending task
      have no effect on the state.
    - The chain is the one of Chain.v, with the pool of Mempool.v. *)
From stdpp Require Import pretty.
From S2P Require Import Prelude Errors Types Externals Instances Utils Keys Tx Ledger Store Chain BlockValidation AddBlock Mempool.

#[local] Existing Instance pool_ops | 0.

Inductive IpAddr :=
  | V4 (octets : bytes)
  | V6 (octets : bytes).

#[export] Instance IpAddr_eq_dec : EqDecision IpAddr.
Proof. solve_decision. Defined.

#[export] Program Instance IpAddr_countable : Countable IpAddr :=
  inj_countable' (λ ip, match ip with V4 o => inl o | V6 o => inr o end)
    (λ s, match s with inl o => V4 o | inr o => V6 o end) _.
Next Obligation. by intros []. Qed.

(** ed25519-dalek, libp2p, snappy, and the bincode of two message types.  A
    [PeerId] is represented by its bytes. *)
Class Wire := {
  EdKey : Type;
  #[global] EdKey_eq_dec :: EqDecision EdKey;
  EdKey_from_bytes : bytes → option EdKey;
  EdSig : Type;
  EdSig_from_bytes : bytes → option EdSig;
  ed_verify : EdKey → bytes → EdSig → bool;
  EdKeypair : Type;
  ed_public : EdKeypair → bytes;
  ed_sign : EdKeypair → bytes → bytes;
  PeerId_from_bytes : bytes → option bytes;
  snappy_compress : bytes → option bytes;
  snappy_uncompress : bytes → option bytes;
  ip_display : IpAddr → string;
  (** [serialize(&n)] for a [u32] *)
  serialize_u32 : Z → bytes;
  (** [serialize(&(kind, now_ms, addresses))] *)
  serialize_addr_msg : Z → Z → list string → bytes;
}.

Class WireOk `{!Wire} :=
  snappy_round_trip : ∀ m c, snappy_compress m = Some c → snappy_uncompress c = Some m.

Definition VERSION : Z := 1.
Definition MIN_VERSION : Z := 1.
Definition MAX_MESSAGE_SIZE : Z := 4 * 1024 * 1024.
Definition SIGNATURE_CACHE_TTL_MS : Z := 3600000.
Definition MAX_PEERS_PER_SUBNET : nat := 2.
Definition MSG_GETADDR : Z := 9.
Definition MSG_ADDR : Z := 10.
Definition MSG_PONG : Z := 12.
Definition MSG_HEADERS : Z := 8.
Definition MSG_TX : Z := 5.
Definition MSG_BLOCK : Z := 6.

Record Peer := mkPeer {
  write_tx : list bytes;
  reputation : Z;
  version : Z;
  peer_height : Z;
  peer_id : bytes;
  score : Z;
}.

(** [Arc::new(Peer { .. })] in [add_peer] *)
Definition Peer_new (id : bytes) : Peer := mkPeer [] 0 0 0 id 100.

Definition send_to (msg : bytes) (p : Peer) : Peer :=
  mkPeer (write_tx p ++ [msg]) (reputation p) (version p) (peer_height p) (peer_id p) (score p).

Definition set_reputation (r : Z) (p : Peer) : Peer :=
  mkPeer (write_tx p) r (version p) (peer_height p) (peer_id p) (score p).

Definition set_version (v : Z) (p : Peer) : Peer :=
  mkPeer (write_tx p) (reputation p) v (peer_height p) (peer_id p) (score p).

(** [penalize]: the new peer, and whether [ban] is called; [fetch_sub] answers
    the score before the subtraction. *)
Definition penalize (cost : Z) (p : Peer) : bool * Peer :=
  let new_score := score p in
  (new_score <=? 0,
   mkPeer (write_tx p) (reputation p) (version p) (peer_height p) (peer_id p) (iwrap 32 (score p - cost))).

(** [AppConfig]: the two fields used here. *)
Record NetConfig := mkNetConfig {
  max_peers : Z;
  p2p_port : Z;
}.

(** [HashMap::retain(|_, expiry| now < *expiry)] *)
Definition retain_live (now : Z) (b : gmap IpAddr Z) : gmap IpAddr Z := filter (λ e, now < e.2) b.

(** The last octet (the last two of an IPv6 address) set to zero. *)
Definition subnet_of (ip : IpAddr) : IpAddr :=
  match ip with
  | V4 o => V4 (take 3 o ++ [0])
  | V6 o => V6 (take 14 o ++ [0; 0])
  end.

(** [if !known.contains(&addr) { known.push(addr) }] over the addresses *)
Definition add_known (known addrs : list string) : list string :=
  foldl (λ k a, if bool_decide (a ∈ k) then k else k ++ [a]) known addrs.

Section Net.
  Context {CR : Crypto} {CD : Codec} {RK : Rocks} {RT : RetryPolicy} {HO : HashOrder} {HP : HeapOrder}
    {SR : SupplyReader} {WR : Wire}.

Record PeerManager := mkPeerManager {
  arcs : gmap nat Peer;
  peers : gmap IpAddr (list nat);
  peers_by_id : gmap bytes (IpAddr * nat);
  bans : gmap IpAddr Z;
  bans_persistent : gmap IpAddr Z;
  known_peers : list string;
  pending_inv : gmap bytes Z;
  signature_cache : gmap bytes (EdKey * Z);
  inv_tx : list (Z * bytes);
  pm_chain : Chain;
  peers_written : bool;
}.

(** [PeerManager::new]: the seed nodes are known. *)
Definition PeerManager_new (seeds : list string) (c : Chain) : PeerManager :=
  mkPeerManager ∅ ∅ ∅ ∅ ∅ seeds ∅ ∅ [] c false.

Definition set_arcs (a : gmap nat Peer) (s : PeerManager) : PeerManager :=
  mkPeerManager a (peers s) (peers_by_id s) (bans s) (bans_persistent s) (known_peers s) (pending_inv s)
    (signature_cache s) (inv_tx s) (pm_chain s) (peers_written s).

Definition set_peers (p : gmap IpAddr (list nat)) (s : PeerManager) : PeerManager :=
  mkPeerManager (arcs s) p (peers_by_id s) (bans s) (bans_persistent s) (known_peers s) (pending_inv s)
    (signature_cache s) (inv_tx s) (pm_chain s) (peers_written s).

Definition set_peers_by_id (p : gmap bytes (IpAddr * nat)) (s : PeerManager) : PeerManager :=
  mkPeerManager (arcs s) (peers s) p (bans s) (bans_persistent s) (known_peers s) (pending_inv s)
    (signature_cache s) (inv_tx s) (pm_chain s) (peers_written s).

Definition set_bans (b bp : gmap IpAddr Z) (s : PeerManager) : PeerManager :=
  mkPeerManager (arcs s) (peers s) (peers_by_id s) b bp (known_peers s) (pending_inv s)
    (signature_cache s) (inv_tx s) (pm_chain s) (peers_written s).

Definition set_known (k : list string) (s : PeerManager) : PeerManager :=
  mkPeerManager (arcs s) (peers s) (peers_by_id s) (bans s) (bans_persistent s) k (pending_inv s)
    (signature_cache s) (inv_tx s) (pm_chain s) (peers_written s).

Definition set_pending_inv (p : gmap bytes Z) (s : PeerManager) : PeerManager :=
  mkPeerManager (arcs s) (peers s) (peers_by_id s) (bans s) (bans_persistent s) (known_peers s) p
    (signature_cache s) (inv_tx s) (pm_chain s) (peers_written s).

Definition set_cache (c : gmap bytes (EdKey * Z)) (s : PeerManager) : PeerManager :=
  mkPeerManager (arcs s) (peers s) (peers_by_id s) (bans s) (bans_persistent s) (known_peers s) (pending_inv s)
    c (inv_tx s) (pm_chain s) (peers_written s).

Definition set_inv_tx (q : list (Z * bytes)) (s : PeerManager) : PeerManager :=
  mkPeerManager (arcs s) (peers s) (peers_by_id s) (bans s) (bans_persistent s) (known_peers s) (pending_inv s)
    (signature_cache s) q (pm_chain s) (peers_written s).

Definition set_chain (c : Chain) (s : PeerManager) : PeerManager :=
  mkPeerManager (arcs s) (peers s) (peers_by_id s) (bans s) (bans_persistent s) (known_peers s) (pending_inv s)
    (signature_cache s) (inv_tx s) c (peers_written s).

Definition set_written (b : bool) (s : PeerManager) : PeerManager :=
  mkPeerManager (arcs s) (peers s) (peers_by_id s) (bans s) (bans_persistent s) (known_peers s) (pending_inv s)
    (signature_cache s) (inv_tx s) (pm_chain s) b.

(** ** Locks, peers, the chain *)

(** [self.peers.read().await] *)
Definition read_peers : M PeerManager (gmap IpAddr (list nat)) := λ s,
  if peers_written s then (Hang, s) else (Ok (peers s), s).

(** [self.peers.write().await], and the end of its guard. *)
Definition lock_peers : M PeerManager unit := λ s,
  if peers_written s then (Hang, s) else (Ok tt, set_written true s).

Definition unlock_peers : M PeerManager unit := modify (set_written false).

Definition on_peer (f : Peer → Peer) (p : nat) : M PeerManager unit :=
  modify (λ s, set_arcs (alter f p (arcs s)) s).

(** [peer.write_tx.send(msg).await.ok()] *)
Definition send (msg : bytes) (p : nat) : M PeerManager unit := on_peer (send_to msg) p.

(** The operations of other parts of the node, on the shared chain. *)
Definition on_chain {A} (m : M Chain A) : M PeerManager A := λ s,
  let '(r, c) := m (pm_chain s) in (r, set_chain c s).

(** A body under [self.mempool.write().await]. *)
Definition hold_pool {A} (m : M Chain A) : M Chain A := λ c,
  if sp_held (chain_mempool c) then (Hang, c) else
  match m (set_mempool (mkSharedPool (sp_pool (chain_mempool c)) true : mempool) c) with
  | (Hang, c') => (Hang, c')
  | (r, c') => (r, set_mempool (mkSharedPool (sp_pool (chain_mempool c')) false : mempool) c')
  end.

(** [mempool.insert(tx, &chain)]: the pool is changed in place. *)
Definition pool_insert (t : Transaction) (ms : outcome Z) : M Chain bool := λ c,
  let '(r, m) := insert 1 (db c) t ms (sp_pool (chain_mempool c)) in
  (r, set_mempool (mkSharedPool m (sp_held (chain_mempool c)) : mempool) c).

(** ** Broadcast, reputation, bans *)

Definition broadcast (msg : bytes) : M PeerManager unit :=
  ps ← read_peers;
  mfor (λ e, mfor (send msg) e.2) (hash_iter ps).

(** The instants of one call, in seconds: of the monotonic clock, and since the
    epoch. *)
Record moment := mkMoment {
  m_instant : Z;
  m_unix : Z;
}.

Definition BAN_SECONDS : Z := 72 * 3600.

Definition ban_key (ip : IpAddr) : bytes := bstr ("ban:" ++ ip_display ip)%string.

(** [let _ = conn.put(..)], when the pool gives a connection. *)
Definition put_ban (ip : IpAddr) (expiry : Z) : M Chain unit := λ c,
  match pool_get (db c) with
  | Ok _ => (Ok tt, set_db (write (db c) [Put (ban_key ip) (to_be_bytes 8 expiry)]).2 c)
  | _ => (Ok tt, c)
  end.

Definition remove_peers (ip : IpAddr) : M PeerManager unit :=
  lock_peers;;
  modify (λ s, set_peers (delete ip (peers s)) s);;
  unlock_peers.

Definition ban_ip (ip : IpAddr) (duration : Z) (now : moment) : M PeerManager unit :=
  modify (λ s, set_bans (<[ip := m_instant now + duration]> (bans s)) (bans_persistent s) s);;
  let expiry := wadd 64 (m_unix now) duration in
  modify (λ s, set_bans (bans s) (<[ip := m_instant now + duration]> (bans_persistent s)) s);;
  on_chain (put_ban ip expiry);;
  remove_peers ip.

Definition decrease_reputation (p : nat) (ip : IpAddr) (now : moment) : M PeerManager unit :=
  on_peer (λ q, set_reputation (iwrap 8 (reputation q - 10)) q) p;;
  s ← get;
  if default 0 (reputation <$> arcs s !! p) <=? -50 then ban_ip ip BAN_SECONDS now else mret tt.

Definition is_banned (ip : IpAddr) (now : Z) : M PeerManager bool :=
  modify (λ s, set_bans (retain_live now (bans s)) (bans_persistent s) s);;
  modify (λ s, set_bans (bans s) (retain_live now (bans_persistent s)) s);;
  s ← get;
  mret (bool_decide (is_Some (bans s !! ip)) || bool_decide (is_Some (bans_persistent s !! ip))).

(** [vec.retain(|p| !Arc::ptr_eq(p, peer))], and the entry is removed when
    nothing is left. *)
Definition drop_conn (ip : IpAddr) (p : nat) (m : gmap IpAddr (list nat)) : gmap IpAddr (list nat) :=
  match m !! ip with
  | Some l => let l := filter (λ q, q ≠ p) l in if bool_decide (l = []) then delete ip m else <[ip := l]> m
  | None => m
  end.

(** The write guard [peers] lives until the end. *)
Definition remove_peer (ip : IpAddr) (p : nat) : M PeerManager unit :=
  lock_peers;;
  modify (λ s, set_peers (drop_conn ip p (peers s)) s);;
  s ← get;
  modify (λ s', set_peers_by_id (delete (default [] (peer_id <$> arcs s !! p)) (peers_by_id s')) s');;
  read_peers;;
  unlock_peers.

(** ** Handshake *)

(** What a handshake reads: the clock at its readings, the nonce, and what
    [read_exact] fills the buffer with ([None]: the timeout, or an error). *)
Record hs_env := mkHsEnv {
  hs_ms : outcome Z;
  hs_nonce : bytes;
  hs_recv : nat → option bytes;
  hs_cache_ms : outcome Z;
  hs_insert_ms : outcome Z;
}.

(** The bytes both sides sign, without the key: version, genesis hash,
    timestamp (a [u128]) and nonce. *)
Definition handshake_msg (genesis : bytes) (timestamp : Z) (nonce : bytes) : bytes :=
  serialize_u32 VERSION ++ genesis ++ to_le_bytes 16 timestamp ++ nonce.

(** The key was verified less than an hour ago. *)
Definition cache_hit (he : hs_env) (recv_pub : EdKey) (entry : option (EdKey * Z)) : outcome bool :=
  match entry with
  | Some (cached_pub, cache_time) =>
      if bool_decide (recv_pub = cached_pub) then
        now ← hs_cache_ms he;
        Ok (wsub 128 now cache_time <? SIGNATURE_CACHE_TTL_MS)
      else Ok false
  | None => Ok false
  end.

(** [recv_nonce.zeroize_mut()] *)
Definition zeroize (l : bytes) : bytes := (λ _, 0) <$> l.

(** From [PublicKey::from_bytes] on, for a buffer that begins with a message of
    [msg_len] bytes. *)
Definition handshake_check (he : hs_env) (genesis : bytes) (timestamp : Z) (msg_len : nat) (buf : bytes) (p : nat)
    : M PeerManager unit :=
  recv_pub_bytes ← lift (slice msg_len (msg_len + 32) buf);
  recv_pub ← lift (ok_or (EdKey_from_bytes recv_pub_bytes) (Anyhow "Invalid public key"));
  id ← lift (ok_or (PeerId_from_bytes recv_pub_bytes) (Anyhow "PeerId from bytes failed"));
  s ← get;
  hit ← lift (cache_hit he recv_pub (signature_cache s !! id));
  if hit : bool then mret tt else
  sig_bytes ← lift (slice (msg_len + 32) (msg_len + 96) buf);
  peer_sig ← lift (ok_or (EdSig_from_bytes sig_bytes) (Anyhow "Invalid signature"));
  lift (ensure (ed_verify recv_pub (take msg_len buf ++ recv_pub_bytes) peer_sig) (Anyhow "Signature verification failed"));;
  recv_version ← lift (from_le_bytes <$> slice 0 4 buf);
  lift (ensure (MIN_VERSION <=? recv_version) InvalidHandshake);;
  recv_genesis ← lift (slice 4 36 buf);
  lift (ensure (bool_decide (recv_genesis = genesis)) InvalidHandshake);;
  recv_timestamp ← lift (from_le_bytes <$> slice 36 44 buf);
  recv_nonce ← lift (zeroize <$> slice 44 56 buf);
  lift (ensure (negb (bool_decide (recv_nonce = replicate 12 0))) InvalidHandshake);;
  let time_diff := Z.abs (iwrap 64 (iwrap 64 recv_timestamp - iwrap 64 timestamp)) in
  lift (ensure (time_diff <=? 300) InvalidHandshake);;
  now ← lift (hs_insert_ms he);
  modify (λ s, set_cache (<[id := (recv_pub, now)]> (signature_cache s)) s);;
  on_peer (set_version recv_version) p.

Definition handshake (kp : EdKeypair) (he : hs_env) (p : nat) : M PeerManager unit :=
  s ← get;
  let genesis := genesis_hash (pm_chain s) in
  ms ← lift (hs_ms he);
  let timestamp := ms / 1000 in
  let msg := handshake_msg genesis timestamp (hs_nonce he) in
  let to_sign := msg ++ ed_public kp in
  send (to_sign ++ ed_sign kp to_sign) p;;
  buf ← lift (ok_or (hs_recv he (length msg + 32 + 64 + 4)) (Anyhow "Handshake timeout"));
  lift (ensure (length buf =? length msg + 32 + 64)%nat InvalidHandshake);;
  handshake_check he genesis timestamp (length msg) buf p.

(** ** Connections *)

(** The limits of [add_peer]: [true] when the connection is refused. *)
Definition refuses (cfg : NetConfig) (ip : IpAddr) (ps : gmap IpAddr (list nat)) : bool :=
  let conns := Z.of_nat (length (default [] (ps !! ip))) in
  (max_peers cfg / 10 <=? conns) || (max_peers cfg <=? Z.of_nat (size ps)) ||
  (MAX_PEERS_PER_SUBNET <=? length (default [] (ps !! subnet_of ip)))%nat.

Definition fresh_arc (s : PeerManager) : nat := fresh (dom (arcs s)).

(** [Arc::new(Peer { .. })] *)
Definition new_arc (q : Peer) : M PeerManager nat := λ s,
  (Ok (fresh_arc s), set_arcs (<[fresh_arc s := q]> (arcs s)) s).

(** After a successful handshake: the address becomes known and is announced,
    and the peer is entered in the maps. *)
Definition register (cfg : NetConfig) (ms : outcome Z) (ip : IpAddr) (p : nat) : M PeerManager unit :=
  let peer_addr := (ip_display ip ++ ":" ++ pretty (p2p_port cfg))%string in
  modify (λ s, set_known (known_peers s ++ [peer_addr]) s);;
  now ← lift ms;
  broadcast (serialize_addr_msg MSG_ADDR now [peer_addr]);;
  send (serialize_u32 MSG_GETADDR) p;;
  lock_peers;;
  modify (λ s, set_peers (<[ip := default [] (peers s !! ip) ++ [p]]> (peers s)) s);;
  unlock_peers;;
  modify (λ s, set_peers_by_id
    (<[default [] (peer_id <$> arcs s !! p) := (ip, p)]> (peers_by_id s)) s).

(** [add_peer] up to the tasks it starts: the peer, when it was registered. *)
Definition add_peer (cfg : NetConfig) (kp : EdKeypair) (he : hs_env) (now : moment) (ms : outcome Z) (ip : IpAddr)
    : M PeerManager (option nat) :=
  banned ← is_banned ip (m_instant now);
  if banned : bool then mret None else
  ps ← read_peers;
  if refuses cfg ip ps then mret None else
  id ← lift (ok_or (PeerId_from_bytes (ed_public kp)) (Anyhow "PeerId from bytes failed"));
  p ← new_arc (Peer_new id);
  r ← attempt (handshake kp he p);
  match r with
  | Ok _ => register cfg ms ip p;; mret (Some p)
  | _ => decrease_reputation p ip now;; mret None
  end.

(** An attempt to connect that reached [add_peer]. *)
Definition attempt_peer (cfg : NetConfig) (kp : EdKeypair) (a : hs_env * moment * outcome Z * IpAddr) : M PeerManager unit :=
  let '(he, now, ms, ip) := a in add_peer cfg kp he now ms ip;; mret tt.

(** [connect_to_seeds], over the seeds whose connection succeeds. *)
Definition connect_to_seeds (cfg : NetConfig) (kp : EdKeypair) (l : list (hs_env * moment * outcome Z * IpAddr))
    : M PeerManager unit := mfor (attempt_peer cfg kp) l.

(** A round of the reconnection task, over the known addresses it chose. *)
Definition reconnect (cfg : NetConfig) (kp : EdKeypair) (l : list (hs_env * moment * outcome Z * IpAddr))
    : M PeerManager unit :=
  ps ← read_peers;
  if Z.of_nat (size ps) <? max_peers cfg / 2 then mfor (attempt_peer cfg kp) l else mret tt.

(** ** Messages *)

(** What handling a message reads from outside. *)
Record msg_env := mkMsgEnv {
  e_now : moment;
  e_clk : clock;
  e_ms : outcome Z;
}.

(** At most 1000 announcements are taken from a peer: [true] when this one is
    one too many. *)
Definition MAX_PENDING_INV : Z := 1000.

Definition count_inv (p : nat) : M PeerManager bool :=
  s ← get;
  let id := default [] (peer_id <$> arcs s !! p) in
  let count := wadd 64 (default 0 (pending_inv s !! id)) 1 in
  modify (λ s, set_pending_inv (<[id := count]> (pending_inv s)) s);;
  mret (MAX_PENDING_INV <? count).

Definition handle_inv (kind : Z) (data : bytes) : M PeerManager unit :=
  hash ← lift (slice 4 36 data);
  modify (λ s, set_inv_tx (inv_tx s ++ [(kind, hash)]) s).

Definition handle_getdata (data : bytes) (p : nat) : M PeerManager unit :=
  inv_type ← lift (from_le_bytes <$> slice 4 8 data);
  hash ← lift (slice 8 40 data);
  s ← get;
  let c := pm_chain s in
  if inv_type =? 1 then
    match pool_txs (sp_pool (chain_mempool c)) !! hash with
    | Some entry => send (to_le_bytes 4 MSG_TX ++ serialize (entry_tx entry)) p
    | None => mret tt
    end
  else if inv_type =? 2 then
    height ← lift (unwrap (hash_to_height (state c) !! hash));
    block ← lift (load_block_from_db (db c) height);
    send (to_le_bytes 4 MSG_BLOCK ++ serialize block) p
  else mret tt.

Definition handle_getheaders (data : bytes) (p : nat) : M PeerManager unit :=
  (if (length data <? 40)%nat then lift (bail (InvalidBlock "GETHEADERS too short")) else mret tt);;
  locator ← lift (slice 4 36 data);
  stop ← lift (if (72 <=? length data)%nat then slice 36 68 data else Ok zero_hash);
  s ← get;
  let c := pm_chain s in
  headers ← lift (get_headers (db c) (hash_to_height (state c)) (best_height c) locator stop);
  send (to_le_bytes 4 MSG_HEADERS ++ serialize headers) p.

Definition handle_tx (e : msg_env) (data : bytes) : M PeerManager unit :=
  tx ← lift (ok_or (deserialize (A:=Transaction) (drop 4 data)) (Errors.Bincode "tx"));
  r ← attempt (on_chain (hold_pool (pool_insert tx (e_ms e))));
  match r with
  | Ok true => broadcast (to_le_bytes 4 1 ++ tx_hash tx)
  | _ => mret tt
  end.

Definition handle_block (e : msg_env) (data : bytes) : M PeerManager unit :=
  block ← lift (ok_or (deserialize (A:=Block) (drop 4 data)) (Errors.Bincode "block"));
  added ← on_chain (hold_pool (add_block 2 (e_clk e) block));
  if added : bool then
    hash ← lift (header_hash (header block));
    broadcast (to_le_bytes 4 2 ++ hash)
  else mret tt.

(** The loop over the headers, [prev_hash] being the hash of the last one. *)
Fixpoint add_headers (e : msg_env) (prev : bytes) (headers : list BlockHeader) : M Chain unit :=
  match headers with
  | [] => mret tt
  | h :: headers =>
      hash ← lift (header_hash h);
      (if bool_decide (prev_hash h = prev) then mret tt
       else lift (bail (InvalidBlock "Discontinuous headers")));;
      attempt (add_block 2 (e_clk e) (mkBlock h []));;
      add_headers e hash headers
  end.

Definition handle_headers (e : msg_env) (data : bytes) : M PeerManager unit :=
  headers ← lift (ok_or (deserialize (A:=list BlockHeader) (drop 4 data)) (Anyhow "Deserialize headers failed"));
  match headers with
  | [] => mret tt
  | h :: _ => on_chain (add_headers e (prev_hash h) headers)
  end.

Definition handle_getaddr (p : nat) : M PeerManager unit :=
  s ← get;
  send (to_le_bytes 4 MSG_ADDR ++ serialize (known_peers s)) p.

Definition handle_addr (data : bytes) : M PeerManager unit :=
  addrs ← lift (ok_or (deserialize (A:=list string) (drop 4 data)) (Errors.Bincode "addrs"));
  modify (λ s, set_known (add_known (known_peers s) addrs) s).

Definition handle_ping (data : bytes) (p : nat) : M PeerManager unit :=
  nonce ← lift (slice 4 12 data);
  send (to_le_bytes 4 MSG_PONG ++ nonce) p.

(** The [match] on the type of the message. *)
Definition dispatch (e : msg_env) (msg_type : Z) (data : bytes) (p : nat) : M PeerManager unit :=
  if (msg_type =? 1) || (msg_type =? 2) then handle_inv msg_type data else
  if msg_type =? 3 then handle_getdata data p else
  if msg_type =? 4 then handle_getheaders data p else
  if msg_type =? 5 then handle_tx e data else
  if msg_type =? 6 then handle_block e data else
  if msg_type =? 8 then handle_headers e data else
  if msg_type =? 9 then handle_getaddr p else
  if msg_type =? 10 then handle_addr data else
  if msg_type =? 11 then handle_ping data p else
  if msg_type =? 12 then mret tt else lift (bail (Anyhow "Unknown message type")).

Definition handle_message (e : msg_env) (data : bytes) (p : nat) (ip : IpAddr) : M PeerManager unit :=
  (if (length data <? 4)%nat then lift (bail (InvalidBlock "Message too short")) else mret tt);;
  msg_type ← lift (from_le_bytes <$> slice 0 4 data);
  flood ← (if (msg_type =? 1) || (msg_type =? 2) then count_inv p else mret false);
  if flood : bool then decrease_reputation p ip (e_now e) else dispatch e msg_type data p.

(** ** Frames and the reading task *)

(** The message in a non-empty frame: the first byte says whether the rest is
    compressed. *)
Definition unframe (frame : bytes) : outcome bytes :=
  let data := drop 1 frame in
  if bool_decide (head frame = Some 1) then
    if MAX_COMPRESSED_SIZE <? Z.of_nat (length data) then bail AttackDetected else
    decomp ← ok_or (snappy_uncompress data) DecompressionFailed;
    if MAX_MSG_DECOMPRESSED <? Z.of_nat (length decomp) then bail AttackDetected else Ok decomp
  else Ok data.

Definition process_frame (e : msg_env) (frame : bytes) (p : nat) (ip : IpAddr) : M PeerManager unit :=
  data ← lift (unframe frame);
  (if (length (drop 1 frame) <? 4)%nat then lift (bail (InvalidBlock "Message too short")) else mret tt);;
  r ← attempt (handle_message e data p ip);
  match r with
  | Ok _ => mret tt
  | _ => decrease_reputation p ip (e_now e)
  end.

(** The sending task: a long message is compressed, and the first byte says so. *)
Definition frame (msg : bytes) : outcome bytes :=
  if 1024 <? Z.of_nat (length msg) then
    compressed ← ok_or (snappy_compress msg) DecompressionFailed;
    Ok (1 :: compressed)
  else Ok (0 :: msg).

(** What the heartbeat task sends. *)
Definition heartbeat : bytes := [0].

(** What one turn of the loop sees: a frame that was read, or the end of the
    connection (an error, the timeout, the shutdown). *)
Inductive read_event :=
  | Read (frame : bytes)
  | Closed.

(** The reading task over the events it sees. *)
Fixpoint reader (p : nat) (ip : IpAddr) (es : list (msg_env * read_event)) : M PeerManager unit :=
  match es with
  | [] => mret tt
  | (e, Closed) :: _ => remove_peer ip p
  | (e, Read frame) :: es =>
      let len := Z.of_nat (length frame) in
      if (0 <? len) && (len <=? MAX_MESSAGE_SIZE) then process_frame e frame p ip;; reader p ip es
      else if MAX_MESSAGE_SIZE <? len then decrease_reputation p ip (e_now e);; reader p ip es
      else remove_peer ip p
  end.

End Net.

(** ** What every operation leaves alone *)

Section Frame.
  Context {CR : Crypto} {CD : Codec} {RK : Rocks} {RT : RetryPolicy} {HO : HashOrder} {HP : HeapOrder}
    {SR : SupplyReader} {WR : Wire}.

(** An update under which the property [P] of the node is stable. *)
Class StableNet (P : PeerManager → Prop) (upd : PeerManager → PeerManager) : Prop := stable_net : ∀ s, P s → P (upd s).

#[export] Instance net_modify P f : StableNet P f → Preserves P (modify f).
Proof. intros H s. apply H. Qed.

#[export] Instance net_attempt {A} P (m : M PeerManager A) : Preserves P m → Preserves P (attempt m).
Proof. intros Hm s Hs. specialize (Hm s Hs). unfold attempt. by destruct (m s) as [[] ?]. Qed.

#[export] Instance net_read_peers P : Preserves P read_peers.
Proof. intros s Hs. unfold read_peers. by destruct (peers_written s). Qed.

#[export] Instance net_lock_peers P : StableNet P (set_written true) → Preserves P lock_peers.
Proof. intros H s Hs. unfold lock_peers. destruct (peers_written s); [done|by apply H]. Qed.

#[export] Instance net_on_peer P f p :
  StableNet P (λ s, set_arcs (alter f p (arcs s)) s) → Preserves P (on_peer f p).
Proof. intros H s. apply H. Qed.

#[export] Instance net_on_chain {A} P (m : M Chain A) : (∀ c, StableNet P (set_chain c)) → Preserves P (on_chain m).
Proof. intros H s Hs. unfold on_chain. destruct (m (pm_chain s)). by apply H. Qed.

#[export] Instance net_broadcast P msg :
  (∀ p, StableNet P (λ s, set_arcs (alter (send_to msg) p (arcs s)) s)) → Preserves P (broadcast msg).
Proof. intros. unfold broadcast, send. apply _. Qed.

End Frame.

(** Most updates do not touch the fields a property is about. *)
#[export] Hint Extern 0 (StableNet _ _) => (let Hs := fresh in intros ? Hs; exact Hs) : typeclass_instances.

Ltac run_m := unfold mbind, M_bind, mret, M_ret, lift, get, modify, outcome_bind.

(** ** Handshakes *)

Section Handshake.
  Context {CR : Crypto} {CD : Codec} {RK : Rocks} {RT : RetryPolicy} {HO : HashOrder} {HP : HeapOrder}
    {SR : SupplyReader} {WR : Wire}.

(** [read_exact] fills the whole buffer or fails. *)
Definition read_exact (he : hs_env) : Prop := ∀ n buf, hs_recv he n = Some buf → length buf = n.

Lemma handshake_not_Ok kp he p s u s' : read_exact he → handshake kp he p s ≠ (Ok u, s').
Proof.
  intros Hr H. unfold handshake in H. apply M_bind_Ok in H as (s1 & s2 & _ & H).
  apply M_bind_Ok in H as (ms & s3 & _ & H). apply M_bind_Ok in H as (? & s4 & _ & H).
  apply M_bind_Ok in H as (buf & s5 & Hb & H). apply M_bind_Ok in H as (? & s6 & Hl & _).
  unfold lift in Hb, Hl. injection Hb as Hb%ok_or_Ok _. injection Hl as Hl%ensure_Ok _.
  apply Hr in Hb. apply Nat.eqb_eq in Hl. lia.
Qed.

Lemma zeroize_slice l : (length (sub_bytes 44 56 l) = 12)%nat → zeroize (sub_bytes 44 56 l) = replicate 12 0.
Proof. generalize (sub_bytes 44 56 l). intros k Hk. do 12 (destruct k as [|? k]; [done|]). by destruct k. Qed.

Lemma handshake_check_cached he genesis ts n buf p s u s' :
  handshake_check he genesis ts n buf p s = (Ok u, s') → ∃ id k, signature_cache s !! id = Some k ∧ s' = s.
Proof.
  intros H. unfold handshake_check in H. apply M_bind_Ok in H as (kb & ? & [= _ <-] & H).
  apply M_bind_Ok in H as (k & ? & [= _ <-] & H). apply M_bind_Ok in H as (id & ? & [= _ <-] & H).
  apply M_bind_Ok in H as (s0 & s1 & [= <- <-] & H). apply M_bind_Ok in H as (hit & s2 & Hhit & H).
  unfold lift in Hhit. injection Hhit as Hhit <-. destruct hit.
  - injection H as _ <-. exists id. destruct (signature_cache s !! id) as [e|]; [by exists e|done].
  - exfalso. apply M_bind_Ok in H as (? & ? & [= _ <-] & H). apply M_bind_Ok in H as (? & ? & [= _ <-] & H).
    apply M_bind_Ok in H as (? & ? & [= _ <-] & H). apply M_bind_Ok in H as (? & ? & [= _ <-] & H).
    apply M_bind_Ok in H as (? & ? & [= _ <-] & H). apply M_bind_Ok in H as (? & ? & [= _ <-] & H).
    apply M_bind_Ok in H as (? & ? & [= _ <-] & H). apply M_bind_Ok in H as (? & ? & [= _ <-] & H).
    apply M_bind_Ok in H as (nonce & ? & Hn & H). unfold lift in Hn. injection Hn as Hn <-.
    apply fmap_Ok in Hn as (z & Hz & ->). apply slice_Ok in Hz as [Hz ->].
    apply M_bind_Ok in H as (? & ? & He & _). unfold lift in He. injection He as He%ensure_Ok _.
    rewrite bool_decide_eq_true_2 in He; [done|]. apply zeroize_slice. rewrite length_sub_bytes; lia.
Qed.

(** No handshake succeeds, for two independent reasons: the buffer is four
    bytes longer than the length it is compared with, and the nonce is erased
    before it is compared with zero, so that of the checks that follow only the
    cached key, which needs an earlier success, could let a peer in. *)
Theorem handshake_refused kp he p s :
  read_exact he →
  (handshake kp he p s).1 ≠ Ok tt ∧
  (signature_cache s = ∅ → ∀ genesis ts n buf, (handshake_check he genesis ts n buf p s).1 ≠ Ok tt).
Proof.
  intros Hr. split.
  - destruct (handshake kp he p s) as [r s'] eqn:E. cbn. intros ->. by apply handshake_not_Ok in E.
  - intros Hc genesis ts n buf. destruct (handshake_check he genesis ts n buf p s) as [r s'] eqn:E. cbn. intros ->.
    apply handshake_check_cached in E as (id & k & Hk & _). by rewrite Hc, lookup_empty in Hk.
Qed.

(** A handshake changes nothing but the peers, the cache when it succeeds. *)
#[export] Instance net_handshake P kp he p :
  (∀ a, StableNet P (set_arcs a)) → (∀ c, StableNet P (set_cache c)) → Preserves P (handshake kp he p).
Proof.
  intros Ha Hc. assert (∀ f q, Preserves P (on_peer f q)) by (intros f q s; apply Ha).
  assert (∀ f : PeerManager → gmap bytes (EdKey * Z), Preserves P (modify (λ s, set_cache (f s) s))) by (intros f s; apply Hc).
  unfold handshake, handshake_check, send. apply _.
Qed.

End Handshake.

(** ** The reachable states of a node *)

Section Reach.
  Context {CR : Crypto} {CD : Codec} {RK : Rocks} {RT : RetryPolicy} {HO : HashOrder} {HP : HeapOrder}
    {SR : SupplyReader} {WR : Wire} (cfg : NetConfig) (kp : EdKeypair).

(** One event: a connection attempt (incoming, to a seed or to a known
    address), a turn of the reading task of a registered peer, or a change of
    the chain by the miner or the RPC server. *)
Inductive net_step : PeerManager → PeerManager → Prop :=
  | step_add_peer he now ms ip s : read_exact he → net_step s (add_peer cfg kp he now ms ip s).2
  | step_reader p ip e ev s : p ∈ default [] (peers s !! ip) → net_step s (reader p ip [(e, ev)] s).2
  | step_chain c s : net_step s (set_chain c s).

(** What a peer may have seen of us and lost with us. *)
Definition rejected (q : Peer) : Prop := (length (write_tx q) ≤ 1)%nat ∧ -10 <= reputation q <= 0.

(** Nobody is connected, known beyond the seeds, or banned; whoever tried was
    sent at most our own handshake and is counted one failure. *)
Record isolated (seeds : list string) (s : PeerManager) : Prop := mkIsolated {
  iso_peers : peers s = ∅;
  iso_ids : peers_by_id s = ∅;
  iso_bans : bans s = ∅ ∧ bans_persistent s = ∅;
  iso_known : known_peers s = seeds;
  iso_cache : signature_cache s = ∅;
  iso_inv : inv_tx s = [] ∧ pending_inv s = ∅;
  iso_arcs : ∀ p q, arcs s !! p = Some q → rejected q;
}.

Lemma is_banned_none ip now s :
  bans s = ∅ → bans_persistent s = ∅ → is_banned ip now s = (Ok false, s).
Proof.
  intros H1 H2. unfold is_banned, retain_live. run_m. cbn. rewrite H1, H2, !map_filter_empty, !lookup_empty.
  cbn. f_equal. destruct s. simpl in *. by subst.
Qed.

(** A handshake with a new peer ends without success, having sent one message
    at most. *)
Lemma handshake_new he p id s :
  read_exact he →
  (∀ u, (handshake kp he p (set_arcs (<[p := Peer_new id]> (arcs s)) s)).1 ≠ Ok u) ∧
  ∃ q, (handshake kp he p (set_arcs (<[p := Peer_new id]> (arcs s)) s)).2 = set_arcs (<[p := q]> (arcs s)) s ∧
    (length (write_tx q) ≤ 1)%nat ∧ reputation q = 0.
Proof.
  intros Hr. set (s0 := set_arcs _ s). split.
  { intros u E. apply (handshake_not_Ok kp he p s0 u (handshake kp he p s0).2 Hr). by apply run_eta. }
  assert (H0 : ∃ q, s0 = set_arcs (<[p := q]> (arcs s)) s ∧ (length (write_tx q) ≤ 1)%nat ∧ reputation q = 0)
    by (exists (Peer_new id); split_and!; [done|cbn; lia|done]).
  unfold handshake. run_m. destruct (hs_ms he) as [ms| | |]; try exact H0.
  unfold send, on_peer, modify. set (msg := handshake_msg _ _ _). set (m := _ ++ ed_sign kp _).
  assert (H1 : ∃ q, set_arcs (alter (send_to m) p (arcs s0)) s0 = set_arcs (<[p := q]> (arcs s)) s ∧
    (length (write_tx q) ≤ 1)%nat ∧ reputation q = 0).
  { exists (send_to m (Peer_new id)). split_and!; [|done|done]. unfold s0. cbn. by rewrite alter_insert_eq. }
  destruct (hs_recv he _) as [buf|] eqn:Eb; [|exact H1]. cbn [ok_or].
  apply Hr in Eb. rewrite (proj2 (Nat.eqb_neq _ _)) by lia. exact H1.
Qed.

(** The first failure of a peer only costs it ten points. *)
Lemma first_failure p ip now q s :
  reputation q = 0 →
  decrease_reputation p ip now (set_arcs (<[p := q]> (arcs s)) s) =
  (Ok tt, set_arcs (<[p := set_reputation (-10) q]> (arcs s)) s).
Proof.
  intros Hq. unfold decrease_reputation, on_peer. run_m. cbn [arcs set_arcs].
  rewrite alter_insert_eq, lookup_insert_eq. cbn [fmap option_fmap option_map default id reputation set_reputation].
  rewrite Hq. done.
Qed.

Lemma isolated_arcs seeds p q s : isolated seeds s → rejected q → isolated seeds (set_arcs (<[p := q]> (arcs s)) s).
Proof.
  intros [] Hq. split; try done. cbn. intros p' q'. rewrite lookup_insert_Some. intros [[_ <-]|[_ H']]; [done|eauto].
Qed.

Lemma add_peer_isolated seeds he now ms ip s :
  read_exact he → isolated seeds s → isolated seeds (add_peer cfg kp he now ms ip s).2.
Proof.
  intros Hr Hi. destruct (iso_bans _ _ Hi) as [Hb1 Hb2]. unfold add_peer. unfold mbind at 1, M_bind.
  rewrite is_banned_none by done. unfold mbind at 1, M_bind, read_peers. destruct (peers_written s); [done|].
  destruct (refuses cfg ip (peers s)); [done|]. unfold mbind at 1, M_bind, lift.
  destruct (ok_or _ _) as [id| | |]; try done. unfold mbind at 1, M_bind, new_arc.
  destruct (handshake_new he (fresh_arc s) id s Hr) as (Hne & q & E & Hq1 & Hq2).
  unfold mbind at 1, M_bind, attempt.
  destruct (handshake kp he _ _) as [[u|e| |] s1] eqn:Eh; cbn [fst snd] in *; subst s1.
  - by destruct (Hne u).
  - unfold mbind, M_bind. rewrite first_failure by done. apply isolated_arcs; [done|]. split; cbn; [done|lia].
  - apply isolated_arcs; [done|]. split; [done|lia].
  - apply isolated_arcs; [done|]. split; [done|lia].
Qed.

(** A node never gets a peer: in every state it can reach nobody is
    connected, no address but those of the seeds is known, no announcement was
    received, and nobody was banned for the handshakes that failed, each of
    which started with a fresh reputation. *)
Theorem node_stays_isolated seeds c s :
  rtc net_step (PeerManager_new seeds c) s → isolated seeds s.
Proof.
  assert (isolated seeds (PeerManager_new seeds c)) as Hi.
  { by split. }
  intros H. revert Hi. induction H as [s|s s1 s2 H1 _ IH]; [done|]. intros Hi. apply IH. clear IH.
  destruct H1 as [he now ms ip s Hr|p ip e ev s Hp|c' s].
  - by apply add_peer_isolated.
  - rewrite (iso_peers _ _ Hi), lookup_empty in Hp. by apply not_elem_of_nil in Hp.
  - by destruct Hi; split.
Qed.

End Reach.

(** ** Bans *)

Section Bans.
  Context {CR : Crypto} {CD : Codec} {RK : Rocks} {RT : RetryPolicy} {HO : HashOrder} {HP : HeapOrder}
    {SR : SupplyReader} {WR : Wire}.

(** A failure that leaves the reputation above the limit. *)
Lemma decrease_above p ip now q s :
  arcs s !! p = Some q → -50 < iwrap 8 (reputation q - 10) →
  decrease_reputation p ip now s =
  (Ok tt, set_arcs (<[p := set_reputation (iwrap 8 (reputation q - 10)) q]> (arcs s)) s).
Proof.
  intros Hq Hr. unfold decrease_reputation, on_peer. run_m. cbn [arcs set_arcs].
  rewrite lookup_alter_eq, Hq. cbn [fmap option_fmap option_map default id reputation set_reputation].
  rewrite (proj2 (Z.leb_gt (iwrap 8 (reputation q - 10)) (-50))) by done. do 2 f_equal.
  apply map_eq. intros i. destruct (decide (i = p)) as [->|].
  - by rewrite lookup_alter_eq, lookup_insert_eq, Hq.
  - by rewrite lookup_alter_ne, lookup_insert_ne.
Qed.

(** A failure that reaches the limit. *)
Lemma decrease_below p ip now q s :
  peers_written s = false → arcs s !! p = Some q → iwrap 8 (reputation q - 10) <= -50 →
  ∃ s', decrease_reputation p ip now s = (Ok tt, s') ∧
    bans s' = <[ip := m_instant now + BAN_SECONDS]> (bans s) ∧
    bans_persistent s' = <[ip := m_instant now + BAN_SECONDS]> (bans_persistent s) ∧
    peers s' = delete ip (peers s) ∧ peers_written s' = false.
Proof.
  intros Hw Hq Hr. unfold decrease_reputation, on_peer. run_m. cbn [arcs set_arcs].
  rewrite lookup_alter_eq, Hq. cbn [fmap option_fmap option_map default id reputation set_reputation].
  rewrite (proj2 (Z.leb_le (iwrap 8 (reputation q - 10)) (-50))) by done. unfold ban_ip. run_m. unfold on_chain, put_ban. cbn [pm_chain set_bans set_arcs].
  destruct (pool_get (db (pm_chain s))); cbn; unfold remove_peers, lock_peers, unlock_peers; run_m;
    cbn; rewrite Hw; cbn; eexists; split_and!; by try reflexivity.
Qed.

(** C28. Five failures of a connected peer, and no fewer, ban its address for
    72 hours: until then nobody is added from it, afterwards it is forgotten.
    The connections of the address are dropped from the map at once. *)
Theorem five_failures_ban p ip q s t1 t2 t3 t4 t5 :
  peers_written s = false → arcs s !! p = Some q → reputation q = 0 →
  ∃ s4 s5, mfor (decrease_reputation p ip) [t1; t2; t3; t4] s = (Ok tt, s4) ∧
    bans s4 = bans s ∧ bans_persistent s4 = bans_persistent s ∧ peers s4 = peers s ∧
    decrease_reputation p ip t5 s4 = (Ok tt, s5) ∧ peers s5 = delete ip (peers s) ∧
    ∀ later, (is_banned ip later s5).1 = Ok (bool_decide (later < m_instant t5 + 72 * 3600)).
Proof.
  intros Hw Hq Hr.
  set (s4 := set_arcs (<[p := set_reputation (-40) q]> (arcs s)) s).
  assert (E4 : mfor (decrease_reputation p ip) [t1; t2; t3; t4] s = (Ok tt, s4)).
  { cbn [mfor]. assert (Hstep : ∀ t s r q', arcs s !! p = Some q' → reputation q' = r → -40 < r <= 0 →
      decrease_reputation p ip t s = (Ok tt, set_arcs (<[p := set_reputation (r - 10) q']> (arcs s)) s)).
    { intros t s' r q' H1 H2 H3. rewrite (decrease_above p ip t q'); [|done|].
      - rewrite H2, iwrap_small by lia. done.
      - rewrite H2, iwrap_small by lia. lia. }
    unfold mbind, M_bind. rewrite (Hstep t1 s 0 q) by (done || lia).
    rewrite (Hstep t2 _ (-10) (set_reputation (-10) q)) by (done || lia || apply lookup_insert_eq).
    rewrite (Hstep t3 _ (-20) (set_reputation (-20) q)) by (done || lia || apply lookup_insert_eq).
    rewrite (Hstep t4 _ (-30) (set_reputation (-30) q)) by (done || lia || apply lookup_insert_eq).
    unfold mret, M_ret, s4. cbn [arcs set_arcs]. by rewrite !insert_insert_eq. }
  destruct (decrease_below p ip t5 (set_reputation (-40) q) s4) as (s5 & E5 & Hb & Hbp & Hp & _); [done|apply lookup_insert_eq|done|].
  exists s4, s5. split_and!; [done|done|done|done|done|by rewrite Hp|].
  intros later. unfold is_banned. run_m. cbn [bans bans_persistent set_bans fst]. rewrite Hb, Hbp. f_equal.
  unfold retain_live, BAN_SECONDS. destruct (decide (later < m_instant t5 + 72 * 3600)) as [H|H].
  - rewrite (bool_decide_eq_true_2 _ H), bool_decide_eq_true_2; [done|]. exists (m_instant t5 + 72 * 3600).
    rewrite map_lookup_filter_Some. by rewrite lookup_insert_eq.
  - rewrite (bool_decide_eq_false_2 _ H), !bool_decide_eq_false_2; [done|..];
      intros [x Hx]; rewrite map_lookup_filter_Some, lookup_insert_eq in Hx; destruct Hx as [[= <-] ?]; done.
Qed.

(** [penalize] looks at the score before the subtraction: the call that takes
    it to zero or below does not ban. *)
Lemma penalize_late cost p : 0 < score p <= cost → (penalize cost p).1 = false.
Proof. intros H. unfold penalize. cbn. apply Z.leb_gt. lia. Qed.

(** The reputation is an [i8]: the thirteenth failure makes it positive. *)
Lemma thirteen_failures p ip t q s :
  arcs s !! p = Some q → reputation q = -120 →
  decrease_reputation p ip t s = (Ok tt, set_arcs (<[p := set_reputation 126 q]> (arcs s)) s).
Proof. intros Hq Hr. rewrite (decrease_above p ip t q); [|done|]; rewrite Hr; done. Qed.

(** The first peer that leaves wedges the node: [remove_peer] asks for the
    map of peers while it holds its write guard, and from then on nothing is
    broadcast, nobody is banned and every new connection waits for ever. *)
Theorem disconnect_wedges ip p s :
  peers_written s = false →
  let s' := (remove_peer ip p s).2 in
  (remove_peer ip p s).1 = Hang ∧ peers s' = drop_conn ip p (peers s) ∧
  (∀ msg, broadcast msg s' = (Hang, s')) ∧
  (∀ ip', remove_peers ip' s' = (Hang, s')) ∧
  (∀ cfg kp he now ms ip', (is_banned ip' (m_instant now) s').1 = Ok false →
     (add_peer cfg kp he now ms ip' s').1 = Hang).
Proof.
  intros Hw. unfold remove_peer, lock_peers. run_m. rewrite Hw. cbn. split_and!; [done|done| | |].
  - intros msg. done.
  - intros ip'. done.
  - intros cfg kp he now ms ip' Hb. unfold add_peer. unfold mbind at 1, M_bind.
    rewrite (surjective_pairing (is_banned _ _ _)), Hb. done.
Qed.

End Bans.

(** ** Messages *)

(** The message types are written as four little-endian bytes. *)
Definition message (kind : Z) (payload : bytes) : bytes := to_le_bytes 4 kind ++ payload.

Section MessageFrame.
  Context {CR : Crypto} {CD : Codec} {RK : Rocks} {RT : RetryPolicy} {HO : HashOrder} {HP : HeapOrder}
    {SR : SupplyReader} {WR : Wire}.

(** Handling a message other than an announcement sends, learns addresses and
    runs operations of the chain and the pool. *)
Lemma dispatch_preserves P e kind data p :
  (∀ msg p, StableNet P (λ s, set_arcs (alter (send_to msg) p (arcs s)) s)) →
  (∀ c, StableNet P (set_chain c)) → (∀ k, StableNet P (λ s, set_known (add_known (known_peers s) k) s)) →
  kind ≠ 1 → kind ≠ 2 → Preserves P (dispatch e kind data p).
Proof.
  intros Hs Hc Hk H1 H2. assert (∀ msg p, Preserves P (send msg p)) by (intros; apply _).
  unfold dispatch. rewrite (proj2 (Z.eqb_neq _ _) H1), (proj2 (Z.eqb_neq _ _) H2). cbn [orb]. cbv iota.
  repeat apply preserves_if; try apply _.
  - unfold handle_getdata. repeat (apply preserves_bind; [apply _|intros ?]). apply preserves_if.
    + destruct (_ !! _); apply _.
    + apply _.
  - unfold handle_tx. repeat (apply preserves_bind; [apply _|intros ?]). destruct a0 as [[]| | |]; apply _.
  - unfold handle_headers. apply preserves_bind; [apply _|]. intros []; apply _.
Qed.

(** Messages never make an [Arc] disappear. *)
#[local] Instance arc_stays_alter q f p : StableNet (λ s, is_Some (arcs s !! q)) (λ s, set_arcs (alter f p (arcs s)) s).
Proof.
  intros s H. cbn. destruct (decide (q = p)) as [->|].
  - by rewrite lookup_alter_eq, fmap_is_Some.
  - by rewrite lookup_alter_ne.
Qed.

#[local] Instance arc_stays_decrease q p ip now : Preserves (λ s, is_Some (arcs s !! q)) (decrease_reputation p ip now).
Proof. unfold decrease_reputation, ban_ip, remove_peers, unlock_peers. apply _. Qed.

Lemma handle_message_arcs e data p ip s q : is_Some (arcs s !! q) → is_Some (arcs (handle_message e data p ip s).2 !! q).
Proof.
  revert s. change (Preserves (λ s, is_Some (arcs s !! q)) (handle_message e data p ip)).
  unfold handle_message. apply preserves_bind; [apply _|intros _]. apply preserves_bind; [apply _|intros kind].
  apply preserves_bind; [unfold count_inv; apply _|intros flood]. apply preserves_if; [apply _|].
  destruct (decide (kind = 1 ∨ kind = 2)) as [Hk|Hk].
  - unfold dispatch. assert ((kind =? 1) || (kind =? 2) = true) as -> by (apply orb_true_iff; rewrite !Z.eqb_eq; done).
    unfold handle_inv. apply _.
  - apply dispatch_preserves; try apply _; naive_solver.
Qed.

End MessageFrame.

Section Messages.
  Context {CR : Crypto} {CD : Codec} {RK : Rocks} {RT : RetryPolicy} {HO : HashOrder} {HP : HeapOrder}
    {SR : SupplyReader} {WR : Wire}.

Lemma message_type kind payload : uint 32 kind → from_le_bytes <$> slice 0 4 (message kind payload) = Ok kind.
Proof.
  intros Hk. unfold slice. rewrite bool_decide_eq_true_2 by (unfold message; rewrite length_app, length_to_le_bytes; lia).
  cbn [fmap outcome_fmap]. f_equal. change (sub_bytes 0 4 (message kind payload)) with (take 4 (message kind payload)).
  unfold message. rewrite take_app_length' by (symmetry; apply length_to_le_bytes). apply from_to_le_bytes. exact Hk.
Qed.

(** A message that announces nothing is dispatched on its type. *)
Lemma handle_message_eq e kind payload p ip s :
  uint 32 kind → kind ≠ 1 → kind ≠ 2 →
  handle_message e (message kind payload) p ip s = dispatch e kind (message kind payload) p s.
Proof.
  intros Hk H1 H2. unfold handle_message. run_m. rewrite message_type by done.
  destruct (Nat.ltb_spec (length (message kind payload)) 4) as [H|_].
  { unfold message in H. rewrite length_app, length_to_le_bytes in H. lia. }
  by rewrite (proj2 (Z.eqb_neq _ _) H1), (proj2 (Z.eqb_neq _ _) H2).
Qed.

Lemma slice_out a b l : (length l < b)%nat → slice a b l = Panic.
Proof. intros H. unfold slice. by rewrite bool_decide_eq_false_2 by lia. Qed.

(** The shortest message of each of these types. *)
Definition full_length (kind : Z) : nat :=
  if kind =? 3 then 40 else if kind =? 11 then 12 else 36.

(** A peer can stop the process (it is built to abort on a panic): an
    announcement, a request for data or a ping that is cut short panics in the
    slices taken from it, and so does a request for an unknown block. *)
Theorem short_message_panics e kind payload p ip s :
  kind ∈ [1; 2; 3; 11] → (length (message kind payload) < full_length kind)%nat →
  wadd 64 (default 0 (pending_inv s !! default [] (peer_id <$> arcs s !! p))) 1 <= MAX_PENDING_INV →
  (handle_message e (message kind payload) p ip s).1 = Panic ∧
  (∀ hash rest, length hash = 32%nat → hash_to_height (state (pm_chain s)) !! hash = None →
     (handle_message e (message 3 (to_le_bytes 4 2 ++ hash ++ rest)) p ip s).1 = Panic).
Proof.
  intros Hk Hl Hc. split.
  - assert (uint 32 kind) as Hu by (unfold uint; set_unfold; lia).
    unfold handle_message. run_m. rewrite message_type by done.
    destruct (Nat.ltb_spec (length (message kind payload)) 4) as [H|_].
    { unfold message in H. rewrite length_app, length_to_le_bytes in H. lia. }
    unfold full_length in Hl. set_unfold. destruct Hk as [->|[->|[->|[->|[]]]]]; cbn [Z.eqb Pos.eqb orb] in *.
    + unfold count_inv. run_m. rewrite (proj2 (Z.ltb_ge _ _) Hc). unfold dispatch, handle_inv. run_m. cbn [Z.eqb Pos.eqb orb].
      by rewrite slice_out.
    + unfold count_inv. run_m. rewrite (proj2 (Z.ltb_ge _ _) Hc). unfold dispatch, handle_inv. run_m. cbn [Z.eqb Pos.eqb orb].
      by rewrite slice_out.
    + unfold dispatch, handle_getdata. run_m. cbn [Z.eqb Pos.eqb orb]. rewrite (slice_out 8 40) by done.
      by destruct (from_le_bytes <$> slice 4 8 _) as [| | |] eqn:E; [| |reflexivity|];
        revert E; unfold slice; case_bool_decide.
    + unfold dispatch, handle_ping. run_m. cbn [Z.eqb Pos.eqb orb]. by rewrite slice_out.
  - intros hash rest Hh Hn. rewrite handle_message_eq by done.
    unfold dispatch, handle_getdata, message. run_m. cbn [Z.eqb Pos.eqb orb].
    assert (∀ a b x y z, a = length x → b = (length x + length y)%nat → slice a b (x ++ y ++ z) = Ok y) as Hs.
    { intros a b x y z -> ->. unfold slice. rewrite bool_decide_eq_true_2 by (rewrite !length_app; lia).
      f_equal. apply sub_bytes_app_mid; lia. }
    rewrite (Hs 4%nat 8%nat) by by rewrite ?length_to_le_bytes.
    rewrite (app_assoc (to_le_bytes 4 3)), (Hs 8%nat 40%nat) by by rewrite ?length_app, ?length_to_le_bytes, ?Hh.
    by rewrite Hn.
Qed.

(** *** Announcements *)

(** Every peer object carries the same identity: [add_peer] takes it from our
    own key. *)
Definition one_identity (id : bytes) (s : PeerManager) : Prop :=
  ∀ p q, arcs s !! p = Some q → peer_id q = id.

Definition announced (id : bytes) (q : list (Z * bytes)) (m : gmap bytes Z) (s : PeerManager) : Prop :=
  one_identity id s ∧ inv_tx s = q ∧ pending_inv s = m.

Lemma announced_alter id q m f p :
  (∀ x, peer_id (f x) = peer_id x) → StableNet (announced id q m) (λ s, set_arcs (alter f p (arcs s)) s).
Proof.
  intros Hf s (Ha & Hq & Hm). split_and!; [|done|done]. intros p' x. cbn. rewrite lookup_alter_Some.
  intros [(_ & y & Hy & ->)|[_ H]]; [rewrite Hf|]; by eapply Ha.
Qed.

#[local] Instance announced_reputation id q m g p :
  StableNet (announced id q m) (λ s, set_arcs (alter (λ x, set_reputation (g x) x) p (arcs s)) s).
Proof. by apply announced_alter. Qed.

#[local] Instance announced_send_to id q m msg p :
  StableNet (announced id q m) (λ s, set_arcs (alter (send_to msg) p (arcs s)) s).
Proof. by apply announced_alter. Qed.

#[local] Instance announced_ban id q m ip d now : Preserves (announced id q m) (ban_ip ip d now).
Proof. unfold ban_ip, remove_peers, unlock_peers. apply _. Qed.

#[local] Instance announced_decrease id q m p ip now : Preserves (announced id q m) (decrease_reputation p ip now).
Proof. unfold decrease_reputation. apply _. Qed.

#[local] Instance announced_send id q m msg p : Preserves (announced id q m) (send msg p).
Proof. unfold send. apply _. Qed.

(** What is not an announcement leaves the queue and the counters alone. *)
Lemma announced_dispatch id q m e kind data p :
  kind ≠ 1 → kind ≠ 2 → Preserves (announced id q m) (dispatch e kind data p).
Proof. intros. apply dispatch_preserves; [apply _| | |done|done]; intros; apply _. Qed.

(** One message: the counter of its sender rises by one at most, and the queue
    grows by one at most, below the limit. *)
Lemma handle_message_announced me e data p ip s :
  one_identity me s → is_Some (arcs s !! p) →
  let s' := (handle_message e data p ip s).2 in
  let count := wadd 64 (default 0 (pending_inv s !! me)) 1 in
  announced me (inv_tx s) (pending_inv s) s' ∨
  (announced me (inv_tx s) (<[me := count]> (pending_inv s)) s') ∨
  (count <= MAX_PENDING_INV ∧ ∃ x, announced me (inv_tx s ++ [x]) (<[me := count]> (pending_inv s)) s').
Proof.
  intros Ha [x Hx]. cbn zeta. set (count := wadd 64 (default 0 (pending_inv s !! me)) 1).
  assert (H0 : announced me (inv_tx s) (pending_inv s) s) by done.
  remember (handle_message e data p ip s).2 as s' eqn:Es. unfold handle_message in Es. revert Es.
  unfold mbind at 1, M_bind. destruct (length data <? 4)%nat; [intros ->; by left|].
  unfold mret at 1, M_ret. unfold mbind at 1, M_bind, lift.
  destruct (from_le_bytes <$> slice 0 4 data) as [kind| | |]; try by (intros ->; left).
  destruct (decide (kind = 1 ∨ kind = 2)) as [Hk|Hk].
  - unfold dispatch. assert ((kind =? 1) || (kind =? 2) = true) as -> by (apply orb_true_iff; rewrite !Z.eqb_eq; done).
    unfold count_inv, handle_inv. run_m. rewrite Hx. cbn [fmap option_fmap option_map default id].
    rewrite (Ha _ _ Hx). fold count. set (s1 := set_pending_inv _ s).
    assert (H1 : announced me (inv_tx s) (<[me := count]> (pending_inv s)) s1) by done.
    destruct (Z.ltb_spec MAX_PENDING_INV count) as [Hc|Hc]; intros ->; right.
    + left. apply preserves. exact H1.
    + destruct (slice 4 36 data) as [h| | |]; [right; split; [done|by exists (kind, h)]|by left..].
  - assert ((kind =? 1) || (kind =? 2) = false) as -> by (apply orb_false_iff; rewrite !Z.eqb_neq; naive_solver).
    unfold mbind, M_bind, mret, M_ret. intros ->. left.
    pose proof (announced_dispatch me (inv_tx s) (pending_inv s) e kind data p ltac:(naive_solver) ltac:(naive_solver)).
    by apply preserves.
Qed.

(** The messages of a session, whatever their outcomes. *)
Definition handle_all (l : list (msg_env * bytes * nat * IpAddr)) (s : PeerManager) : PeerManager :=
  foldl (λ s '(e, data, p, ip), (handle_message e data p ip s).2) s l.

Lemma handle_all_announced me l s :
  one_identity me s → Forall (λ m, is_Some (arcs s !! m.1.2)) l →
  let pending s := default 0 (pending_inv s !! me) in
  0 <= pending s → pending s + Z.of_nat (length l) < 2 ^ 64 →
  Z.of_nat (length (inv_tx s)) <= Z.min MAX_PENDING_INV (pending s) →
  Z.of_nat (length (inv_tx (handle_all l s))) <= MAX_PENDING_INV.
Proof.
  cbn zeta. revert s. induction l as [|[[[e data] p] ip] l IH]; intros s Ha Hl H0 Hb Hq; cbn [handle_all foldl]; [lia|].
  apply Forall_cons in Hl as [Hp Hl]. cbn [fst snd length] in *.
  change (foldl _ ?a l) with (handle_all l a).
  pose proof (handle_message_announced me e data p ip s Ha Hp) as Hm. cbn zeta in Hm.
  rewrite wadd_small in Hm by lia.
  assert (Hl' : Forall (λ m, is_Some (arcs (handle_message e data p ip s).2 !! m.1.2)) l)
    by (eapply Forall_impl; [exact Hl|]; intros m; apply handle_message_arcs).
  destruct Hm as [(H1 & H2 & H3)|[(H1 & H2 & H3)|(Hc & x & H1 & H2 & H3)]]; apply IH; try done;
    rewrite ?H2, ?H3, ?lookup_insert_eq, ?length_app; cbn; lia.
Qed.

(** One announcement below the limit is queued. *)
Lemma handle_inv_queued e kind hash p ip q s :
  kind ∈ [1; 2] → length hash = 32%nat → arcs s !! p = Some q →
  0 <= default 0 (pending_inv s !! peer_id q) < MAX_PENDING_INV →
  ∃ s', handle_message e (message kind hash) p ip s = (Ok tt, s') ∧ inv_tx s' = inv_tx s ++ [(kind, hash)].
Proof.
  intros Hk Hh Hq Hc. assert (uint 32 kind) as Hu by (unfold uint; set_unfold; lia).
  unfold handle_message. run_m. rewrite message_type by done.
  destruct (Nat.ltb_spec (length (message kind hash)) 4) as [H|_].
  { unfold message in H. rewrite length_app, length_to_le_bytes in H. lia. }
  assert ((kind =? 1) || (kind =? 2) = true) as Hb by (set_unfold; naive_solver).
  unfold dispatch. rewrite Hb. unfold count_inv, handle_inv. run_m. rewrite Hq. cbn [fmap option_fmap option_map default id].
  rewrite wadd_small by (unfold MAX_PENDING_INV in *; lia). rewrite (proj2 (Z.ltb_ge _ _)) by lia.
  assert (slice 4 36 (message kind hash) = Ok hash) as ->.
  { unfold slice, message. rewrite bool_decide_eq_true_2 by (rewrite length_app, length_to_le_bytes; lia).
    f_equal. rewrite <- (app_nil_r hash) at 1. apply sub_bytes_app_mid; [apply length_to_le_bytes|lia]. }
  eexists. split; [done|]. done.
Qed.

(** All peers together announce at most 1000 transactions and blocks in the
    life of the process: the counter that is to limit one peer is never reset,
    and is kept under the identity of the node itself, which every peer object
    carries.  Below the limit an announcement is queued as it was sent. *)
Theorem announcements_limited me s l :
  one_identity me s → inv_tx s = [] → pending_inv s = ∅ →
  Forall (λ m, is_Some (arcs s !! m.1.2)) l → Z.of_nat (length l) < 2 ^ 64 →
  Z.of_nat (length (inv_tx (handle_all l s))) <= MAX_PENDING_INV ∧
  (∀ e kind hash p ip q, kind ∈ [1; 2] → length hash = 32%nat → arcs s !! p = Some q →
     ∃ s', handle_message e (message kind hash) p ip s = (Ok tt, s') ∧ inv_tx s' = [(kind, hash)]).
Proof.
  intros Ha Hq Hp Hl Hb. split.
  - apply (handle_all_announced me); try done; rewrite Hp, lookup_empty; cbn; try lia. rewrite Hq. cbn. unfold MAX_PENDING_INV. lia.
  - intros e kind hash p ip q Hk Hh Hx. destruct (handle_inv_queued e kind hash p ip q s) as (s' & E & Hi); try done.
    { rewrite Hp, lookup_empty. by cbn. }
    exists s'. by rewrite Hi, Hq.
Qed.

(** *** Addresses *)

Lemma elem_of_add_known x known addrs : x ∈ add_known known addrs ↔ x ∈ known ∨ x ∈ addrs.
Proof.
  unfold add_known. revert known. induction addrs as [|a addrs IH]; intros known; cbn [foldl]; [set_solver|].
  rewrite IH. case_bool_decide; set_solver.
Qed.

Lemma add_known_NoDup known addrs : NoDup known → NoDup (add_known known addrs).
Proof.
  unfold add_known. revert known. induction addrs as [|a addrs IH]; intros known Hk; cbn [foldl]; [done|].
  apply IH. case_bool_decide; [done|]. apply NoDup_app. split_and!; [done| |apply NoDup_singleton]. set_solver.
Qed.

Lemma add_known_prefix known addrs : known `prefix_of` add_known known addrs.
Proof.
  unfold add_known. revert known. induction addrs as [|a addrs IH]; intros known; cbn [foldl]; [done|].
  etrans; [|apply IH]. case_bool_decide; [done|]. by apply prefix_app_r.
Qed.

Lemma add_known_id known addrs : (∀ a, a ∈ addrs → a ∈ known) → add_known known addrs = known.
Proof.
  unfold add_known. revert known. induction addrs as [|a addrs IH]; intros known Hk; cbn [foldl]; [done|].
  rewrite bool_decide_eq_true_2 by set_solver. apply IH. set_solver.
Qed.

Lemma drop_message kind payload : drop 4 (message kind payload) = payload.
Proof. unfold message. by rewrite drop_app_length' by (symmetry; apply length_to_le_bytes). Qed.

(** The exchange of addresses: what a node answers to a request for
    addresses, given to another node, makes that node know exactly its own and
    the first one's addresses, in order, its own first and none twice; taking
    the same answer again changes nothing. *)
Theorem addr_exchange wf `{!BincodeOk (list string) wf} e e' pa pb ipa ipb q sa sb :
  arcs sa !! pa = Some q → wf (known_peers sa) →
  let reply := message MSG_ADDR (serialize (known_peers sa)) in
  handle_message e (message 9 []) pa ipa sa = (Ok tt, set_arcs (<[pa := send_to reply q]> (arcs sa)) sa) ∧
  ∃ known, handle_message e' reply pb ipb sb = (Ok tt, set_known known sb) ∧
    (∀ a, a ∈ known ↔ a ∈ known_peers sb ∨ a ∈ known_peers sa) ∧
    known_peers sb `prefix_of` known ∧ (NoDup (known_peers sb) → NoDup known) ∧
    handle_message e' reply pb ipb (set_known known sb) = (Ok tt, set_known known sb).
Proof.
  intros Hq Hw reply. split.
  - rewrite handle_message_eq by done. unfold dispatch, handle_getaddr, send, on_peer. run_m. cbn [Z.eqb Pos.eqb orb].
    do 2 f_equal. apply map_eq. intros i. destruct (decide (i = pa)) as [->|].
    + by rewrite lookup_alter_eq, lookup_insert_eq, Hq.
    + by rewrite lookup_alter_ne, lookup_insert_ne.
  - assert (E : ∀ s, handle_message e' reply pb ipb s = (Ok tt, set_known (add_known (known_peers s) (known_peers sa)) s)).
    { intros s. unfold reply. rewrite handle_message_eq by done. unfold dispatch, handle_addr. run_m. cbn [Z.eqb Pos.eqb orb].
      rewrite drop_message, (deserialize_serialize (wf:=wf)) by done. done. }
    exists (add_known (known_peers sb) (known_peers sa)). split_and!.
    + apply E.
    + intros a. apply elem_of_add_known.
    + apply add_known_prefix.
    + apply add_known_NoDup.
    + rewrite E. cbn [known_peers set_known]. rewrite (add_known_id (add_known _ _)); [done|].
      intros a Ha. apply elem_of_add_known. by right.
Qed.

End Messages.

(** *** Frames *)

Section Frames.
  Context {CR : Crypto} {CD : Codec} {RK : Rocks} {RT : RetryPolicy} {HO : HashOrder} {HP : HeapOrder}
    {SR : SupplyReader} {WR : Wire} {WRO : WireOk}.

(** What the sending task writes the reading task of the other side reads
    back, compressed or not, within the limits of size. *)
Theorem frame_round_trip msg f :
  frame msg = Ok f → Z.of_nat (length msg) <= MAX_MSG_DECOMPRESSED → Z.of_nat (length f) - 1 <= MAX_COMPRESSED_SIZE →
  unframe f = Ok msg.
Proof.
  unfold frame. case_match; [|by intros [= <-]]. intros (c & Hc%ok_or_Ok & [= <-])%bind_Ok Hm Hl.
  unfold unframe. change (drop 1 (1 :: c)) with c. rewrite bool_decide_eq_true_2 by done. cbn [length] in Hl.
  rewrite (proj2 (Z.ltb_ge MAX_COMPRESSED_SIZE (Z.of_nat (length c)))) by lia. rewrite (snappy_round_trip _ _ Hc). cbn [ok_or mbind outcome_bind].
  by rewrite (proj2 (Z.ltb_ge _ _) Hm).
Qed.

(** The heartbeat ends the reading task that receives it, without [remove_peer]. *)
Lemma heartbeat_ends_reader e ev p ip es f s :
  frame heartbeat = Ok f → reader p ip ((e, Read f) :: (e, ev) :: es) s = (Err (InvalidBlock "Message too short"), s).
Proof. by intros [= <-]. Qed.

End Frames.

(** *** Relaying *)

Section Relay.
  Context {CR : Crypto} {CD : Codec} {RK : Rocks} {RT : RetryPolicy} {HO : HashOrder} {HOO : HashOrderOk} {HP : HeapOrder}
    {SR : SupplyReader} {WR : Wire}.

(** The peers in the map, by address. *)
Definition connections (ps : gmap IpAddr (list nat)) : list nat := concat (map_to_list ps).*2.

Definition send_all (msg : bytes) (l : list nat) (a : gmap nat Peer) : gmap nat Peer :=
  foldl (λ a p, alter (send_to msg) p a) a l.

Lemma mfor_send msg l s : mfor (send msg) l s = (Ok tt, set_arcs (send_all msg l (arcs s)) s).
Proof.
  revert s. induction l as [|p l IH]; intros s; cbn [mfor]; [by destruct s|].
  unfold mbind, M_bind, send at 1, on_peer, modify. by rewrite IH.
Qed.

Lemma send_all_app msg l k a : send_all msg (l ++ k) a = send_all msg k (send_all msg l a).
Proof. apply foldl_app. Qed.

Lemma mfor_broadcast msg (l : list (IpAddr * list nat)) s :
  mfor (λ e, mfor (send msg) e.2) l s = (Ok tt, set_arcs (send_all msg (concat l.*2) (arcs s)) s).
Proof.
  revert s. induction l as [|[ip k] l IH]; intros s; cbn [mfor]; [by destruct s|].
  unfold mbind, M_bind. cbn [snd]. rewrite mfor_send, IH. csimpl. by rewrite send_all_app.
Qed.

Lemma lookup_send_all msg l a p :
  NoDup l → send_all msg l a !! p = (if bool_decide (p ∈ l) then send_to msg else id) <$> a !! p.
Proof.
  revert a. induction l as [|q l IH]; intros a Hn; cbn [send_all foldl].
  { rewrite bool_decide_eq_false_2 by apply not_elem_of_nil. by destruct (a !! p). }
  apply NoDup_cons in Hn as [Hq Hn]. change (foldl _ ?x l) with (send_all msg l x). rewrite IH by done.
  destruct (decide (p = q)) as [->|Hpq].
  - rewrite lookup_alter_eq, (bool_decide_eq_false_2 (q ∈ l)), bool_decide_eq_true_2 by set_solver.
    by destruct (a !! q).
  - rewrite lookup_alter_ne by done. by rewrite (bool_decide_ext (p ∈ q :: l) (p ∈ l)) by set_solver.
Qed.

Lemma broadcast_spec msg s :
  peers_written s = false → NoDup (connections (peers s)) →
  ∃ a, broadcast msg s = (Ok tt, set_arcs a s) ∧
    ∀ p, a !! p = (if bool_decide (p ∈ connections (peers s)) then send_to msg else id) <$> arcs s !! p.
Proof.
  intros Hw Hn. unfold broadcast, read_peers. unfold mbind at 1, M_bind. rewrite Hw, mfor_broadcast.
  eexists. split; [done|]. intros p.
  assert (Hp : concat (hash_iter (peers s)).*2 ≡ₚ connections (peers s)).
  { unfold connections. by rewrite hash_iter_perm. }
  rewrite lookup_send_all by by rewrite Hp. by rewrite (bool_decide_ext _ (p ∈ connections (peers s))) by by rewrite Hp.
Qed.

(** A transaction that the pool accepts is announced once to every
    connected peer, the sender included, and to nobody else; a transaction that
    it refuses changes nothing but the pool, and its sender is not punished. *)
Theorem tx_relayed e t p ip s m r :
  deserialize (serialize t) = Some t →
  sp_held (chain_mempool (pm_chain s)) = false → peers_written s = false → NoDup (connections (peers s)) →
  insert 1 (db (pm_chain s)) t (e_ms e) (sp_pool (chain_mempool (pm_chain s))) = (r, m) →
  let s1 := set_chain (set_mempool (mkSharedPool m false : mempool) (pm_chain s)) s in
  (r = Ok true → ∃ a, handle_message e (message MSG_TX (serialize t)) p ip s = (Ok tt, set_arcs a s1) ∧
     ∀ q, a !! q = (if bool_decide (q ∈ connections (peers s)) then send_to (message 1 (tx_hash t)) else id) <$> arcs s !! q) ∧
  (r = Ok false ∨ (∃ err, r = Err err) →
     handle_message e (message MSG_TX (serialize t)) p ip s = (Ok tt, s1)).
Proof.
  intros Hd Hh Hw Hn Hi s1.
  assert (E : ∀ k, (∃ b, r = Ok b) ∨ (∃ err, r = Err err) →
    (attempt (on_chain (hold_pool (pool_insert t (e_ms e)))) ≫= k) s = k r s1 :> outcome unit * PeerManager).
  { intros k Hr. unfold mbind, M_bind, attempt, on_chain, hold_pool, pool_insert. rewrite Hh.
    cbn [chain_mempool set_mempool sp_pool db sp_held]. rewrite Hi.
    by destruct Hr as [[b ->]|[err ->]]. }
  assert (E2 : handle_message e (message MSG_TX (serialize t)) p ip s =
    (attempt (on_chain (hold_pool (pool_insert t (e_ms e)))) ≫= λ r, match r with
       | Ok true => broadcast (to_le_bytes 4 1 ++ tx_hash t) | _ => mret tt end) s).
  { rewrite handle_message_eq by done. unfold dispatch, handle_tx. cbn [Z.eqb Pos.eqb orb MSG_TX].
    unfold mbind at 1, M_bind, lift. by rewrite drop_message, Hd. }
  rewrite E2. split.
  - intros ->. rewrite E by eauto. change (to_le_bytes 4 1 ++ tx_hash t) with (message 1 (tx_hash t)).
    by apply (broadcast_spec (message 1 (tx_hash t)) s1).
  - intros [->|[err ->]]; rewrite E by eauto; done.
Qed.

End Relay.

Section Blocks.
  Context {CR : Crypto} {CD : Codec} {RK : Rocks} {RKO : RocksOk} {RT : RetryPolicy} {HO : HashOrder} {HOO : HashOrderOk}
    {HP : HeapOrder} {SR : SupplyReader} {WR : Wire}.

(** While a write guard of the pool is alive no block is added. *)
Lemma add_block_pool_held n clk block c b c' :
  sp_held (chain_mempool c) = true → add_block n clk block c = (Ok b, c') →
  b = false ∧ ∃ o, c' = set_orphans o c.
Proof.
  intros Hh H. apply add_block_Ok in H as (_ & hash & _ & [(_ & -> & ->)|[(_ & _ & -> & o & _ & ->)|H]]).
  - split; [done|]. exists (orphan_blocks c). by destruct c.
  - split; [done|]. by exists o.
  - exfalso. destruct H as (_ & add & ph & c1 & c2 & _ & _ & Hc & Hf & _).
    assert (Keeps (λ c' : Chain (MP:=pool_ops), sp_held (chain_mempool c') = true) (connect_block clk block ph)) as Hk
      by (apply keeps_connect_block; [intros d|]; intros ? E; exact E).
    destruct (Hk (set_locked true c) eq_refl Hh) as [_ Hh1].
    apply connect_block_Ok in Hc as Hv; [|done]. destruct Hv as (_ & Hv & _).
    apply validate_block_accepted in Hv as (? & ? & ? & ? & Hacc).
    destruct (acc_coinbase _ _ _ _ _ _ _ _ Hacc) as (cb & rest & Htx & _).
    rewrite Hc in Hh1. cbn [snd] in Hh1. unfold finish_block in Hf. rewrite Htx in Hf.
    apply M_bind_Ok in Hf as ([] & c3 & Hs & Hf). unfold on_db in Hs.
    destruct (save_block _ _ _) as [rs d]. injection Hs as -> <-.
    apply M_bind_Ok in Hf as ([] & c4 & Hm & _). cbn [mfor] in Hm. apply M_bind_Ok in Hm as ([] & c5 & Hm & _).
    unfold on_mempool in Hm. cbn [chain_mempool set_db] in Hm.
    change (mempool_remove (tx_hash cb) (chain_mempool c1)) with (shared_remove (tx_hash cb) (chain_mempool c1)) in Hm.
    unfold shared_remove in Hm. by rewrite Hh1 in Hm.
Qed.

(** No block a peer sends ever extends the chain: the handler holds the
    pool while [add_block] asks for it to remove the block's transactions.  A
    message that returns at all has changed nothing but the orphans, and
    announced nothing. *)
Theorem block_message_never_adds e (block : Block) p ip s s' :
  deserialize (serialize block) = Some block →
  handle_message e (message MSG_BLOCK (serialize block)) p ip s = (Ok tt, s') →
  ∃ o, s' = set_chain (set_orphans o (pm_chain s)) s.
Proof.
  intros Hd. rewrite handle_message_eq by done. unfold dispatch, handle_block. cbn [Z.eqb Pos.eqb orb MSG_BLOCK].
  unfold mbind at 1, M_bind, lift. rewrite drop_message, Hd. cbn [ok_or].
  intros (b & s1 & Ha & H)%M_bind_Ok. unfold on_chain, hold_pool in Ha.
  destruct (sp_held (chain_mempool (pm_chain s))) eqn:Hh; [done|].
  destruct (add_block 2 (e_clk e) block _) as [[b'| | |] c1] eqn:E; simplify_eq.
  apply add_block_pool_held in E as [-> [o ->]]; [|done].
  injection H as <-. exists o. f_equal. destruct (pm_chain s) as [? ? ? ? ? ? ? ? ? ? [m h]]. simpl in Hh. by subst h.
Qed.

End Blocks.

(** ** Witnesses *)

#[export] Instance sample_wire : Wire := {|
  EdKey := bytes;
  EdKey_from_bytes := Some;
  EdSig := bytes;
  EdSig_from_bytes := Some;
  ed_verify _ _ _ := true;
  EdKeypair := bytes;
  ed_public k := k;
  ed_sign _ _ := replicate 64 7;
  PeerId_from_bytes := Some;
  snappy_compress := Some;
  snappy_uncompress := Some;
  ip_display ip := match ip with V4 o => bytes_string o | V6 o => bytes_string o end;
  serialize_u32 := to_le_bytes 4;
  serialize_addr_msg kind now l := to_le_bytes 4 kind ++ to_le_bytes 16 now ++ serialize l;
|}.

#[export] Instance sample_wire_ok : WireOk.
Proof. by intros m c [= ->]. Defined.

(** A chain without blocks over the sample database, with an empty pool. *)
Definition net_chain : Chain (RK:=mem_rocks) :=
  fresh_chain (RK:=mem_rocks) sample_db zero_hash 0 zero_hash ∅ (mkSharedPool pool_0 false).

Definition sample_cfg : NetConfig := mkNetConfig 100 8333.

Definition sample_keypair : EdKeypair (Wire:=sample_wire) := replicate 32 3.

Definition sample_ip : IpAddr := V4 [10; 0; 0; 1].

Definition sample_hs : hs_env :=
  mkHsEnv (Ok 1732061000000) (replicate 12 1) (λ n, Some (replicate n 1)) (Ok 1732061000000) (Ok 1732061000000).

Lemma sample_hs_exact : read_exact sample_hs.
Proof. intros n buf [= <-]. apply length_replicate. Qed.

Definition net_start : PeerManager (RK:=mem_rocks) := PeerManager_new ["seed:8333"%string] net_chain.

(** A node with one peer, as if a handshake had succeeded. *)
Definition sample_peer : Peer := Peer_new (ed_public sample_keypair).

Definition net_peer : PeerManager (RK:=mem_rocks) :=
  set_arcs {[ 0%nat := sample_peer ]} (set_peers {[ sample_ip := [0%nat] ]} net_start).

Definition sample_msg_env : msg_env := mkMsgEnv (mkMoment 1000 1732061000) sample_clock (Ok 5).

Lemma handshake_refused_witness :
  (handshake sample_keypair sample_hs 0 net_peer).1 ≠ Ok tt.
Proof.
  apply (handshake_refused sample_keypair sample_hs 0 net_peer). apply sample_hs_exact.
Defined.

Lemma node_stays_isolated_witness :
  isolated ["seed:8333"%string] (add_peer sample_cfg sample_keypair sample_hs (mkMoment 0 0) (Ok 0) sample_ip net_start).2.
Proof.
  apply (node_stays_isolated sample_cfg sample_keypair ["seed:8333"%string] net_chain).
  eapply rtc_once. constructor. apply sample_hs_exact.
Defined.

Lemma five_failures_ban_witness :
  ∃ s4 s5, mfor (decrease_reputation 0 sample_ip) (repeat (mkMoment 0 0) 4) net_peer = (Ok tt, s4) ∧
    decrease_reputation 0 sample_ip (mkMoment 10 20) s4 = (Ok tt, s5) ∧ peers s5 = ∅ ∧
    (is_banned sample_ip 259209 s5).1 = Ok true ∧ (is_banned sample_ip 259210 s5).1 = Ok false.
Proof.
  destruct (five_failures_ban 0 sample_ip sample_peer net_peer (mkMoment 0 0) (mkMoment 0 0) (mkMoment 0 0) (mkMoment 0 0) (mkMoment 10 20))
    as (s4 & s5 & H1 & _ & _ & _ & H2 & H3 & H4); [done|done|done|].
  exists s4, s5. split_and!; [exact H1|exact H2|by rewrite H3|by rewrite H4|by rewrite H4].
Defined.

Lemma disconnect_wedges_witness :
  (remove_peer sample_ip 0 net_peer).1 = Hang ∧ peers (remove_peer sample_ip 0 net_peer).2 = ∅.
Proof.
  destruct (disconnect_wedges sample_ip 0 net_peer) as (H1 & H2 & _); [done|]. by rewrite H2.
Defined.

Lemma short_message_panics_witness :
  (handle_message sample_msg_env (message 11 [1; 2]) 0 sample_ip net_peer).1 = Panic ∧
  (handle_message sample_msg_env (message 3 (to_le_bytes 4 2 ++ replicate 32 9 ++ [])) 0 sample_ip net_peer).1 = Panic.
Proof.
  destruct (short_message_panics sample_msg_env 11 [1; 2] 0 sample_ip net_peer) as [H1 H2].
  - set_solver.
  - apply (bool_decide_unpack _). by vm_compute.
  - apply (bool_decide_unpack _). by vm_compute.
  - split; [exact H1|]. by apply (H2 (replicate 32 9) []).
Defined.

Lemma announcements_limited_witness :
  Z.of_nat (length (inv_tx (handle_all [(sample_msg_env, message 1 (replicate 32 9), 0%nat, sample_ip)] net_peer))) <= 1000.
Proof.
  apply (announcements_limited (ed_public sample_keypair) net_peer [(sample_msg_env, message 1 (replicate 32 9), 0%nat, sample_ip)]).
  - intros p q. change (arcs net_peer) with ({[ 0%nat := sample_peer ]} : gmap nat Peer). by intros [_ <-]%lookup_singleton_Some.
  - done.
  - done.
  - repeat constructor. by exists sample_peer.
  - done.
Defined.

Lemma addr_exchange_witness :
  ∃ known, handle_message sample_msg_env (message MSG_ADDR (serialize ["seed:8333"%string])) 0 sample_ip
             (set_known ["other:1"%string] net_peer) = (Ok tt, set_known known net_peer) ∧ NoDup known.
Proof.
  destruct (addr_exchange (CD:=sample_codec) (cwf (c_list c_string)) (BincodeOk0:=codec_bincode_ok _) sample_msg_env sample_msg_env 0 0 sample_ip sample_ip sample_peer
    net_peer (set_known ["other:1"%string] net_peer)) as (_ & known & H1 & _ & _ & H2 & _).
  - done.
  - apply (bool_decide_unpack _). by vm_compute.
  - exists known. split; [exact H1|]. apply H2. apply NoDup_singleton.
Defined.

Lemma frame_round_trip_witness : unframe (1 :: replicate 1025 7) = Ok (replicate 1025 7).
Proof. apply (frame_round_trip (replicate 1025 7)); by vm_compute. Defined.

Lemma tx_relayed_witness :
  ∃ a m, handle_message sample_msg_env (message MSG_TX (serialize pool_parent)) 0 sample_ip net_peer =
    (Ok tt, set_arcs a (set_chain (set_mempool (mkSharedPool m false : mempool) net_chain) net_peer)) ∧
    write_tx <$> a !! 0%nat = Some [message 1 (tx_hash pool_parent)].
Proof.
  destruct (tx_relayed (RK:=mem_rocks) sample_msg_env pool_parent 0 sample_ip net_peer
    (insert (RK:=mem_rocks) 1 sample_db pool_parent (Ok 5) pool_0).2 (Ok true)) as [H _].
  - by vm_compute.
  - done.
  - done.
  - apply (bool_decide_unpack _). by vm_compute.
  - apply run_eta. by vm_compute.
  - destruct (H eq_refl) as (a & E & Ha). exists a. eexists. split; [exact E|]. rewrite Ha. by vm_compute.
Defined.

Lemma block_message_never_adds_witness :
  ∃ o, (handle_message sample_msg_env (message MSG_BLOCK (serialize block_2)) 0 sample_ip net_peer).2 =
    set_chain (set_orphans o net_chain) net_peer.
Proof.
  apply (block_message_never_adds (RK:=mem_rocks) sample_msg_env block_2 0 sample_ip net_peer).
  - by vm_compute.
  - apply run_eta. by vm_compute.
Defined.

(** Two hundred peers of one subnet: the limit of two looks for an entry under
    the address of the subnet, which no peer has. *)
Example subnet_limit_unused :
  refuses (mkNetConfig 1000 0) (V4 [10; 0; 0; 250])
    (list_to_map ((λ i, (V4 [10; 0; 0; i], [Z.to_nat i])) <$> seqZ 1 200)) = false.
Proof. by vm_compute. Qed.

(** The announcement of a new peer is not what its receiver decodes. *)
Example announced_addr_undecodable :
  deserialize (A:=list string) (drop 4 (serialize_addr_msg MSG_ADDR 1732061000000 ["10.0.0.1:8333"%string])) = None.
Proof. by vm_compute. Qed.
