(* ===== verification/AddrIndex.v ===== *)
(** * AddrIndex: reading the index of addresses and of transactions

    The readers of the column families [addr_index] and [tx_index] in
    src/111/src/main.rs: the balance of an address (command line and RPC), the
    explorer (blocks, transactions, addresses, the rich list) and the helpers
    of the graphical wallet.  What the chain writes there is the business of
    Ledger.v and Chain.v; [index_layout] states it.

    Printing and the decoding of hexadecimal arguments are left out; a command
    answers the values it prints. *)
From S2P Require Import Prelude Errors Types Externals Instances Utils Keys Tx Ledger Store Chain.

Section AddrIndex.
  Context {CR : Crypto} {CD : Codec} {RK : Rocks} {HO : HashOrder} {MP : MempoolOps}.

Definition addr_prefix (pkh : bytes) : bytes := bstr "addr:" ++ pkh.

(** [iterator_cf(&cf, From(&prefix, Forward))], up to the first key without
    the prefix. *)
Definition addr_entries (d : DB) (pkh : bytes) : outcome (list (bytes * bytes)) :=
  l ← iterator_cf d "addr_index";
  Ok (while_prefix (addr_prefix pkh) (seek (addr_prefix pkh) l)).

(** [u64::from_be_bytes(v.try_into()?)], and the [u32] one. *)
Definition be_u64 (v : bytes) : outcome Z := be_uint 8 v "slice length".

Definition be_u32 (v : bytes) : outcome Z := be_uint 4 v "slice length".

(** ** Balances *)

(** [wallet balance --address] *)
Definition cli_balance (d : DB) (address : string) : outcome Z :=
  pubkey_hash ← address_to_pubkey_hash address;
  require_cf d "addr_index" "CF addr_index missing";;
  l ← addr_entries d pubkey_hash;
  for_each (λ balance kv, v ← be_u64 kv.2; unwrap (checked_add 64 balance v)) 0 l.

(** The loop of the RPC handler: a value of another length is skipped, and an
    overflow leaves the sum as it is. *)
Definition rpc_add (balance : Z) (kv : bytes * bytes) : Z :=
  match be_u64 kv.2 with
  | Ok v => default balance (checked_add 64 balance v)
  | _ => balance
  end.

Definition rpc_sum (d : DB) (pubkey_hash : bytes) : outcome Z :=
  l ← addr_entries d pubkey_hash;
  Ok (foldl rpc_add 0 l).

(** ** The helpers of the graphical wallet *)

Definition get_block_timestamp (d : DB) (height : Z) : outcome Z :=
  v ← db_get d (height_key height);
  hash_bytes ← ok_or v (Anyhow "Block hash not found");
  v ← db_get d (block_key hash_bytes);
  block_bytes ← ok_or v (Anyhow "Block not found");
  block ← ok_or (deserialize (A:=Block) block_bytes) (Anyhow "deserialize");
  Ok (timestamp (header block)).

Definition height_from_txid (d : DB) (id : bytes) : outcome Z :=
  require_cf d "tx_index" "tx_index CF missing";;
  v ← get_cf d "tx_index" id;
  data ← ok_or v (Anyhow "Tx not found in index");
  pos ← ok_or (deserialize (A:=Z * Z) data) (Anyhow "deserialize");
  Ok pos.1.

(** [key[5..37]], [key[37..41]]: as the code slices them. *)
Definition read_entry (kv : bytes * bytes) : outcome (bytes * Z * Z) :=
  id ← slice 5 37 kv.1;
  n ← slice 37 41 kv.1;
  n ← be_u32 n;
  v ← be_u64 kv.2;
  Ok (id, n, v).

Definition query_addr_index (d : DB) (pkh : bytes) : outcome (list (bytes * Z * Z)) :=
  unwrap (if cf_handle d "addr_index" then Some tt else None);;
  l ← addr_entries d pkh;
  for_each (λ res kv, e ← read_entry kv; Ok (res ++ [e])) [] l.

(** ** The explorer *)

(** The decoded argument of [explorer block]. *)
Inductive block_arg :=
  | ByHash (hash : bytes)
  | ByHeight (height : Z).

Record block_info := mkBlockInfo {
  bi_height : Z;
  bi_hash : bytes;
  bi_timestamp : Z;
  bi_tx_count : Z;
  bi_size : Z;
}.

Definition explorer_block (c : Chain) (arg : block_arg) : outcome block_info :=
  block ← match arg with
          | ByHash hash =>
              match hash_to_height (state c) !! hash with
              | Some h => load_block_from_db (db c) h
              | None => bail (Anyhow "Block not found")
              end
          | ByHeight height => load_block_from_db (db c) height
          end;
  hash ← header_hash (header block);
  let height := default 0 (hash_to_height (state c) !! hash) in
  Ok (mkBlockInfo height hash (timestamp (header block)) (Z.of_nat (length (txs block))) (block_size block)).

Record tx_info := mkTxInfo {
  ti_height : Z;
  ti_confirmations : Z;
  ti_inputs : Z;
  ti_outputs : Z;
}.

(** The search through the last blocks, from the tip down, which prints
    nothing. *)
Fixpoint scan_txs (d : DB) (id : bytes) (heights : list Z) : outcome bool :=
  match heights with
  | [] => Ok false
  | h :: heights =>
      block ← load_block_from_db d h;
      if existsb (λ t, bool_decide (tx_hash t = id)) (txs block) then Ok true else scan_txs d id heights
  end.

Definition scanned_heights (best : Z) : list Z :=
  reverse (seqZ (saturating_sub best 10000) (best - saturating_sub best 10000 + 1)).

(** [explorer tx]: what it prints. *)
Definition explorer_tx (c : Chain) (id : bytes) : outcome (option tx_info) :=
  found ← (if cf_handle (db c) "tx_index" then get_cf (db c) "tx_index" id else Ok None);
  match found with
  | Some data =>
      pos ← ok_or (deserialize (A:=Z * Z) data) (Anyhow "deserialize");
      block ← load_block_from_db (db c) pos.1;
      t ← index (txs block) (Z.to_nat pos.2);
      Ok (Some (mkTxInfo pos.1 (wadd 64 (wsub 64 (best_height c) pos.1) 1)
        (Z.of_nat (length (inputs t))) (Z.of_nat (length (outputs t)))))
  | None => scan_txs (db c) id (scanned_heights (best_height c));; Ok None
  end.

(** [&txs[start..end.min(len)]] when [start] is in range. *)
Definition page_slice {A} (page page_size : Z) (l : list A) : outcome (list A) :=
  let start := wmul 64 (wsub 64 page 1) page_size in
  let stop := Z.min (wadd 64 start page_size) (Z.of_nat (length l)) in
  if start <? Z.of_nat (length l) then
    if stop <? start then Panic else Ok (take (Z.to_nat (stop - start)) (drop (Z.to_nat start) l))
  else Ok [].

(** [explorer address]: the number of entries and those of the page. *)
Definition explorer_address (d : DB) (address : string) (page page_size : Z) : outcome (Z * list (bytes * Z * Z)) :=
  pubkey_hash ← address_to_pubkey_hash address;
  txs ← query_addr_index d pubkey_hash;
  page_txs ← page_slice page page_size txs;
  Ok (Z.of_nat (length txs), page_txs).

(** [balances.entry(pkh).or_insert(0).add_assign(val)] over the whole index. *)
Definition rich_add (balances : gmap bytes Z) (kv : bytes * bytes) : outcome (gmap bytes Z) :=
  if starts_with (bstr "addr:") kv.1 then
    pkh ← slice 5 25 kv.1;
    v ← be_u64 kv.2;
    Ok (<[pkh := wadd 64 (default 0 (balances !! pkh)) v]> balances)
  else Ok balances.

(** [b.1.cmp(a.1)]: richest first. *)
Definition richer (a b : bytes * Z) : Prop := b.2 <= a.2.

#[export] Instance richer_dec a b : Decision (richer a b).
Proof. unfold richer. apply _. Defined.

Definition rich_sorted (d : DB) : outcome (list (bytes * Z)) :=
  unwrap (if cf_handle d "addr_index" then Some tt else None);;
  l ← iterator_cf d "addr_index";
  balances ← for_each rich_add ∅ l;
  Ok (merge_sort richer (hash_iter balances)).

Definition page_start (page page_size : Z) : Z := wmul 64 (wsub 64 page 1) page_size.

(** [.skip(start).take(page_size)] *)
Definition rich_list (d : DB) (page page_size : Z) : outcome (list (bytes * Z)) :=
  sorted ← rich_sorted d;
  Ok (take (Z.to_nat page_size) (drop (Z.to_nat (page_start page page_size)) sorted)).

End AddrIndex.

(** ** What the readers see *)

Section Readers.
  Context {CR : Crypto} {CRO : CryptoOk} {CD : Codec} {RK : Rocks} {RKO : RocksOk} {HO : HashOrder} {HOO : HashOrderOk}.

(** Every entry of the index is one that connecting a block writes. *)
Definition index_layout (d : DB) : Prop :=
  ∀ k v, contents d !! ("addr_index", k) = Some v →
    ∃ spk id n, k = addr_key spk id n ∧ length id = 32%nat ∧ uint 32 n ∧ length v = 8%nat ∧ Forall byte v.

Lemma addr_entries_spec d pkh l :
  addr_entries d pkh = Ok l →
  NoDup l.*1 ∧ ∀ k v, (k, v) ∈ l ↔ contents d !! ("addr_index", k) = Some v ∧ starts_with (addr_prefix pkh) k = true.
Proof.
  unfold addr_entries. intros (l0 & Hit & [= <-])%bind_Ok. destruct (iterator_cf_sound _ _ _ Hit) as [Hn Hmem]. split.
  - eapply sublist_NoDup; [exact Hn|]. apply fmap_sublist. etrans; [apply while_prefix_sublist|apply seek_sublist].
  - intros k v. rewrite prefix_scan_spec by (by eapply iterator_cf_sorted). by rewrite Hmem.
Qed.

(** An entry under the prefix of a hash is one of an output whose locking
    script has that hash. *)
Lemma addr_entry_script d pkh l k v :
  index_layout d → length pkh = 20%nat → addr_entries d pkh = Ok l → (k, v) ∈ l →
  ∃ spk id n, k = bstr "addr:" ++ pkh ++ id ++ to_be_bytes 4 n ∧ hash160 spk = pkh ∧
    length id = 32%nat ∧ uint 32 n ∧ length v = 8%nat ∧ Forall byte v.
Proof.
  intros Hl Hp He Hin. apply addr_entries_spec in He as [_ Hmem]. apply Hmem in Hin as [Hk Hs].
  apply Hl in Hk as (spk & id & n & -> & Hid & Hn & Hv & Hb). exists spk, id, n.
  apply starts_with_spec in Hs as [r Hr]. unfold addr_key, addr_prefix in Hr. rewrite <- app_assoc in Hr.
  apply (inj (app (bstr "addr:"))) in Hr. apply app_inj_1 in Hr as [Hr _].
  2: { rewrite Hp. apply ripemd160_array. }
  split_and!; try done. unfold addr_key. by rewrite Hr.
Qed.

(** The values under an address. *)
Definition entry_values (l : list (bytes * bytes)) : list Z := (λ kv, from_be_bytes kv.2) <$> l.

Lemma from_be_bytes_nonneg l : Forall byte l → 0 <= from_be_bytes l.
Proof.
  intros H. unfold from_be_bytes. apply Forall_reverse in H. induction H as [|b k Hb _ IH]; cbn; [lia|].
  unfold byte in Hb. lia.
Qed.

Definition wf_entries (l : list (bytes * bytes)) : Prop := Forall (λ kv, length kv.2 = 8%nat ∧ Forall byte kv.2) l.

Lemma layout_wf_entries d pkh l : index_layout d → length pkh = 20%nat → addr_entries d pkh = Ok l → wf_entries l.
Proof.
  intros Hl Hp He. apply Forall_forall. intros [k v] Hin.
  by destruct (addr_entry_script d pkh l k v Hl Hp He Hin) as (? & ? & ? & _ & _ & _ & _ & ? & ?).
Qed.

Lemma be_u64_wf v : length v = 8%nat → be_u64 v = Ok (from_be_bytes v).
Proof. intros H. unfold be_u64, be_uint. by rewrite H. Qed.

Lemma cli_sum l b :
  wf_entries l → 0 <= b < 2 ^ 64 →
  for_each (λ balance kv, v ← be_u64 kv.2; unwrap (checked_add 64 balance v)) b l =
  if b + sumZ (entry_values l) <? 2 ^ 64 then Ok (b + sumZ (entry_values l)) else Panic.
Proof.
  intros Hl. revert b. induction Hl as [|kv l [Hv Hb] Hl IH]; intros b Hr; cbn [for_each entry_values fmap list_fmap sumZ foldr].
  { rewrite Z.add_0_r. by rewrite (proj2 (Z.ltb_lt b (2 ^ 64))) by lia. }
  rewrite be_u64_wf by done. cbn [mbind outcome_bind]. change (foldr Z.add 0 ?x) with (sumZ x).
  fold (entry_values l). pose proof (from_be_bytes_nonneg _ Hb).
  assert (0 <= sumZ (entry_values l)).
  { apply sumZ_nonneg, Forall_fmap. eapply Forall_impl; [exact Hl|]. intros x [_ Hx]. by apply from_be_bytes_nonneg. }
  destruct (checked_add 64 b (from_be_bytes kv.2)) as [c|] eqn:Ec; cbn [unwrap mbind outcome_bind].
  - apply checked_add_Some in Ec as [-> H1]. rewrite IH by lia. by rewrite !Z.add_assoc.
  - apply checked_add_None in Ec.
    destruct (Z.ltb_spec (b + (from_be_bytes kv.2 + sumZ (entry_values l))) (2 ^ 64)); [lia|done].
Qed.

Lemma rpc_sum_small l b :
  wf_entries l → 0 <= b → b + sumZ (entry_values l) < 2 ^ 64 → foldl rpc_add b l = b + sumZ (entry_values l).
Proof.
  intros Hl. revert b. induction Hl as [|kv l [Hv Hb] Hl IH]; intros b H0 Hr; cbn [foldl entry_values fmap list_fmap sumZ foldr] in *.
  { lia. }
  change (foldr Z.add 0 ?x) with (sumZ x) in *. fold (entry_values l) in *. pose proof (from_be_bytes_nonneg _ Hb).
  assert (0 <= sumZ (entry_values l)).
  { apply sumZ_nonneg, Forall_fmap. eapply Forall_impl; [exact Hl|]. intros x [_ Hx]. by apply from_be_bytes_nonneg. }
  unfold rpc_add. rewrite be_u64_wf by done. rewrite (proj2 (checked_add_Some 64 b (from_be_bytes kv.2) _)) by (split; [done|lia]).
  change (default b (Some (b + from_be_bytes kv.2))) with (b + from_be_bytes kv.2). rewrite IH by lia. lia.
Qed.

(** The balance of an address on the command line and over RPC is one sum,
    that of the values of all entries of the index under the hash in the
    address, each counted once; when it does not fit 64 bits the command
    panics.  Spending an output leaves its entry, so this is what the address
    ever received. *)
Theorem address_balance d address pkh l :
  index_layout d → address_to_pubkey_hash address = Ok pkh →
  cf_handle d "addr_index" = true → addr_entries d pkh = Ok l →
  (NoDup l.*1 ∧ ∀ k v, (k, v) ∈ l ↔ contents d !! ("addr_index", k) = Some v ∧ starts_with (bstr "addr:" ++ pkh) k = true) ∧
  (sumZ (entry_values l) < 2 ^ 64 →
     cli_balance d address = Ok (sumZ (entry_values l)) ∧ rpc_sum d pkh = Ok (sumZ (entry_values l))) ∧
  (2 ^ 64 <= sumZ (entry_values l) → cli_balance d address = Panic ∧ ∃ b, rpc_sum d pkh = Ok b).
Proof.
  intros Hl Ha Hc He. assert (Hp : length pkh = 20%nat).
  { unfold address_to_pubkey_hash in Ha. apply bind_Ok in Ha as ([? p] & _ & Ha). inv_ok.
    repeat match goal with H : (_ =? _)%nat = true |- _ => apply Nat.eqb_eq in H end. congruence. }
  split; [by apply addr_entries_spec|]. pose proof (layout_wf_entries d pkh l Hl Hp He) as Hw.
  unfold cli_balance, rpc_sum, require_cf. rewrite Ha, He, Hc. cbn [mbind outcome_bind ensure].
  rewrite He. cbn [mbind outcome_bind]. rewrite cli_sum by (done || lia). rewrite Z.add_0_l. split; intros Hs.
  - rewrite (proj2 (Z.ltb_lt _ _) Hs). split; [done|]. by rewrite rpc_sum_small by (done || lia).
  - destruct (Z.ltb_spec (sumZ (entry_values l)) (2 ^ 64)); [lia|]. split; [done|]. by eexists.
Qed.

(** *** The layout the helpers read *)

Lemma read_entry_layout pkh id n v :
  length pkh = 20%nat → length id = 32%nat → length v = 8%nat →
  read_entry (bstr "addr:" ++ pkh ++ id ++ to_be_bytes 4 n, v) =
  Ok (pkh ++ take 12 id, from_be_bytes (sub_bytes 12 16 id), from_be_bytes v).
Proof.
  intros Hp Hi Hv. unfold read_entry. cbn [fst snd]. unfold slice.
  assert (Hl : length (bstr "addr:" ++ pkh ++ id ++ to_be_bytes 4 n) = 61%nat)
    by (rewrite !length_app, length_to_be_bytes; change (length (bstr "addr:")) with 5%nat; lia).
  rewrite Hl, !bool_decide_eq_true_2 by lia. cbn [mbind outcome_bind].
  assert (E1 : sub_bytes 5 37 (bstr "addr:" ++ pkh ++ id ++ to_be_bytes 4 n) = pkh ++ take 12 id).
  { unfold sub_bytes. rewrite drop_app_length' by done. change (37 - 5)%nat with 32%nat.
    rewrite take_app, Hp, take_ge by lia. f_equal. change (32 - 20)%nat with 12%nat. by rewrite take_app_le by lia. }
  assert (E2 : sub_bytes 37 41 (bstr "addr:" ++ pkh ++ id ++ to_be_bytes 4 n) = sub_bytes 12 16 id).
  { unfold sub_bytes. change (41 - 37)%nat with (16 - 12)%nat. rewrite drop_app_ge by (change (length (bstr "addr:")) with 5%nat; lia).
    change (37 - length (bstr "addr:"))%nat with 32%nat. rewrite drop_app_ge by lia. rewrite Hp.
    change (32 - 20)%nat with 12%nat. rewrite drop_app_le by lia. rewrite take_app_le; [done|]. rewrite length_drop. lia. }
  rewrite E1, E2. unfold be_u32, be_uint. rewrite length_sub_bytes by lia. cbn [Nat.sub Nat.eqb ensure mbind outcome_bind].
  by rewrite be_u64_wf.
Qed.

Lemma query_fold l res :
  Forall (λ kv, ∃ e, read_entry kv = Ok e) l →
  ∃ r, for_each (λ res kv, e ← read_entry kv; Ok (res ++ [e])) res l = Ok (res ++ r) ∧ Forall2 (λ kv e, read_entry kv = Ok e) l r.
Proof.
  intros Hl. revert res. induction Hl as [|kv l [e He] Hl IH]; intros res; cbn [for_each].
  { exists []. by rewrite app_nil_r. }
  rewrite He. cbn [mbind outcome_bind]. destruct (IH (res ++ [e])) as (r & E & H2). exists (e :: r).
  rewrite E, <- app_assoc. by split; [|constructor].
Qed.

(** The helper that the graphical wallet, the history and the explorer
    read the index with slices its keys as if the hash in front of the
    transaction id were not there: each entry it answers carries the hash and
    twelve bytes of the id where the id is expected, so that a lookup of the
    output or of the height with it asks for a transaction that is another one
    unless its id starts with the hash. *)
Theorem query_addr_index_shifted d pkh l :
  index_layout d → length pkh = 20%nat → cf_handle d "addr_index" = true → addr_entries d pkh = Ok l →
  ∃ r, query_addr_index d pkh = Ok r ∧ length r = length l ∧
    ∀ id' n' value, (id', n', value) ∈ r →
      ∃ spk id n v, (addr_key spk id n, v) ∈ l ∧ value = from_be_bytes v ∧ length id = 32%nat ∧
        id' = pkh ++ take 12 id ∧ (id' = id → starts_with pkh id = true).
Proof.
  intros Hl Hp Hc He.
  assert (Hr : ∀ kv, kv ∈ l → ∃ spk id n, kv = (addr_key spk id n, kv.2) ∧ length id = 32%nat ∧
    read_entry kv = Ok (pkh ++ take 12 id, from_be_bytes (sub_bytes 12 16 id), from_be_bytes kv.2)).
  { intros [k v] Hin. destruct (addr_entry_script d pkh l k v Hl Hp He Hin) as (spk & id & n & -> & Hs & Hi & _ & Hv & _).
    exists spk, id, n. split_and!; [|done|by apply read_entry_layout]. cbn [snd]. unfold addr_key. by rewrite Hs. }
  destruct (query_fold l []) as (r & E & H2).
  { apply Forall_forall. intros kv Hin. destruct (Hr kv Hin) as (? & ? & ? & _ & _ & ?). by eexists. }
  exists r. unfold query_addr_index. rewrite Hc, He. cbn [unwrap mbind outcome_bind]. rewrite E. split_and!; [done|symmetry; by eapply Forall2_length|].
  intros id' n' value [i Hi]%list_elem_of_lookup. apply (Forall2_lookup_r _ _ _ _ _ H2) in Hi as (kv & Hkv & Hrd).
  assert (Hin : kv ∈ l) by by eapply list_elem_of_lookup_2.
  destruct (Hr kv Hin) as (spk & id & n & Ek & Hid & Hrd'). rewrite Hrd in Hrd'. injection Hrd' as -> _ ->.
  exists spk, id, n, kv.2. split_and!; [by rewrite <- Ek|done|done|done|].
  intros Ei. rewrite <- Ei. apply starts_with_app.
Qed.

(** *** Pages *)

(** The pages of a list, from the first. *)
Definition pages_of {A} (page : Z → list A) (n : nat) : list A := concat (page <$> seqZ 1 (Z.of_nat n)).

Lemma take_drop_concat {A} (l : list A) (size : nat) n :
  concat ((λ i, take size (drop (size * Z.to_nat (i - 1)) l)) <$> seqZ 1 (Z.of_nat n)) = take (size * n) l.
Proof.
  induction n as [|n IH]; [by rewrite Nat.mul_0_r, take_0|].
  rewrite Nat2Z.inj_succ, <- Z.add_1_r, seqZ_app by lia. rewrite fmap_app, concat_app, IH.
  assert (∀ m, seqZ m 1 = [m]) as -> by done. cbn [fmap list_fmap concat]. rewrite app_nil_r. replace (Z.to_nat (1 + Z.of_nat n - 1)) with n by lia.
  rewrite Nat.mul_succ_r. rewrite <- (take_drop (size * n) (take (size * n + size) l)) at 1. f_equal.
  - by rewrite take_take, Nat.min_l by lia.
  - rewrite skipn_firstn_comm. f_equal. lia.
Qed.

Lemma page_slice_value {A} (l : list A) page size :
  1 <= page → 0 < size → page * size + size < 2 ^ 64 →
  page_slice page size l = Ok (take (Z.to_nat size) (drop (Z.to_nat size * Z.to_nat (page - 1)) l)).
Proof.
  intros H1 H2 H3. unfold page_slice. assert (0 <= (page - 1) * size) by nia.
  rewrite wsub_small by lia. unfold wmul. rewrite wrap_small by (unfold uint; lia).
  rewrite wadd_small by lia. set (start := (page - 1) * size) in *.
  assert (Hs : (Z.to_nat size * Z.to_nat (page - 1) = Z.to_nat start)%nat) by (unfold start; rewrite Z2Nat.inj_mul by lia; lia).
  rewrite Hs. destruct (Z.ltb_spec start (Z.of_nat (length l))) as [Hlt|Hge].
  - destruct (Z.ltb_spec (Z.min (start + size) (Z.of_nat (length l))) start) as [?|_]; [lia|]. f_equal.
    destruct (Z.min_spec (start + size) (Z.of_nat (length l))) as [[? ->]|[? ->]].
    + f_equal. lia.
    + rewrite !take_ge; [done|rewrite length_drop; lia..].
  - rewrite drop_ge by lia. by rewrite take_nil.
Qed.

(** The pages of the explorer partition its list: without overflow, the
    pages from 1 to [n] are the first [n * size] entries, in order, so that
    every entry is on exactly one page; and page 0 is empty. *)
Theorem pages_partition {A} (l : list A) size n :
  0 < size → (Z.of_nat n + 1) * size < 2 ^ 64 → size <= 2 ^ 62 → Z.of_nat (length l) < 2 ^ 62 →
  pages_of (λ page, match page_slice page size l with Ok p => p | _ => [] end) n = take (Z.to_nat size * n) l ∧
  (∀ page, 1 <= page <= Z.of_nat n → ∃ p, page_slice page size l = Ok p ∧ Z.of_nat (length p) <= size) ∧
  page_slice 0 size l = Ok [].
Proof.
  intros Hs Hn Hm Hl. split_and!.
  - unfold pages_of. rewrite <- take_drop_concat. f_equal. apply list_fmap_ext. intros i page Hi.
    apply lookup_seqZ in Hi as [-> Hi]. rewrite page_slice_value by nia. done.
  - intros page Hp. rewrite page_slice_value by nia. eexists. split; [done|]. rewrite length_take. lia.
  - unfold page_slice. change (wsub 64 0 1) with (2 ^ 64 - 1). unfold wmul.
    replace ((2 ^ 64 - 1) * size) with ((2 ^ 64 - size) + (size - 1) * 2 ^ 64) by lia.
    unfold wrap. rewrite Z.mod_add, Z.mod_small by lia.
    by rewrite (proj2 (Z.ltb_ge (2 ^ 64 - size) (Z.of_nat (length l)))) by lia.
Qed.

(** *** The rich list *)

Definition key_hash (kv : bytes * bytes) : bytes := sub_bytes 5 25 kv.1.

Definition hash_values (pkh : bytes) (l : list (bytes * bytes)) : list Z :=
  entry_values (filter (λ kv, key_hash kv = pkh) l).

Lemma rich_add_value m kv :
  starts_with (bstr "addr:") kv.1 = true → (25 ≤ length kv.1)%nat → length kv.2 = 8%nat →
  rich_add m kv = Ok (<[key_hash kv := wadd 64 (default 0 (m !! key_hash kv)) (from_be_bytes kv.2)]> m).
Proof.
  intros Hs Hk Hv. unfold rich_add, slice. rewrite Hs, bool_decide_eq_true_2, be_u64_wf by (done || lia). done.
Qed.

Lemma rich_fold m l :
  Forall (λ kv, starts_with (bstr "addr:") kv.1 = true ∧ (25 ≤ length kv.1)%nat ∧ length kv.2 = 8%nat) l →
  ∃ m', for_each rich_add m l = Ok m' ∧ ∀ pkh,
    m' !! pkh = if bool_decide (pkh ∈ key_hash <$> l)
                then Some (wrap 64 (default 0 (m !! pkh) + sumZ (hash_values pkh l))) else m !! pkh.
Proof.
  intros Hl. revert m. induction Hl as [|kv l (Hs & Hk & Hv) Hl IH]; intros m; cbn [for_each].
  { exists m. split; [done|]. intros pkh. by rewrite bool_decide_eq_false_2 by apply not_elem_of_nil. }
  rewrite rich_add_value by done. cbn [mbind outcome_bind].
  destruct (IH (<[key_hash kv := wadd 64 (default 0 (m !! key_hash kv)) (from_be_bytes kv.2)]> m)) as (m' & E & Hm).
  exists m'. split; [done|]. intros pkh. rewrite Hm. csimpl. unfold hash_values. rewrite filter_cons.
  destruct (decide (key_hash kv = pkh)) as [<-|Hne].
  - rewrite lookup_insert_eq, (bool_decide_eq_true_2 (_ ∈ key_hash kv :: _)) by by left. csimpl.
    change (foldr Z.add 0 ?x) with (sumZ x). fold (hash_values (key_hash kv) l). case_bool_decide as Hin.
    + f_equal. cbn [default]. unfold wadd, wrap, id. rewrite Z.add_mod_idemp_l by lia. f_equal. cbn [entry_values]. unfold hash_values, entry_values. csimpl. lia.
    + f_equal. unfold wadd. f_equal. unfold hash_values, entry_values. csimpl.
      assert (filter (λ x, key_hash x = key_hash kv) l = []) as ->; [|cbn; lia].
      clear -Hin. induction l as [|x l IH]; [done|]. rewrite filter_cons, decide_False; [apply IH|]; csimpl in Hin; set_solver.
  - rewrite lookup_insert_ne by done. by rewrite (bool_decide_ext (pkh ∈ key_hash kv :: (key_hash <$> l)) (pkh ∈ key_hash <$> l)) by set_solver.
Qed.

(** The rich list names every hash of the index once, with the sum of its
    entries modulo 2^64, the richest first. *)
Theorem rich_list_spec d l :
  index_layout d → cf_handle d "addr_index" = true → iterator_cf d "addr_index" = Ok l →
  ∃ r, rich_sorted d = Ok r ∧ NoDup r.*1 ∧ Sorted richer r ∧
    ∀ pkh b, (pkh, b) ∈ r ↔ pkh ∈ key_hash <$> l ∧ b = wrap 64 (sumZ (hash_values pkh l)).
Proof.
  intros Hl Hc Hi. destruct (rich_fold ∅ l) as (m & E & Hm).
  { apply Forall_forall. intros [k v] Hin. apply (iterator_cf_sound _ _ _ Hi) in Hin.
    apply Hl in Hin as (spk & id & n & -> & Hid & _ & Hv & _). cbn [fst snd]. split_and!; [apply starts_with_app| |done].
    unfold addr_key. rewrite !length_app. pose proof (ripemd160_array (sha256 spk)) as [_ Hr].
    unfold hash160, hash_ripemd160. rewrite Hr. change (length (bstr "addr:")) with 5%nat. lia. }
  exists (merge_sort richer (hash_iter m)). unfold rich_sorted. rewrite Hc, Hi. cbn [unwrap mbind outcome_bind].
  rewrite E. cbn [mbind outcome_bind]. split_and!; [done| | |].
  - rewrite merge_sort_Permutation. apply NoDup_hash_iter.
  - apply Sorted_merge_sort. intros x y. unfold richer. lia.
  - intros pkh b. rewrite merge_sort_Permutation, elem_of_hash_iter, Hm, lookup_empty. cbn [default id].
    rewrite Z.add_0_l. case_bool_decide; naive_solver.
Qed.

End Readers.

(** ** Witnesses *)

(** One payment of 7 to the script of a key, as the chain indexes it. *)
Definition index_id : bytes := replicate 32 9.

Definition index_script : bytes := p2pkh_script (CR:=sample_crypto) [2; 7].

Definition index_db : MemDB :=
  mkMemDB all_cfs {[("addr_index", addr_key index_script index_id 1) := to_be_bytes 8 7]} [].

Lemma index_db_layout : index_layout (RK:=mem_rocks) index_db.
Proof.
  intros k v Hk.
  change (({[("addr_index", addr_key index_script index_id 1) := to_be_bytes 8 7]} : gmap (cf * bytes) bytes)
    !! ("addr_index", k) = Some v) in Hk.
  apply lookup_singleton_Some in Hk as [[= <-] <-]. exists index_script, index_id, 1.
  split_and!; [done|done|done|done|]. apply (bool_decide_unpack _). by vm_compute.
Qed.

Definition index_pkh : bytes := hash160 index_script.

Definition index_entry : list (bytes * bytes) := [(addr_key index_script index_id 1, to_be_bytes 8 7)].

Definition index_address : string := to_base58check (0 :: index_pkh).

Lemma address_balance_witness :
  cli_balance (RK:=mem_rocks) index_db index_address = Ok 7 ∧ rpc_sum (RK:=mem_rocks) index_db index_pkh = Ok 7.
Proof.
  destruct (address_balance (RK:=mem_rocks) index_db index_address index_pkh index_entry) as (_ & H & _);
    [apply index_db_layout|by vm_compute..|]. apply H. by vm_compute.
Defined.

Lemma query_addr_index_shifted_witness :
  ∃ r, query_addr_index (RK:=mem_rocks) index_db index_pkh = Ok r ∧ length r = 1%nat.
Proof.
  destruct (query_addr_index_shifted (RK:=mem_rocks) index_db index_pkh index_entry) as (r & H1 & H2 & _).
  - apply index_db_layout.
  - by vm_compute.
  - by vm_compute.
  - by vm_compute.
  - exists r. exact (conj H1 H2).
Defined.

Lemma pages_partition_witness :
  pages_of (λ page, match page_slice page 3 [10; 20; 30; 40; 50] with Ok p => p | _ => [] end) 2 = [10; 20; 30; 40; 50].
Proof. apply (pages_partition [10; 20; 30; 40; 50] 3 2); by vm_compute. Defined.

Lemma rich_list_spec_witness :
  ∃ r, rich_sorted (RK:=mem_rocks) index_db = Ok r ∧ (index_pkh, 7) ∈ r.
Proof.
  destruct (rich_list_spec (RK:=mem_rocks) index_db index_entry) as (r & H1 & _ & _ & H2);
    [apply index_db_layout|by vm_compute..|]. exists r. split; [exact H1|]. apply H2. split; [|by vm_compute].
  apply (bool_decide_unpack _). by vm_compute.
Defined.
