(* ===== verification/Rpc.v ===== *)
(** * Rpc: the HTTP interface

    [start_rpc_server] of src/111/src/main.rs: the check of the token and the
    five handlers, as functions from a request to a response (and the shared
    pool, for [/send_tx]), and what the graphical wallet makes of the answer of
    [/mempool].

    jsonwebtoken and hex are parameters; TLS and the rate limiter are left out.
    Of the HTTP server there is the extraction of the JSON body, which comes
    before the handler; the body of an answer is its bytes. *)
From Stdlib Require Import Ascii.
From stdpp Require Import pretty.
From S2P Require Import Prelude Errors Types Externals Instances Utils Keys Tx Ledger Store Chain Mempool AddrIndex.

#[local] Existing Instance pool_ops | 0.

(** [jsonwebtoken::decode] and [encode] of string claims, [hex::decode]. *)
Class Web := {
  jwt_decode : string → string → option (gmap string string);
  jwt_encode : gmap string string → string → option string;
  hex_decode : string → option bytes;
}.

Class WebOk `{!Web} :=
  jwt_decode_encode : ∀ claims secret token, jwt_encode claims secret = Some token → jwt_decode token secret = Some claims.

(** ** [str::parse::<u64>] *)

Definition digit_of (c : Ascii.ascii) : option Z :=
  let n := Z.of_N (Ascii.N_of_ascii c) in
  if (48 <=? n) && (n <=? 57) then Some (n - 48) else None.

(** The digits after [acc]; [None] on another character or an overflow. *)
Fixpoint parse_digits (acc : Z) (s : string) : option Z :=
  match s with
  | EmptyString => Some acc
  | String c s =>
      d ← digit_of c;
      let acc := acc * 10 + d in
      if acc <? 2 ^ 64 then parse_digits acc s else None
  end.

(** A sign may come first; at least one digit is needed. *)
Definition parse_u64 (s : string) : option Z :=
  let s := match s with String "+"%char s => s | s => s end in
  match s with EmptyString => None | s => parse_digits 0 s end.

(** ** Tokens *)

Section Rpc.
  Context {CR : Crypto} {CD : Codec} {RK : Rocks} {HO : HashOrder} {HP : HeapOrder} {WB : Web}.

(** [now] is in seconds. *)
Definition validate_jwt (now : Z) (token secret : string) : outcome bool :=
  claims ← ok_or (jwt_decode token secret) (Anyhow "Invalid JWT");
  let exp := default 0 (claims !! "exp" ≫= parse_u64) in
  Ok (now <? exp).

Definition refresh_jwt (now : Z) (token secret : string) : outcome string :=
  claims ← ok_or (jwt_decode token secret) (Anyhow "decode");
  let claims := <["exp" := pretty (wadd 64 now 3600)]> claims in
  ok_or (jwt_encode claims secret) (Anyhow "Refresh failed").

(** [s.strip_prefix(p)] *)
Fixpoint strip_prefix (p s : string) : option string :=
  match p, s with
  | EmptyString, s => Some s
  | String a p, String b s => if Ascii.eqb a b then strip_prefix p s else None
  | String _ _, EmptyString => None
  end.

(** [s.trim_start_matches(p)]: every leading [p] goes; each one shortens the
    string, which bounds their number. *)
Fixpoint trim_start (fuel : nat) (p s : string) : string :=
  match fuel with
  | O => s
  | S fuel => match strip_prefix p s with Some s' => trim_start fuel p s' | None => s end
  end.

Definition bearer (header : string) : string := trim_start (S (String.length header)) "Bearer " header.

(** The [Authorization] header, when the request has one that is text. *)
Record request := mkRequest { authorization : option string }.

Definition authorized (now : Z) (secret : string) (r : request) : bool :=
  match authorization r with
  | Some auth => match validate_jwt now (bearer auth) secret with Ok _ => true | _ => false end
  | None => false
  end.

(** [Rejected]: what actix answers by itself to a body it cannot extract. *)
Inductive response :=
  | HttpOk (body : bytes)
  | BadRequest (body : string)
  | NotFound (body : string)
  | InternalServerError
  | Unauthorized
  | Rejected.

(** ** Handlers

    Every handler makes the same test of its own before it does anything. *)

Definition get_height (now : Z) (secret : string) (r : request) : M Chain response :=
  if authorized now secret r then
    c ← get; mret (HttpOk (bstr (pretty (best_height c))))
  else mret Unauthorized.

Definition get_balance (now : Z) (secret : string) (r : request) (address : string) : M Chain response :=
  if authorized now secret r then
    match address_to_pubkey_hash address with
    | Ok pubkey_hash =>
        c ← get;
        match pool_get (db c);; require_cf (db c) "addr_index" "addr_index";; rpc_sum (db c) pubkey_hash with
        | Ok balance => mret (HttpOk (bstr (pretty balance)))
        | Err _ => mret InternalServerError
        | Panic => lift Panic
        | Hang => lift Hang
        end
    | _ => mret (BadRequest "Invalid address")
    end
  else mret Unauthorized.

Definition get_block (now : Z) (secret : string) (r : request) : M Chain response :=
  if authorized now secret r then
    c ← get;
    match blocks (state c) !! best_height c with
    | Some block => mret (HttpOk (to_be_bytes 4 1 ++ serialize block))
    | None => mret (NotFound "No block at tip")
    end
  else mret Unauthorized.

Definition pool_transactions (c : Chain (RK:=RK) (MP:=pool_ops)) : list Transaction :=
  (λ e, entry_tx e.2) <$> hash_iter (pool_txs (sp_pool (chain_mempool c))).

Definition get_mempool (now : Z) (secret : string) (r : request) : M Chain response :=
  if authorized now secret r then
    gets (λ c, HttpOk (to_be_bytes 4 1 ++ serialize (pool_transactions c)))
  else mret Unauthorized.

(** [mempool.write()], then [insert]. *)
Definition rpc_insert (t : Transaction) (ms : outcome Z) : M Chain bool := λ c,
  if sp_held (chain_mempool c) then (Hang, c) else
  let '(r, m) := insert 1 (db c) t ms (sp_pool (chain_mempool c)) in
  (r, set_mempool (mkSharedPool m false : mempool) c).

(** [data]: the field ["tx"] of the JSON body, when it is a string. *)
Definition send_tx (now : Z) (secret : string) (r : request) (data : option string) (ms : outcome Z) : M Chain response :=
  if authorized now secret r then
    match hex_decode (default ""%string data) with
    | None => mret (BadRequest "Invalid hex")
    | Some raw =>
        match deserialize (A:=Transaction) raw with
        | None => mret (BadRequest "Invalid TX")
        | Some t =>
            r ← attempt (rpc_insert t ms);
            match r with
            | Ok true => mret (HttpOk (bstr "TX sent"))
            | _ => mret (BadRequest "Invalid TX")
            end
        end
    end
  else mret Unauthorized.

(** [SendTx None]: a body that is not JSON. *)
Inductive route :=
  | Height
  | Balance (address : string)
  | BlockRoute
  | MempoolRoute
  | SendTx (body : option (option string)).

#[export] Instance route_eq_dec : EqDecision route.
Proof. solve_decision. Defined.

(** The services of the server; the body of [/send_tx] is extracted before the
    handler runs. *)
Definition serve (now : Z) (secret : string) (r : request) (route : route) (ms : outcome Z) : M Chain response :=
  match route with
  | Height => get_height now secret r
  | Balance address => get_balance now secret r address
  | BlockRoute => get_block now secret r
  | MempoolRoute => get_mempool now secret r
  | SendTx None => mret Rejected
  | SendTx (Some data) => send_tx now secret r data ms
  end.

(** What the graphical wallet reads from the answer of [/mempool]. *)
Definition mempool_answer (body : bytes) : outcome (list Transaction) :=
  rest ← slice_from 4 body;
  Ok (default [] (deserialize (A:=list Transaction) rest)).

(** What [wallet send] posts: the secret itself as the token. *)
Definition wallet_request (secret : string) : request := mkRequest (Some ("Bearer " ++ secret)%string).

End Rpc.

(** ** Properties *)

(** *** Printing and parsing a [u64] *)

Lemma digit_of_pretty x : (x < 10)%N → digit_of (pretty_N_char x) = Some (Z.of_N x).
Proof.
  intros Hx. destruct x as [|q]; [done|]. do 4 (destruct q as [q|q|]; try done); exfalso; lia.
Qed.

Lemma parse_pretty_go x s : (x < 2 ^ 64)%N → parse_digits 0 (pretty_N_go x s) = parse_digits (Z.of_N x) s.
Proof.
  revert s. induction (N.lt_wf_0 x) as [x _ IH]; intros s Hx.
  destruct (decide (x = 0)%N) as [->|Hn]; [done|]. rewrite pretty_N_go_step by lia.
  assert (x `div` 10 < x)%N by (apply N.div_lt; lia). rewrite IH by lia. cbn [parse_digits].
  rewrite digit_of_pretty by (apply N.mod_lt; lia). cbn [mbind option_bind].
  pose proof (N.div_mod x 10 ltac:(lia)) as Hd.
  replace (Z.of_N (x `div` 10) * 10 + Z.of_N (x `mod` 10)) with (Z.of_N x) by lia.
  by rewrite (proj2 (Z.ltb_lt (Z.of_N x) (2 ^ 64))) by lia.
Qed.

Lemma parse_u64_digits s v : parse_digits 0 s = Some v → s ≠ EmptyString → parse_u64 s = Some v.
Proof.
  unfold parse_u64. destruct s as [|c s]; [done|]. intros H _.
  destruct (decide (c = "+"%char)) as [->|Hc]; [done|].
  rewrite <- H. destruct c as [[] [] [] [] [] [] [] []]; done || by destruct Hc.
Qed.

Lemma parse_u64_pretty n : uint 64 n → parse_u64 (pretty n) = Some n.
Proof.
  intros Hn. unfold uint in Hn. destruct n as [|q|q]; [done| |lia].
  assert (E : parse_digits 0 (pretty_N_go (Npos q) "") = Some (Zpos q)) by (rewrite parse_pretty_go by lia; done).
  change (pretty (Zpos q)) with (pretty_N_go (Npos q) ""). apply parse_u64_digits; [done|].
  intros E0. rewrite E0 in E. done.
Qed.

(** *** Access *)

Section RpcSpec.
  Context {CR : Crypto} {CD : Codec} {RK : Rocks} {HO : HashOrder} {HP : HeapOrder} {WB : Web}.

Lemma not_authorized now secret r :
  (∀ auth, authorization r = Some auth → jwt_decode (bearer auth) secret = None) → authorized now secret r = false.
Proof.
  intros H. unfold authorized, validate_jwt. destruct (authorization r) as [auth|]; [|done]. by rewrite H.
Qed.

Lemma is_authorized now secret r auth claims :
  authorization r = Some auth → jwt_decode (bearer auth) secret = Some claims → authorized now secret r = true.
Proof. intros Ha Hd. unfold authorized, validate_jwt. by rewrite Ha, Hd. Qed.

(** C31. A request without the header, or whose token does not decode under the
    secret, is answered "unauthorized" by every handler (a body that is no JSON
    before that, by the server), and changes nothing.  A token that decodes is
    enough, whatever its expiry: the handlers ask whether the check answered, not
    what it answered, and the answer is the same at any time. *)
Theorem access_control now secret r route ms c :
  (authorization r = None ∨ (∃ auth, authorization r = Some auth ∧ jwt_decode (bearer auth) secret = None) →
     serve now secret r route ms c = (Ok (if bool_decide (route = SendTx None) then Rejected else Unauthorized), c)) ∧
  (∀ auth claims, authorization r = Some auth → jwt_decode (bearer auth) secret = Some claims →
     (∀ now', serve now' secret r route ms c = serve now secret r route ms c) ∧
     (serve now secret r Height ms c = (Ok (HttpOk (bstr (pretty (best_height c)))), c)) ∧
     (serve now secret r route ms c).1 ≠ Ok Unauthorized ∧
     (∀ exp, claims !! "exp" = Some exp → parse_u64 exp = Some 0 → validate_jwt now (bearer auth) secret = Ok (now <? 0))).
Proof.
  split.
  - intros H. assert (authorized now secret r = false) as E.
    { apply not_authorized. intros auth Ha. destruct H as [H|(auth' & H1 & H2)]; congruence. }
    unfold serve. destruct route as [|address| | |[data|]]; unfold get_height, get_balance, get_block, get_mempool, send_tx; by rewrite ?E.
  - intros auth claims Ha Hd. assert (∀ n, authorized n secret r = true) as E by (intros n; by eapply is_authorized). split_and!.
    + intros now'. unfold serve, get_height, get_balance, get_block, get_mempool, send_tx. by rewrite !E.
    + unfold serve, get_height. by rewrite E.
    + unfold serve, get_height, get_balance, get_block, get_mempool, send_tx. destruct route as [|address| | |[data|]]; rewrite ?E; try done.
      * destruct (address_to_pubkey_hash address); try done. unfold mbind at 1, M_bind at 1, get. by destruct (_ ;; _).
      * unfold mbind, M_bind, get. by destruct (_ !! _).
      * destruct (hex_decode _) as [raw|]; [|done]. destruct (deserialize raw) as [t|]; [|done].
        unfold mbind, M_bind, attempt. by destruct (rpc_insert t ms c) as [[[]| | |] ?].
    + intros exp He Hp. unfold validate_jwt. rewrite Hd. cbn [ok_or mbind outcome_bind]. rewrite He. cbn [mbind option_bind]. by rewrite Hp.
Qed.

(** A token that decodes, expired or not, can be exchanged for one that
    passes the check for the next hour and not after. *)
Theorem refresh_for_an_hour `{WBO : !WebOk} now later token secret claims token' :
  0 <= now < 2 ^ 64 - 3600 → jwt_decode token secret = Some claims →
  refresh_jwt now token secret = Ok token' →
  validate_jwt later token' secret = Ok (bool_decide (later < now + 3600)).
Proof.
  intros Hn Hd H. unfold refresh_jwt in H. rewrite Hd in H. cbn [ok_or mbind outcome_bind] in H.
  apply ok_or_Ok, jwt_decode_encode in H. unfold validate_jwt. rewrite H. cbn [ok_or mbind outcome_bind].
  rewrite lookup_insert_eq. cbn [mbind option_bind]. rewrite wadd_small by lia. rewrite parse_u64_pretty by (unfold uint; lia).
  cbn [default id]. f_equal. case_bool_decide; [apply Z.ltb_lt|apply Z.ltb_ge]; lia.
Qed.

(** The graphical wallet reads the transactions of the pool, each once,
    from the answer of the node; from an answer that refuses it, none. *)
Theorem mempool_round_trip `{HOO : !HashOrderOk} wf `{!BincodeOk (list Transaction) wf} now secret r c :
  authorized now secret r = true → wf (pool_transactions c) →
  ∃ body ts, get_mempool now secret r c = (Ok (HttpOk body), c) ∧ mempool_answer body = Ok ts ∧
    ts ≡ₚ (λ e, entry_tx e.2) <$> map_to_list (pool_txs (sp_pool (chain_mempool c))).
Proof.
  intros Ha Hw. eexists _, _. split; [unfold get_mempool; by rewrite Ha|]. split.
  - unfold mempool_answer, slice_from. rewrite bool_decide_eq_true_2 by (rewrite length_app, length_to_be_bytes; lia).
    cbn [mbind outcome_bind]. rewrite drop_app_length' by (symmetry; apply length_to_be_bytes).
    rewrite (deserialize_serialize (wf:=wf)) by done. done.
  - cbn [default id]. apply fmap_Permutation, hash_iter_perm.
Qed.

Lemma bearer_secret secret : strip_prefix "Bearer " secret = None → bearer ("Bearer " ++ secret)%string = secret.
Proof.
  intros H. assert (strip_prefix "Bearer " ("Bearer " ++ secret)%string = Some secret) as E by done.
  unfold bearer. cbn [trim_start]. rewrite E. destruct (String.length _); cbn [trim_start]; [done|by rewrite H].
Qed.

(** The command line cannot send: it presents the secret where a token is
    expected, so that unless the secret decodes as a token under itself the
    node refuses and its pool stays as it is. *)
Theorem wallet_send_refused now secret raw ms c :
  strip_prefix "Bearer " secret = None → jwt_decode secret secret = None →
  serve now secret (wallet_request secret) (SendTx (Some raw)) ms c = (Ok Unauthorized, c).
Proof.
  intros Hs Hd. unfold serve, send_tx. rewrite not_authorized; [done|]. by intros auth [= <-]; rewrite bearer_secret.
Qed.

End RpcSpec.

(** ** Witnesses *)

(** A token is its expiry, under any secret but the empty one. *)
#[export] Instance sample_web : Web := {|
  jwt_decode token secret := if bool_decide (token = secret) then None else Some {[ "exp" := token ]};
  jwt_encode claims secret := e ← claims !! "exp"; if bool_decide (e = secret ∨ claims ≠ {[ "exp" := e ]}) then None else Some e;
  hex_decode s := Some (bstr s);
|}.

#[export] Instance sample_web_ok : WebOk.
Proof.
  intros claims secret token H. cbn in *. destruct (claims !! "exp") as [e|]; cbn in H; [|done].
  case_bool_decide as Hc; [done|]. injection H as <-.
  rewrite bool_decide_eq_false_2 by naive_solver. f_equal. destruct (decide (claims = {[ "exp" := e ]})); naive_solver.
Defined.

Definition rpc_chain : Chain (RK:=mem_rocks) :=
  fresh_chain (RK:=mem_rocks) sample_db zero_hash 0 zero_hash ∅ (mkSharedPool pool_1 false).

Lemma access_control_witness :
  serve (RK:=mem_rocks) 9 "s" (mkRequest (Some "Bearer 7"%string)) Height (Ok 0) rpc_chain = (Ok (HttpOk (bstr "0")), rpc_chain) ∧
  serve (RK:=mem_rocks) 9 "s" (mkRequest (Some "Bearer s"%string)) BlockRoute (Ok 0) rpc_chain = (Ok Unauthorized, rpc_chain).
Proof.
  split.
  - destruct (access_control (RK:=mem_rocks) 9 "s" (mkRequest (Some "Bearer 7"%string)) Height (Ok 0) rpc_chain) as [_ H].
    destruct (H "Bearer 7"%string {[ "exp" := "7"%string ]}) as (_ & H1 & _); [done|done|]. exact H1.
  - destruct (access_control (RK:=mem_rocks) 9 "s" (mkRequest (Some "Bearer s"%string)) BlockRoute (Ok 0) rpc_chain) as [H _].
    apply H. right. exists "Bearer s"%string. by split.
Defined.

Lemma refresh_for_an_hour_witness : validate_jwt 3606 "3607" "s" = Ok true ∧ validate_jwt 3607 "3607" "s" = Ok false.
Proof.
  assert (∀ later, validate_jwt later "3607" "s" = Ok (bool_decide (later < 7 + 3600))) as H.
  { intros later. apply (refresh_for_an_hour 7 later "5" "s" {[ "exp" := "5"%string ]}); [lia|done|by vm_compute]. }
  by rewrite !H.
Defined.

Lemma mempool_round_trip_witness :
  ∃ body, get_mempool (RK:=mem_rocks) 9 "s" (mkRequest (Some "Bearer 7"%string)) rpc_chain = (Ok (HttpOk body), rpc_chain) ∧
    mempool_answer body = Ok [pool_parent].
Proof.
  destruct (mempool_round_trip (CD:=sample_codec) (RK:=mem_rocks) (cwf (c_list c_tx)) (BincodeOk0:=codec_bincode_ok _)
    9 "s" (mkRequest (Some "Bearer 7"%string)) rpc_chain) as (body & ts & H1 & H2 & H3).
  - done.
  - apply (bool_decide_unpack _). by vm_compute.
  - exists body. split; [exact H1|]. rewrite H2. f_equal. apply Permutation_singleton_r. rewrite H3.
    assert ((λ e, entry_tx e.2) <$> map_to_list (pool_txs (sp_pool (chain_mempool rpc_chain))) = [pool_parent]) as -> by by vm_compute.
    reflexivity.
Defined.

Lemma wallet_send_refused_witness :
  serve (RK:=mem_rocks) 0 "s" (wallet_request "s") (SendTx (Some (Some ""%string))) (Ok 0) rpc_chain = (Ok Unauthorized, rpc_chain).
Proof. apply (wallet_send_refused (RK:=mem_rocks)); done. Defined.
