(* ===== verification/Wallet.v ===== *)
(** * Wallet: balances, unspent outputs, history and payments

    [mod wallet] of src/111/src/main.rs, and the scan of the graphical wallet,
    over the index of AddrIndex.v.

    - Keys are those of BIP 32: deriving, signing and the text of a path are
      parameters.  A wallet derives a hundred receiving keys (chain 0) and a
      hundred change keys (chain 1).
    - Additions and products of amounts are [u64] and wrap around, as the
      release build computes them.
    - [scan_mempool], which the source calls and does not define, is a
      parameter of the scan; so is [current_change_index], a field the wallet
      does not have. *)
From stdpp Require Import pretty.
From S2P Require Import Prelude Errors Types Externals Instances Utils Keys Tx Ledger Store AddrIndex.

Class Keychain {CR : Crypto} := {
  SecretKey : Type;
  ExtendedPrivKey : Type;
  DerivationPath : Type;
  path_parse : string → option DerivationPath;
  path_to_string : DerivationPath → string;
  (** [base.extend([ChildNumber::from_hardened_idx(n)?])] and the normal one *)
  path_hardened : DerivationPath → Z → option DerivationPath;
  path_normal : DerivationPath → Z → option DerivationPath;
  (** [master.derive_priv(..)?] and [SecretKey::from_slice(..)?] *)
  derive_key : ExtendedPrivKey → DerivationPath → option SecretKey;
  key_of : SecretKey → PublicKey;
  (** [sign_ecdsa(&msg, &sk).serialize_der()] *)
  sign_der : bytes → SecretKey → bytes;
}.

Class KeychainOk {CR : Crypto} `{!Keychain} := {
  sign_der_verifies : ∀ m sk, ∃ s, Signature_from_der (sign_der m sk) = Some s ∧ verify_ecdsa m s (key_of sk) = true;
  (** a compressed point *)
  length_PublicKey : ∀ sk, length (PublicKey_serialize (key_of sk)) = 33%nat;
  sign_der_bytes : ∀ m sk, wf_bytes (sign_der m sk) ∧ (length (sign_der m sk) ≤ 72)%nat;
  PublicKey_bytes : ∀ sk, Forall byte (PublicKey_serialize (key_of sk));
  from_check_bytes : ∀ a v p, from_check a = Some (v, p) → Forall byte p;
}.

(** bincode: the length of a transaction from its parts. *)
Class TxLength `{!Codec} :=
  tx_length : ∀ t : Transaction, wf_tx t →
    33 + sumZ ((λ i, 48 + Z.of_nat (length (script_sig i))) <$> inputs t)
       + sumZ ((λ o, 17 + Z.of_nat (length (script_pubkey o))) <$> outputs t) <= tx_size t.

Record Utxo := mkUtxo {
  u_txid : bytes;
  u_vout : Z;
  u_value : Z;
  u_confirmations : Z;
  u_script_pubkey : bytes;
  u_height : Z;
  u_derivation_path : string;
  u_is_confirmed : bool;
}.

Record TxHistoryEntry := mkTxHistoryEntry {
  h_txid : bytes;
  h_timestamp : Z;
  h_net_amount : Z;
  h_confirmations : Z;
  h_is_receive : bool;
}.

Section Wallet.
  Context {CR : Crypto} {CD : Codec} {RK : Rocks} {HO : HashOrder} {KC : Keychain}.

(** ** Keys *)

Definition wallet_path (chain i : Z) : string :=
  ("m/44'/1987'/0'/" ++ pretty chain ++ "/" ++ pretty i)%string.

Definition derive_at (master : ExtendedPrivKey) (path : DerivationPath) : outcome SecretKey :=
  ok_or (derive_key master path) (Anyhow "derive_priv").

Definition wallet_key (master : ExtendedPrivKey) (chain i : Z) : outcome (DerivationPath * SecretKey) :=
  path ← ok_or (path_parse (wallet_path chain i)) (Anyhow "path");
  sk ← derive_at master path;
  Ok (path, sk).

(** [for chain in 0..2 { for i in 0..100 { .. } }] *)
Definition key_indices : list (Z * Z) :=
  ((λ i, (0, i)) <$> seqZ 0 100) ++ ((λ i, (1, i)) <$> seqZ 0 100).

Definition pkh_of (sk : SecretKey) : bytes := hash160 (PublicKey_serialize (key_of sk)).

Definition get_receive_address (master : ExtendedPrivKey) (index : Z) : outcome string :=
  k ← wallet_key master 0 index;
  Ok (pubkey_to_address (key_of k.2)).

Definition get_privkey_for_address (master : ExtendedPrivKey) (address : string) : outcome SecretKey :=
  pkh ← address_to_pubkey_hash address;
  found ← for_each (λ found ci,
    match found with
    | Some sk => Ok (Some sk)
    | None =>
        k ← wallet_key master ci.1 ci.2;
        Ok (if bool_decide (pkh_of k.2 = pkh) then Some k.2 else None)
    end) None key_indices;
  ok_or found (Anyhow "Address not found in the wallet").

(** ** The outputs of the wallet *)

(** [key[25..57]], [key[57..61]] and the value. *)
Definition wallet_entry (kv : bytes * bytes) : outcome (bytes * Z * Z) :=
  id ← slice 25 57 kv.1;
  n ← slice 57 61 kv.1;
  n ← be_u32 n;
  v ← be_u64 kv.2;
  Ok (id, n, v).

(** The pool gives a connection with the three families. *)
Definition wallet_db (d : DB) : outcome unit :=
  pool_get d;;
  require_cf d "addr_index" "addr_index missing";;
  require_cf d "utxo" "utxo missing";;
  require_cf d "tx_index" "tx_index missing".

(** [deserialize::<(usize, usize)>(&tx_data)?], the height. *)
Definition indexed_height (d : DB) (id : bytes) : outcome (option Z) :=
  data ← get_cf d "tx_index" id;
  match data with
  | Some data => pos ← ok_or (deserialize (A:=Z * Z) data) (Anyhow "deserialize"); Ok (Some pos.1)
  | None => Ok None
  end.

Definition add_balance (d : DB) (current_height : Z) (acc : Z * Z) (kv : bytes * bytes) : outcome (Z * Z) :=
  '(id, n, v) ← wallet_entry kv;
  utxo ← get_cf d "utxo" (utxo_key id n);
  match utxo with
  | None => Ok acc
  | Some _ =>
      h ← indexed_height d id;
      match h with
      | Some height =>
          if 1 <=? saturating_sub current_height height
          then Ok (wadd 64 acc.1 v, acc.2) else Ok (acc.1, wadd 64 acc.2 v)
      | None => Ok (acc.1, wadd 64 acc.2 v)
      end
  end.

(** Confirmed and pending. *)
Definition get_balance (d : DB) (master : ExtendedPrivKey) : outcome (Z * Z) :=
  wallet_db d;;
  current_height ← load_current_height d;
  for_each (λ acc ci,
    k ← wallet_key master ci.1 ci.2;
    l ← addr_entries d (pkh_of k.2);
    for_each (add_balance d current_height) acc l) (0, 0) key_indices.

Definition add_utxo (d : DB) (current_height : Z) (path : string) (spendable_only : bool) (acc : list Utxo)
    (kv : bytes * bytes) : outcome (list Utxo) :=
  '(id, n, v) ← wallet_entry kv;
  utxo ← get_cf d "utxo" (utxo_key id n);
  match utxo with
  | None => Ok acc
  | Some raw =>
      out ← ok_or (deserialize (A:=TXOutput) raw) (Anyhow "deserialize");
      h ← indexed_height d id;
      let confs := match h with Some height => wadd 64 (saturating_sub current_height height) 1 | None => 0 end in
      if negb spendable_only || (COINBASE_MATURITY <=? confs)
      then Ok (acc ++ [mkUtxo id n v confs (script_pubkey out) 0 path (0 <? confs)])
      else Ok acc
  end.

Definition get_utxos (d : DB) (master : ExtendedPrivKey) (spendable_only : bool) : outcome (list Utxo) :=
  wallet_db d;;
  current_height ← load_current_height d;
  for_each (λ acc ci,
    k ← wallet_key master ci.1 ci.2;
    l ← addr_entries d (pkh_of k.2);
    for_each (add_utxo d current_height (path_to_string k.1) spendable_only) acc l) [] key_indices.

(** ** History *)

(** [value as i64] *)
Definition as_i64 (v : Z) : Z := iwrap 64 v.

Definition add_history (d : DB) (chain : Z) (m : gmap bytes Z) (e : bytes * Z * Z) : outcome (gmap bytes Z) :=
  let '(id, n, v) := e in
  let is_receive := if chain =? 0 then as_i64 v else iwrap 64 (- as_i64 v) in
  utxo ← get_cf d "utxo" (utxo_key id n);
  let change := match utxo with Some _ => is_receive | None => iwrap 64 (- is_receive) end in
  Ok (<[id := iwrap 64 (default 0 (m !! id) + change)]> m).

(** [get_block_timestamp(..).unwrap_or(0)] *)
Definition timestamp_or_0 (d : DB) (height : Z) : outcome Z :=
  match get_block_timestamp d height with Err _ => Ok 0 | r => r end.

Definition history_entry (d : DB) (current_height : Z) (l : list TxHistoryEntry) (e : bytes * Z)
    : outcome (list TxHistoryEntry) :=
  let '(id, net) := e in
  height ← height_from_txid d id;
  ts ← timestamp_or_0 d height;
  Ok (l ++ [mkTxHistoryEntry id ts net (wadd 64 (saturating_sub current_height height) 1) (0 <? net)]).

(** [sort_by_key(|e| Reverse(e.timestamp))] *)
Definition newer (a b : TxHistoryEntry) : Prop := h_timestamp b <= h_timestamp a.

#[export] Instance newer_dec a b : Decision (newer a b).
Proof. unfold newer. apply _. Defined.

Definition get_history (d : DB) (master : ExtendedPrivKey) (limit : Z) : outcome (list TxHistoryEntry) :=
  pool_get d;;
  require_cf d "addr_index" "addr_index missing";;
  require_cf d "utxo" "utxo missing";;
  current_height ← load_current_height d;
  history_map ← for_each (λ m ci,
    k ← wallet_key master ci.1 ci.2;
    entries ← query_addr_index d (pkh_of k.2);
    for_each (add_history d ci.1) m entries) ∅ key_indices;
  history ← for_each (history_entry d current_height) [] (hash_iter history_map);
  Ok (take (Z.to_nat limit) (merge_sort newer history)).

(** ** Payments *)

Definition DUST : Z := 1000.

Definition DUMMY_SIG_SIZE : Z := 106.

Definition OVERHEAD : Z := 10 + 4 + 4 + 4 + 4.

(** [sort_by_key(|u| Reverse(u.value))] *)
Definition larger (a b : Utxo) : Prop := u_value b <= u_value a.

#[export] Instance larger_dec a b : Decision (larger a b).
Proof. unfold larger. apply _. Defined.

(** The loop over the sorted outputs: those taken, and their sum. *)
Fixpoint select_coins (target : Z) (input_sum : Z) (coins l : list Utxo) : Z * list Utxo :=
  match l with
  | [] => (input_sum, coins)
  | u :: l =>
      let input_sum := wadd 64 input_sum (u_value u) in
      let coins := coins ++ [u] in
      if target <=? input_sum then (input_sum, coins) else select_coins target input_sum coins l
  end.

Definition first_fee (n fee_rate : Z) : Z := wmul 64 (wrap 64 (n * DUMMY_SIG_SIZE + OVERHEAD + 34)) fee_rate.

(** [(new_fee as i64 - fee as i64).abs() < 20] *)
Definition fee_close (new_fee fee : Z) : bool := iwrap 64 (Z.abs (iwrap 64 (as_i64 new_fee - as_i64 fee))) <? 20.

(** The rounds of the fee. *)
Fixpoint fee_loop (rounds : nat) (input_sum amount n fee_rate fee : Z) : Z :=
  match rounds with
  | O => fee
  | S rounds =>
      let change := wsub 64 (wsub 64 input_sum amount) fee in
      let outputs_count := if DUST <? change then 2 else 1 in
      let size := OVERHEAD + n * DUMMY_SIG_SIZE + outputs_count * 34 + n * 4 in
      let new_fee := wmul 64 (wrap 64 size) fee_rate in
      if fee_close new_fee fee then fee else fee_loop rounds input_sum amount n fee_rate new_fee
  end.

Definition p2pkh_script_from_pkh (pkh : bytes) : bytes := [0x76; 0xa9; 0x14] ++ pkh ++ [0x88; 0xac].

(** The second output, if any. *)
Definition change_output (master : ExtendedPrivKey) (change_index change : Z) (change_addr : option string)
    : outcome (list TXOutput) :=
  if DUST <? change then
    k ← wallet_key master 1 change_index;
    Ok [mkTXOutput change (p2pkh_script (key_of k.2)) None]
  else
    match change_addr with
    | Some ch => ch_pkh ← address_to_pubkey_hash ch; Ok [mkTXOutput change (p2pkh_script_from_pkh ch_pkh) None]
    | None => Ok []
    end.

Definition unsigned_input (u : Utxo) : TXInput := mkTXInput (u_txid u) (u_vout u) [] 0xffffffff.

(** One turn of the signing loop. *)
Definition sign_input (master : ExtendedPrivKey) (t : Transaction) (iu : nat * Utxo) : outcome Transaction :=
  let '(i, u) := iu in
  path ← ok_or (path_parse (u_derivation_path u)) (Anyhow "path");
  sk ← derive_at master path;
  digest ← sighash t i (u_script_pubkey u) 1;
  msg ← ok_or (Message_from_slice digest) (Anyhow "message");
  let sig := sign_der msg sk ++ [1] ++ PublicKey_serialize (key_of sk) in
  vin ← index (inputs t) i;
  Ok (with_inputs (<[i := set_script_sig sig vin]> (inputs t)) t).

(** What is chosen before the transaction is built: the coins, their sum, the
    fee and the change. *)
Definition choose_coins (utxos : list Utxo) (amount fee_rate : Z) : outcome (list Utxo * Z * Z * Z) :=
  let '(input_sum, coins) := select_coins (wadd 64 amount 100000) 0 [] (merge_sort larger utxos) in
  ensure (negb (input_sum <? amount)) (Anyhow "Insufficient funds");;
  let n := Z.of_nat (length coins) in
  let fee := fee_loop 20 input_sum amount n fee_rate (first_fee n fee_rate) in
  let change := wsub 64 (wsub 64 input_sum amount) fee in
  ensure (negb (input_sum <? wadd 64 amount fee)) (Anyhow "Insufficient funds (fees included)");;
  Ok (coins, input_sum, fee, change).

Definition create_tx (d : DB) (master : ExtendedPrivKey) (change_index : Z) (to : string) (amount fee_rate : Z)
    (change_addr : option string) : outcome (Transaction * bytes) :=
  utxos ← get_utxos d master true;
  '(coins, input_sum, fee, change) ← choose_coins utxos amount fee_rate;
  to_pkh ← address_to_pubkey_hash to;
  rest ← change_output master change_index change change_addr;
  let outputs := mkTXOutput amount (p2pkh_script_from_pkh to_pkh) None :: rest in
  let t := mkTransaction 1 false (unsigned_input <$> coins) outputs 0 [] in
  t ← for_each (sign_input master) t (imap pair coins);
  Ok (t, tx_hash t).

(** ** The scan of the graphical wallet *)

(** [scan_chain]: [fuel] bounds the rounds; the first [gap_limit] addresses in
    a row without an entry end it. *)
Definition scan_entry (d : DB) (current_height : Z) (path : DerivationPath) (acc : list Utxo) (e : bytes * Z * Z)
    : outcome (list Utxo) :=
  let '(id, n, v) := e in
  raw ← get_cf d "utxo" (utxo_key id n);
  match raw with
  | None => Ok acc
  | Some raw =>
      out ← ok_or (deserialize (A:=TXOutput) raw) (Anyhow "deserialize");
      height ← height_from_txid d id;
      Ok (acc ++ [mkUtxo id n v (wadd 64 (saturating_sub current_height height) 1) (script_pubkey out) height
                    (path_to_string path) true])
  end.

Fixpoint scan_loop (fuel : nat) (d : DB) (master : ExtendedPrivKey) (chain_path : DerivationPath)
    (gap_limit current_height : Z) (utxos : list Utxo) (addresses : list string) (index gap : Z)
    : outcome (list Utxo * list string * Z) :=
  if gap <? gap_limit then
    match fuel with
    | O => Hang
    | S fuel =>
        path ← ok_or (path_normal chain_path index) (Anyhow "child number");
        sk ← derive_at master path;
        entries ← query_addr_index d (pkh_of sk);
        utxos ← for_each (scan_entry d current_height path) utxos entries;
        match entries with
        | [] => scan_loop fuel d master chain_path gap_limit current_height utxos addresses (wadd 32 index 1) (gap + 1)
        | _ => scan_loop fuel d master chain_path gap_limit current_height utxos
                 (addresses ++ [pubkey_to_address (key_of sk)]) (wadd 32 index 1) 0
        end
    end
  else Ok (utxos, addresses, index).

Definition scan_chain (fuel : nat) (d : DB) (master : ExtendedPrivKey) (chain_num gap_limit current_height : Z)
    : outcome (list Utxo * Z * list string * Z) :=
  unwrap (if cf_handle d "utxo" then Some tt else None);;
  base ← ok_or (path_parse "m/44'/1987'/0'/") (Anyhow "path");
  chain_path ← ok_or (path_hardened base chain_num) (Anyhow "child number");
  '(utxos, addresses, index) ← scan_loop fuel d master chain_path gap_limit current_height [] [] 0 0;
  let balance := foldl (wadd 64) 0 (u_value <$> utxos) in
  Ok (utxos, balance, addresses, index).

(** One entry of an address: what is still unspent counts as received, what
    was spent as sent. *)
Definition task_history (d : DB) (m : gmap bytes Z) (e : bytes * Z * Z) : outcome (gmap bytes Z) :=
  let '(id, n, v) := e in
  utxo ← get_cf d "utxo" (utxo_key id n);
  let change := match utxo with None => iwrap 64 (- as_i64 v) | Some _ => as_i64 v end in
  Ok (<[id := iwrap 64 (default 0 (m !! id) + change)]> m).

Definition build_history_task (d : DB) (receive_addrs change_addrs : list string) (current_height : Z)
    : outcome (list TxHistoryEntry) :=
  unwrap (if cf_handle d "utxo" then Some tt else None);;
  history_map ← for_each (λ m addr,
    pkh ← address_to_pubkey_hash addr;
    entries ← query_addr_index d pkh;
    for_each (task_history d) m entries) ∅ (receive_addrs ++ change_addrs);
  history ← for_each (history_entry d current_height) []
    (filter (λ e, e.2 ≠ 0) (hash_iter history_map));
  Ok (merge_sort newer history).

Record scan_result := mkScanResult {
  sr_utxos : list Utxo;
  sr_balance : Z;
  sr_history : list TxHistoryEntry;
  sr_receive : list string;
  sr_change : list string;
  sr_receive_index : Z;
  sr_change_index : Z;
}.

Definition scan_wallet_task (scan_mempool : list Transaction → list string → list Utxo) (fuel : nat) (d : DB)
    (master : ExtendedPrivKey) (current_height : Z) (mempool_txs : list Transaction) : outcome scan_result :=
  '(receive_utxos, receive_bal, receive_addrs, recv_idx) ← scan_chain fuel d master 0 20 current_height;
  '(change_utxos, change_bal, change_addrs, chg_idx) ← scan_chain fuel d master 1 20 current_height;
  let mem_utxos := scan_mempool mempool_txs (receive_addrs ++ change_addrs) in
  history ← build_history_task d receive_addrs change_addrs current_height;
  Ok (mkScanResult (receive_utxos ++ change_utxos ++ mem_utxos) (wadd 64 receive_bal change_bal) history
        receive_addrs change_addrs recv_idx chg_idx).

End Wallet.

(** ** Choosing coins: properties *)

Lemma sumZ_cons x l : sumZ (x :: l) = x + sumZ l.
Proof. done. Qed.

Lemma select_coins_spec target s0 coins l s coins' :
  Forall (λ u, 0 <= u_value u) l → 0 <= s0 → s0 + sumZ (u_value <$> l) < 2 ^ 64 →
  select_coins target s0 coins l = (s, coins') →
  ∃ k, coins' = coins ++ take k l ∧ s = s0 + sumZ (u_value <$> take k l).
Proof.
  revert s0 coins. induction l as [|u l IH]; intros s0 coins Hl H0 Hs; cbn [select_coins].
  { intros [= <- <-]. exists 0%nat. rewrite take_0, app_nil_r. cbn [fmap list_fmap sumZ foldr]. split; [done|lia]. }
  apply Forall_cons in Hl as [Hu Hl]. cbv beta in Hu. rewrite fmap_cons, sumZ_cons in Hs.
  assert (0 <= sumZ (u_value <$> l)) by (apply sumZ_nonneg; by rewrite Forall_fmap).
  rewrite wadd_small by lia.
  case_match.
  - intros [= <- <-]. exists 1%nat. cbn [take]. rewrite take_0, fmap_cons, sumZ_cons. cbn [fmap list_fmap sumZ foldr]. split; [done|lia].
  - intros H'. apply IH in H' as (k & -> & ->); [|done|lia|lia]. exists (S k). cbn [take]. rewrite <- app_assoc, fmap_cons, sumZ_cons.
    split; [done|lia].
Qed.

(** The bounds of the fee for [n] inputs: 60 + 106 and 94 + 110 units per input. *)
Definition fee_low (n rate : Z) : Z := (60 + 106 * n) * rate.

Definition fee_high (n rate : Z) : Z := (94 + 110 * n) * rate.

Lemma fee_loop_bounds rounds s amount n rate fee :
  0 <= n → 0 <= rate → 94 + 110 * n < 2 ^ 64 → fee_high n rate < 2 ^ 64 → fee_low n rate <= fee <= fee_high n rate →
  fee_low n rate <= fee_loop rounds s amount n rate fee <= fee_high n rate.
Proof.
  intros Hn Hr Hb Hh. revert fee. induction rounds as [|rounds IH]; intros fee Hf; cbn [fee_loop]; [done|].
  case_match; [done|]. apply IH. unfold fee_low, fee_high, OVERHEAD, DUMMY_SIG_SIZE in *.
  set (oc := if DUST <? _ then 2 else 1). assert (1 <= oc <= 2) by (unfold oc; case_match; lia).
  rewrite (wrap_small 64) by (unfold uint; lia). unfold wmul. rewrite wrap_small; [nia|].
  unfold uint. split; [nia|]. eapply Z.le_lt_trans; [|exact Hh]. nia.
Qed.

Definition coins_value (l : list Utxo) : Z := sumZ (u_value <$> l).

(** The amounts stay far from the limits of their types. *)
Definition no_overflow (utxos : list Utxo) (amount rate : Z) : Prop :=
  Forall (λ u, 0 <= u_value u) utxos ∧ coins_value utxos < 2 ^ 63 ∧ 0 <= amount < 2 ^ 63 ∧ 0 <= rate ∧
  94 + 110 * Z.of_nat (length utxos) < 2 ^ 64 ∧ fee_high (Z.of_nat (length utxos)) rate < 2 ^ 63.

Lemma sumZ_Permutation (l k : list Z) : l ≡ₚ k → sumZ l = sumZ k.
Proof.
  induction 1 as [|x l k _ IH|x y l|l1 l2 l3 _ IH1 _ IH2]; rewrite ?sumZ_cons; [done|lia|lia|congruence].
Qed.

Lemma coins_value_perm l k : l ≡ₚ k → coins_value l = coins_value k.
Proof. intros H. by apply sumZ_Permutation, fmap_Permutation. Qed.

Lemma choose_coins_Ok utxos amount rate coins s fee change :
  no_overflow utxos amount rate → choose_coins utxos amount rate = Ok (coins, s, fee, change) →
  (∃ k, coins = take k (merge_sort larger utxos)) ∧ s = coins_value coins ∧ change = s - amount - fee ∧ 0 <= change ∧
  fee_low (Z.of_nat (length coins)) rate <= fee <= fee_high (Z.of_nat (length coins)) rate.
Proof.
  intros (Hv & Hs & Ha & Hr & Hl & Hf) H. unfold choose_coins in H.
  destruct (select_coins _ _ _ _) as [s0 coins0] eqn:E.
  pose proof (merge_sort_Permutation larger utxos) as Hp.
  apply select_coins_spec in E as (k & -> & ->); [| |done|].
  2: { by rewrite Hp. }
  2: { change (sumZ (u_value <$> merge_sort larger utxos)) with (coins_value (merge_sort larger utxos)).
       rewrite (coins_value_perm _ _ Hp). lia. }
  cbn [app] in H. rewrite Z.add_0_l in H. set (c := take k (merge_sort larger utxos)) in *.
  change (sumZ (u_value <$> c)) with (coins_value c) in H.
  set (f := fee_loop 20 _ _ _ _ _) in H.
  assert (Hlen : (length c ≤ length utxos)%nat) by (rewrite <- Hp; unfold c; rewrite length_take; lia).
  assert (Hfee : fee_low (Z.of_nat (length c)) rate <= f <= fee_high (Z.of_nat (length c)) rate).
  { assert (fee_high (Z.of_nat (length c)) rate <= fee_high (Z.of_nat (length utxos)) rate) by (unfold fee_high; nia).
    apply fee_loop_bounds; try lia. unfold first_fee, fee_low, fee_high, DUMMY_SIG_SIZE, OVERHEAD in *.
    rewrite (wrap_small 64) by (unfold uint; lia). unfold wmul. rewrite wrap_small; [nia|]. unfold uint. nia. }
  clearbody f. apply bind_Ok in H as ([] & H1%ensure_Ok & H). apply bind_Ok in H as ([] & H2%ensure_Ok & H).
  injection H as <- <- <- <-.
  assert (Hc : 0 <= coins_value c <= coins_value utxos).
  { rewrite <- (coins_value_perm _ _ Hp), <- (take_drop k (merge_sort larger utxos)). fold c.
    unfold coins_value. rewrite fmap_app, sumZ_app.
    assert (Forall (λ x, 0 <= x) (u_value <$> merge_sort larger utxos)) as Hall by (rewrite Forall_fmap, Hp; done).
    rewrite <- (take_drop k (merge_sort larger utxos)), fmap_app in Hall. fold c in Hall. apply Forall_app in Hall as [H3 H4].
    apply sumZ_nonneg in H3, H4. lia. }
  split; [by exists k|]. split; [done|]. split; [|split; [|done]].
  all: assert (fee_high (Z.of_nat (length c)) rate < 2 ^ 63) by (eapply Z.le_lt_trans; [|exact Hf]; unfold fee_high; nia);
    assert (0 <= fee_low (Z.of_nat (length c)) rate) by (unfold fee_low; nia);
    rewrite wadd_small in H2 by lia; zbool; rewrite (wsub_small 64 (coins_value c)) by lia; rewrite wsub_small; lia.
Qed.

(** ** Payments: properties *)

Section Payments.
  Context {CR : Crypto} {CRO : CryptoOk} {CD : Codec} {CDO : CodecOk} {RK : Rocks} {RKO : RocksOk} {HO : HashOrder}
    {KC : Keychain} {KCO : KeychainOk}.

Lemma same_but_scripts_refl t : same_but_scripts t t.
Proof. done. Qed.

Lemma same_but_scripts_trans t u v : same_but_scripts t u → same_but_scripts u v → same_but_scripts t v.
Proof. unfold same_but_scripts. congruence. Qed.

Lemma set_script_same t i s vin :
  inputs t !! i = Some vin → same_but_scripts t (with_inputs (<[i := set_script_sig s vin]> (inputs t)) t).
Proof.
  intros Hi. unfold same_but_scripts, with_inputs. cbn. rewrite list_fmap_insert.
  change (clear_script_sig (set_script_sig s vin)) with (clear_script_sig vin).
  rewrite (list_insert_id (clear_script_sig <$> inputs t)); [done|]. by rewrite list_lookup_fmap, Hi.
Qed.

(** What signing leaves in an input: a signature of the digest of the whole
    transaction under the key of the path, its type byte and the key. *)
Definition signed_for (master : ExtendedPrivKey) (t : Transaction) (i : nat) (u : Utxo) (vin : TXInput) : Prop :=
  ∃ path sk digest msg, path_parse (u_derivation_path u) = Some path ∧ derive_key master path = Some sk ∧
    sighash t i (u_script_pubkey u) 1 = Ok digest ∧ Message_from_slice digest = Some msg ∧
    script_sig vin = sign_der msg sk ++ [1] ++ PublicKey_serialize (key_of sk).

Lemma sign_input_Ok master t i u t' :
  sign_input master t (i, u) = Ok t' →
  same_but_scripts t t' ∧ length (inputs t') = length (inputs t) ∧
  (∀ k, k ≠ i → inputs t' !! k = inputs t !! k) ∧ ∃ vin, inputs t' !! i = Some vin ∧ signed_for master t i u vin.
Proof.
  intros H. unfold sign_input, derive_at in H. apply bind_Ok in H as (path & Hp%ok_or_Ok & H).
  apply bind_Ok in H as (sk & Hk%ok_or_Ok & H). apply bind_Ok in H as (digest & Hd & H).
  apply bind_Ok in H as (msg & Hm%ok_or_Ok & H). apply bind_Ok in H as (vin & Hv & [= <-]).
  unfold index in Hv. apply unwrap_Ok in Hv. split_and!.
  - by apply set_script_same.
  - cbn. apply length_insert.
  - intros k Hk'. cbn. by rewrite list_lookup_insert_ne.
  - eexists. split; [cbn; by rewrite list_lookup_insert_eq by by eapply lookup_lt_Some|]. by exists path, sk, digest, msg.
Qed.

Lemma sign_inputs_Ok master coins j t t' :
  for_each (sign_input master) t (imap (λ i u, ((j + i)%nat, u)) coins) = Ok t' →
  same_but_scripts t t' ∧ length (inputs t') = length (inputs t) ∧
  (∀ k, (k < j)%nat → inputs t' !! k = inputs t !! k) ∧
  ∀ i u, coins !! i = Some u → ∃ vin, inputs t' !! (j + i)%nat = Some vin ∧ signed_for master t' (j + i) u vin.
Proof.
  revert j t. induction coins as [|u coins IH]; intros j t; cbn [imap for_each].
  { intros [= <-]. split_and!; try done. }
  intros (t1 & H1 & H)%bind_Ok. apply sign_input_Ok in H1 as (Hs1 & Hl1 & Hk1 & vin & Hv1 & Hsig). rewrite Nat.add_0_r in *.
  rewrite (imap_ext _ (λ i u, ((S j + i)%nat, u))) in H by (intros; cbn; f_equal; lia).
  apply IH in H as (Hs & Hl & Hk & Hall). split_and!.
  - by eapply same_but_scripts_trans.
  - congruence.
  - intros k Hkj. rewrite Hk by lia. apply Hk1. lia.
  - intros [|i] v Hi; cbn in Hi.
    + injection Hi as <-. rewrite Nat.add_0_r. exists vin. split; [by rewrite Hk by lia|].
      destruct Hsig as (path & sk & digest & msg & H2 & H3 & H4 & H5 & H6). exists path, sk, digest, msg.
      split_and!; try done. rewrite <- H4. symmetry. apply sighash_ignores_scripts. by eapply same_but_scripts_trans.
    + replace (j + S i)%nat with (S j + i)%nat by lia. by apply Hall.
Qed.

(** A payment, taken apart. *)
Inductive payment (master : ExtendedPrivKey) (ci : Z) (to : string) (amount rate : Z) (change_addr : option string)
    (utxos : list Utxo) (t : Transaction) : Prop :=
  Payment coins input_sum fee change pkh rest :
    choose_coins utxos amount rate = Ok (coins, input_sum, fee, change) →
    address_to_pubkey_hash to = Ok pkh →
    change_output master ci change change_addr = Ok rest →
    outputs t = mkTXOutput amount (p2pkh_script_from_pkh pkh) None :: rest →
    same_but_scripts (mkTransaction 1 false (unsigned_input <$> coins) (outputs t) 0 []) t →
    (∀ i u, coins !! i = Some u → ∃ vin, inputs t !! i = Some vin ∧ signed_for master t i u vin) →
    payment master ci to amount rate change_addr utxos t.

Lemma create_tx_Ok d master ci to amount rate ca utxos t id :
  get_utxos d master true = Ok utxos → create_tx d master ci to amount rate ca = Ok (t, id) →
  payment master ci to amount rate ca utxos t ∧ id = tx_hash t.
Proof.
  intros Hu H. unfold create_tx in H. rewrite Hu in H. cbn [mbind outcome_bind] in H.
  apply bind_Ok in H as ([[[coins s] fee] change] & Hc & H).
  apply bind_Ok in H as (pkh & Hp & H). apply bind_Ok in H as (rest & Hr & H).
  apply bind_Ok in H as (t1 & Ht & [= <- <-]).
  rewrite (imap_ext _ (λ i u, ((0 + i)%nat, u))) in Ht by done.
  apply sign_inputs_Ok in Ht as (Hs & Hl & _ & Hall). split; [|done].
  assert (outputs t1 = mkTXOutput amount (p2pkh_script_from_pkh pkh) None :: rest) as Ho
    by (symmetry; by injection Hs).
  eapply (Payment _ _ _ _ _ _ _ _ coins s fee change pkh rest); try done. by rewrite Ho.
Qed.

Lemma unsigned_outpoints coins t outs :
  same_but_scripts (mkTransaction 1 false (unsigned_input <$> coins) outs 0 []) t →
  outpoint <$> inputs t = (λ u, (u_txid u, u_vout u)) <$> coins.
Proof.
  intros H%same_but_scripts_inputs. cbn in H. revert H. generalize (inputs t). clear t.
  induction coins as [|u coins IH]; intros [|i l] H; inversion H as [|? ? ? ? (E1 & E2 & _)]; subst; [done|].
  csimpl. f_equal; [unfold outpoint; cbn in *; congruence|by apply IH].
Qed.

(** An account of a payment: what its coins are worth and where that goes. *)
Lemma payment_conserves master ci to amount rate ca utxos t :
  payment master ci to amount rate ca utxos t → no_overflow utxos amount rate →
  ∃ coins fee pkh rest, coins ⊆+ utxos ∧ outpoint <$> inputs t = (λ u, (u_txid u, u_vout u)) <$> coins ∧
    address_to_pubkey_hash to = Ok pkh ∧
    outputs t = mkTXOutput amount (p2pkh_script_from_pkh pkh) None :: rest ∧ (length rest ≤ 1)%nat ∧
    coins_value coins = sumZ (value <$> outputs t) + fee ∧
    fee_low (Z.of_nat (length coins)) rate <= fee <= fee_high (Z.of_nat (length coins)) rate + DUST ∧
    (rest ≠ [] → fee <= fee_high (Z.of_nat (length coins)) rate).
Proof.
  intros [coins s fee change pkh rest Hc Hp Hr Ho Hs _] Hno.
  destruct (choose_coins_Ok _ _ _ _ _ _ _ Hno Hc) as ((k & ->) & -> & -> & Hch & Hfee).
  set (coins := take k (merge_sort larger utxos)) in *. set (change := coins_value coins - amount - fee) in *.
  assert (Hsub : coins ⊆+ utxos).
  { rewrite <- (merge_sort_Permutation larger utxos). apply sublist_submseteq, sublist_take. }
  assert (Hout : (rest = [] ∧ change <= DUST) ∨ (∃ spk, rest = [mkTXOutput change spk None])).
  { unfold change_output in Hr. destruct (Z.ltb_spec DUST change).
    - apply bind_Ok in Hr as (key & _ & [= <-]). right. by eexists.
    - destruct ca as [ch|]; [|left; by injection Hr as <-]. apply bind_Ok in Hr as (ch_pkh & _ & [= <-]). right. by eexists. }
  exists coins. destruct Hout as [[-> Hd]|[spk ->]].
  - exists (fee + change), pkh, []. rewrite Ho. assert (coins_value coins = amount + (fee + change)) by (unfold change; lia).
    do 4 (split; [done || by eapply unsigned_outpoints|]). split; [cbn; lia|].
    split; [cbn [fmap list_fmap value sumZ foldr]; lia|]. split; [lia|done].
  - exists fee, pkh, [mkTXOutput change spk None]. rewrite Ho. assert (coins_value coins = amount + change + fee) by (unfold change; lia).
    do 4 (split; [done || by eapply unsigned_outpoints|]). split; [cbn; lia|].
    split; [cbn [fmap list_fmap value sumZ foldr]; lia|]. unfold DUST. split; [lia|intros _; lia].
Qed.

(** C16. A payment spends coins of the wallet, none twice, and what they are
    worth is what it pays: the amount to the address asked for, the change and
    a fee of at least the rate times its estimated size; change of at most 1000
    without an address for it goes to the fee. *)
Theorem create_tx_conserves d master ci to amount rate ca utxos t id :
  get_utxos d master true = Ok utxos → no_overflow utxos amount rate →
  create_tx d master ci to amount rate ca = Ok (t, id) →
  ∃ coins fee pkh rest, coins ⊆+ utxos ∧ outpoint <$> inputs t = (λ u, (u_txid u, u_vout u)) <$> coins ∧
    address_to_pubkey_hash to = Ok pkh ∧
    outputs t = mkTXOutput amount (p2pkh_script_from_pkh pkh) None :: rest ∧ (length rest ≤ 1)%nat ∧
    coins_value coins = sumZ (value <$> outputs t) + fee ∧
    fee_low (Z.of_nat (length coins)) rate <= fee <= fee_high (Z.of_nat (length coins)) rate + DUST ∧
    (rest ≠ [] → fee <= fee_high (Z.of_nat (length coins)) rate).
Proof.
  intros Hu Hno H. destruct (create_tx_Ok _ _ _ _ _ _ _ _ _ _ Hu H) as [Hp _]. by eapply payment_conserves.
Qed.

(** C26. Every input of a payment carries a signature that verifies, under the
    key of its coin, the digest of the finished transaction. *)
Theorem create_tx_signed d master ci to amount rate ca utxos t id :
  get_utxos d master true = Ok utxos → create_tx d master ci to amount rate ca = Ok (t, id) →
  ∀ i vin, inputs t !! i = Some vin →
    ∃ u path sk digest msg sig, u ∈ utxos ∧ outpoint vin = (u_txid u, u_vout u) ∧
      path_parse (u_derivation_path u) = Some path ∧ derive_key master path = Some sk ∧
      sighash t i (u_script_pubkey u) 1 = Ok digest ∧ Message_from_slice digest = Some msg ∧
      script_sig vin = sign_der msg sk ++ [1] ++ PublicKey_serialize (key_of sk) ∧
      Signature_from_der (sign_der msg sk) = Some sig ∧ verify_ecdsa msg sig (key_of sk) = true.
Proof.
  intros Hu H i vin Hi. destruct (create_tx_Ok _ _ _ _ _ _ _ _ _ _ Hu H) as [[coins s fee change pkh rest Hc _ _ _ Hs Hall] _].
  pose proof (unsigned_outpoints _ _ _ Hs) as Ho.
  assert (∃ u, coins !! i = Some u ∧ outpoint vin = (u_txid u, u_vout u)) as (u & Hiu & Hov).
  { pose proof (f_equal (λ l, l !! i) Ho) as E. cbv beta in E. rewrite !list_lookup_fmap, Hi in E. cbn in E.
    destruct (coins !! i) as [u|]; [|done]. exists u. split; [done|]. by apply (inj Some) in E. }
  destruct (Hall i u Hiu) as (vin' & Hi' & path & sk & digest & msg & H1 & H2 & H3 & H4 & H5).
  rewrite Hi in Hi'. injection Hi' as <-. destruct (sign_der_verifies msg sk) as (sig & H6 & H7).
  exists u, path, sk, digest, msg, sig. split_and!; try done.
  unfold choose_coins in Hc. destruct (select_coins _ _ _ _) as [s0 c0] eqn:E.
  set (f := fee_loop 20 _ _ _ _ _) in Hc. clearbody f. apply bind_Ok in Hc as (_ & _ & Hc). apply bind_Ok in Hc as (_ & _ & Hc). injection Hc as <- _ _ _.
  assert (∀ l target s0 acc s c, select_coins target s0 acc l = (s, c) → ∀ x, x ∈ c → x ∈ acc ∨ x ∈ l) as Hsel.
  { clear. induction l as [|y l IH]; intros target s0 acc s c; cbn [select_coins]; [intros [= _ <-]; by left|].
    case_match; [intros [= _ <-]; set_solver|]. intros H' x Hx. apply IH with (x:=x) in H'; [|done]. set_solver. }
  destruct (Hsel _ _ _ _ _ _ E u) as [Hx|Hx]; [by eapply list_elem_of_lookup_2|by apply not_elem_of_nil in Hx|].
  by rewrite (merge_sort_Permutation larger utxos) in Hx.
Qed.

(** *** Well-formedness *)

Definition wf_utxo (u : Utxo) : Prop := wf_array 32 (u_txid u) ∧ uint 32 (u_vout u) ∧ uint 64 (u_value u).

Lemma address_hash_20 a pkh : address_to_pubkey_hash a = Ok pkh → length pkh = 20%nat ∧ Forall byte pkh.
Proof.
  intros H. unfold address_to_pubkey_hash in H. apply bind_Ok in H as ([v p] & Hc%ok_or_Ok & H).
  apply bind_Ok in H as ([] & Hl%ensure_Ok & [= <-]). apply Nat.eqb_eq in Hl. split; [done|]. by eapply from_check_bytes.
Qed.

Lemma p2pkh_script_25 pkh :
  length pkh = 20%nat → Forall byte pkh →
  length (p2pkh_script_from_pkh pkh) = 25%nat ∧ wf_bytes (p2pkh_script_from_pkh pkh).
Proof.
  intros Hl Hb. assert (length (p2pkh_script_from_pkh pkh) = 25%nat) as E
    by (unfold p2pkh_script_from_pkh; rewrite !length_app, Hl; done).
  split; [done|]. split; [|rewrite E; by vm_compute]. unfold p2pkh_script_from_pkh. rewrite !Forall_app.
  split_and!; [|done|]; repeat constructor; by vm_compute.
Qed.

Lemma p2pkh_from_pkh_wf a pkh : address_to_pubkey_hash a = Ok pkh → wf_bytes (p2pkh_script_from_pkh pkh).
Proof. intros [Hl Hb]%address_hash_20. by apply p2pkh_script_25. Qed.

(** The two ways the source writes the script agree. *)
Lemma p2pkh_script_pkh pk : p2pkh_script pk = p2pkh_script_from_pkh (hash160 (PublicKey_serialize pk)).
Proof. done. Qed.

Lemma p2pkh_script_wf pk : wf_bytes (p2pkh_script pk) ∧ length (p2pkh_script pk) = 25%nat.
Proof.
  destruct (ripemd160_array (sha256 (PublicKey_serialize pk))) as [Hb Hl].
  rewrite p2pkh_script_pkh. apply and_comm. by apply p2pkh_script_25.
Qed.

Lemma plain_output_wf v spk : uint 64 v → wf_bytes spk → wf_output (mkTXOutput v spk None).
Proof. intros. by split_and!. Qed.

Lemma signed_wf master t i u vin : signed_for master t i u vin → wf_bytes (script_sig vin).
Proof.
  intros (path & sk & digest & msg & _ & _ & _ & _ & ->). destruct (sign_der_bytes msg sk) as [[Hb _] Hl].
  unfold wf_bytes. rewrite !Forall_app, !length_app, length_PublicKey. split; [|cbn; lia].
  split_and!; [done| |apply PublicKey_bytes]. repeat constructor; by vm_compute.
Qed.

Lemma choose_coins_submseteq utxos amount rate coins s fee change :
  choose_coins utxos amount rate = Ok (coins, s, fee, change) → coins ⊆+ utxos ∧ ∃ x y, change = wsub 64 x y.
Proof.
  intros H. unfold choose_coins in H. destruct (select_coins _ _ _ _) as [s0 c0] eqn:E.
  set (f := fee_loop 20 _ _ _ _ _) in H. clearbody f. apply bind_Ok in H as (_ & _ & H).
  apply bind_Ok in H as (_ & _ & H). injection H as <- _ _ <-. split; [|by eexists _, _].
  assert (∀ l target s0 acc s c, select_coins target s0 acc l = (s, c) → ∃ k, c = acc ++ take k l) as Hsel.
  { clear. induction l as [|y l IH]; intros target s0 acc s c; cbn [select_coins].
    { intros [= _ <-]. exists 0%nat. by rewrite take_0, app_nil_r. }
    case_match; [intros [= _ <-]; exists 1%nat; cbn [take]; by rewrite take_0|].
    intros (k & ->)%IH. exists (S k). cbn [take]. by rewrite <- app_assoc. }
  apply Hsel in E as (k & ->). cbn [app]. etrans; [apply sublist_submseteq, sublist_take|].
  by rewrite merge_sort_Permutation.
Qed.

(** A payment is a value of its Rust type. *)
Lemma payment_wf master ci to amount rate ca utxos t :
  payment master ci to amount rate ca utxos t →
  Forall wf_utxo utxos → Z.of_nat (length utxos) < 2 ^ 64 → uint 64 amount →
  wf_tx t ∧ is_anonymous t = false ∧ range_proofs t = [].
Proof.
  intros [coins s fee change pkh rest Hc Hp Hr Ho Hs Hall] Hw Hlen Ha.
  destruct (choose_coins_submseteq _ _ _ _ _ _ _ Hc) as [Hsub (x & y & Hch)].
  pose proof Hs as [= Hv Han _ Hlt Hrp]. pose proof (same_but_scripts_inputs _ _ Hs) as Hin. cbn [inputs] in Hin.
  assert (length (inputs t) = length coins) as Hl by (rewrite <- (Forall2_length _ _ _ Hin); apply length_fmap).
  assert (Forall wf_input (inputs t)) as Hwi.
  { apply Forall_lookup. intros i vin Hi. destruct (Forall2_lookup_r _ _ _ _ _ Hin Hi) as (w & Hw1 & E1 & E2 & E3).
    rewrite list_lookup_fmap in Hw1. destruct (coins !! i) as [u|] eqn:Eu; [|done]. injection Hw1 as <-.
    assert (wf_utxo u) as (H1 & H2 & _).
    { rewrite Forall_forall in Hw. apply Hw. eapply elem_of_submseteq; [by eapply list_elem_of_lookup_2|done]. }
    destruct (Hall i u Eu) as (vin' & Hi' & Hsg). rewrite Hi in Hi'. injection Hi' as <-. apply signed_wf in Hsg.
    cbn in E1, E2, E3. unfold wf_input. rewrite <- E1, <- E2, <- E3. split_and!; try done; by vm_compute. }
  assert (Forall wf_output rest ∧ (length rest ≤ 1)%nat) as [H1 H2].
  { assert (uint 64 change) by (rewrite Hch; by apply (wrap_uint 64)). unfold change_output in Hr. case_match.
    - apply bind_Ok in Hr as (key & _ & [= <-]). split; [|done]. constructor; [|constructor].
      by apply plain_output_wf, p2pkh_script_wf.
    - destruct ca as [ch|]; [|injection Hr as <-; split; [constructor|cbn; lia]].
      apply bind_Ok in Hr as (ch_pkh & Hp2 & [= <-]). split; [|done]. constructor; [|constructor].
      apply plain_output_wf; [done|by eapply p2pkh_from_pkh_wf]. }
  assert (Forall wf_output (outputs t)) as Hwo.
  { rewrite Ho. constructor; [|done]. apply plain_output_wf; [done|by eapply p2pkh_from_pkh_wf]. }
  split; [|split]; try congruence. unfold wf_tx. rewrite <- Hv, <- Hlt, <- Hrp. cbn [tx_version lock_time range_proofs].
  apply submseteq_length in Hsub. assert (length (outputs t) = S (length rest)) as E by by rewrite Ho.
  split_and!; try done; try (rewrite ?E; lia); try by vm_compute.
Qed.

(** C39. A payment is a value of its Rust type: from well-formed coins and an
    amount of 64 bits the wallet builds a transparent transaction whose every
    field is in range, and answers its hash. *)
Theorem create_tx_wf d master ci to amount rate ca utxos t id :
  get_utxos d master true = Ok utxos → Forall wf_utxo utxos → Z.of_nat (length utxos) < 2 ^ 64 → uint 64 amount →
  create_tx d master ci to amount rate ca = Ok (t, id) →
  wf_tx t ∧ is_anonymous t = false ∧ range_proofs t = [] ∧ id = tx_hash t.
Proof.
  intros Hu Hw Hlen Ha H. destruct (create_tx_Ok _ _ _ _ _ _ _ _ _ _ Hu H) as [Hp ->].
  destruct (payment_wf _ _ _ _ _ _ _ _ Hp Hw Hlen Ha) as (? & ? & ?). by split_and!.
Qed.

(** *** The fee *)

(** The scripts of a payment are 25 bytes long, so that it is longer than the
    wallet takes it for. *)
Lemma payment_size `{TL : !TxLength} master ci to amount rate ca utxos t : wf_tx t →
  payment master ci to amount rate ca utxos t → length (outputs t) = 2%nat →
  Forall (λ i, 62 <= Z.of_nat (length (script_sig i))) (inputs t) →
  117 + 110 * Z.of_nat (length (inputs t)) <= tx_size t.
Proof.
  intros Hwt [coins s fee change pkh rest Hc Hp Hr Ho Hs _] Hlen Hsig. pose proof (tx_length t Hwt) as Hsz.
  assert (∀ a p, address_to_pubkey_hash a = Ok p → length (p2pkh_script_from_pkh p) = 25%nat) as Hpkh.
  { intros a p [Hl Hb]%address_hash_20. by apply p2pkh_script_25. }
  assert (42 * 2 <= sumZ ((λ o, 17 + Z.of_nat (length (script_pubkey o))) <$> outputs t)) as Hout.
  { rewrite Ho in Hlen |- *. destruct rest as [|o [|]]; try done. cbn [fmap list_fmap sumZ foldr script_pubkey].
    rewrite (Hpkh _ _ Hp). assert (length (script_pubkey o) = 25%nat) as ->; [|lia].
    unfold change_output in Hr. case_match.
    - apply bind_Ok in Hr as (key & _ & [= <-]). apply (p2pkh_script_wf _).
    - destruct ca as [ch|]; [|done]. apply bind_Ok in Hr as (p & Hp2 & [= <-]). by eapply Hpkh. }
  assert (110 * Z.of_nat (length (inputs t)) <= sumZ ((λ i, 48 + Z.of_nat (length (script_sig i))) <$> inputs t)) as Hin.
  { clear -Hsig. induction Hsig as [|i l Hi Hf IH]; [done|]. rewrite fmap_cons, sumZ_cons. cbn [length]. cbv beta in Hi. lia. }
  lia.
Qed.

(** The fee the wallet computes at the rate of the node is too low: it
    takes the frame and the outputs of a payment for 94 bytes where bincode
    writes 117, and an input for 110 where a signed one has more, so that
    validation refuses every payment with change. *)
Theorem default_fee_refused `{TL : !TxLength} d master ci to amount rate ca utxos t id best height :
  get_utxos d master true = Ok utxos → Forall wf_utxo utxos → no_overflow utxos amount rate → rate <= MIN_FEE_PER_BYTE →
  (** the index and the set of unspent outputs agree *)
  (∀ u o, u ∈ utxos → stored d (unsigned_input u) o → value o = u_value u) →
  create_tx d master ci to amount rate ca = Ok (t, id) → length (outputs t) = 2%nat →
  Forall (λ i, 62 <= Z.of_nat (length (script_sig i))) (inputs t) →
  tx_size t < 2 ^ 64 → is_coinbase t = false →
  validate_transaction d best t height ≠ Ok tt.
Proof.
  intros Hu Hw Hno Hrate Hagree H Hlen Hsig Hsz Hcb Hval. pose proof Hno as (_ & _ & Ha & Hr0 & Hb & _).
  destruct (create_tx_Ok _ _ _ _ _ _ _ _ _ _ Hu H) as [Hp _].
  destruct (payment_wf _ _ _ _ _ _ _ _ Hp Hw ltac:(lia) ltac:(unfold uint; lia)) as (Hwt & Han & _).
  pose proof (payment_size _ _ _ _ _ _ _ _ Hwt Hp Hlen Hsig) as Hsize.
  destruct (payment_conserves _ _ _ _ _ _ _ _ Hp Hno) as (coins & fee & pkh & rest & Hsub & Hop & _ & Ho & _ & Hsum & _ & Hfee).
  apply transparent_valid in Hval as (_ & _ & outs & Hst & Hle); try done.
  assert (length (inputs t) = length coins) as Hl.
  { pose proof (f_equal length Hop) as E. by rewrite !length_fmap in E. }
  assert (sumZ (value <$> outs) = coins_value coins) as Hcv.
  { clear -Hsub Hop Hst Hagree. assert (∀ u, u ∈ coins → u ∈ utxos) as Hin by (intros u Hu; by eapply elem_of_submseteq).
    clear Hsub. revert outs Hst Hop Hin. generalize (inputs t). induction coins as [|u coins IH]; intros [|i l] outs Hst Hop Hin; try done.
    { by apply Forall2_nil_inv_l in Hst as ->. }
    apply Forall2_cons_inv_l in Hst as (o & outs' & Hso & Hst & ->). injection Hop as E1 E2 E3. unfold coins_value.
    rewrite !fmap_cons, !sumZ_cons. unfold coins_value in IH. rewrite (IH l outs' Hst E3) by (intros; apply Hin; by right).
    rewrite (Hagree u o); [done|apply Hin; by left|]. unfold stored in *. cbn. by rewrite <- E1, <- E2. }
  rewrite Hcv, Hsum in Hle. rewrite Ho in Hlen. assert (fee <= fee_high (Z.of_nat (length coins)) rate) as Hfh.
  { apply Hfee. intros ->. done. }
  unfold fee_high, MIN_FEE_PER_BYTE in *. rewrite Hl in Hsize. nia.
Qed.

(** *** What the wallet sees *)

(** The scripts of the index are those of payments to a key hash, 25 bytes. *)
Definition index_scripts (d : DB) : Prop :=
  ∀ k v, contents d !! ("addr_index", k) = Some v →
    ∃ spk id n, k = addr_key spk id n ∧ length id = 32%nat ∧ length spk = 25%nat.

(** A script of the index, which has 25 bytes, has the hash of the public key of
    one of the 200 keys of the wallet, which has 33. *)
Definition collision (d : DB) (master : ExtendedPrivKey) : Prop :=
  ∃ spk id n v ci k, contents d !! ("addr_index", addr_key spk id n) = Some v ∧ length spk = 25%nat ∧
    ci ∈ key_indices ∧ wallet_key master ci.1 ci.2 = Ok k ∧
    hash160 spk = hash160 (PublicKey_serialize (key_of k.2)).

Lemma wallet_entries_empty d master ci k l :
  index_scripts d → ci ∈ key_indices → wallet_key master ci.1 ci.2 = Ok k →
  addr_entries d (pkh_of k.2) = Ok l → l = [] ∨ collision d master.
Proof.
  intros Hi Hci Hk0 He. destruct l as [|[ke v] l]; [by left|right]. apply addr_entries_spec in He as [_ Hm].
  destruct (proj1 (Hm ke v) ltac:(by left)) as [Hk Hs].
  destruct (Hi _ _ Hk) as (spk & id & n & -> & _ & Hl). exists spk, id, n, v, ci, k. split_and!; [done..|].
  apply starts_with_spec in Hs as [r Hr]. unfold addr_key, addr_prefix in Hr. rewrite <- app_assoc in Hr.
  apply (inj (app (bstr "addr:"))) in Hr. apply app_inj_1 in Hr as [Hr _]; [done|].
  pose proof (ripemd160_array (sha256 spk)) as [_ H1].
  pose proof (ripemd160_array (sha256 (PublicKey_serialize (key_of k.2)))) as [_ H2].
  unfold pkh_of, hash160, hash_ripemd160. congruence.
Qed.

(** A loop over the keys of the wallet whose body only looks at the entries of
    a key ends where it started. *)
Lemma over_keys {A} d master (body : A → DerivationPath * SecretKey → bytes * bytes → outcome A) a r :
  index_scripts d →
  for_each (λ acc ci,
    k ← wallet_key master ci.1 ci.2;
    es ← addr_entries d (pkh_of k.2);
    for_each (λ acc kv, body acc k kv) acc es) a key_indices = Ok r → r = a ∨ collision d master.
Proof.
  intros Hi. apply (for_each_inv (λ r, r = a ∨ collision d master)); [|by left].
  intros x ci y Hin [->|Hc] H; [|by right]. apply bind_Ok in H as (k & Hk & H). apply bind_Ok in H as (es & He & H).
  destruct (wallet_entries_empty d master ci k es Hi Hin Hk He) as [->|Hc]; [|by right]. left. by injection H.
Qed.

(** The wallet does not see what is paid to it: it looks for the hash of
    its key where the chain files outputs under the hash of their script.
    Unless a script of the index has the hash of one of its keys it has no unspent output, a balance of zero and
    nothing to pay with. *)
Theorem wallet_sees_nothing d master :
  index_scripts d →
  (∀ spendable utxos, get_utxos d master spendable = Ok utxos → utxos = [] ∨ collision d master) ∧
  (∀ balance, get_balance d master = Ok balance → balance = (0, 0) ∨ collision d master) ∧
  (∀ ci to amount rate ca r, 0 < amount → create_tx d master ci to amount rate ca = Ok r → collision d master).
Proof.
  intros Hi. assert (Hut : ∀ spendable utxos, get_utxos d master spendable = Ok utxos → utxos = [] ∨ collision d master).
  { intros spendable utxos H. unfold get_utxos in H. apply bind_Ok in H as (_ & _ & H). apply bind_Ok in H as (h & _ & H).
    by apply (over_keys d master (λ acc k, add_utxo d h (path_to_string k.1) spendable acc)) in H. }
  split_and!; [done| |].
  - intros balance H. unfold get_balance in H. apply bind_Ok in H as (_ & _ & H). apply bind_Ok in H as (h & _ & H).
    by apply (over_keys d master (λ acc _, add_balance d h acc)) in H.
  - intros ci to amount rate ca [t id] Ha H. unfold create_tx in H. apply bind_Ok in H as (utxos & Hu & H).
    destruct (Hut _ _ Hu) as [->|Hc]; [|done]. exfalso. apply bind_Ok in H as (c & Hc & _).
    unfold choose_coins in Hc. cbn [merge_sort select_coins] in Hc. apply bind_Ok in Hc as (_ & He%ensure_Ok & _).
    cbn in He. by rewrite (proj2 (Z.ltb_lt _ _) Ha) in He.
Qed.

(** *** The keys of the wallet *)

(** Every path of the wallet gives a key. *)
Definition derivable (master : ExtendedPrivKey) : Prop :=
  Forall (λ ci, ∃ k, wallet_key master ci.1 ci.2 = Ok k) key_indices.

Lemma find_key master pkh l found :
  Forall (λ ci, ∃ k, wallet_key master ci.1 ci.2 = Ok k) l →
  ∃ r, for_each (λ found ci,
    match found with
    | Some sk => Ok (Some sk)
    | None =>
        k ← wallet_key master ci.1 ci.2;
        Ok (if bool_decide (pkh_of k.2 = pkh) then Some k.2 else None)
    end) found l = Ok r ∧
    match r with
    | Some sk => found = Some sk ∨ pkh_of sk = pkh
    | None => ∀ ci k, ci ∈ l → wallet_key master ci.1 ci.2 = Ok k → pkh_of k.2 ≠ pkh
    end.
Proof.
  intros Hl. revert found. induction Hl as [|ci l (k & Hk) Hl IH]; intros found; cbn [for_each].
  { exists found. split; [done|]. destruct found; [by left|]. intros ci k []%not_elem_of_nil. }
  destruct found as [sk|].
  { cbn [mbind outcome_bind]. destruct (IH (Some sk)) as (r & E & Hr). exists r. split; [done|].
    destruct r; [done|]. exfalso. clear -E Hr. revert E. induction l as [|x l IH]; cbn [for_each mbind outcome_bind]; [done|].
    intros E. apply IH; [|done]. intros ci k Hin. apply Hr. by right. }
  rewrite Hk. cbn [mbind outcome_bind]. case_bool_decide as Hp.
  - destruct (IH (Some k.2)) as (r & E & Hr). exists r. split; [done|]. destruct r as [sk|].
    + destruct Hr as [[= <-]|Hr]; by right.
    + exfalso. clear -E. induction l as [|x l IH]; cbn [for_each mbind outcome_bind] in E; [done|]. by apply IH.
  - destruct (IH None) as (r & E & Hr). exists r. split; [done|]. destruct r as [sk|]; [done|].
    intros ci' k' [->|Hin]%elem_of_cons Hk'; [congruence|by eapply Hr].
Qed.

(** An address the wallet gives out is one it can sign for: the key found
    for it has that address. *)
Theorem own_address_key master i a :
  derivable master → 0 <= i < 100 → get_receive_address master i = Ok a →
  ∃ sk, get_privkey_for_address master a = Ok sk ∧ pubkey_to_address (key_of sk) = a ∧
    address_to_pubkey_hash a = Ok (pkh_of sk).
Proof.
  intros Hd Hi (k & Hk & [= <-])%bind_Ok. unfold get_privkey_for_address.
  rewrite address_of_key. cbn [mbind outcome_bind]. fold (pkh_of k.2).
  destruct (find_key master (pkh_of k.2) key_indices None Hd) as (r & -> & Hr). cbn [mbind outcome_bind].
  assert ((0, i) ∈ key_indices) as Hin.
  { apply elem_of_app. left. apply list_elem_of_fmap. exists i. split; [done|]. apply elem_of_seqZ. lia. }
  destruct r as [sk|]; [|exfalso; by eapply Hr]. destruct Hr as [|Hr]; [done|].
  exists sk. unfold pubkey_to_address. fold (pkh_of sk) (pkh_of k.2). by rewrite Hr.
Qed.

(** *** The scan *)

(** The address of an index has no entry. *)
Definition empty_at (d : DB) (master : ExtendedPrivKey) (cp : DerivationPath) (i : Z) : Prop :=
  ∃ path sk, path_normal cp i = Some path ∧ derive_key master path = Some sk ∧ query_addr_index d (pkh_of sk) = Ok [].

(** The scan can read the address of an index. *)
Definition readable_at (d : DB) (master : ExtendedPrivKey) (cp : DerivationPath) (h i : Z) : Prop :=
  ∃ path sk es, path_normal cp i = Some path ∧ derive_key master path = Some sk ∧
    query_addr_index d (pkh_of sk) = Ok es ∧ ∀ acc, ∃ acc', for_each (scan_entry d h path) acc es = Ok acc'.

Lemma scan_loop_ends d master cp limit h k fuel utxos addresses index gap :
  0 <= k → k + limit < 2 ^ 32 →
  (∀ i, 0 <= i < k + limit → readable_at d master cp h i) → (∀ i, k <= i < k + limit → empty_at d master cp i) →
  0 <= gap <= limit → gap <= index <= k + gap → (∀ i, index - gap <= i < index → empty_at d master cp i) →
  k + limit - index <= Z.of_nat fuel →
  ∃ utxos' addresses' n, scan_loop fuel d master cp limit h utxos addresses index gap = Ok (utxos', addresses', n) ∧
    limit <= n <= k + limit ∧ ∀ i, n - limit <= i < n → empty_at d master cp i.
Proof.
  intros Hk Hb Hr He. revert utxos addresses index gap. induction fuel as [|fuel IH]; intros utxos addresses index gap Hg Hi Hlast Hf;
    cbn [scan_loop]; destruct (Z.ltb_spec gap limit).
  1: lia. 1,3: exists utxos, addresses, index; replace gap with limit in * by lia; split_and!; done || lia.
  destruct (Hr index ltac:(lia)) as (path & sk & es & Hp & Hs & Hq & Hes). unfold derive_at. rewrite Hp. cbn [ok_or mbind outcome_bind]. rewrite Hs. cbn [ok_or mbind outcome_bind]. rewrite Hq.
    cbn [ok_or mbind outcome_bind].
  destruct (Hes utxos) as [utxos' ->]. cbn [mbind outcome_bind]. rewrite (wadd_small 32) by lia. destruct es as [|e es].
  - apply IH; try lia. intros i Hlt. destruct (decide (i = index)) as [->|]; [by exists path, sk|]. apply Hlast. lia.
  - apply IH; try lia. destruct (decide (k <= index)) as [Hge|]; [|lia].
    destruct (He index ltac:(lia)) as (path' & sk' & H1 & H2 & H3). congruence.
Qed.

(** The scan of a chain ends: if no address from [k] on has an entry, it
    looks at [k] and the limit of addresses at most, and the last ones, as many
    as the limit, have none. *)
Theorem scan_chain_ends d master chain_num limit h k fuel base cp :
  cf_handle d "utxo" = true → path_parse "m/44'/1987'/0'/" = Some base → path_hardened base chain_num = Some cp →
  0 <= k → 0 <= limit → k + limit < 2 ^ 32 →
  (∀ i, 0 <= i < k + limit → readable_at d master cp h i) → (∀ i, k <= i < k + limit → empty_at d master cp i) →
  k + limit <= Z.of_nat fuel →
  ∃ utxos addresses n, scan_chain fuel d master chain_num limit h = Ok (utxos, foldl (wadd 64) 0 (u_value <$> utxos), addresses, n) ∧
    limit <= n <= k + limit ∧ ∀ i, n - limit <= i < n → empty_at d master cp i.
Proof.
  intros Hcf Hbase Hcp Hk Hl Hb Hr He Hf. unfold scan_chain. rewrite Hcf, Hbase. cbn [unwrap ok_or mbind outcome_bind]. rewrite Hcp. cbn [unwrap ok_or mbind outcome_bind].
  destruct (scan_loop_ends d master cp limit h k fuel [] [] 0 0) as (utxos & addresses & n & -> & Hn & Hlast);
    try done; try lia.
  exists utxos, addresses, n. exact (conj eq_refl (conj Hn Hlast)).
Qed.

End Payments.

(** ** Witnesses *)

(** Bytes cut or filled up to a length. *)
Definition padded (n : nat) (l : bytes) : bytes := take n ((wrap 8 <$> l) ++ replicate n 0).

Lemma padded_array n l : wf_array n (padded n l).
Proof.
  unfold padded. split; [|rewrite length_take, length_app, length_replicate; lia].
  apply Forall_take, Forall_app. split.
  - apply Forall_fmap, Forall_true. intros x. apply (Z.mod_pos_bound x 256). lia.
  - apply Forall_replicate. by vm_compute.
Qed.

(** The functions of [sample_crypto], with hashes and signatures that are
    quickly computed for the two hundred keys of a wallet. *)
#[local] Instance padded_crypto : Crypto := {|
  sha256 := padded 32;
  ripemd160 := padded 20;
  calculate_hash := sample_randomx;
  PublicKey := bytes;
  PublicKey_from_slice b := if (length b =? 33)%nat || (length b =? 65)%nat then Some b else None;
  PublicKey_serialize := id;
  Signature := bytes;
  Signature_from_der := Some;
  Message_from_slice l := if (length l =? 32)%nat then Some l else None;
  verify_ecdsa m s k := bool_decide (s = padded 32 m ++ k);
  KeyImage_from_slice := @KeyImage_from_slice sample_crypto;
  Clsag := @Clsag sample_crypto;
  Clsag_deserialize := @Clsag_deserialize sample_crypto;
  Clsag_ring_len := @Clsag_ring_len sample_crypto;
  Clsag_verify := @Clsag_verify sample_crypto;
  Point := @Point sample_crypto;
  Point_add := @Point_add sample_crypto;
  Point_eqb := @Point_eqb sample_crypto;
  CompressedRistretto_from_slice := @CompressedRistretto_from_slice sample_crypto;
  pc_commit := @pc_commit sample_crypto;
  RangeProof := @RangeProof sample_crypto;
  RangeProof_deserialize := @RangeProof_deserialize sample_crypto;
  batch_verify := @batch_verify sample_crypto;
  AnonPublicKey := @AnonPublicKey sample_crypto;
  AnonPublicKey_from_bytes := @AnonPublicKey_from_bytes sample_crypto;
  AnonPublicKey_to_bytes := @AnonPublicKey_to_bytes sample_crypto;
  to_base58check := bytes_string;
  from_check := @from_check sample_crypto;
|}.

#[local] Instance padded_crypto_ok : CryptoOk (H:=padded_crypto).
Proof.
  destruct sample_crypto_ok as [_ _ Hc H4 H5 H6 H7]. split.
  - intros l. apply padded_array.
  - intros l. apply padded_array.
  - exact Hc.
  - exact H4.
  - exact H5.
  - exact H6.
  - exact H7.
Qed.

(** A secret key is the end of its path. *)
Definition padded_public (sk : bytes) : bytes := 2 :: padded 32 sk.

#[local] Instance padded_keychain : Keychain (CR:=padded_crypto) := {|
  SecretKey := bytes;
  ExtendedPrivKey := unit;
  DerivationPath := string;
  path_parse := Some;
  path_to_string := id;
  path_hardened p n := Some (p ++ pretty n ++ "'/")%string;
  path_normal p n := Some (p ++ pretty n)%string;
  derive_key _ path := Some (reverse (bstr path));
  key_of := padded_public;
  sign_der m sk := padded 32 m ++ padded_public sk;
|}.

#[local] Instance padded_keychain_ok : KeychainOk (CR:=padded_crypto).
Proof.
  split.
  - intros m sk. eexists. split; [done|]. change (bool_decide (padded 32 m ++ padded_public sk = padded 32 m ++ padded_public sk) = true).
    by apply bool_decide_eq_true_2.
  - intros sk. exact (f_equal S (proj2 (padded_array 32 sk))).
  - intros m sk. change (wf_bytes (padded 32 m ++ padded_public sk) ∧ (length (padded 32 m ++ padded_public sk) ≤ 72)%nat).
    destruct (padded_array 32 m) as [H1 H2], (padded_array 32 sk) as [H3 H4]. unfold wf_bytes, padded_public.
    rewrite length_app. cbn [length]. rewrite H2, H4. split; [|lia]. split; [|by vm_compute].
    apply Forall_app. split; [done|]. constructor; [by vm_compute|done].
  - intros sk. change (Forall byte (2 :: padded 32 sk)). constructor; [by vm_compute|]. apply padded_array.
  - intros a v p H. pose proof (bstr_byte a) as Hb.
    change (match bstr a with v :: p => Some (v, p) | [] => None end = Some (v, p)) in H.
    destruct (bstr a); [done|]. injection H as -> ->. by apply Forall_cons in Hb as [_ Hb].
Qed.

(** The third receiving key. *)
Definition w_pkh : bytes := pkh_of (CR:=padded_crypto) (reverse (bstr "m/44'/1987'/0'/0/3")).

Definition w_id : bytes := replicate 32 9.

Definition w_key (n : Z) : bytes := bstr "addr:" ++ w_pkh ++ w_id ++ to_be_bytes 4 n.

(** An entry of the second address of the graphical wallet. *)
Definition s_key : bytes :=
  bstr "addr:" ++ pkh_of (CR:=padded_crypto) (reverse (bstr "m/44'/1987'/0'/0'/2")) ++ w_id ++ to_be_bytes 4 5.

Definition w_out (v : Z) : TXOutput := mkTXOutput v (replicate 25 7) None.

(** Two outputs of 200000 and 60000 under a hash of the wallet's, in block 10
    of 500: a database that is only read, its entries by ascending key. *)
Definition w_entries : list ((cf * bytes) * bytes) := [
  (("tx_index", w_id), serialize (10, 1));
  (("addr_index", s_key), to_be_bytes 8 11);
  (("addr_index", w_key 0), to_be_bytes 8 200000);
  (("addr_index", w_key 1), to_be_bytes 8 60000);
  (("default", DB_KEY_HEIGHT), to_be_bytes 4 500);
  (("utxo", utxo_key w_id 0), serialize (w_out 200000));
  (("utxo", utxo_key w_id 1), serialize (w_out 60000))].

Fixpoint assoc (k : cf * bytes) (l : list ((cf * bytes) * bytes)) : option bytes :=
  match l with
  | [] => None
  | (k', v) :: l => if decide (k = k') then Some v else assoc k l
  end.

Lemma lookup_assoc k l : (list_to_map l : gmap (cf * bytes) bytes) !! k = assoc k l.
Proof.
  induction l as [|[k' v] l IH]; [done|]. cbn. case_decide as E; [subst; apply lookup_insert_eq|]. by rewrite lookup_insert_ne.
Qed.

#[local] Instance w_rocks : Rocks := {|
  DB := unit;
  pool_get _ := Ok tt;
  cf_handle _ c := bool_decide (c ∈ all_cfs);
  get_cf _ c k := Ok (assoc (c, k) w_entries);
  iterator_cf _ c := Ok ((λ kv, (kv.1.2, kv.2)) <$> filter (λ kv, kv.1.1 = c) w_entries);
  write _ _ := (Err (RocksDB "read only"), tt);
|}.

Lemma w_entries_sorted : StronglySorted (λ x y : (cf * bytes) * bytes, bytes_ltb x.1.2 y.1.2 = true) w_entries.
Proof. repeat constructor; by vm_compute. Qed.

#[local] Instance w_rocks_ok : RocksOk.
Proof.
  assert (Hs : ∀ c, StronglySorted (λ x y, bytes_ltb x.1 y.1 = true)
      ((λ kv : (cf * bytes) * bytes, (kv.1.2, kv.2)) <$> filter (λ kv, kv.1.1 = c) w_entries)).
  { intros c. pose proof w_entries_sorted as Hs. induction Hs as [|x l Hs IH Hx]; [constructor|]. rewrite filter_cons.
    case_decide; [|done]. csimpl. constructor; [done|]. apply Forall_fmap. rewrite Forall_forall in Hx |- *.
    intros y [_ Hy]%list_elem_of_filter. by apply Hx. }
  refine {| contents := λ _, list_to_map w_entries |}; try by eauto.
  - intros db c k v [= <-]. symmetry. apply lookup_assoc.
  - intros db c l [= <-]. split.
    { specialize (Hs c). induction Hs as [|x l Hs IH Hx]; csimpl; constructor; [|done].
      intros (y & E & Hy)%list_elem_of_fmap. rewrite Forall_forall in Hx. specialize (Hx y Hy). cbv beta in Hx.
      rewrite <- E in Hx. by rewrite bytes_ltb_irrefl in Hx. }
    intros k v. rewrite list_elem_of_fmap. etrans; [|apply elem_of_list_to_map].
    + split; [intros ([[c' k'] v'] & E & [E1 E2]%list_elem_of_filter); simplify_eq/=; done|].
      intros H. exists ((c, k), v). by rewrite list_elem_of_filter.
    + apply (bool_decide_unpack _). by vm_compute.
  - intros db c l [= <-]. apply Hs.
Defined.

Definition w_to : string := bytes_string (0 :: replicate 20 5).

Definition w_master : ExtendedPrivKey (Keychain:=padded_keychain) := tt.

Definition w_utxos : list Utxo :=
  (λ nv : Z * Z, mkUtxo w_id nv.1 nv.2 491 (replicate 25 7) 0 "m/44'/1987'/0'/0/3" true) <$> [(0, 200000); (1, 60000)].

Lemma w_get_utxos : get_utxos (RK:=w_rocks) tt w_master true = Ok w_utxos.
Proof. by vm_compute. Qed.

Lemma w_no_overflow : no_overflow w_utxos 100000 10.
Proof. split_and!; try (by vm_compute). repeat constructor; by vm_compute. Qed.

(** A payment of 100000 at 10 units a byte. *)
Definition w_payment : outcome (Transaction * bytes) := create_tx (RK:=w_rocks) tt w_master 5 w_to 100000 10 None.

Definition w_tx : Transaction := match w_payment with Ok (t, _) => t | _ => mkTransaction 0 false [] [] 0 [] end.

Lemma w_payment_Ok : create_tx (RK:=w_rocks) tt w_master 5 w_to 100000 10 None = Ok (w_tx, tx_hash w_tx).
Proof. by vm_compute. Qed.

Lemma create_tx_conserves_witness :
  ∃ coins fee, coins ⊆+ w_utxos ∧ coins_value coins = sumZ (value <$> outputs w_tx) + fee.
Proof.
  destruct (create_tx_conserves (RK:=w_rocks) tt w_master 5 w_to 100000 10 None w_utxos w_tx (tx_hash w_tx) w_get_utxos w_no_overflow w_payment_Ok)
    as (coins & fee & _ & _ & H1 & _ & _ & _ & _ & H2 & _). exists coins, fee. exact (conj H1 H2).
Defined.

Lemma create_tx_signed_witness :
  ∃ vin u sk, inputs w_tx !! 0%nat = Some vin ∧ u ∈ w_utxos ∧ derive_key w_master (u_derivation_path u) = Some sk.
Proof.
  assert (∃ vin, inputs w_tx !! 0%nat = Some vin) as [vin Hv] by (eexists; by vm_compute).
  destruct (create_tx_signed (RK:=w_rocks) tt w_master 5 w_to 100000 10 None w_utxos w_tx (tx_hash w_tx) w_get_utxos w_payment_Ok 0%nat vin Hv)
    as (u & path & sk & _ & _ & _ & H1 & _ & H2 & H3 & _). injection H2 as <-. exists vin, u, sk. exact (conj Hv (conj H1 H3)).
Defined.

Lemma w_utxos_wf : Forall wf_utxo w_utxos.
Proof.
  assert (wf_array 32 w_id) by (apply (bool_decide_unpack _); by vm_compute).
  repeat constructor; try done; try apply H; by vm_compute.
Qed.

Lemma create_tx_wf_witness : wf_tx w_tx ∧ is_anonymous w_tx = false.
Proof.
  destruct (create_tx_wf (RK:=w_rocks) tt w_master 5 w_to 100000 10 None w_utxos w_tx (tx_hash w_tx) w_get_utxos w_utxos_wf) as (H1 & H2 & _);
    [by vm_compute|by split|exact w_payment_Ok|exact (conj H1 H2)].
Defined.

(** The length of a transaction, in the codec of the witnesses. *)
Lemma length_enc_list_sum {A} (c : codec A) (f : A → Z) l :
  Forall (λ a, f a <= Z.of_nat (length (enc c a))) l →
  8 + sumZ (f <$> l) <= Z.of_nat (length (enc (c_list c) l)).
Proof.
  intros Hf. cbn [enc c_list]. rewrite length_app, length_to_le_bytes.
  assert (sumZ (f <$> l) <= Z.of_nat (length (concat (enc c <$> l)))); [|lia].
  induction Hf as [|a l Ha Hf IH]; [done|]. rewrite !fmap_cons, sumZ_cons. cbn [concat]. rewrite length_app.
  unfold fmap in IH. unfold fmap. lia.
Qed.

Lemma length_enc_input i : wf_input i → 48 + Z.of_nat (length (script_sig i)) <= Z.of_nat (length (enc c_input i)).
Proof.
  intros ([_ Hl] & _). cbn [enc c_input c_iso c_pair c_hash c_array c_u32 c_uint c_bytes fst snd]. unfold id.
  rewrite !length_app, !length_to_le_bytes, Hl. lia.
Qed.

Lemma length_enc_output o : 17 + Z.of_nat (length (script_pubkey o)) <= Z.of_nat (length (enc c_output o)).
Proof.
  cbn [enc c_output c_iso c_pair c_u64 c_uint c_bytes c_option fst snd]. rewrite !length_app, !length_to_le_bytes.
  assert (1 <= Z.of_nat (length (enc_option c_bytes (commitment o)))) by (destruct (commitment o); cbn [enc_option length]; lia).
  lia.
Qed.

#[local] Instance sample_tx_length : @TxLength sample_codec.
Proof.
  intros t (_ & Hi & _ & Ho & _). unfold tx_size.
  change (serialize t) with (enc c_tx t). unfold c_tx, c_iso, c_pair at 1. cbn [enc c_pair c_u32 c_bool c_uint fst snd].
  rewrite !length_app, !length_to_le_bytes. change (length (enc_bool (is_anonymous t))) with 1%nat.
  pose proof (length_enc_list_sum c_input (λ i, 48 + Z.of_nat (length (script_sig i))) (inputs t)
    (Forall_impl _ _ _ Hi length_enc_input)) as H1.
  pose proof (length_enc_list_sum c_output (λ o, 17 + Z.of_nat (length (script_pubkey o))) (outputs t)
    (Forall_true _ _ length_enc_output)) as H2.
  assert (8 <= Z.of_nat (length (enc (c_list c_bytes) (range_proofs t)))).
  { cbn [enc c_list]. rewrite length_app, length_to_le_bytes. lia. }
  lia.
Qed.

Lemma default_fee_refused_witness :
  validate_transaction (RK:=w_rocks) tt 500 w_tx 501 ≠ Ok tt ∧ length (outputs w_tx) = 2%nat.
Proof.
  split; [|by vm_compute].
  apply (default_fee_refused (RK:=w_rocks) tt w_master 5 w_to 100000 10 None w_utxos w_tx (tx_hash w_tx) 500 501).
  - exact w_get_utxos.
  - exact w_utxos_wf.
  - exact w_no_overflow.
  - by vm_compute.
  - intros u o Hu (v & Hv & Ho).
    assert (get_cf (Rocks:=w_rocks) tt "utxo" (utxo_key (u_txid u) (u_vout u)) = Ok (Some v)) as Hg.
    { rewrite <- Hv. change (contents (H:=w_rocks) tt) with (list_to_map w_entries : gmap (cf * bytes) bytes). by rewrite lookup_assoc. }
    apply elem_of_cons in Hu as [->|[->|[]%not_elem_of_nil]%elem_of_cons]; vm_compute in Hg; injection Hg as <-;
      vm_compute in Ho; injection Ho as <-; reflexivity.
  - exact w_payment_Ok.
  - by vm_compute.
  - apply (bool_decide_unpack _). by vm_compute.
  - by vm_compute.
  - by vm_compute.
Defined.

(** A payment of 7 to the script of a key, as the chain indexes it. *)
Definition p_script : bytes := p2pkh_script (CR:=padded_crypto) [2; 7].

Definition p_db : MemDB := mkMemDB all_cfs {[("addr_index", addr_key p_script w_id 1) := to_be_bytes 8 7]} [].

Lemma p_db_scripts : index_scripts (RK:=mem_rocks) p_db.
Proof.
  intros k v Hk.
  change (({[("addr_index", addr_key p_script w_id 1) := to_be_bytes 8 7]} : gmap (cf * bytes) bytes)
    !! ("addr_index", k) = Some v) in Hk.
  apply lookup_singleton_Some in Hk as [[= <-] _]. exists p_script, w_id, 1. by split_and!.
Qed.

Lemma p_db_no_collision : ¬ collision (RK:=mem_rocks) p_db w_master.
Proof.
  intros (spk & id & n & v & ci & k & Hk & Hl & _ & _ & Hh).
  change (({[("addr_index", addr_key p_script w_id 1) := to_be_bytes 8 7]} : gmap (cf * bytes) bytes)
    !! ("addr_index", addr_key spk id n) = Some v) in Hk.
  apply lookup_singleton_Some in Hk as [Hk%(f_equal snd) _]. apply (inj (app (bstr "addr:"))) in Hk.
  apply app_inj_1 in Hk as [Hk _].
  2: { by transitivity 20%nat; [|symmetry]; apply ripemd160_array. }
  apply (f_equal head) in Hk. apply (f_equal head) in Hh. rewrite Hh in Hk. by vm_compute in Hk.
Qed.

Lemma wallet_sees_nothing_witness :
  ∀ utxos, get_utxos (RK:=mem_rocks) p_db w_master true = Ok utxos → utxos = [].
Proof.
  intros utxos Hu. destruct (proj1 (wallet_sees_nothing (RK:=mem_rocks) p_db w_master p_db_scripts) true utxos Hu)
    as [->|Hc]; [done|]. by destruct (p_db_no_collision Hc).
Defined.

Definition w_address : string := pubkey_to_address (key_of (Keychain:=padded_keychain) (reverse (bstr "m/44'/1987'/0'/0/3"))).

Lemma own_address_key_witness :
  ∃ sk, get_privkey_for_address w_master w_address = Ok sk ∧ pubkey_to_address (key_of sk) = w_address.
Proof.
  destruct (own_address_key w_master 3 w_address) as (sk & H1 & H2 & _); [|lia|by vm_compute|exists sk; exact (conj H1 H2)].
  apply Forall_forall. intros ci _. eexists. reflexivity.
Defined.

(** The addresses the graphical wallet looks at: only the second has an entry. *)
Definition s_empty (i : Z) : bool :=
  match query_addr_index (RK:=w_rocks) tt (pkh_of (reverse (bstr ("m/44'/1987'/0'/0'/" ++ pretty i)%string))) with
  | Ok [] => true
  | _ => false
  end.

Lemma s_empty_all : forallb (λ i, (i =? 2) || s_empty i) (seqZ 0 23) = true.
Proof. by vm_compute. Qed.

Lemma s_empty_at i : 0 <= i < 23 → i ≠ 2 → empty_at (RK:=w_rocks) tt w_master "m/44'/1987'/0'/0'/"%string i.
Proof.
  intros Hi Hne. pose proof s_empty_all as H. rewrite forallb_forall in H.
  assert (i ∈ seqZ 0 23) as Hin by (apply elem_of_seqZ; lia). apply list_elem_of_In in Hin. specialize (H i Hin). cbv beta in H.
  rewrite (proj2 (Z.eqb_neq _ _) Hne) in H. unfold s_empty in H. eexists _, _. split; [reflexivity|]. split; [reflexivity|].
  revert H. destruct (query_addr_index _ _) as [[|e l]| | |]; done.
Qed.

Lemma scan_chain_ends_witness :
  ∃ utxos addresses n, scan_chain (RK:=w_rocks) 23 tt w_master 0 20 500 = Ok (utxos, foldl (wadd 64) 0 (u_value <$> utxos), addresses, n) ∧
    20 <= n <= 23.
Proof.
  destruct (scan_chain_ends (RK:=w_rocks) tt w_master 0 20 500 3 23 "m/44'/1987'/0'/"%string "m/44'/1987'/0'/0'/"%string)
    as (utxos & addresses & n & H1 & H2 & _); try done; try lia.
  - intros i Hi. destruct (decide (i = 2)) as [->|Hne].
    + eexists _, _, _. split; [reflexivity|]. split; [reflexivity|]. split; [by vm_compute|].
      intros acc. exists acc. by vm_compute.
    + destruct (s_empty_at i ltac:(lia) Hne) as (path & sk & Hp & Hs & Hq). exists path, sk, [].
      split; [done|]. split; [done|]. split; [done|]. intros acc. by exists acc.
  - intros i Hi. apply s_empty_at; lia.
  - exists utxos, addresses, n. exact (conj H1 H2).
Defined.
