(* ===== verification/Gui.v ===== *)
(** * Gui: the graphical wallet

    [LyrionWalletApp] of src/111/src/main.rs: the encryption of the wallet
    file, and the window as a state machine.  A frame ([update]) handles what
    the user did since the last one; [save] is called by the frame work when it
    stores its state and when the window closes.

    - Argon2, ChaCha20-Poly1305, BIP 39 and [send_transaction_task] (which the
      source calls and does not define) are parameters; salts, nonces, fresh
      phrases and the answers of the node come with the input of a frame.
    - A promise is the outcome it will have; whether it is ready is part of the
      input.  What is drawn is in Screen.v. *)
From stdpp Require Import pretty.
From S2P Require Import Prelude Errors Types Externals Instances Utils Keys Tx Ledger Store AddrIndex Rpc Wallet.

Class GuiEnv {CR : Crypto} {KC : Keychain} := {
  (** [Argon2id.hash_password_into(password, salt, &mut key)], 32 bytes *)
  argon2 : string → bytes → option bytes;
  (** [ChaCha20Poly1305::new(key).encrypt(nonce, data)] and [decrypt] *)
  chacha_encrypt : bytes → bytes → bytes → option bytes;
  chacha_decrypt : bytes → bytes → bytes → option bytes;
  (** [Seed::new(&Mnemonic::parse_in(English, phrase)?, "")] *)
  phrase_seed : string → option bytes;
  (** [ExtendedPrivKey::new_master(Network::Bitcoin, seed)?] *)
  new_master : bytes → option ExtendedPrivKey;
  (** [AnonPrivateKey::from_bytes(..).unwrap().public_key()] *)
  anon_public : bytes → option AnonPublicKey;
  scan_mempool : list Transaction → list string → list Utxo;
  (** seed, outputs, recipient, amount, fee rate, change index *)
  send_transaction_task : bytes → list Utxo → string → Z → Z → Z → outcome (string * bool);
  (** the rounds given to the scan *)
  scan_fuel : nat;
  (** [e.to_string()] *)
  error_text : ChainError → string;
}.

Class GuiEnvOk {CR : Crypto} {KC : Keychain} `{!GuiEnv} := {
  decrypt_encrypt : ∀ key nonce m c, chacha_encrypt key nonce m = Some c → chacha_decrypt key nonce c = Some m;
  length_phrase_seed : ∀ p s, phrase_seed p = Some s → length s = 64%nat;
}.

Inductive AppState := SetupPassword | CreateWallet | RestoreWallet | Main.

#[export] Instance AppState_eq_dec : EqDecision AppState.
Proof. solve_decision. Defined.

(** [selected_tab]: nothing selected shows [TabReceive]. *)
Inductive tab := TabReceive | TabSend | TabHistory.

Section Gui.
  Context {CR : Crypto} {CD : Codec} {RK : Rocks} {HO : HashOrder} {KC : Keychain} {GE : GuiEnv}.

(** ** State *)

Record LyrionWalletApp := mkApp {
  password : string;
  mnemonic : option string;
  seed : option bytes;
  utxos : list Utxo;
  balance : Z;
  pending_balance : Z;
  receive_addresses : list string;
  change_addresses : list string;
  current_receive_index : Z;
  current_change_index : Z;
  db : DB;
  current_height : Z;
  error : option string;
  to_address : string;
  amount_str : string;
  fee_rate_str : string;
  history : list TxHistoryEntry;
  anon_address : string;
  scan_promise : option (outcome scan_result);
  send_promise : option (outcome (string * bool));
  state : AppState;
  selected_tab : tab;
  (** [WALLET_FILE] on the disk *)
  wallet_file : option bytes;
}.

Definition set_password (x : string) (a : LyrionWalletApp) : LyrionWalletApp :=
  mkApp x (mnemonic a) (seed a) (utxos a) (balance a) (pending_balance a) (receive_addresses a)
    (change_addresses a) (current_receive_index a) (current_change_index a) (db a) (current_height a) (error a)
    (to_address a) (amount_str a) (fee_rate_str a) (history a) (anon_address a) (scan_promise a)
    (send_promise a) (state a) (selected_tab a) (wallet_file a).

Definition set_mnemonic (x : option string) (a : LyrionWalletApp) : LyrionWalletApp :=
  mkApp (password a) x (seed a) (utxos a) (balance a) (pending_balance a) (receive_addresses a)
    (change_addresses a) (current_receive_index a) (current_change_index a) (db a) (current_height a) (error a)
    (to_address a) (amount_str a) (fee_rate_str a) (history a) (anon_address a) (scan_promise a)
    (send_promise a) (state a) (selected_tab a) (wallet_file a).

Definition set_seed (x : option bytes) (a : LyrionWalletApp) : LyrionWalletApp :=
  mkApp (password a) (mnemonic a) x (utxos a) (balance a) (pending_balance a) (receive_addresses a)
    (change_addresses a) (current_receive_index a) (current_change_index a) (db a) (current_height a) (error a)
    (to_address a) (amount_str a) (fee_rate_str a) (history a) (anon_address a) (scan_promise a)
    (send_promise a) (state a) (selected_tab a) (wallet_file a).

Definition set_current_receive_index (x : Z) (a : LyrionWalletApp) : LyrionWalletApp :=
  mkApp (password a) (mnemonic a) (seed a) (utxos a) (balance a) (pending_balance a) (receive_addresses a)
    (change_addresses a) x (current_change_index a) (db a) (current_height a) (error a) (to_address a)
    (amount_str a) (fee_rate_str a) (history a) (anon_address a) (scan_promise a) (send_promise a) (state a)
    (selected_tab a) (wallet_file a).

Definition set_current_change_index (x : Z) (a : LyrionWalletApp) : LyrionWalletApp :=
  mkApp (password a) (mnemonic a) (seed a) (utxos a) (balance a) (pending_balance a) (receive_addresses a)
    (change_addresses a) (current_receive_index a) x (db a) (current_height a) (error a) (to_address a)
    (amount_str a) (fee_rate_str a) (history a) (anon_address a) (scan_promise a) (send_promise a) (state a)
    (selected_tab a) (wallet_file a).

Definition set_db (x : DB) (a : LyrionWalletApp) : LyrionWalletApp :=
  mkApp (password a) (mnemonic a) (seed a) (utxos a) (balance a) (pending_balance a) (receive_addresses a)
    (change_addresses a) (current_receive_index a) (current_change_index a) x (current_height a) (error a)
    (to_address a) (amount_str a) (fee_rate_str a) (history a) (anon_address a) (scan_promise a)
    (send_promise a) (state a) (selected_tab a) (wallet_file a).

Definition set_current_height (x : Z) (a : LyrionWalletApp) : LyrionWalletApp :=
  mkApp (password a) (mnemonic a) (seed a) (utxos a) (balance a) (pending_balance a) (receive_addresses a)
    (change_addresses a) (current_receive_index a) (current_change_index a) (db a) x (error a) (to_address a)
    (amount_str a) (fee_rate_str a) (history a) (anon_address a) (scan_promise a) (send_promise a) (state a)
    (selected_tab a) (wallet_file a).

Definition set_error (x : option string) (a : LyrionWalletApp) : LyrionWalletApp :=
  mkApp (password a) (mnemonic a) (seed a) (utxos a) (balance a) (pending_balance a) (receive_addresses a)
    (change_addresses a) (current_receive_index a) (current_change_index a) (db a) (current_height a) x
    (to_address a) (amount_str a) (fee_rate_str a) (history a) (anon_address a) (scan_promise a)
    (send_promise a) (state a) (selected_tab a) (wallet_file a).

Definition set_scan_promise (x : option (outcome scan_result)) (a : LyrionWalletApp) : LyrionWalletApp :=
  mkApp (password a) (mnemonic a) (seed a) (utxos a) (balance a) (pending_balance a) (receive_addresses a)
    (change_addresses a) (current_receive_index a) (current_change_index a) (db a) (current_height a) (error a)
    (to_address a) (amount_str a) (fee_rate_str a) (history a) (anon_address a) x (send_promise a) (state a)
    (selected_tab a) (wallet_file a).

Definition set_send_promise (x : option (outcome (string * bool))) (a : LyrionWalletApp) : LyrionWalletApp :=
  mkApp (password a) (mnemonic a) (seed a) (utxos a) (balance a) (pending_balance a) (receive_addresses a)
    (change_addresses a) (current_receive_index a) (current_change_index a) (db a) (current_height a) (error a)
    (to_address a) (amount_str a) (fee_rate_str a) (history a) (anon_address a) (scan_promise a) x (state a)
    (selected_tab a) (wallet_file a).

Definition set_state (x : AppState) (a : LyrionWalletApp) : LyrionWalletApp :=
  mkApp (password a) (mnemonic a) (seed a) (utxos a) (balance a) (pending_balance a) (receive_addresses a)
    (change_addresses a) (current_receive_index a) (current_change_index a) (db a) (current_height a) (error a)
    (to_address a) (amount_str a) (fee_rate_str a) (history a) (anon_address a) (scan_promise a)
    (send_promise a) x (selected_tab a) (wallet_file a).

Definition set_selected_tab (x : tab) (a : LyrionWalletApp) : LyrionWalletApp :=
  mkApp (password a) (mnemonic a) (seed a) (utxos a) (balance a) (pending_balance a) (receive_addresses a)
    (change_addresses a) (current_receive_index a) (current_change_index a) (db a) (current_height a) (error a)
    (to_address a) (amount_str a) (fee_rate_str a) (history a) (anon_address a) (scan_promise a)
    (send_promise a) (state a) x (wallet_file a).

Definition set_wallet_file (x : option bytes) (a : LyrionWalletApp) : LyrionWalletApp :=
  mkApp (password a) (mnemonic a) (seed a) (utxos a) (balance a) (pending_balance a) (receive_addresses a)
    (change_addresses a) (current_receive_index a) (current_change_index a) (db a) (current_height a) (error a)
    (to_address a) (amount_str a) (fee_rate_str a) (history a) (anon_address a) (scan_promise a)
    (send_promise a) (state a) (selected_tab a) x.

Definition set_form (to amount fee : string) (a : LyrionWalletApp) : LyrionWalletApp :=
  mkApp (password a) (mnemonic a) (seed a) (utxos a) (balance a) (pending_balance a) (receive_addresses a)
    (change_addresses a) (current_receive_index a) (current_change_index a) (db a) (current_height a) (error a)
    to amount fee (history a) (anon_address a) (scan_promise a) (send_promise a) (state a) (selected_tab a)
    (wallet_file a).

Definition set_scanned (us : list Utxo) (bal pending : Z) (hist : list TxHistoryEntry) (recv chg : list string)
    (ri ci : Z) (a : LyrionWalletApp) : LyrionWalletApp :=
  mkApp (password a) (mnemonic a) (seed a) us bal pending recv chg ri ci (db a) (current_height a) (error a)
    (to_address a) (amount_str a) (fee_rate_str a) hist (anon_address a) (scan_promise a) (send_promise a)
    (state a) (selected_tab a) (wallet_file a).

Definition set_anon_address (x : string) (a : LyrionWalletApp) : LyrionWalletApp :=
  mkApp (password a) (mnemonic a) (seed a) (utxos a) (balance a) (pending_balance a) (receive_addresses a)
    (change_addresses a) (current_receive_index a) (current_change_index a) (db a) (current_height a) (error a)
    (to_address a) (amount_str a) (fee_rate_str a) (history a) x (scan_promise a)
    (send_promise a) (state a) (selected_tab a) (wallet_file a).

(** [m.is_ok()]: an error is caught, a panic is not. *)
Definition attempt {S A} (m : M S A) : M S bool := λ s,
  match m s with
  | (Ok _, s) => (Ok true, s)
  | (Err _, s) => (Ok false, s)
  | (Panic, s) => (Panic, s)
  | (Hang, s) => (Hang, s)
  end.

(** [arr.copy_from_slice(&l)] into 64 bytes. *)
Definition array64 (l : bytes) : outcome bytes := if (length l =? 64)%nat then Ok l else Panic.

(** ** The wallet file *)

(** The height stays when the database has none. *)
Definition load_current_height : M LyrionWalletApp unit :=
  d ← gets db;
  match db_get d DB_KEY_HEIGHT with
  | Ok (Some h) => h ← lift (slice 0 4 h); modify (set_current_height (from_be_bytes h))
  | _ => mret tt
  end.

Definition encrypt_wallet (pw : string) (salt nonce : bytes) (a : LyrionWalletApp) : outcome bytes :=
  key ← ok_or (argon2 pw salt) (Anyhow "argon2");
  seed ← unwrap (seed a);
  ciphertext ← ok_or (chacha_encrypt key nonce seed) (Anyhow "encrypt");
  Ok (salt ++ nonce ++ ciphertext).

Definition decrypt_wallet (pw : string) (data : bytes) : M LyrionWalletApp unit :=
  lift (ensure (negb (length data <? 44)%nat) (Anyhow "Corrupted wallet file"));;
  salt ← lift (slice 0 32 data);
  nonce ← lift (slice 32 44 data);
  ciphertext ← lift (slice_from 44 data);
  key ← lift (ok_or (argon2 pw salt) (Anyhow "argon2"));
  plaintext ← lift (ok_or (chacha_decrypt key nonce ciphertext) (Anyhow "decrypt"));
  seed_arr ← lift (array64 plaintext);
  modify (set_seed (Some seed_arr)).

(** [io]: whether the directory and the file could be written. *)
Definition save (salt nonce : bytes) (io : bool) : M LyrionWalletApp unit :=
  a ← get;
  match encrypt_wallet (password a) salt nonce a with
  | Ok data => if io then modify (set_wallet_file (Some data)) else lift (Err (Anyhow "write"))
  | Err _ => mret tt
  | Panic => lift Panic
  | Hang => lift Hang
  end.

(** ** Scanning *)

(** The transactions of the node: [None] is a failed request. *)
Definition mempool_txs (reply : option bytes) : outcome (list Transaction) :=
  match reply with Some body => mempool_answer body | None => Ok [] end.

Definition scan_task (d : DB) (seed : bytes) (height : Z) (txs : list Transaction) : outcome scan_result :=
  master ← ok_or (new_master seed) (Anyhow "new_master");
  scan_wallet_task scan_mempool scan_fuel d master height txs.

(** The height is read again, except after a payment. *)
Definition start_scan (reload : bool) (reply : option bytes) : M LyrionWalletApp unit :=
  (if reload then load_current_height else mret tt);;
  a ← get;
  seed ← lift (unwrap (seed a));
  txs ← lift (mempool_txs reply);
  modify (set_scan_promise (Some (scan_task (db a) seed (current_height a) txs))).

(** [utxos.iter().filter(..).map(|u| u.value).sum()] *)
Definition value_of (confirmed : bool) (l : list Utxo) : Z :=
  foldl (wadd 64) 0 (u_value <$> filter (λ u, u_is_confirmed u = confirmed) l).

Definition show_scan (r : scan_result) (a : LyrionWalletApp) : LyrionWalletApp :=
  set_scanned (sr_utxos r) (value_of true (sr_utxos r)) (value_of false (sr_utxos r)) (sr_history r)
    (sr_receive r) (sr_change r) (sr_receive_index r) (sr_change_index r) a.

(** A promise whose task panicked panics when it is asked. *)
Definition poll_scan (ready : bool) : M LyrionWalletApp unit :=
  p ← gets scan_promise;
  match p with
  | Some r =>
      if ready then
        match r with
        | Ok r => modify (show_scan r)
        | Err e => modify (set_error (Some (error_text e)))
        | Panic => lift Panic
        | Hang => mret tt
        end
      else mret tt
  | None => mret tt
  end.

(** ** The frames *)

(** What the user did, and what the world answered, since the last frame. *)
Record input := mkInput {
  in_new_address : bool;
  in_lock : bool;
  (** the text of the password field, when the button is pressed *)
  in_unlock : option string;
  in_fresh_phrase : string;
  in_phrase : string;
  in_confirm : option (string * string);
  in_reply : option bytes;
  in_refresh : bool;
  (** the new connection, or its failure *)
  in_reconnect : option (option DB);
  in_scan_ready : bool;
  in_select : option tab;
  in_new_address_tab : bool;
  in_send : bool;
  in_send_ready : bool;
  (** the text fields of the send tab, when edited *)
  in_form : option (string * string * string);
}.

Definition next_receive_index (a : LyrionWalletApp) : LyrionWalletApp :=
  set_current_receive_index (wadd 32 (current_receive_index a) 1) a.

Definition lock (a : LyrionWalletApp) : LyrionWalletApp := set_password "" (set_state SetupPassword a).

Definition unlock (pw : string) (reply : option bytes) : M LyrionWalletApp unit :=
  file ← gets wallet_file;
  match file with
  | None => mret tt
  | Some data =>
      ok ← attempt (decrypt_wallet pw data);
      if ok : bool then
        modify (set_password pw);;
        start_scan true reply;;
        modify (set_state Main)
      else modify (set_error (Some "Incorrect password"%string))
  end.

(** The phrase shown in this frame. *)
Definition frame_phrase (i : input) (s : AppState) : string :=
  match s with CreateWallet => in_fresh_phrase i | _ => in_phrase i end.

Definition confirm (pw pw2 : string) (reply : option bytes) : M LyrionWalletApp unit :=
  if bool_decide (pw = pw2) && negb (bool_decide (pw = ""%string)) then
    modify (set_password pw);;
    m ← gets mnemonic;
    match m with
    | Some m =>
        seed ← lift (ok_or (phrase_seed m) (Anyhow "mnemonic"));
        seed_arr ← lift (array64 seed);
        modify (set_seed (Some seed_arr));;
        start_scan true reply;;
        modify (set_state Main)
    | None => mret tt
    end
  else mret tt.

Definition create_frame (i : input) (s : AppState) : M LyrionWalletApp unit :=
  modify (set_mnemonic (Some (frame_phrase i s)));;
  match in_confirm i with
  | Some (pw, pw2) => confirm pw pw2 (in_reply i)
  | None => mret tt
  end.

Definition reconnect (d : option DB) (reply : option bytes) : M LyrionWalletApp unit :=
  d ← lift (unwrap d);
  modify (set_db d);;
  start_scan true reply.

(** [let (Ok(amount), Ok(fee)) = (..)] belongs to the condition. *)
Definition send_request (clicked : bool) (a : LyrionWalletApp) : option (Z * Z) :=
  if clicked then
    amount ← parse_u64 (amount_str a);
    fee ← parse_u64 (fee_rate_str a);
    Some (amount, fee)
  else None.

Definition poll_send (ready : bool) (reply : option bytes) : M LyrionWalletApp unit :=
  p ← gets send_promise;
  match p with
  | Some r =>
      if ready then
        match r with
        | Ok (_, used) =>
            (if used : bool then modify (λ a, set_current_change_index (wadd 32 (current_change_index a) 1) a) else mret tt);;
            modify (λ a, set_form ""%string ""%string (fee_rate_str a) a);;
            start_scan false reply
        | Err _ => mret tt
        | Panic => lift Panic
        | Hang => mret tt
        end
      else mret tt
  | None => mret tt
  end.

Definition send_tab (i : input) : M LyrionWalletApp unit :=
  (match in_form i with Some (to, amount, fee) => modify (set_form to amount fee) | None => mret tt end);;
  a ← get;
  match send_request (in_send i) a with
  | Some (amount, fee) =>
      seed ← lift (unwrap (seed a));
      modify (set_send_promise
        (Some (send_transaction_task seed (utxos a) (to_address a) amount fee (current_change_index a))))
  | None => modify (set_error (Some "Invalid amount or fees"%string))
  end;;
  poll_send (in_send_ready i) (in_reply i).

Definition main_frame (i : input) : M LyrionWalletApp unit :=
  (match in_select i with Some t => modify (set_selected_tab t) | None => mret tt end);;
  (if in_refresh i then start_scan true (in_reply i) else mret tt);;
  (match in_reconnect i with Some d => reconnect d (in_reply i) | None => mret tt end);;
  poll_scan (in_scan_ready i);;
  t ← gets selected_tab;
  match t with
  | TabReceive => if in_new_address_tab i then modify next_receive_index else mret tt
  | TabSend => send_tab i
  | TabHistory => mret tt
  end.

Definition update (i : input) : M LyrionWalletApp unit :=
  (if in_new_address i then modify next_receive_index else mret tt);;
  (if in_lock i then modify lock else mret tt);;
  s ← gets state;
  match s with
  | SetupPassword => match in_unlock i with Some pw => unlock pw (in_reply i) | None => mret tt end
  | CreateWallet | RestoreWallet => create_frame i s
  | Main => main_frame i
  end.

(** The window at its start: [d] is the database that could be opened. *)
Definition new_app (d : option DB) (file anon_file : option bytes) : outcome LyrionWalletApp :=
  d ← unwrap d;
  let a := mkApp "" None None [] 0 0 [] [] 0 0 d 0 None "" "" "10" [] "" None None
             (match file with Some _ => SetupPassword | None => CreateWallet end) TabReceive file in
  anon ← (match anon_file with
          | Some b => if (length b =? 32)%nat then pk ← unwrap (anon_public b); Ok (pubkey_to_anon_address pk) else Ok ""%string
          | None => Ok ""%string
          end);
  let '(r, a) := load_current_height (set_anon_address anon a) in
  r;; Ok a.

(** A session: frames and saves, in any order, whatever they answer. *)
Inductive session (d : option DB) (file anon_file : option bytes) : LyrionWalletApp → Prop :=
  | session_new a : new_app d file anon_file = Ok a → session d file anon_file a
  | session_frame a i : session d file anon_file a → session d file anon_file (update i a).2
  | session_save a salt nonce io : session d file anon_file a → session d file anon_file (save salt nonce io a).2.

End Gui.

(** ** The window: invariants *)

Lemma preserves_gets {S A} (P : S → Prop) (f : S → A) : Preserves P (gets f).
Proof. by intros s. Qed.

Lemma preserves_modify {S} (P : S → Prop) (f : S → S) : (∀ s, P s → P (f s)) → Preserves P (modify f).
Proof. intros H s Hs. by apply H. Qed.

Lemma preserves_attempt {S A} (P : S → Prop) (m : M S A) : Preserves P m → Preserves P (attempt m).
Proof. intros H s Hs. specialize (H s Hs). unfold attempt. by destruct (m s) as [[]]. Qed.

(** Follows the structure of an operation; what is left are the changes of
    state that touch the invariant. *)
Ltac parts_step :=
  match goal with
  | |- Preserves _ (_ ≫= _) => apply preserves_bind; [|intros ?]
  | |- Preserves _ (gets _) => apply preserves_gets
  | |- Preserves _ (match ?x with _ => _ end) => destruct x eqn:?
  | |- Preserves _ (attempt _) => apply preserves_attempt
  | |- Preserves _ (modify _) => apply preserves_modify; try done
  | |- Preserves _ _ => apply _
  end.

Section GuiFacts.
  Context {CR : Crypto} {CD : Codec} {RK : Rocks} {HO : HashOrder} {KC : Keychain} {GE : GuiEnv}.

(** What every frame keeps: the seed has 64 bytes and is there when the main
    window is, nothing leads to [RestoreWallet], and the balances shown are
    those of the outputs shown. *)
Definition window_ok (a : LyrionWalletApp) : Prop :=
  state a ≠ RestoreWallet ∧ (∀ s, seed a = Some s → length s = 64%nat) ∧ (state a = Main → seed a ≠ None) ∧
  balance a = value_of true (utxos a) ∧ pending_balance a = value_of false (utxos a).

#[local] Instance load_current_height_window : Preserves window_ok load_current_height.
Proof. unfold load_current_height. repeat parts_step. Qed.

#[local] Instance start_scan_window reload reply : Preserves window_ok (start_scan reload reply).
Proof. unfold start_scan. repeat parts_step. Qed.

(** A scan starts only with a seed. *)
Lemma start_scan_Ok reload reply a a' :
  start_scan reload reply a = (Ok tt, a') → ∃ s, seed a = Some s ∧ seed a' = Some s ∧ password a' = password a ∧ state a' = state a ∧ mnemonic a' = mnemonic a.
Proof.
  unfold start_scan. intros H. apply M_bind_Ok in H as (u & a1 & H1 & H).
  assert (seed a1 = seed a ∧ password a1 = password a ∧ state a1 = state a ∧ mnemonic a1 = mnemonic a) as (E1 & E2 & E3 & E4).
  { destruct reload; [|cbv [mret M_ret] in H1; simplify_eq; by split_and!]. unfold load_current_height in H1.
    apply M_bind_Ok in H1 as (d & a2 & [= <- <-] & H1). destruct (db_get _ _) as [[h|]| | |]; try (cbv [mret M_ret] in H1; simplify_eq; by split_and!).
    apply M_bind_Ok in H1 as (h' & a3 & H2 & H3). cbv [lift] in H2. cbv [modify] in H3. simplify_eq. by split_and!. }
  apply M_bind_Ok in H as (a2 & a3 & [= <- <-] & H). apply M_bind_Ok in H as (s & a4 & H2 & H).
  injection H2 as H2 <-. apply unwrap_Ok in H2. apply M_bind_Ok in H as (txs & a5 & H3 & H). injection H3 as _ <-.
  injection H as <-. exists s. cbn. split_and!; congruence.
Qed.

Lemma enter_main_window reload reply : Preserves window_ok (start_scan reload reply;; modify (set_state Main)).
Proof.
  intros a Ha. pose proof (start_scan_window reload reply a Ha) as H. unfold mbind, M_bind.
  destruct (start_scan reload reply a) as [[[]| | |] a'] eqn:E; try done.
  apply start_scan_Ok in E as (s & _ & Hs & _). destruct H as (H1 & H2 & H3 & H4). split; [done|]. split; [done|].
  split; [|done]. intros _ Hn. change (seed a' = None) in Hn. congruence.
Qed.

Ltac frame_preserves :=
  repeat first
    [ match goal with |- Preserves _ (start_scan _ _ ≫= λ _, modify _) => apply enter_main_window end
    | progress parts_step ].

Lemma array64_Ok l s : array64 l = Ok s → s = l ∧ length l = 64%nat.
Proof. unfold array64. destruct (Nat.eqb_spec (length l) 64); naive_solver. Qed.

(** A seed that is set has the right length. *)
Lemma set_seed_window l : Preserves window_ok (s ← lift (array64 l); modify (set_seed (Some s))).
Proof.
  intros a (H1 & H2 & H3 & H4). unfold mbind, M_bind, lift. destruct (array64 l) as [s| | |] eqn:E; try exact (conj H1 (conj H2 (conj H3 H4))).
  apply array64_Ok in E as [-> Hl]. split; [done|]. split; [by intros s [= <-]|]. split; [by intros _|done].
Qed.

#[local] Instance decrypt_wallet_window pw data : Preserves window_ok (decrypt_wallet pw data).
Proof. unfold decrypt_wallet. repeat first [apply set_seed_window|parts_step]. Qed.

#[local] Instance unlock_window pw reply : Preserves window_ok (unlock pw reply).
Proof. unfold unlock. frame_preserves. Qed.

Lemma confirm_seed_window l reply :
  Preserves window_ok (s ← lift (array64 l); modify (set_seed (Some s));; start_scan true reply;; modify (set_state Main)).
Proof.
  intros a Ha. pose proof (set_seed_window l a Ha) as H. unfold mbind, M_bind, lift in H |- *.
  destruct (array64 l) as [s| | |]; try done. by apply (enter_main_window true reply).
Qed.

#[local] Instance create_frame_window i s : Preserves window_ok (create_frame i s).
Proof. unfold create_frame, confirm. repeat first [apply confirm_seed_window|parts_step]. Qed.

#[local] Instance poll_scan_window ready : Preserves window_ok (poll_scan ready).
Proof. unfold poll_scan. repeat parts_step. intros app (H1 & H2 & H3 & _). by split_and!. Qed.

#[local] Instance main_frame_window i : Preserves window_ok (main_frame i).
Proof. unfold main_frame, reconnect, send_tab, poll_send. repeat parts_step. Qed.

#[local] Instance update_window i : Preserves window_ok (update i).
Proof.
  unfold update. repeat parts_step. intros app (H1 & H2 & H3 & H4).
  split; [discriminate|]. split; [exact H2|]. split; [discriminate|exact H4].
Qed.

#[local] Instance save_window salt nonce io : Preserves window_ok (save salt nonce io).
Proof. unfold save. repeat parts_step. Qed.

Lemma new_app_window d file anon a : new_app d file anon = Ok a → window_ok a.
Proof.
  unfold new_app. intros (d' & _ & H)%bind_Ok. apply bind_Ok in H as (an & _ & H).
  destruct (load_current_height _) as [r a'] eqn:E. apply bind_Ok in H as (u & _ & [= <-]).
  change a' with ((r, a').2). rewrite <- E. apply load_current_height_window. by destruct file; split_and!.
Qed.

(** In every state of a session the main window has its seed, of 64 bytes,
    so that the unwraps of its buttons succeed; the balances shown are the sums
    of the outputs shown; and the window that restores a wallet is never
    reached. *)
Theorem window_invariant d file anon_file a :
  session d file anon_file a →
  (state a = Main → ∃ s, seed a = Some s ∧ length s = 64%nat) ∧
  balance a = value_of true (utxos a) ∧ pending_balance a = value_of false (utxos a) ∧ state a ≠ RestoreWallet.
Proof.
  intros H. assert (window_ok a) as (H1 & H2 & H3 & H4 & H5).
  { induction H as [a Ha|a i _ IH|a salt nonce io _ IH]; [by eapply new_app_window|by apply update_window|by apply save_window]. }
  split_and!; try done. intros Hm. destruct (seed a) as [s|] eqn:E; [|by destruct (H3 Hm)]. exists s. auto.
Qed.

(** ** The wallet file: properties *)

Section WalletFile.
  Context {GEO : GuiEnvOk}.

(** Decryption undoes encryption, at the cut points of the file. *)
Lemma decrypt_encrypted pw salt nonce a data s b :
  length salt = 32%nat → length nonce = 12%nat → seed a = Some s → length s = 64%nat →
  encrypt_wallet pw salt nonce a = Ok data → decrypt_wallet pw data b = (Ok tt, set_seed (Some s) b).
Proof.
  intros Hs Hn Hseed Hl H. unfold encrypt_wallet in H. rewrite Hseed in H.
  apply bind_Ok in H as (key & Hk%ok_or_Ok & H). apply bind_Ok in H as (s' & [= <-] & H).
  apply bind_Ok in H as (c & Hc%ok_or_Ok & [= <-]). apply decrypt_encrypt in Hc.
  unfold decrypt_wallet, mbind, M_bind, lift, slice, slice_from, modify.
  rewrite (bool_decide_eq_true_2 (0 ≤ 32 ≤ _)%nat), (bool_decide_eq_true_2 (32 ≤ 44 ≤ _)%nat) by (rewrite !length_app; lia).
  replace (length (salt ++ nonce ++ c) <? 44)%nat with false by (symmetry; apply Nat.ltb_ge; rewrite !length_app; lia).
  assert (sub_bytes 0 32 (salt ++ nonce ++ c) = salt) as -> by (unfold sub_bytes; by rewrite drop_0, take_app_length').
  assert (sub_bytes 32 44 (salt ++ nonce ++ c) = nonce) as ->.
  { unfold sub_bytes. rewrite drop_app_length' by done. by rewrite take_app_length'. }
  rewrite bool_decide_eq_true_2 by (rewrite !length_app; lia).
  assert (drop 44 (salt ++ nonce ++ c) = c) as ->.
  { rewrite app_assoc. apply drop_app_length'. rewrite length_app. lia. }
  cbn [ensure negb ok_or]. rewrite Hk. cbn [ok_or]. rewrite Hc. cbn [ok_or]. unfold array64. by rewrite Hl.
Qed.

(** The next unlocking with the password opens the window on the same seed. *)
Lemma unlock_encrypted pw salt nonce a data s b :
  length salt = 32%nat → length nonce = 12%nat → seed a = Some s → length s = 64%nat →
  encrypt_wallet pw salt nonce a = Ok data → wallet_file b = Some data →
  (load_current_height b).1 = Ok tt →
  ∃ b', unlock pw None b = (Ok tt, b') ∧ state b' = Main ∧ seed b' = Some s ∧ password b' = pw.
Proof.
  intros Hs Hn Hseed Hl He Hf Hh. unfold unlock. unfold mbind at 1, M_bind at 1. unfold gets at 1. rewrite Hf.
  unfold mbind at 1, M_bind at 1, attempt at 1. rewrite (decrypt_encrypted _ _ _ _ _ _ b Hs Hn Hseed Hl He).
  set (b1 := set_password pw (set_seed (Some s) b)).
  assert (∃ b2, start_scan true None b1 = (Ok tt, b2)) as [b2 Hb2].
  { unfold start_scan. assert (load_current_height b1 = (Ok tt, (load_current_height b1).2)) as E.
    { apply run_eta. unfold load_current_height, mbind, M_bind, gets in Hh |- *. change (db b1) with (db b).
      destruct (db_get (db b) DB_KEY_HEIGHT) as [[h|]| | |]; try done. unfold lift in Hh |- *. by destruct (slice 0 4 h). }
    unfold mbind at 1, M_bind at 1. rewrite E.
    assert (seed (load_current_height b1).2 = Some s) as Es.
    { unfold load_current_height, mbind, M_bind, gets. destruct (db_get (db b1) DB_KEY_HEIGHT) as [[h|]| | |]; try done.
      unfold lift. by destruct (slice 0 4 h). }
    eexists. unfold mbind, M_bind, get, lift, modify. rewrite Es. done. }
  pose proof (start_scan_Ok _ _ _ _ Hb2) as (s' & E1 & E2 & E3 & _ & _). injection E1 as <-.
  exists (set_state Main b2). split.
  { unfold mbind, M_bind, modify. fold b1. by rewrite Hb2. }
  split; [done|]. split; [exact E2|exact E3].
Qed.

(** A wallet that was saved opens again: what [save] writes in a session
    that has a seed, the next window opens with the same password, on the same
    seed; and a file cut below 44 bytes is refused, not a panic. *)
Theorem saved_wallet_opens d file anon_file a s salt nonce a' b :
  session d file anon_file a → seed a = Some s → length salt = 32%nat → length nonce = 12%nat →
  save salt nonce true a = (Ok tt, a') → wallet_file a' ≠ wallet_file a →
  wallet_file b = wallet_file a' → (load_current_height b).1 = Ok tt →
  (∃ b', unlock (password a) None b = (Ok tt, b') ∧ state b' = Main ∧ seed b' = Some s ∧ password b' = password a) ∧
  ∀ pw data c, (length data < 44)%nat → decrypt_wallet pw data c = (Err (Anyhow "Corrupted wallet file"), c).
Proof.
  intros Hses Hseed Hs Hn Hsave Hne Hb Hh. split.
  - assert (length s = 64%nat) as Hl.
    { assert (window_ok a) as (_ & H2 & _); [|by apply H2].
      clear -Hses. induction Hses as [a Ha|a i _ IH|a salt nonce io _ IH]; [by eapply new_app_window|by apply update_window|by apply save_window]. }
    unfold save in Hsave. unfold mbind, M_bind, get in Hsave.
    destruct (encrypt_wallet (password a) salt nonce a) as [data| | |] eqn:E; try by simplify_eq.
    + unfold modify in Hsave. simplify_eq. by eapply unlock_encrypted.
    + cbv [mret M_ret] in Hsave. by simplify_eq.
  - intros pw data c Hlt. unfold decrypt_wallet, mbind, M_bind, lift, ensure.
    by rewrite (proj2 (Nat.ltb_lt _ _) Hlt).
Qed.

(** Locking forgets the password and keeps the seed: the next save encrypts
    the wallet with the empty password, which opens it. *)
Theorem lock_then_save_unprotected a s salt nonce a' b :
  seed a = Some s → length s = 64%nat → length salt = 32%nat → length nonce = 12%nat →
  argon2 "" salt ≠ None → (∀ key, argon2 "" salt = Some key → chacha_encrypt key nonce s ≠ None) →
  save salt nonce true (lock a) = (Ok tt, a') → wallet_file b = wallet_file a' → (load_current_height b).1 = Ok tt →
  ∃ b', unlock "" None b = (Ok tt, b') ∧ state b' = Main ∧ seed b' = Some s.
Proof.
  intros Hseed Hl Hs Hn Hk Hc Hsave Hb Hh. unfold save, mbind, M_bind, get in Hsave. cbn [password lock set_password] in Hsave.
  destruct (argon2 "" salt) as [key|] eqn:Ek; [|done]. specialize (Hc key eq_refl).
  destruct (chacha_encrypt key nonce s) as [c|] eqn:Ec; [|done].
  assert (encrypt_wallet "" salt nonce (lock a) = Ok (salt ++ nonce ++ c)) as E.
  { unfold encrypt_wallet. rewrite Ek. cbn [ok_or mbind outcome_bind]. change (seed (lock a)) with (seed a). rewrite Hseed.
    cbn [unwrap mbind outcome_bind]. by rewrite Ec. }
  rewrite E in Hsave. unfold modify in Hsave. simplify_eq. destruct (unlock_encrypted "" salt nonce (lock a) _ s b Hs Hn Hseed Hl E Hb Hh) as (b' & H1 & H2 & H3 & _).
  by exists b'.
Qed.

(** A save before the wallet was unlocked, as the frame work makes one every
    thirty seconds, panics. *)
Theorem save_before_unlock_panics d file anon_file a salt nonce io :
  new_app d file anon_file = Ok a → argon2 "" salt ≠ None → (save salt nonce io a).1 = Panic.
Proof.
  intros Ha Hk. assert (seed a = None ∧ password a = ""%string) as [E1 E2].
  { unfold new_app in Ha. apply bind_Ok in Ha as (d' & _ & H). apply bind_Ok in H as (an & _ & H).
    destruct (load_current_height _) as [r a'] eqn:E. apply bind_Ok in H as (u & _ & [= <-]).
    change a' with ((r, a').2). rewrite <- E. clear E. unfold load_current_height, mbind, M_bind, gets.
    destruct (db_get _ DB_KEY_HEIGHT) as [[h|]| | |]; try done. unfold lift. by destruct (slice 0 4 h). }
  unfold save, mbind, M_bind, get. rewrite E2. unfold encrypt_wallet. rewrite E1.
  by destruct (argon2 "" salt) as [key|].
Qed.

Lemma confirm_Ok pw pw2 reply a a' :
  confirm pw pw2 reply a = (Ok tt, a') → state a ≠ Main → state a' = Main →
  pw = pw2 ∧ pw ≠ ""%string ∧ password a' = pw ∧ ∃ m, mnemonic a = Some m ∧ mnemonic a' = Some m ∧ seed a' = phrase_seed m.
Proof.
  unfold confirm. intros H Hs Hm. destruct (bool_decide (pw = pw2) && _) eqn:E;
    [|cbv [mret M_ret] in H; by simplify_eq].
  apply andb_true_iff in E as [Ep Eq]. apply bool_decide_eq_true_1 in Ep. apply negb_true_iff, bool_decide_eq_false_1 in Eq.
  apply M_bind_Ok in H as (u & a1 & [= <- <-] & H). apply M_bind_Ok in H as (m & a2 & [= <- <-] & H).
  change (mnemonic (set_password pw a)) with (mnemonic a) in H.
  destruct (mnemonic a) as [m|] eqn:Em; [|cbv [mret M_ret] in H; by simplify_eq].
  apply M_bind_Ok in H as (s & a3 & H1 & H). injection H1 as H1 <-. apply ok_or_Ok in H1.
  apply M_bind_Ok in H as (s' & a4 & H2 & H). injection H2 as H2 <-. apply array64_Ok in H2 as [-> _].
  apply M_bind_Ok in H as (u2 & a5 & [= <- <-] & H). apply M_bind_Ok in H as (u3 & a6 & H3 & [= <-]). destruct u3.
  destruct (start_scan_Ok _ _ _ _ H3) as (s2 & F1 & F2 & F3 & F4 & F5). injection F1 as <-.
  split; [done|]. split; [done|]. split; [exact F3|]. exists m. split; [done|]. split; [cbn; by rewrite F5|].
  cbn. by rewrite F2, H1.
Qed.

(** The phrase of a new wallet changes with every frame: the seed belongs to
    the phrase of the frame in which the user confirms, not to one shown
    before. *)
Theorem confirm_uses_last_phrase i a a' :
  state a = CreateWallet → in_lock i = false → in_new_address i = false → update i a = (Ok tt, a') → state a' = Main →
  mnemonic a' = Some (in_fresh_phrase i) ∧ seed a' = phrase_seed (in_fresh_phrase i).
Proof.
  intros Hs Hl Hn H Hm. unfold update in H. rewrite Hl, Hn in H. unfold mbind at 1 2 3, M_bind at 1 2 3 in H.
  cbv [mret M_ret gets] in H. rewrite Hs in H. unfold create_frame in H.
  apply M_bind_Ok in H as (u & a1 & [= <- <-] & H). destruct (in_confirm i) as [[pw pw2]|].
  - apply confirm_Ok in H as (_ & _ & _ & m & E1 & E2 & E3); [|cbn; congruence|done]. cbn in E1. naive_solver.
  - cbv [mret M_ret] in H. simplify_eq. cbn in Hm. congruence.
Qed.

End WalletFile.

End GuiFacts.

(** ** Witnesses *)

#[local] Existing Instance padded_crypto | 0.
#[local] Existing Instance padded_crypto_ok | 0.
#[local] Existing Instance padded_keychain | 0.
#[local] Existing Instance w_rocks | 0.
#[local] Existing Instance w_rocks_ok | 0.

(** A cipher that puts its key in front. *)
#[local] Instance sample_gui : GuiEnv (CR:=padded_crypto) (KC:=padded_keychain) := {|
  argon2 pw salt := Some (bstr pw ++ salt);
  chacha_encrypt key nonce m := Some (key ++ m);
  chacha_decrypt key nonce c :=
    if bool_decide (take (length key) c = key) then Some (drop (length key) c) else None;
  phrase_seed p := Some (padded 64 (bstr p));
  new_master _ := Some tt;
  anon_public := AnonPublicKey_from_bytes;
  scan_mempool _ _ := [];
  send_transaction_task _ _ _ _ _ _ := Ok ("id"%string, true);
  scan_fuel := 30;
  error_text _ := "error"%string;
|}.

#[local] Instance sample_gui_ok : GuiEnvOk (CR:=padded_crypto) (KC:=padded_keychain).
Proof.
  split.
  - intros key nonce m c [= <-]. cbn. rewrite take_app_length, drop_app_length. by rewrite bool_decide_eq_true_2.
  - intros p s [= <-]. apply padded_array.
Qed.

Definition g_db : DB := tt.

Definition g_app (s : AppState) (file : option bytes) : LyrionWalletApp :=
  mkApp "" None None [] 0 0 [] [] 0 0 g_db 500 None "" "" "10" [] "" None None s TabReceive file.

Lemma g_app_file s file : wallet_file (g_app s file) = file.
Proof. done. Qed.

Lemma g_app_height s file : (load_current_height (g_app s file)).1 = Ok tt.
Proof. by vm_compute. Qed.

(** A frame in which the user confirms a phrase. *)
Definition g_confirm : input :=
  mkInput false false None "abandon zoo" "" (Some ("secret", "secret"))%string None false None false None false false false None.

Definition g_main : LyrionWalletApp := (update g_confirm (g_app CreateWallet None)).2.

Lemma g_session : session (Some g_db) None None g_main.
Proof. apply session_frame, session_new. reflexivity. Qed.

Lemma window_invariant_witness : ∃ s, seed g_main = Some s ∧ length s = 64%nat.
Proof. apply (window_invariant (Some g_db) None None g_main g_session). reflexivity. Defined.

Definition g_saved : LyrionWalletApp := (save (replicate 32 1) (replicate 12 2) true g_main).2.

Lemma saved_wallet_opens_witness :
  ∃ b', unlock "secret" None (g_app SetupPassword (wallet_file g_saved)) = (Ok tt, b') ∧ state b' = Main ∧ seed b' = seed g_main.
Proof.
  destruct (saved_wallet_opens (Some g_db) None None g_main (padded 64 (bstr "abandon zoo")) (replicate 32 1) (replicate 12 2)
    g_saved (g_app SetupPassword (wallet_file g_saved)) g_session) as [(b' & H1 & H2 & H3 & _) _]; try (apply run_eta; by vm_compute); try reflexivity.
  - vm_compute. discriminate.
  - exists b'. exact (conj H1 (conj H2 H3)).
Defined.

(** Another password is refused. *)
Example wrong_password_refused :
  (decrypt_wallet "Secret" (default [] (wallet_file g_saved)) g_main).1 = Err (Anyhow "decrypt").
Proof. by vm_compute. Qed.

Lemma confirm_uses_last_phrase_witness : seed g_main = phrase_seed "abandon zoo".
Proof.
  assert (update g_confirm (g_app CreateWallet None) = (Ok tt, g_main)) as E by (unfold g_main; apply run_eta; by vm_compute).
  exact (proj2 (confirm_uses_last_phrase g_confirm (g_app CreateWallet None) g_main eq_refl eq_refl eq_refl E eq_refl)).
Defined.

Lemma save_before_unlock_panics_witness :
  (save (replicate 32 1) (replicate 12 2) true (g_app CreateWallet None)).1 = Panic.
Proof. apply (save_before_unlock_panics (Some g_db) None None); [reflexivity|discriminate]. Defined.

Definition g_locked : LyrionWalletApp := (save (replicate 32 1) (replicate 12 2) true (lock g_main)).2.

Lemma lock_then_save_unprotected_witness :
  ∃ b', unlock "" None (g_app SetupPassword (wallet_file g_locked)) = (Ok tt, b') ∧
    state b' = Main ∧ seed b' = Some (padded 64 (bstr "abandon zoo")).
Proof.
  assert (save (replicate 32 1) (replicate 12 2) true (lock g_main) = (Ok tt, g_locked)) as E
    by (unfold g_locked; apply run_eta; by vm_compute).
  assert (seed g_main = Some (padded 64 (bstr "abandon zoo"))) as Es by by vm_compute.
  destruct (lock_then_save_unprotected g_main (padded 64 (bstr "abandon zoo")) (replicate 32 1) (replicate 12 2)
    g_locked (g_app SetupPassword (wallet_file g_locked)) Es) as (b' & H); [done..|discriminate|discriminate|exact E|apply g_app_file|apply g_app_height|].
  exists b'. exact H.
Defined.
