(* ===== verification/Files.v ===== *)
(** * Files: secret files and backups

    [secure_save_secret] of src/111/src/utils.rs, and the backups of
    src/111/src/db.rs ([secure_backup_db], [add_dir_to_zip],
    [rotate_backups]) with the task of src/111/src/main.rs that makes them.

    The state is one directory, the one that holds the files concerned: its
    files with owner, mode and time, its checkpoint directories as trees, the
    maintenance lock and a schedule of failures: an entry [Some n] of [faults]
    makes the next operation fail, a write after [n] bytes.  The format of an
    archive, the checkpoint of RocksDB and ed25519 are parameters; what an
    unfinished archive holds is not modelled. *)
From stdpp Require Import pretty.
From S2P Require Import Prelude Errors Types Externals Instances Utils.

#[local] Set Warnings "-register-all".

(** A directory tree, as [read_dir] lists it. *)
Inductive node :=
  | NFile (name : string) (data : bytes)
  | NDir (name : string) (children : list node).

Record FS := mkFS {
  files : gmap string (FileStat * Z);
  dirs : gmap string (list node);
  (** the effective user and the time of the next write *)
  fs_uid : Z;
  fs_clock : Z;
  maintenance_locked : bool;
  faults : list (option nat);
}.

Definition set_files (x : gmap string (FileStat * Z)) (s : FS) : FS :=
  mkFS x (dirs s) (fs_uid s) (fs_clock s) (maintenance_locked s) (faults s).

Definition set_dirs (x : gmap string (list node)) (s : FS) : FS :=
  mkFS (files s) x (fs_uid s) (fs_clock s) (maintenance_locked s) (faults s).

Definition set_locked (x : bool) (s : FS) : FS :=
  mkFS (files s) (dirs s) (fs_uid s) (fs_clock s) x (faults s).

Definition set_faults (x : list (option nat)) (s : FS) : FS :=
  mkFS (files s) (dirs s) (fs_uid s) (fs_clock s) (maintenance_locked s) x.

(** ** Operations of the system *)

Definition io_error : ChainError := Anyhow "IO error".

(** The fault of the next operation. *)
Definition next_fault : M FS (option nat) := λ s,
  (Ok (default None (head (faults s))), set_faults (tail (faults s)) s).

Definition io : M FS unit :=
  f ← next_fault;
  lift (ensure (bool_decide (f = None)) io_error).

Definition put_file (path : string) (st : FileStat) : M FS unit :=
  s ← get;
  modify (set_files (<[path := (st, fs_clock s)]> (files s))).

(** [OpenOptions::new().write(true).create_new(true).mode(0o600).open(path)] *)
Definition create_new (path : string) : M FS unit :=
  io;;
  s ← get;
  lift (ensure (bool_decide (files s !! path = None)) io_error);;
  put_file path (mkFileStat (fs_uid s) 0x180 0 []).

(** A write of the whole content through an open file. *)
Definition write_all (path : string) (data : bytes) : M FS unit :=
  f ← next_fault;
  s ← get;
  match files s !! path with
  | Some (st, _) =>
      let written := file_data st ++ default data ((λ n, take n data) <$> f) in
      put_file path (mkFileStat (st_uid st) (st_mode st) (Z.of_nat (length written)) written)
  | None => mret tt
  end;;
  lift (ensure (bool_decide (f = None)) io_error).

(** [fs::write]: a new file gets the mode the umask leaves. *)
Definition fs_write (path : string) (data : bytes) : M FS unit :=
  f ← next_fault;
  s ← get;
  let mode := match files s !! path with Some (st, _) => st_mode st | None => 0x1a4 end in
  let uid := match files s !! path with Some (st, _) => st_uid st | None => fs_uid s end in
  let written := default data ((λ n, take n data) <$> f) in
  put_file path (mkFileStat uid mode (Z.of_nat (length written)) written);;
  lift (ensure (bool_decide (f = None)) io_error).

Definition fchown (path : string) (uid : Z) : M FS unit :=
  io;;
  s ← get;
  modify (set_files (alter (λ f, (mkFileStat uid (st_mode f.1) (st_size f.1) (file_data f.1), f.2)) path (files s))).

Definition rename (from to : string) : M FS unit :=
  io;;
  s ← get;
  f ← lift (ok_or (files s !! from) io_error);
  modify (set_files (<[to := f]> (delete from (files s)))).

Definition remove_file (path : string) : M FS unit :=
  io;;
  s ← get;
  lift (ensure (negb (bool_decide (files s !! path = None))) io_error);;
  modify (set_files (delete path (files s))).

Definition fs_read (path : string) : M FS bytes :=
  io;;
  s ← get;
  f ← lift (ok_or (files s !! path) io_error);
  mret (file_data f.1).

(** What [open] and [fstat] see. *)
Definition stat_of (s : FS) (path : string) : option FileStat := fst <$> files s !! path.

(** ** [secure_save_secret] *)

Definition tmp_path (path : string) : string := (path ++ ".tmp")%string.

Definition secure_save_secret (path : string) (data : bytes) : M FS unit :=
  create_new (tmp_path path);;
  write_all (tmp_path path) data;;
  io;;
  uid ← gets fs_uid;
  fchown (tmp_path path) uid;;
  rename (tmp_path path) path;;
  io;;
  io.

(** ** Archives *)

(** [add_dir_to_zip(dir, zip, options, base)]: the entries written. *)
Fixpoint zip_node (base : string) (n : node) : list (string * bytes) :=
  match n with
  | NFile name data => [((base ++ name)%string, data)]
  | NDir name children => concat (zip_node (base ++ name ++ "/")%string <$> children)
  end.

Definition add_dir_to_zip (children : list node) (base : string) : list (string * bytes) :=
  concat (zip_node base <$> children).

(** ** Rotation *)

(** [file_name.ends_with(p)], [file_name.contains(p)] *)
Definition ends_with (p s : string) : bool := starts_with (reverse (bstr p)) (reverse (bstr s)).

Fixpoint contains_bytes (p l : bytes) : bool :=
  starts_with p l || match l with [] => false | _ :: l => contains_bytes p l end.

Definition is_backup (name : string) : bool :=
  contains_bytes (bstr "_checkpoint_") (bstr name) && ends_with ".zip" name.

(** [old.with_extension("sig")] of a name that ends with [".zip"]. *)
Definition sig_name (name : string) : string :=
  (String.substring 0 (String.length name - 4) name ++ ".sig")%string.

(** [sort_by_key(modified)] *)
Definition older (a b : string * Z) : Prop := a.2 <= b.2.

#[export] Instance older_dec a b : Decision (older a b).
Proof. unfold older. apply _. Defined.

(** A signature that cannot be removed is left. *)
Definition remove_backup (name : string) : M FS unit :=
  remove_file name;;
  s ← get;
  if bool_decide (files s !! sig_name name = None) then mret tt
  else λ s, (Ok tt, (remove_file (sig_name name) s).2).

Section Backup.
  Context {CR : Crypto} {HO : HashOrder}.
  (** ed25519 keys with their signatures, and the bytes of an archive. *)
  Context {K : Type} (sign : K → bytes → bytes) (zip_bytes : list (string * bytes) → bytes).

(** The backups, the newest first. *)
Definition backups (s : FS) : list (string * Z) :=
  reverse (merge_sort older (filter (λ e, is_backup e.1 = true) ((λ e, (e.1, e.2.2)) <$> hash_iter (files s)))).

Definition rotate_backups (keep : nat) : M FS unit :=
  io;;
  s ← get;
  mfor remove_backup (fst <$> drop keep (backups s)).

(** ** A backup *)

Definition checkpoint_name (db_path : string) (now : Z) : string := (db_path ++ "_checkpoint_" ++ pretty now)%string.

(** The work after the checkpoint. *)
Definition backup_body (dir : string) (tree : list node) (key : outcome K) : M FS unit :=
  let zip_path_tmp := (dir ++ ".zip.tmp")%string in
  let sig_path_tmp := (dir ++ ".sig.tmp")%string in
  create_new zip_path_tmp;;
  write_all zip_path_tmp (zip_bytes (add_dir_to_zip tree ""));;
  data ← fs_read zip_path_tmp;
  signing_key ← lift key;
  fs_write sig_path_tmp (sign signing_key data);;
  rename zip_path_tmp (dir ++ ".zip")%string;;
  rename sig_path_tmp (dir ++ ".sig")%string;;
  rotate_backups 3.

(** [defer!]: the checkpoint is removed on every way out. *)
Definition with_cleanup (dir : string) (cleanup_ok : bool) (m : M FS unit) : M FS unit := λ s,
  let '(r, s) := m s in
  (r, if cleanup_ok then set_dirs (delete dir (dirs s)) s else s).

(** [maintenance_lock.lock().await]: waits for ever for a lock that the caller
    holds. *)
Definition lock_maintenance : M FS unit :=
  held ← gets maintenance_locked;
  if held : bool then lift Hang else modify (set_locked true).

Definition unlock_after (m : M FS unit) : M FS unit := λ s,
  let '(r, s) := m s in (r, set_locked false s).

(** [tree] is what RocksDB links into a checkpoint; [conn], [now] and [key] are
    the results of the calls. *)
Definition secure_backup_db (db_path : string) (tree : list node) (conn : outcome unit) (now : outcome Z)
    (key : outcome K) (cleanup_ok : bool) : M FS unit :=
  lock_maintenance;;
  unlock_after (
    lift conn;;
    now ← lift now;
    io;;
    let dir := checkpoint_name db_path now in
    s ← get;
    lift (ensure (bool_decide (dirs s !! dir = None)) io_error);;
    io;;
    modify (set_dirs (<[dir := tree]> (dirs s)));;
    with_cleanup dir cleanup_ok (backup_body dir tree key)).

(** One round of the task of the node: it holds the lock when it calls. *)
Definition backup_round (db_path : string) (tree : list node) (conn : outcome unit) (now : outcome Z)
    (key : outcome K) (cleanup_ok : bool) : M FS unit :=
  lock_maintenance;;
  unlock_after (λ s,
    match secure_backup_db db_path tree conn now key cleanup_ok s with
    | (Err _, s) => (Ok tt, s)
    | r => r
    end).

End Backup.

(** ** Steps *)

(** An operation leaves the files it does not name. *)
Class Frame {A} (P : string → Prop) (m : M FS A) : Prop :=
  frame : ∀ s k, ¬ P k → files (m s).2 !! k = files s !! k.

#[local] Instance frame_ret {A} P (a : A) : Frame P (mret a).
Proof. by intros s k. Qed.

#[local] Instance frame_lift {A} P (o : outcome A) : Frame P (lift o).
Proof. by intros s k. Qed.

#[local] Instance frame_get P : Frame P get.
Proof. by intros s k. Qed.

#[local] Instance frame_gets {A} P (f : FS → A) : Frame P (gets f).
Proof. by intros s k. Qed.

#[local] Instance frame_fault P : Frame P next_fault.
Proof. by intros s k. Qed.

#[local] Instance frame_bind {A B} P (m : M FS A) (f : A → M FS B) :
  Frame P m → (∀ a, Frame P (f a)) → Frame P (m ≫= f).
Proof.
  intros Hm Hf s k Hk. specialize (Hm s k Hk). unfold mbind, M_bind. destruct (m s) as [[a|e| |] s1]; try done.
  rewrite Hf by done. exact Hm.
Qed.

#[local] Instance frame_io P : Frame P io.
Proof. unfold io. apply _. Qed.

#[local] Instance frame_put path st : Frame (λ k, k = path) (put_file path st).
Proof.
  intros s k Hk. change (<[path := (st, fs_clock s)]> (files s) !! k = files s !! k). by rewrite lookup_insert_ne by congruence.
Qed.

#[local] Instance frame_create path : Frame (λ k, k = path) (create_new path).
Proof. unfold create_new. apply _. Qed.

#[local] Instance frame_write_all path data : Frame (λ k, k = path) (write_all path data).
Proof.
  unfold write_all. apply frame_bind; [apply _|intros f]. apply frame_bind; [apply _|intros s].
  apply frame_bind; [|intros; apply _]. destruct (files s !! path) as [[st t]|]; apply _.
Qed.

#[local] Instance frame_fchown path uid : Frame (λ k, k = path) (fchown path uid).
Proof.
  unfold fchown. apply frame_bind; [apply _|intros _ s k Hk].
  change (alter (λ f, (mkFileStat uid (st_mode f.1) (st_size f.1) (file_data f.1), f.2)) path (files s) !! k = files s !! k).
  by rewrite lookup_alter_ne by congruence.
Qed.

Lemma io_Ok s u s' : io s = (Ok u, s') → files s' = files s ∧ dirs s' = dirs s ∧ fs_uid s' = fs_uid s ∧ fs_clock s' = fs_clock s.
Proof.
  unfold io. intros (f & s1 & [= <- <-] & H)%M_bind_Ok. cbv [lift] in H. injection H as _ <-. done.
Qed.

Lemma create_new_Ok path s u s' :
  create_new path s = (Ok u, s') →
  files s !! path = None ∧ files s' = <[path := (mkFileStat (fs_uid s) 0x180 0 [], fs_clock s)]> (files s) ∧
  dirs s' = dirs s ∧ fs_uid s' = fs_uid s ∧ fs_clock s' = fs_clock s.
Proof.
  unfold create_new. intros ([] & s1 & H1 & H)%M_bind_Ok. apply io_Ok in H1 as (E1 & E2 & E3 & E4).
  apply M_bind_Ok in H as (s2 & s3 & [= <- <-] & H). apply M_bind_Ok in H as ([] & s4 & H2 & H).
  cbv [lift] in H2. injection H2 as H2 <-. apply ensure_Ok, bool_decide_eq_true_1 in H2.
  cbv [put_file mbind M_bind get modify] in H. injection H as _ <-. cbn. rewrite E1, E2, E3, E4 in *. done.
Qed.

Lemma write_all_Ok path data s u s' st t :
  write_all path data s = (Ok u, s') → files s !! path = Some (st, t) →
  files s' = <[path := (mkFileStat (st_uid st) (st_mode st) (Z.of_nat (length (file_data st ++ data))) (file_data st ++ data), fs_clock s)]> (files s) ∧
  dirs s' = dirs s ∧ fs_uid s' = fs_uid s ∧ fs_clock s' = fs_clock s.
Proof.
  unfold write_all. intros (f & s1 & [= <- <-] & H)%M_bind_Ok Hp. apply M_bind_Ok in H as (s2 & s3 & [= <- <-] & H).
  change (files (set_faults (tail (faults s)) s)) with (files s) in H. rewrite Hp in H.
  apply M_bind_Ok in H as (u1 & s4 & H1 & H). cbv [lift] in H. injection H as H <-.
  apply ensure_Ok, bool_decide_eq_true_1 in H. rewrite H in H1. cbn [fmap option_fmap option_map default] in H1.
  cbv [put_file mbind M_bind get modify] in H1. injection H1 as _ <-. done.
Qed.

Lemma fchown_Ok path uid s u s' :
  fchown path uid s = (Ok u, s') →
  files s' = alter (λ f, (mkFileStat uid (st_mode f.1) (st_size f.1) (file_data f.1), f.2)) path (files s) ∧
  dirs s' = dirs s ∧ fs_uid s' = fs_uid s ∧ fs_clock s' = fs_clock s.
Proof.
  unfold fchown. intros ([] & s1 & H1 & H)%M_bind_Ok. apply io_Ok in H1 as (E1 & E2 & E3 & E4).
  cbv [mbind M_bind get modify] in H. injection H as _ <-. cbn. by rewrite E1.
Qed.

(** A rename does nothing or moves the file. *)
Lemma rename_cases from to s r s' :
  rename from to s = (r, s') →
  (dirs s' = dirs s ∧ fs_uid s' = fs_uid s ∧ fs_clock s' = fs_clock s) ∧
  ((files s' = files s ∧ ∀ u, r ≠ Ok u) ∨ ∃ f, r = Ok tt ∧ files s !! from = Some f ∧ files s' = <[to := f]> (delete from (files s))).
Proof.
  unfold rename. intros [([] & s1 & H1 & H)|(o & H1 & H2 & H3)]%M_bind_cases.
  - apply io_Ok in H1 as (E1 & E2 & E3 & E4). cbv [mbind M_bind get lift modify] in H. rewrite E1 in H.
    destruct (files s !! from) as [f|]; cbn [ok_or] in H; injection H as <- <-; (split; [done|]); [right; by exists f|by left].
  - unfold io, mbind, M_bind, next_fault, lift in H1. injection H1 as <- <-. split; [done|]. by left.
Qed.

(** ** Secret files *)

Lemma tmp_path_ne path : path ≠ tmp_path path.
Proof.
  intros H. apply (f_equal String.length) in H. unfold tmp_path in H. revert H.
  induction path as [|c path IH]; cbn; [done|]. intros H. apply IH. by injection H.
Qed.

(** The temporary file of a secret before it is moved. *)
Definition written (s : FS) (data : bytes) : FileStat := mkFileStat (fs_uid s) 0x180 (Z.of_nat (length data)) data.

Lemma save_secret_cases path data s r s' :
  secure_save_secret path data s = (r, s') →
  (files s' !! path = files s !! path ∧ ∀ u, r ≠ Ok u) ∨ (files s' !! path = Some (written s data, fs_clock s) ∧ fs_uid s' = fs_uid s).
Proof.
  pose proof (tmp_path_ne path) as Hne. unfold secure_save_secret. intros H.
  apply M_bind_cases in H as [(u1 & s1 & H1 & H)|(o & H1 & _ & H3)].
  2: { left. split; [|done]. change s' with ((o, s').2). rewrite <- H1. by apply (frame_create (tmp_path path)). }
  pose proof (frame_create (tmp_path path) s path Hne) as F1. rewrite H1 in F1. cbn [snd] in F1.
  apply create_new_Ok in H1 as (Hn & E1 & _ & U1 & C1).
  assert (files s1 !! tmp_path path = Some (mkFileStat (fs_uid s) 0x180 0 [], fs_clock s)) as T1 by (rewrite E1; apply lookup_insert_eq).
  apply M_bind_cases in H as [(u2 & s2 & H2 & H)|(o & H2 & _ & H3)].
  2: { left. split; [|done]. rewrite <- F1. change s' with ((o, s').2). rewrite <- H2. by apply (frame_write_all (tmp_path path)). }
  pose proof (frame_write_all (tmp_path path) data s1 path Hne) as F2. rewrite H2 in F2. cbn [snd] in F2.
  eapply write_all_Ok in H2 as (E2 & _ & U2 & C2); [|exact T1]. cbn [st_uid st_mode file_data app] in E2.
  apply M_bind_cases in H as [(u3 & s3 & H3 & H)|(o & H3 & _ & H4)].
  2: { left. split; [|done]. rewrite <- F1, <- F2. change s' with ((o, s').2). rewrite <- H3. apply (frame_io (λ _, False)). exact id. }
  apply io_Ok in H3 as (E3 & _ & U3 & C3). apply M_bind_cases in H as [(uid & s4 & E & H)|(o & E & Ho & _)]; cbv [gets] in E; [|exfalso; injection E as <- <-; by eapply Ho].
  injection E as <- <-.
  apply M_bind_cases in H as [(u4 & s4 & H4 & H)|(o & H4 & _ & H5)].
  2: { left. split; [|done]. rewrite <- F1, <- F2, <- E3. change s' with ((o, s').2). rewrite <- H4. by apply (frame_fchown (tmp_path path)). }
  pose proof (frame_fchown (tmp_path path) (fs_uid s3) s3 path Hne) as F4. rewrite H4 in F4. cbn [snd] in F4.
  apply fchown_Ok in H4 as (E4 & _ & U4 & C4).
  apply M_bind_cases in H as [(u5 & s5 & H5 & H)|(o & H5 & Ho & H6)].
  2: { left. split; [|done]. rewrite <- F1, <- F2, <- E3, <- F4. apply rename_cases in H5 as [_ [[-> _]|(f & -> & _)]]; [done|by destruct (Ho tt)]. }
  apply rename_cases in H5 as [(_ & U5 & C5) [[_ Hr]|(f & _ & Hf & E5)]]; [by destruct (Hr u5)|].
  right. rewrite E4, E3, E2, lookup_alter_eq, lookup_insert_eq in Hf. cbn in Hf. injection Hf as <-.
  assert (∀ (m : M FS unit), Frame (λ _, False) m → files (m s5).2 !! path = files s5 !! path) as Hio by (intros m Hm; apply Hm; exact id).
  assert ((io;; io) s5 = (r, s')) as H' by exact H. specialize (Hio (io;; io) _). rewrite H' in Hio. cbn [snd] in Hio. split.
  - rewrite Hio, E5, lookup_insert_eq, U3, U2, U1, C1. done.
  - unfold io, mbind, M_bind, next_fault, lift in H'. destruct (ensure _ _); [|injection H' as <- <-; cbn; congruence..].
    destruct (ensure _ _); injection H' as <- <-; cbn; congruence.
Qed.

(** A saved secret loads. *)
Lemma written_loads s data :
  Z.of_nat (length data) <= 4096 → secure_load_file (fs_uid s) (Some (written s data)) = Ok data.
Proof.
  intros Hl. unfold secure_load_file, written. cbn [ok_or mbind outcome_bind st_uid st_mode st_size file_data].
  rewrite (Z.eqb_refl (fs_uid s)), (proj2 (Z.ltb_ge 4096 _)), Z.leb_refl by lia.
  cbn [ensure mbind outcome_bind negb]. by rewrite Nat2Z.id, firstn_all.
Qed.

(** C35. A secret is replaced as a whole: whatever fails, its file is as it was,
    or it holds all of the new data, owned by the user and closed to others;
    and when the call succeeds, loading gives back what was saved. *)
Theorem secret_file_atomic path data s r s' :
  secure_save_secret path data s = (r, s') →
  (files s' !! path = files s !! path ∨
   ∃ st, stat_of s' path = Some st ∧ st_uid st = fs_uid s ∧ Z.land (st_mode st) 63 = 0 ∧ file_data st = data) ∧
  (r = Ok tt → Z.of_nat (length data) <= 4096 → secure_load_file (fs_uid s') (stat_of s' path) = Ok data).
Proof.
  intros [[H Hr]|[H Hu]]%save_secret_cases.
  - split; [by left|]. intros ->. by destruct (Hr tt).
  - unfold stat_of. rewrite H. cbn [fmap option_fmap option_map fst]. split; [right; by eexists|]. intros _ Hl.
    rewrite Hu. by apply written_loads.
Qed.

(** A save that failed after its temporary file was made is never repeated:
    every later one for that path finds the file and fails. *)
Theorem stale_tmp_blocks path data s :
  files s !! tmp_path path ≠ None → ∃ e, (secure_save_secret path data s).1 = Err e ∧ files (secure_save_secret path data s).2 = files s.
Proof.
  intros Hs. destruct (secure_save_secret path data s) as [r s'] eqn:H. unfold secure_save_secret in H.
  unfold mbind at 1, M_bind at 1 in H. unfold create_new in H. unfold mbind at 1, M_bind at 1 in H.
  unfold io at 1, mbind at 1, M_bind at 1, next_fault at 1, lift at 1 in H.
  destruct (bool_decide (default None (head (faults s)) = None)); cbn [ensure] in H; [|injection H as <- <-; by eexists].
  cbv [mbind M_bind get lift] in H. change (files (set_faults (tail (faults s)) s)) with (files s) in H.
  rewrite bool_decide_eq_false_2 in H by done. cbn [ensure] in H. injection H as <- <-. by eexists.
Qed.

(** ** Archives *)

(** A file of a tree, under its path. *)
Inductive in_tree : list node → string → bytes → Prop :=
  | in_file name data l : NFile name data ∈ l → in_tree l name data
  | in_dir name children l p data : NDir name children ∈ l → in_tree children p data → in_tree l (name ++ "/" ++ p)%string data.

Section NodeInd.
  Context (P : node → Prop) (Hf : ∀ name data, P (NFile name data)) (Hd : ∀ name l, Forall P l → P (NDir name l)).

Fixpoint node_induction (n : node) : P n :=
  match n with
  | NFile name data => Hf name data
  | NDir name l =>
      Hd name l ((fix go (l : list node) : Forall P l :=
        match l with [] => Forall_nil_2 P | n :: l => Forall_cons_2 P n l (node_induction n) (go l) end) l)
  end.

End NodeInd.

Lemma list_elem_of_concat {A} (x : A) (ls : list (list A)) : x ∈ concat ls ↔ ∃ l, l ∈ ls ∧ x ∈ l.
Proof.
  rewrite list_elem_of_In, in_concat. setoid_rewrite list_elem_of_In. done.
Qed.

Lemma string_app_assoc (x y z : string) : ((x ++ y) ++ z)%string = (x ++ y ++ z)%string.
Proof. induction x as [|c x IH]; [done|]. exact (f_equal (String c) IH). Qed.

Lemma zip_node_spec n : ∀ base p data, (p, data) ∈ zip_node base n ↔ ∃ q, p = (base ++ q)%string ∧ in_tree [n] q data.
Proof.
  induction n as [name d|name l IH] using node_induction; intros base p data; cbn [zip_node].
  - rewrite list_elem_of_singleton. split.
    + intros [= -> ->]. exists name. split; [done|]. constructor. by left.
    + intros (q & -> & Hq). inversion Hq as [? ? ? Hin|? ? ? ? ? Hin]; subst; apply list_elem_of_singleton in Hin; by simplify_eq.
  - rewrite list_elem_of_concat. split.
    + intros (es & (n & -> & Hn)%list_elem_of_fmap & He). rewrite Forall_forall in IH. apply (IH n Hn) in He as (q & -> & Hq).
      exists (name ++ "/" ++ q)%string. split; [by rewrite !string_app_assoc|]. eapply in_dir; [by left|].
      inversion Hq as [? ? ? Hin|? ? ? ? ? Hin]; subst; apply list_elem_of_singleton in Hin; subst n; [by constructor|by eapply in_dir].
    + intros (q & -> & Hq). inversion Hq as [? ? ? Hin|? children ? q' ? Hin Hq']; subst; apply list_elem_of_singleton in Hin; simplify_eq.
      assert (∃ n, n ∈ l ∧ in_tree [n] q' data) as (n & Hn & Hq2).
      { inversion Hq' as [? ? ? Hin|? ? ? ? ? Hin]; subst; eexists; (split; [exact Hin|]); [constructor|eapply in_dir; [|done]]; by left. }
      exists (zip_node (base ++ name ++ "/")%string n). split; [by apply list_elem_of_fmap_2|]. rewrite Forall_forall in IH.
      apply (IH n Hn). exists q'. split; [by rewrite !string_app_assoc|done].
Qed.

(** The archive of a directory lists exactly its files, each under its path
    below the directory. *)
Theorem add_dir_to_zip_spec tree base p data :
  (p, data) ∈ add_dir_to_zip tree base ↔ ∃ q, p = (base ++ q)%string ∧ in_tree tree q data.
Proof.
  unfold add_dir_to_zip. rewrite list_elem_of_concat. split.
  - intros (es & (n & -> & Hn)%list_elem_of_fmap & He). apply zip_node_spec in He as (q & -> & Hq). exists q. split; [done|].
    inversion Hq as [? ? ? Hin|? ? ? ? ? Hin]; subst; apply list_elem_of_singleton in Hin; subst n; [by constructor|by eapply in_dir].
  - intros (q & -> & Hq). inversion Hq as [? ? ? Hin|? ? ? ? ? Hin]; subst;
      (eexists; split; [by apply list_elem_of_fmap_2|]; apply zip_node_spec; eexists; split; [done|]);
      [constructor|eapply in_dir; [|done]]; by left.
Qed.

(** ** Rotation *)

Lemma bstr_app x y : bstr (x ++ y)%string = bstr x ++ bstr y.
Proof. induction x as [|c x IH]; [done|]. exact (f_equal (cons _) IH). Qed.

(** A signature is not taken for a backup. *)
Lemma sig_not_backup name : is_backup (sig_name name) = false.
Proof.
  unfold is_backup, ends_with, sig_name. rewrite (bstr_app _ ".sig"), (reverse_app _ (bstr ".sig")).
  apply andb_false_iff. right. generalize (reverse (bstr (String.substring 0 (String.length name - 4) name))). intros l. by vm_compute.
Qed.

Lemma remove_file_Ok path s u s' : remove_file path s = (Ok u, s') → files s' = delete path (files s) ∧ dirs s' = dirs s ∧ fs_uid s' = fs_uid s ∧ fs_clock s' = fs_clock s.
Proof.
  unfold remove_file. intros ([] & s1 & H1 & H)%M_bind_Ok. apply io_Ok in H1 as (E1 & E2 & E3 & E4).
  apply M_bind_Ok in H as (s2 & s3 & [= <- <-] & H). apply M_bind_Ok in H as ([] & s4 & H2 & H).
  cbv [lift] in H2. injection H2 as _ <-. cbv [modify] in H. injection H as _ <-. cbn. by rewrite E1.
Qed.

Lemma remove_file_any path s : ∃ k, files (remove_file path s).2 = (if k : bool then delete path (files s) else files s) ∧ dirs (remove_file path s).2 = dirs s.
Proof.
  unfold remove_file, io, mbind, M_bind, next_fault, get, lift, modify.
  destruct (bool_decide _); cbn [ensure]; [destruct (negb _); cbn [ensure]; [by exists true|]|]; by exists false.
Qed.

(** What is left of the directory after the removals. *)
Lemma remove_backups_Ok names s s' :
  mfor remove_backup names s = (Ok tt, s') →
  (∀ k, k ∈ names → files s' !! k = None) ∧ (∀ k f, files s' !! k = Some f → files s !! k = Some f) ∧
  (∀ k, k ∉ names → k ∉ sig_name <$> names → files s' !! k = files s !! k) ∧ dirs s' = dirs s.
Proof.
  revert s. induction names as [|name names IH]; intros s; cbn [mfor].
  { intros [= <-]. split_and!; try done. by intros k ?%not_elem_of_nil. }
  intros ([] & s1 & H1 & H)%M_bind_Ok. apply IH in H as (A1 & A2 & A3 & A4).
  assert (∃ b : bool, files s1 = (if b then delete (sig_name name) else id) (delete name (files s)) ∧ dirs s1 = dirs s) as (b & E & Ed).
  { unfold remove_backup in H1. apply M_bind_Ok in H1 as ([] & s2 & H2 & H1). apply remove_file_Ok in H2 as (E2 & E3 & _).
    apply M_bind_Ok in H1 as (s3 & s4 & [= <- <-] & H1). case_bool_decide.
    - cbv [mret M_ret] in H1. injection H1 as <-. exists false. by rewrite E2.
    - injection H1 as <-. destruct (remove_file_any (sig_name name) s2) as (b & -> & ->). exists b. rewrite E2. by destruct b. }
  assert (Hs : ∀ k f, files s1 !! k = Some f → files s !! k = Some f).
  { intros k f Hf. rewrite E in Hf. destruct b; cbn in Hf; rewrite ?lookup_delete_Some in Hf; naive_solver. }
  split_and!.
  - intros k [->|Hk]%elem_of_cons; [|by apply A1]. destruct (files s' !! name) as [f|] eqn:Ef; [|done].
    apply A2 in Ef. rewrite E in Ef. destruct b; cbn in Ef; rewrite ?lookup_delete_Some in Ef; naive_solver.
  - intros k f Hf. by apply Hs, A2.
  - intros k [Hk1 Hk2]%not_elem_of_cons [Hk3 Hk4]%not_elem_of_cons. rewrite A3, E by done.
    destruct b; cbn; rewrite ?lookup_delete_ne by congruence; done.
  - congruence.
Qed.

Section Rotation.
  Context {HO : HashOrder} {HOO : HashOrderOk}.

Lemma elem_of_backups s k t :
  (k, t) ∈ backups s ↔ is_backup k = true ∧ ∃ st, files s !! k = Some (st, t).
Proof.
  unfold backups. rewrite elem_of_reverse, merge_sort_Permutation, list_elem_of_filter. cbn. split.
  - intros (H1 & ([k' [st t']] & E & Hi)%list_elem_of_fmap). cbn in E. injection E as <- <-. split; [done|].
    exists st. by apply elem_of_hash_iter.
  - intros (H1 & st & Hf). split; [done|]. apply list_elem_of_fmap. exists (k, (st, t)). split; [done|]. by apply elem_of_hash_iter.
Qed.

Lemma NoDup_backups s : NoDup (backups s).*1.
Proof.
  unfold backups. rewrite reverse_Permutation, merge_sort_Permutation.
  eapply sublist_NoDup; [|apply fmap_sublist, sublist_filter]. rewrite <- list_fmap_compose. apply NoDup_hash_iter.
Qed.

#[local] Instance older_total : Total older.
Proof. intros x y. unfold older. lia. Qed.

#[local] Instance older_trans : Transitive older.
Proof. intros x y z. unfold older. lia. Qed.

Lemma backups_sorted s keep a b : a ∈ take keep (backups s) → b ∈ drop keep (backups s) → older b a.
Proof.
  intros Ha Hb. set (l := merge_sort older (filter (λ e, is_backup e.1 = true) ((λ e, (e.1, e.2.2)) <$> hash_iter (files s)))).
  assert (Hs : StronglySorted older l) by (apply StronglySorted_merge_sort; apply _).
  assert (l = reverse (drop keep (backups s)) ++ reverse (take keep (backups s))) as E.
  { rewrite <- reverse_app, take_drop. unfold backups. by rewrite reverse_involutive. }
  rewrite E in Hs. eapply StronglySorted_app_1_elem_of; [exact Hs|by apply elem_of_reverse..].
Qed.

(** What rotation leaves and what it removes. *)
Lemma rotation keep s s' :
  rotate_backups keep s = (Ok tt, s') →
  (∀ k t, (k, t) ∈ backups s' ↔ (k, t) ∈ take keep (backups s)) ∧
  (∀ k f, files s' !! k = Some f → files s !! k = Some f) ∧ dirs s' = dirs s ∧
  (∀ k, is_backup k = false → files s' !! k = files s !! k ∨ ∃ b t, k = sig_name b ∧ (b, t) ∈ drop keep (backups s)).
Proof.
  unfold rotate_backups. intros ([] & s1 & H1 & H)%M_bind_Ok. apply io_Ok in H1 as (E1 & E2 & _).
  apply M_bind_Ok in H as (s2 & s3 & [= <- <-] & H). apply remove_backups_Ok in H as (A1 & A2 & A3 & A4).
  assert (Eb : backups s1 = backups s) by (unfold backups; by rewrite E1). rewrite Eb in *. rewrite E1 in *.
  set (gone := fst <$> drop keep (backups s)) in *.
  assert (Hsig : ∀ k, is_backup k = true → k ∉ sig_name <$> gone).
  { intros k Hk (b & -> & _)%list_elem_of_fmap. by rewrite sig_not_backup in Hk. }
  split_and!; [|exact A2|congruence|].
  - intros k t. rewrite elem_of_backups. split.
    + intros (Hk & st & Hf). assert ((k, t) ∈ backups s) as Hin by (apply elem_of_backups; by eauto).
      rewrite <- (take_drop keep (backups s)) in Hin. apply elem_of_app in Hin as [|Hin]; [done|]. exfalso.
      assert (k ∈ gone) as Hg by (apply list_elem_of_fmap; by exists (k, t)). apply A1 in Hg. congruence.
    + intros Hin. pose proof (NoDup_backups s) as Hnd. rewrite <- (take_drop keep (backups s)), fmap_app in Hnd.
      apply NoDup_app in Hnd as (_ & Hd & _). assert (k ∉ gone) as Hg by (apply Hd, list_elem_of_fmap; by exists (k, t)).
      assert ((k, t) ∈ backups s) as (Hk & st & Hf)%elem_of_backups by (by eapply subseteq_take).
      split; [done|]. exists st. by rewrite A3 by auto.
  - intros k Hk. destruct (decide (k ∈ sig_name <$> gone)) as [Hs|Hs].
    + right. apply list_elem_of_fmap in Hs as (b & -> & ([b2 t] & -> & Hb)%list_elem_of_fmap). by exists b2, t.
    + left. apply A3; [|done]. intros ([b t] & -> & Hb)%list_elem_of_fmap. cbn in Hk.
      assert ((b, t) ∈ backups s) as (Hbk & _)%elem_of_backups by (by eapply subseteq_drop). congruence.
Qed.

Lemma NoDup_backup_pairs s : NoDup (backups s).
Proof. apply (NoDup_fmap_1 fst), NoDup_backups. Qed.

(** Rotation keeps the newest backups: as many as asked for are left, if
    there were as many, none older than one that was removed; besides backups
    only their signatures go, and nothing that is left has changed. *)
Theorem rotate_keeps_newest keep s s' :
  rotate_backups keep s = (Ok tt, s') →
  length (backups s') = (keep `min` length (backups s))%nat ∧
  (∀ k f, files s' !! k = Some f → files s !! k = Some f) ∧
  (∀ k t k' t', (k, t) ∈ backups s → (k, t) ∉ backups s' → (k', t') ∈ backups s' → t <= t') ∧
  (∀ k, is_backup k = false → files s' !! k = files s !! k ∨
     ∃ b t, k = sig_name b ∧ (b, t) ∈ backups s ∧ (b, t) ∉ backups s').
Proof.
  intros (Hin & Hsub & _ & Hoth)%rotation. pose proof (NoDup_backup_pairs s) as Hnd.
  assert (Hd : ∀ e, e ∈ drop keep (backups s) → e ∈ backups s ∧ e ∉ take keep (backups s)).
  { intros e He. split; [by eapply subseteq_drop|]. intros Ht. rewrite <- (take_drop keep (backups s)) in Hnd.
    apply NoDup_app in Hnd as (_ & Hdis & _). by apply (Hdis e). }
  split_and!.
  - rewrite <- length_take. apply Permutation_length, NoDup_Permutation;
      [apply NoDup_backup_pairs|eapply sublist_NoDup; [exact Hnd|apply sublist_take]|]. intros [k t]. apply Hin.
  - exact Hsub.
  - intros k t k' t' Hk Hn Hk'. rewrite Hin in Hn, Hk'. rewrite <- (take_drop keep (backups s)) in Hk.
    apply elem_of_app in Hk as [|Hk]; [done|]. by apply (backups_sorted s keep (k', t') (k, t)).
  - intros k Hk. destruct (Hoth k Hk) as [|(b & t & -> & Hb)]; [by left|]. right. exists b, t. rewrite Hin. by apply Hd in Hb.
Qed.

End Rotation.

(** ** A whole backup *)

Lemma bstr_inj x y : bstr x = bstr y → x = y.
Proof. intros H. rewrite <- (bytes_string_bytes x), <- (bytes_string_bytes y). exact (f_equal bytes_string H). Qed.

Lemma bstr_split l : ∀ s y, bstr s = l ++ bstr y → ∃ x, s = (x ++ y)%string.
Proof.
  induction l as [|c l IH]; intros s y; cbn [app].
  - intros H%bstr_inj. by exists ""%string.
  - destruct s as [|a s]; [done|]. intros H. injection H as _ H. apply IH in H as (x & ->). by exists (String a x).
Qed.

Lemma substring_prefix x y : String.substring 0 (String.length x) (x ++ y) = x.
Proof. induction x as [|c x IH]; [by destruct y|]. exact (f_equal (String c) IH). Qed.

Lemma length_string_app x y : String.length (x ++ y) = (String.length x + String.length y)%nat.
Proof. induction x as [|c x IH]; [done|]. exact (f_equal S IH). Qed.

Lemma sig_of_zip x : sig_name (x ++ ".zip")%string = (x ++ ".sig")%string.
Proof.
  unfold sig_name. rewrite length_string_app. cbn [String.length]. rewrite Nat.add_sub. by rewrite substring_prefix.
Qed.

Lemma backup_is_zip b : is_backup b = true → ∃ x, b = (x ++ ".zip")%string.
Proof.
  unfold is_backup, ends_with. intros [_ H]%andb_true_iff. apply starts_with_spec in H as [r Hr].
  apply (f_equal reverse) in Hr. rewrite reverse_app, !reverse_involutive in Hr. by eapply bstr_split.
Qed.

Lemma string_app_inj_r x y z : (x ++ z)%string = (y ++ z)%string → x = y.
Proof.
  intros H. apply (f_equal bstr) in H. rewrite !bstr_app in H. apply app_inv_tail in H. by apply bstr_inj.
Qed.

Lemma contains_bytes_app p l k : contains_bytes p (l ++ p ++ k) = true.
Proof.
  induction l as [|c l IH]; [|cbn; rewrite IH; apply orb_true_r].
  cbn [app]. assert (starts_with p (p ++ k) = true) as E by apply starts_with_app.
  destruct (p ++ k); cbn; by rewrite E.
Qed.

Lemma zip_is_backup db now : is_backup (checkpoint_name db now ++ ".zip") = true.
Proof.
  unfold is_backup, ends_with, checkpoint_name. rewrite !bstr_app. rewrite <- !app_assoc, contains_bytes_app.
  rewrite !reverse_app, <- !app_assoc. apply starts_with_app.
Qed.

Lemma string_app_inj_l x y z : (z ++ x)%string = (z ++ y)%string → x = y.
Proof. intros H. apply (f_equal bstr) in H. rewrite !bstr_app in H. apply app_inv_head in H. by apply bstr_inj. Qed.

Lemma fs_read_Ok path s data s' :
  fs_read path s = (Ok data, s') →
  (∃ f, files s !! path = Some f ∧ data = file_data f.1) ∧ files s' = files s ∧ dirs s' = dirs s ∧ fs_uid s' = fs_uid s ∧ fs_clock s' = fs_clock s.
Proof.
  unfold fs_read. intros ([] & s1 & H1 & H)%M_bind_Ok. apply io_Ok in H1 as (E1 & E2 & E3 & E4).
  apply M_bind_Ok in H as (s2 & s3 & [= <- <-] & H). apply M_bind_Ok in H as (f & s4 & H2 & H). cbv [lift] in H2.
  injection H2 as H2 <-. apply ok_or_Ok in H2. cbv [mret M_ret] in H. injection H as <- <-. rewrite E1 in H2. split; [by exists f|done].
Qed.

Lemma fs_write_Ok path data s u s' :
  fs_write path data s = (Ok u, s') →
  (∃ st, file_data st = data ∧ files s' = <[path := (st, fs_clock s)]> (files s)) ∧
  dirs s' = dirs s ∧ fs_uid s' = fs_uid s ∧ fs_clock s' = fs_clock s.
Proof.
  unfold fs_write. intros (f & s1 & [= <- <-] & H)%M_bind_Ok. apply M_bind_Ok in H as (s2 & s3 & [= <- <-] & H).
  apply M_bind_Ok in H as (u1 & s4 & H1 & H). cbv [lift] in H. injection H as H <-. apply ensure_Ok, bool_decide_eq_true_1 in H.
  rewrite H in H1. cbv [put_file mbind M_bind get modify] in H1. injection H1 as _ <-. split; [|done]. eexists. split; [|done]. done.
Qed.

Lemma rename_Ok from to s u s' :
  rename from to s = (Ok u, s') →
  (∃ f, files s !! from = Some f ∧ files s' = <[to := f]> (delete from (files s))) ∧ dirs s' = dirs s ∧ fs_uid s' = fs_uid s ∧ fs_clock s' = fs_clock s.
Proof. intros [H1 [[_ H]|(f & _ & H2 & H3)]]%rename_cases; [by destruct (H u)|]. split; [by exists f|done]. Qed.

Section WholeBackup.
  Context {HO : HashOrder} {HOO : HashOrderOk} {K : Type} (sign : K → bytes → bytes) (zip_bytes : list (string * bytes) → bytes).

(** The directory before rotation. *)
Lemma backup_body_Ok dir tree key s s' :
  backup_body sign zip_bytes dir tree key s = (Ok tt, s') →
  ∃ sk s1 st zf, key = Ok sk ∧ rotate_backups 3 s1 = (Ok tt, s') ∧ dirs s1 = dirs s ∧ fs_clock s1 = fs_clock s ∧
    file_data zf = zip_bytes (add_dir_to_zip tree "") ∧ st_mode zf = 0x180 ∧ file_data st = sign sk (file_data zf) ∧
    files s1 = <[(dir ++ ".sig")%string := (st, fs_clock s)]> (delete (dir ++ ".sig.tmp")%string
      (<[(dir ++ ".zip")%string := (zf, fs_clock s)]> (delete (dir ++ ".zip.tmp")%string
        (<[(dir ++ ".sig.tmp")%string := (st, fs_clock s)]> (<[(dir ++ ".zip.tmp")%string := (zf, fs_clock s)]> (files s)))))).
Proof.
  assert (N : ∀ a b, a ≠ b → (dir ++ a)%string ≠ (dir ++ b)%string) by (intros a b Hab E; by apply string_app_inj_l in E).
  unfold backup_body. intros (u1 & s1 & H1 & H)%M_bind_Ok. apply create_new_Ok in H1 as (_ & E1 & D1 & U1 & C1).
  apply M_bind_Ok in H as (u2 & s2 & H2 & H). eapply write_all_Ok in H2 as (E2 & D2 & U2 & C2); [|rewrite E1; apply lookup_insert_eq].
  cbn [st_uid st_mode file_data app] in E2. rewrite E1, insert_insert_eq in E2.
  apply M_bind_Ok in H as (data & s3 & H3 & H). apply fs_read_Ok in H3 as ((f & Hf & ->) & E3 & D3 & U3 & C3).
  rewrite E2, lookup_insert_eq in Hf. injection Hf as <-. cbn [fst file_data] in H.
  apply M_bind_Ok in H as (sk & s4 & H4 & H). cbv [lift] in H4. injection H4 as Hkey <-.
  apply M_bind_Ok in H as (u5 & s5 & H5 & H). apply fs_write_Ok in H5 as ((st & Hst & E5) & D5 & U5 & C5).
  apply M_bind_Ok in H as (u6 & s6 & H6 & H). apply rename_Ok in H6 as ((f6 & F6 & E6) & D6 & U6 & C6).
  rewrite E5, lookup_insert_ne in F6 by by apply N. rewrite E3, E2, lookup_insert_eq in F6. injection F6 as <-.
  apply M_bind_Ok in H as (u7 & s7 & H7 & H). apply rename_Ok in H7 as ((f7 & F7 & E7) & D7 & U7 & C7).
  rewrite E6, lookup_insert_ne, lookup_delete_ne, E5, lookup_insert_eq in F7 by by apply N. injection F7 as <-.
  eexists sk, s7, st, _. split; [done|]. split; [exact H|]. split; [congruence|]. split; [congruence|]. split; [|split; [|split]].
  4: { rewrite E7, E6, E5, E3, E2. rewrite C3, C2, C1. reflexivity. }
  all: cbn [file_data st_mode]; done.
Qed.

(** Rotation spares the newest backup with its signature. *)
Lemma rotated_backup dir s1 c zf st s s' :
  c = fs_clock s → is_backup (dir ++ ".zip") = true →
  files s1 = <[(dir ++ ".sig")%string := (st, c)]> (delete (dir ++ ".sig.tmp")%string
      (<[(dir ++ ".zip")%string := (zf, c)]> (delete (dir ++ ".zip.tmp")%string
        (<[(dir ++ ".sig.tmp")%string := (st, c)]> (<[(dir ++ ".zip.tmp")%string := (zf, c)]> (files s)))))) →
  (∀ k t, (k, t) ∈ backups s → t < fs_clock s) → rotate_backups 3 s1 = (Ok tt, s') →
  stat_of s' (dir ++ ".zip") = Some zf ∧ stat_of s' (dir ++ ".sig") = Some st ∧
  files s' !! (dir ++ ".zip.tmp")%string = None ∧ files s' !! (dir ++ ".sig.tmp")%string = None ∧
  (length (backups s') ≤ 3)%nat ∧ dirs s' = dirs s1.
Proof.
  intros -> Hz F Hold Hr. apply rotation in Hr as (Hin & Hsub & Dr & Hoth).
  assert (N : ∀ a b, a ≠ b → (dir ++ a)%string ≠ (dir ++ b)%string) by (intros a b Hab E; by apply string_app_inj_l in E).
  assert (Lz : files s1 !! (dir ++ ".zip")%string = Some (zf, fs_clock s)).
  { rewrite F, lookup_insert_ne, lookup_delete_ne by by apply N. apply lookup_insert_eq. }
  assert (Ls : files s1 !! (dir ++ ".sig")%string = Some (st, fs_clock s)) by (rewrite F; apply lookup_insert_eq).
  assert (Bsig : ∀ y, y ∈ [".sig"; ".sig.tmp"; ".zip.tmp"]%string → is_backup (dir ++ y) = false).
  { intros y Hy. unfold is_backup, ends_with. rewrite bstr_app, reverse_app. apply andb_false_iff. right. generalize (reverse (bstr dir)).
    repeat (apply elem_of_cons in Hy as [->|Hy]; [intros l; by vm_compute|]). by apply not_elem_of_nil in Hy. }
  assert (Hback : ∀ k t, (k, t) ∈ backups s1 → k ≠ (dir ++ ".zip")%string → t < fs_clock s).
  { intros k t (Hk & st' & Hf)%elem_of_backups Hne. apply (Hold k t), elem_of_backups. split; [done|]. exists st'.
    assert (∀ y, y ∈ [".sig"; ".sig.tmp"; ".zip.tmp"]%string → (dir ++ y)%string ≠ k) as Hk' by (intros y Hy E; subst k; rewrite (Bsig y Hy) in Hk; discriminate).
    rewrite F in Hf. rewrite lookup_insert_ne, lookup_delete_ne, lookup_insert_ne, lookup_delete_ne, lookup_insert_ne, lookup_insert_ne in Hf;
      try done; try (by apply Hk'; set_solver); by apply not_eq_sym. }
  assert (Hnew : (((dir ++ ".zip")%string, fs_clock s) : string * Z) ∉ drop 3 (backups s1)).
  { intros Hd. assert (∃ e, e ∈ take 3 (backups s1)) as [[k t] He].
    { destruct (backups s1) as [|e l]; [by apply not_elem_of_nil in Hd|]. exists e. by left. }
    pose proof (backups_sorted _ _ _ _ He Hd) as Ho. unfold older in Ho. cbn in Ho.
    assert (k ≠ (dir ++ ".zip")%string) as Hne.
    { intros ->. pose proof (NoDup_backups s1) as Hnd. rewrite <- (take_drop 3 (backups s1)), fmap_app in Hnd.
      apply NoDup_app in Hnd as (_ & Hdis & _). apply (Hdis (dir ++ ".zip")%string); apply list_elem_of_fmap; [by exists ((dir ++ ".zip")%string, t)|].
      by exists ((dir ++ ".zip")%string, fs_clock s). }
    assert (t < fs_clock s); [|lia]. apply (Hback k t); [by eapply subseteq_take|done]. }
  assert (Hzin : (((dir ++ ".zip")%string, fs_clock s) : string * Z) ∈ backups s').
  { apply Hin. assert ((((dir ++ ".zip")%string, fs_clock s) : string * Z) ∈ backups s1) as H by (apply elem_of_backups; by eauto).
    rewrite <- (take_drop 3 (backups s1)) in H. by apply elem_of_app in H as [|]. }
  apply elem_of_backups in Hzin as (_ & zf' & Hz'). pose proof (Hsub _ _ Hz') as E. rewrite Lz in E. injection E as <-.
  assert (Hnone : ∀ k, files s1 !! k = None → files s' !! k = None).
  { intros k Hk. destruct (files s' !! k) eqn:E; [|done]. apply Hsub in E. congruence. }
  split; [unfold stat_of; by rewrite Hz'|]. split; [|split; [|split; [|split; [|exact Dr]]]].
  - unfold stat_of. destruct (Hoth (dir ++ ".sig")%string) as [->|(b & t & Eb & Hb)]; [by apply Bsig; set_solver|by rewrite Ls|].
    exfalso. assert ((b, t) ∈ backups s1) as (Hbk & st' & Hf)%elem_of_backups by (by eapply subseteq_drop).
    destruct (backup_is_zip b Hbk) as (x & ->). rewrite sig_of_zip in Eb. apply string_app_inj_r in Eb as <-.
    rewrite Lz in Hf. injection Hf as <- <-. by apply Hnew.
  - apply Hnone. rewrite F, lookup_insert_ne, lookup_delete_ne, lookup_insert_ne by by apply N. apply lookup_delete_eq.
  - apply Hnone. rewrite F, lookup_insert_ne by by apply N. apply lookup_delete_eq.
  - assert (backups s' ⊆+ take 3 (backups s1)) as H%submseteq_length.
    { apply NoDup_submseteq; [apply NoDup_backup_pairs|]. intros [k t] Hk. by apply Hin. }
    rewrite length_take in H. lia.
Qed.

(** C34. A backup that succeeds is complete: the archive of the database, closed
    to others, with its signature beside it; no temporary file and no
    checkpoint is left, at most three backups are, this one among them. *)
Theorem backup_complete db tree conn now key s s' :
  secure_backup_db sign zip_bytes db tree conn (Ok now) key true s = (Ok tt, s') →
  (∀ k t, (k, t) ∈ backups s → t < fs_clock s) →
  let dir := checkpoint_name db now in
  ∃ sk zf sg, key = Ok sk ∧ stat_of s' (dir ++ ".zip") = Some zf ∧ stat_of s' (dir ++ ".sig") = Some sg ∧
    file_data zf = zip_bytes (add_dir_to_zip tree "") ∧ st_mode zf = 0x180 ∧ file_data sg = sign sk (file_data zf) ∧
    files s' !! (dir ++ ".zip.tmp")%string = None ∧ files s' !! (dir ++ ".sig.tmp")%string = None ∧
    dirs s' = dirs s ∧ (length (backups s') ≤ 3)%nat ∧ maintenance_locked s' = false.
Proof.
  intros H Hold dir. unfold secure_backup_db, lock_maintenance in H. apply M_bind_Ok in H as (u & s1 & H1 & H).
  apply M_bind_Ok in H1 as (held & s2 & [= <- <-] & H1). destruct (maintenance_locked s) eqn:El; [done|]. injection H1 as _ <-.
  unfold unlock_after in H. match type of H with (let '(r, s) := ?m ?s0 in _) = _ => destruct (m s0) as [r s1] eqn:Hm end.
  injection H as -> <-. apply M_bind_Ok in Hm as (u1 & s2 & H2 & Hm). cbv [lift] in H2. injection H2 as _ <-.
  apply M_bind_Ok in Hm as (now' & s2 & H2 & Hm). cbv [lift] in H2. injection H2 as <- <-.
  apply M_bind_Ok in Hm as (u2 & s2 & H2 & Hm). apply io_Ok in H2 as (E2 & D2 & U2 & C2).
  apply M_bind_Ok in Hm as (s3 & s4 & [= <- <-] & Hm). apply M_bind_Ok in Hm as (u3 & s5 & H3 & Hm). cbv [lift] in H3.
  injection H3 as H3 <-. apply ensure_Ok, bool_decide_eq_true_1 in H3. fold dir in H3, Hm.
  apply M_bind_Ok in Hm as (u4 & s6 & H4 & Hm). apply io_Ok in H4 as (E4 & D4 & U4 & C4).
  apply M_bind_Ok in Hm as (u5 & s7 & [= <- <-] & Hm). unfold with_cleanup in Hm.
  match type of Hm with (let '(r, s) := ?m ?s0 in _) = _ => destruct (m s0) as [r s8] eqn:Hb end.
  injection Hm as -> <-. apply backup_body_Ok in Hb as (sk & s9 & st & zf & -> & Hr & D9 & C9 & Hzf & Hmode & Hst & F9).
  cbn [files set_dirs dirs fs_clock] in F9, D9, C9. rewrite E4, E2 in F9. change (files (set_locked true s)) with (files s) in F9.
  assert (Hclock : fs_clock s6 = fs_clock s) by (rewrite C4, C2; done). rewrite Hclock in F9.
  cbn [set_locked maintenance_locked]. exists sk, zf, st.
  destruct (rotated_backup dir s9 _ zf st s s8 eq_refl (zip_is_backup db now) F9 Hold Hr) as (R1 & R2 & R3 & R4 & R5 & R6).
  split_and!; try done. cbn [set_locked set_dirs dirs]. rewrite R6, D9, delete_insert_id by done. exact D2.
Qed.

(** The operations on files leave the checkpoints. *)
Ltac dirs_step :=
  match goal with
  | |- Preserves _ (_ ≫= _) => apply preserves_bind; [|intros ?]
  | |- Preserves _ (match ?x with _ => _ end) => destruct x
  | |- Preserves _ (modify _) => by intros ? ?
  | |- Preserves _ next_fault => by intros ? ?
  | |- Preserves _ (λ s, (Ok tt, (remove_file _ s).2)) => intros ? ?; cbn [snd]
  | |- Preserves _ _ => apply _
  end.

#[local] Instance io_dirs D : Preserves (λ s, dirs s = D) io.
Proof. unfold io. repeat dirs_step. Qed.

#[local] Instance remove_file_dirs D path : Preserves (λ s, dirs s = D) (remove_file path).
Proof. intros s <-. by destruct (remove_file_any path s) as (b & _ & E). Qed.

#[local] Instance remove_backup_dirs D name : Preserves (λ s, dirs s = D) (remove_backup name).
Proof. unfold remove_backup. repeat dirs_step. by apply remove_file_dirs. Qed.

#[local] Instance backup_body_dirs D dir tree key : Preserves (λ s, dirs s = D) (backup_body sign zip_bytes dir tree key).
Proof.
  unfold backup_body, create_new, write_all, fs_read, fs_write, rename, rotate_backups, put_file, io. repeat dirs_step.
Qed.

(** The checkpoint of a backup does not outlive it: whether the backup
    succeeds or fails, at whatever step, no checkpoint directory is left that
    was not there before. *)
Theorem backup_cleans_up db tree conn now key s :
  dirs (secure_backup_db sign zip_bytes db tree conn now key true s).2 = dirs s.
Proof.
  unfold secure_backup_db, lock_maintenance, mbind at 1, M_bind at 1. unfold mbind at 1, M_bind at 1, gets at 1.
  destruct (maintenance_locked s); [done|]. unfold modify at 1, unlock_after.
  match goal with |- dirs (let '(r, s) := ?m ?s0 in _).2 = _ => assert (dirs (m s0).2 = dirs s) as H; [|by destruct (m s0)] end.
  change (dirs s) with (dirs (set_locked true s)). generalize (set_locked true s). clear s. intros s.
  unfold mbind at 1, M_bind at 1, lift at 1. destruct conn; try done. unfold mbind at 1, M_bind at 1, lift at 1. destruct now as [now| | |]; try done.
  unfold mbind at 1, M_bind at 1. destruct (io s) as [[[]| | |] s1] eqn:E1.
  2-4: pose proof (preserves (P:=λ x, dirs x = dirs s) (m:=io) s eq_refl) as H; by rewrite E1 in H.
  apply io_Ok in E1 as (_ & D1 & _). rewrite <- D1. unfold mbind at 1, M_bind at 1, get at 1. unfold mbind at 1, M_bind at 1, lift at 1.
  case_bool_decide as Hd; [|done]. cbn [ensure]. unfold mbind at 1, M_bind at 1. destruct (io s1) as [[[]| | |] s2] eqn:E2.
  2-4: pose proof (preserves (P:=λ x, dirs x = dirs s1) (m:=io) s1 eq_refl) as H; by rewrite E2 in H.
  apply io_Ok in E2 as (_ & D2 & _). unfold mbind, M_bind, modify, with_cleanup.
  set (s3 := set_dirs (<[checkpoint_name db now := tree]> (dirs s1)) s2).
  pose proof (backup_body_dirs (dirs s3) (checkpoint_name db now) tree key s3 eq_refl) as H.
  destruct (backup_body _ _ _ _ _ s3) as [r s4]. cbn [snd] in H |- *. cbn [dirs set_dirs]. rewrite H. by apply delete_insert_id.
Qed.

(** The task of the node holds the lock that the backup asks for: its first
    round never ends. *)
Theorem node_backup_deadlocks db tree conn now key ok s :
  maintenance_locked s = false → (backup_round sign zip_bytes db tree conn now key ok s).1 = Hang.
Proof.
  intros H. unfold backup_round, lock_maintenance, unlock_after, secure_backup_db, lock_maintenance.
  unfold mbind, M_bind, gets, modify, lift. by rewrite H.
Qed.

End WholeBackup.

(** ** Witnesses *)

Definition sample_sign (k m : bytes) : bytes := k ++ m.

Definition sample_zip (l : list (string * bytes)) : bytes := concat ((λ e, bstr e.1 ++ e.2) <$> l).

Definition sample_tree : list node := [NDir "sst" [NFile "1" [1; 2]]; NFile "CURRENT" [3]].

Definition sample_stat : FileStat := mkFileStat 1000 0x180 1 [9].

(** Three backups and the signature of the oldest. *)
Definition sample_fs : FS :=
  mkFS (list_to_map [("d_checkpoint_1.zip", (sample_stat, 1)); ("d_checkpoint_1.sig", (sample_stat, 1));
      ("d_checkpoint_2.zip", (sample_stat, 2)); ("d_checkpoint_3.zip", (sample_stat, 3)); ("key", (sample_stat, 0))])%string
    ∅ 1000 10 false [].

Definition sample_backup : outcome unit * FS :=
  secure_backup_db sample_sign sample_zip "d" sample_tree (Ok tt) (Ok 42) (Ok [7]) true sample_fs.

Lemma sample_backup_Ok : sample_backup = (Ok tt, sample_backup.2).
Proof. apply run_eta. by vm_compute. Qed.

Lemma sample_backups : backups sample_fs = [("d_checkpoint_3.zip", 3); ("d_checkpoint_2.zip", 2); ("d_checkpoint_1.zip", 1)]%string.
Proof. by vm_compute. Qed.

Lemma sample_backups_old k t : (k, t) ∈ backups sample_fs → t < fs_clock sample_fs.
Proof.
  rewrite sample_backups. intros H. change (fs_clock sample_fs) with 10.
  repeat (apply elem_of_cons in H as [[= _ ->]|H]; [lia|]). by apply not_elem_of_nil in H.
Qed.

Lemma backup_complete_witness :
  file_data <$> stat_of sample_backup.2 "d_checkpoint_42.zip" = Some (sample_zip [("sst/1", [1; 2]); ("CURRENT", [3])]%string) ∧
  (length (backups sample_backup.2) ≤ 3)%nat.
Proof.
  destruct (backup_complete sample_sign sample_zip "d" sample_tree (Ok tt) 42 (Ok [7]) sample_fs sample_backup.2
    sample_backup_Ok sample_backups_old) as (sk & zf & sg & _ & H1 & _ & H2 & _ & _ & _ & _ & _ & H3 & _).
  split; [|exact H3]. change "d_checkpoint_42.zip"%string with (checkpoint_name "d" 42 ++ ".zip")%string. rewrite H1. exact (f_equal Some H2).
Defined.

Lemma rotate_keeps_newest_witness :
  length (backups (rotate_backups 2 sample_fs).2) = 2%nat.
Proof.
  assert (rotate_backups 2 sample_fs = (Ok tt, (rotate_backups 2 sample_fs).2)) as E by (apply run_eta; by vm_compute).
  destruct (rotate_keeps_newest 2 sample_fs _ E) as (H & _). rewrite H, sample_backups. done.
Defined.

(** A save whose write stops after one byte, and one that succeeds. *)
Lemma secret_file_atomic_witness :
  files (secure_save_secret "key" [1; 2] (set_faults [None; Some 1%nat] sample_fs)).2 !! "key"%string = Some (sample_stat, 0) ∧
  secure_load_file 1000 (stat_of (secure_save_secret "key" [1; 2] sample_fs).2 "key") = Ok [1; 2].
Proof.
  split.
  - destruct (secret_file_atomic "key" [1; 2] (set_faults [None; Some 1%nat] sample_fs) _ _ (surjective_pairing _)) as [[H|(st & H & _ & _ & Hd)] _].
    + rewrite H. by vm_compute.
    + exfalso. vm_compute in H. injection H as <-. discriminate.
  - assert (secure_save_secret "key" [1; 2] sample_fs = (Ok tt, (secure_save_secret "key" [1; 2] sample_fs).2)) as E by (apply run_eta; by vm_compute).
    destruct (secret_file_atomic "key" [1; 2] sample_fs _ _ E) as [_ H]. apply H; [done|by vm_compute].
Defined.

Lemma stale_tmp_blocks_witness :
  ∃ e, (secure_save_secret "key" [1; 2] (secure_save_secret "key" [1; 2] (set_faults [None; Some 1%nat] sample_fs)).2).1 = Err e.
Proof.
  destruct (stale_tmp_blocks "key" [1; 2] (secure_save_secret "key" [1; 2] (set_faults [None; Some 1%nat] sample_fs)).2) as (e & H & _);
    [by vm_compute|by exists e].
Defined.

Lemma node_backup_deadlocks_witness :
  (backup_round sample_sign sample_zip "d" sample_tree (Ok tt) (Ok 42) (Ok [7]) true sample_fs).1 = Hang.
Proof. by apply node_backup_deadlocks. Defined.
