(* ===== verification/Config.v ===== *)
(** * Config: the configuration of a node

    [AppConfig::load] of src/111/src/config.rs, from what the [config] crate
    read: decoding of the coinbase key and of the checkpoints, the secret of the
    RPC, and the validations.  base64, hex and the random generator are
    parameters; of the fields that nothing here reads only the strings and
    numbers are kept. *)
From S2P Require Import Prelude Errors Types Externals Instances Utils.

Class Text := {
  base64_decode : string → option bytes;
  base64_encode : bytes → string;
  (** [hex::decode_to_slice(s, &mut [0u8; 32])] *)
  hex_decode_32 : string → option bytes;
}.

Class TextOk `{!Text} := {
  base64_decode_encode : ∀ b, Forall byte b → base64_decode (base64_encode b) = Some b;
  hex_decode_32_array : ∀ s b, hex_decode_32 s = Some b → wf_array 32 b;
  base64_encode_nonempty : ∀ b, b ≠ [] → base64_encode b ≠ ""%string;
}.

Record AppConfig := mkAppConfig {
  mainnet : bool;
  coinbase_sk : string;
  db_path : string;
  p2p_port : Z;
  rpc_port : Z;
  max_peers : Z;
  max_mempool_size : Z;
  seed_nodes : list string;
  tls_cert : string;
  tls_key : string;
  ca_cert : string;
  reorg_max_depth : Z;
  backup_signing_key : string;
  signing_key_path : string;
  tx_expiration_ms : Z;
  log_level : string;
  max_threads : Z;
  num_randomx_threads : Z;
  enable_huge_pages : bool;
  rpc_jwt_secret : string;
  coinbase_sk_bytes : bytes;
  checkpoint_hashes : gmap Z bytes;
  checkpoints : gmap Z string;
}.

(** The fields that loading computes. *)
Definition with_loaded (key : bytes) (hashes : gmap Z bytes) (secret : string) (threads : Z) (c : AppConfig) : AppConfig :=
  mkAppConfig (mainnet c) (coinbase_sk c) (db_path c) (p2p_port c) (rpc_port c) (max_peers c) (max_mempool_size c)
    (seed_nodes c) (tls_cert c) (tls_key c) (ca_cert c) (reorg_max_depth c) (backup_signing_key c)
    (signing_key_path c) (tx_expiration_ms c) (log_level c) (max_threads c) threads (enable_huge_pages c) secret
    key hashes (checkpoints c).

Section Config.
  Context {TX : Text} {HO : HashOrder}.

(** The loop over the checkpoints. *)
Definition add_checkpoint (m : gmap Z bytes) (e : Z * string) : outcome (gmap Z bytes) :=
  b ← ok_or (hex_decode_32 e.2) (Anyhow "Invalid checkpoint hash");
  Ok (<[e.1 := b]> m).

(** A secret that is given is kept; [rng] are the 64 bytes drawn otherwise,
    [None] its failure. *)
Definition jwt_secret (given : string) (rng : option bytes) : outcome string :=
  if bool_decide (given = ""%string) then b ← unwrap rng; Ok (base64_encode b) else Ok given.

(** [raw] is the answer of the crate, [physical] the number of cores and
    [huge_pages] that of [init_huge_pages]. *)
Definition load (raw : outcome AppConfig) (rng : option bytes) (physical : Z) (huge_pages : outcome unit) : outcome AppConfig :=
  c ← raw;
  decoded ← ok_or (base64_decode (coinbase_sk c)) (Anyhow "Invalid base64 coinbase_sk");
  ensure (length decoded =? 32)%nat (Anyhow "coinbase_sk must be 32 bytes");;
  hashes ← for_each add_checkpoint ∅ (hash_iter (checkpoints c));
  secret ← jwt_secret (rpc_jwt_secret c) rng;
  ensure (negb ((p2p_port c =? 0) || (rpc_port c =? 0))) (Anyhow "Ports must be > 0");;
  ensure (negb (bool_decide (secret = ""%string))) (Anyhow "RPC JWT secret required");;
  let threads := if num_randomx_threads c =? 0 then Z.min physical 64 else num_randomx_threads c in
  ensure (negb (bool_decide (seed_nodes c = []))) (Anyhow "At least one seed node required");;
  (if enable_huge_pages c then huge_pages else Ok tt);;
  Ok (with_loaded decoded hashes secret threads c).

End Config.

(** ** Properties *)

Section Loaded.
  Context {TX : Text} {TXO : TextOk} {HO : HashOrder} {HOO : HashOrderOk}.

Lemma checkpoints_Ok l m m' :
  NoDup l.*1 → (∀ h, h ∈ l.*1 → m !! h = None) → for_each add_checkpoint m l = Ok m' →
  ∀ h, m' !! h = match (list_to_map l : gmap Z string) !! h with Some s => hex_decode_32 s | None => m !! h end.
Proof.
  revert m. induction l as [|[h s] l IH]; intros m Hnd Hm; cbn [for_each]; [by intros [= <-]|].
  apply NoDup_cons in Hnd as [Hh Hnd]. intros (m1 & H1 & H)%bind_Ok h'. unfold add_checkpoint in H1. cbn [fst snd] in H1.
  apply bind_Ok in H1 as (b & Hb%ok_or_Ok & [= <-]).
  rewrite (IH (<[h := b]> m) Hnd) by (done || (intros k Hk; rewrite lookup_insert_ne by (intros ->; done); apply Hm; by right)).
  cbn [list_to_map foldr fst snd uncurry]. destruct (decide (h = h')) as [<-|Hne].
  - rewrite lookup_insert_eq, not_elem_of_list_to_map_1 by done. by rewrite lookup_insert_eq.
  - by rewrite !lookup_insert_ne by done.
Qed.

Lemma checkpoints_total l : ∀ m, Forall (λ e, hex_decode_32 e.2 ≠ None) l → ∃ m', for_each add_checkpoint m l = Ok m'.
Proof.
  induction l as [|[h s] l IH]; intros m Hl; cbn [for_each]; [by exists m|]. apply Forall_cons in Hl as [Hs Hl].
  unfold add_checkpoint at 2. cbn [fst snd] in *. destruct (hex_decode_32 s) as [b|]; [|done]. cbn [ok_or mbind outcome_bind].
  by apply IH.
Qed.

(** What a loaded configuration guarantees: the coinbase key is the 32
    bytes its text encodes, every checkpoint is the 32-byte hash its text
    encodes and there are no others, both ports are set, the RPC has a secret,
    there is a seed node and, on a machine with cores, a RandomX thread; every
    other field is as it was read. *)
Theorem load_sound raw rng physical huge c :
  load raw rng physical huge = Ok c →
  ∃ c0, raw = Ok c0 ∧ base64_decode (coinbase_sk c) = Some (coinbase_sk_bytes c) ∧ length (coinbase_sk_bytes c) = 32%nat ∧
    (∀ h, checkpoint_hashes c !! h = checkpoints c !! h ≫= hex_decode_32) ∧
    (∀ h b, checkpoint_hashes c !! h = Some b → wf_array 32 b) ∧ dom (checkpoint_hashes c) = dom (checkpoints c) ∧
    p2p_port c ≠ 0 ∧ rpc_port c ≠ 0 ∧ rpc_jwt_secret c ≠ ""%string ∧ seed_nodes c ≠ [] ∧
    (0 < physical → num_randomx_threads c ≠ 0) ∧
    c = with_loaded (coinbase_sk_bytes c) (checkpoint_hashes c) (rpc_jwt_secret c) (num_randomx_threads c) c0.
Proof.
  unfold load. intros (c0 & -> & H)%bind_Ok. apply bind_Ok in H as (key & Hk%ok_or_Ok & H).
  apply bind_Ok in H as ([] & Hl%ensure_Ok & H). apply Nat.eqb_eq in Hl. apply bind_Ok in H as (hs & Hh & H).
  apply bind_Ok in H as (secret & _ & H). apply bind_Ok in H as ([] & Hp%ensure_Ok & H).
  apply bind_Ok in H as ([] & Hs%ensure_Ok & H). apply bind_Ok in H as ([] & Hn%ensure_Ok & H).
  apply bind_Ok in H as ([] & _ & [= <-]). cbn. apply negb_true_iff, orb_false_iff in Hp as [Hp1 Hp2].
  apply negb_true_iff, bool_decide_eq_false_1 in Hs, Hn.
  assert (Hhs : ∀ h, hs !! h = checkpoints c0 !! h ≫= hex_decode_32).
  { intros h. rewrite (checkpoints_Ok _ _ _ (NoDup_hash_iter _) (λ _ _, lookup_empty _) Hh h).
    rewrite (list_to_map_proper _ (map_to_list (checkpoints c0)) (NoDup_hash_iter _) (hash_iter_perm _)), list_to_map_to_list.
    by destruct (checkpoints c0 !! h). }
  exists c0. split_and!; try done; try lia.
  - intros h b. rewrite Hhs. destruct (checkpoints c0 !! h) as [s|]; [|done]. cbn. apply hex_decode_32_array.
  - apply set_eq. intros h. rewrite !elem_of_dom, Hhs. destruct (checkpoints c0 !! h) as [s|] eqn:E; cbn; [|done].
    split; [by eexists|]. intros _. assert ((h, s) ∈ hash_iter (checkpoints c0)) as Hin by by apply elem_of_hash_iter.
    destruct (for_each_elem _ _ _ _ _ Hh Hin) as (m1 & m2 & H1). unfold add_checkpoint in H1. cbn in H1.
    destruct (hex_decode_32 s); [by eexists|done].
  - intros Hph. destruct (Z.eqb_spec (num_randomx_threads c0) 0); lia.
Qed.

(** The check for an empty secret never fires: an empty one was replaced by
    the encoding of 64 random bytes before. *)
Theorem secret_always_set given rng s :
  (∀ b, rng = Some b → length b = 64%nat) → jwt_secret given rng = Ok s → s ≠ ""%string ∧ (given ≠ ""%string → s = given).
Proof.
  unfold jwt_secret. intros Hr. case_bool_decide as E.
  - intros (b & Hb%unwrap_Ok & [= <-])%bind_Ok. split; [|done]. apply base64_encode_nonempty. intros ->. by specialize (Hr _ Hb).
  - intros [= <-]. done.
Qed.

End Loaded.

(** ** Witnesses *)

(** Texts that are their bytes. *)
#[local] Instance sample_text : Text := {|
  base64_decode s := Some (bstr s);
  base64_encode := bytes_string;
  hex_decode_32 s := if (length (bstr s) =? 32)%nat then Some (bstr s) else None;
|}.

#[local] Instance sample_text_ok : TextOk.
Proof.
  split.
  - intros b Hb. exact (f_equal Some (string_bytes_string b Hb)).
  - intros s b H. cbn in H. destruct (Nat.eqb_spec (length (bstr s)) 32); [|done]. injection H as <-. split; [apply bstr_byte|done].
  - intros [|x b] Hb; done.
Qed.

Definition sample_text_32 : string := "0123456789abcdef0123456789abcdef".

Definition sample_raw : AppConfig :=
  mkAppConfig false sample_text_32 "db" 1987 1988 50 1000000 ["seed"%string] "" "" "" 2016 "" "" 3600000 "info" 4 0 false ""
    [] ∅ {[10 := sample_text_32]}.

Definition sample_config : AppConfig :=
  match load (Ok sample_raw) (Some (replicate 64 1)) 8 (Ok tt) with Ok c => c | _ => sample_raw end.

Lemma load_sound_witness :
  num_randomx_threads sample_config ≠ 0 ∧ checkpoint_hashes sample_config !! 10 = hex_decode_32 sample_text_32.
Proof.
  destruct (load_sound (Ok sample_raw) (Some (replicate 64 1)) 8 (Ok tt) sample_config)
    as (c0 & _ & _ & _ & H1 & _ & _ & _ & _ & _ & _ & H2 & _); [by vm_compute|].
  split; [by apply H2|]. rewrite (H1 10). by vm_compute.
Defined.

Lemma secret_always_set_witness : bytes_string (replicate 64 1) ≠ ""%string.
Proof.
  apply (secret_always_set "" (Some (replicate 64 1))); [by intros b [= <-]|done].
Defined.
