(* ===== verification/Node.v ===== *)
(** * Node: from the command line to a running chain

    The commands of src/111/src/main.rs that create, open and close a chain:
    [InitDb], the start and the end of [RunNode], [load_chain_readonly] (the
    wallet, the explorer and [Status]).  The tasks a node runs have their own
    files (Miner.v, Net.v, Rpc.v, Files.v for the backups, [clean_expired] of
    Mempool.v); logging, signals and the time given to a task to end are left
    out. *)
From S2P Require Import Prelude Errors Types Externals Instances Utils Keys Tx Ledger Store Chain Supply Startup.

Section Node.
  Context {CR : Crypto} {CD : Codec} {RK : Rocks} {RT : RetryPolicy} {HO : HashOrder} {MP : MempoolOps}
    {SR : SupplyReader} {FB : FreeBlockOps}.

(** [InitDb]: [fuel] bounds the search of the genesis block. *)
Definition init_db (fuel : nat) (message : bytes) (pk : PublicKey) : M DB unit :=
  d ← get;
  lift (pool_get d);;
  genesis ← lift (unwrap_result (create_genesis_block fuel message pk));
  hash ← lift (header_hash (header genesis));
  db_put (bstr "genesis_hash") hash.

(** [load_from_db(..).unwrap_or_else(|_| Chain::new(..).unwrap())] *)
Definition start_chain (genesis : Block) (cps : gmap Z bytes) (m : mempool) : M DB Chain := λ d,
  match load_from_db cps m d with
  | (Err _, d) => let '(r, d) := Chain_new genesis cps m d in (unwrap_result r, d)
  | r => r
  end.

(** [RunNode] up to its chain. *)
Definition run_node_chain (fuel : nat) (message : bytes) (pk : PublicKey) (cps : gmap Z bytes) (m : mempool) : M DB Chain :=
  genesis ← lift (create_genesis_block fuel message pk);
  start_chain genesis cps m.

(** What [RunNode] does with the chain when it ends. *)
Definition shutdown_save : M Chain unit :=
  c ← get;
  match blocks (state c) !! best_height c with
  | Some best_block => on_db (save_block (best_height c) best_block)
  | None => mret tt
  end.

(** [load_chain_readonly]: [dummy] is [Mempool::new(1)]. *)
Definition load_chain_readonly (cps : gmap Z bytes) (dummy : mempool) : M DB Chain :=
  d ← get;
  lift (pool_get d);;
  load_from_db cps dummy.

(** What [Status] prints. *)
Definition status (cps : gmap Z bytes) (dummy : mempool) : M DB (Z * bytes * bool) :=
  chain ← load_chain_readonly cps dummy;
  mret (best_height chain, best_tip chain, 10 <? best_height chain).

End Node.

(** ** Properties *)

Section NodeFacts.
  Context {CR : Crypto} {CRO : CryptoOk} {CD : Codec} {CDO : CodecOk} {RK : Rocks} {RKO : RocksOk} {RT : RetryPolicy}
    {HO : HashOrder} {HOO : HashOrderOk} {MP : MempoolOps} {SR : SupplyReader} {FB : FreeBlockOps}.

(** What a node starts with: the chain of its database, whose ledger then
    lacks one of its two summaries, or a new chain at the height 0 whose tip is
    the genesis block; a node that cannot do either panics. *)
Theorem start_chain_spec genesis cps m d r d' :
  start_chain genesis cps m d = (r, d') →
  match r with
  | Ok c =>
      (load_from_db cps m d = (Ok c, d') ∧
       (0 <= best_height c < 64 * HALVING_INTERVAL - 1 →
        contents d' !! (default_cf, DB_KEY_TOTAL_SUPPLY) = None ∨ contents d' !! (default_cf, DB_KEY_UTXO_SET_HASH) = None)) ∨
      ((∃ e d1, load_from_db cps m d = (Err e, d1)) ∧ best_height c = 0 ∧ header_hash (header genesis) = Ok (best_tip c) ∧
       genesis_hash c = best_tip c)
  | Err _ => False
  | _ => True
  end.
Proof.
  unfold start_chain. destruct (load_from_db cps m d) as [[c|e| |] d1] eqn:El.
  - intros [= <- <-]. left. split; [done|]. intros Hb. by eapply load_needs_missing_summary.
  - destruct (Chain_new genesis cps m d1) as [[c|e2| |] d2] eqn:En; intros [= <- <-]; try done.
    apply new_chain_state in En as (hash & target & Hh & _ & _ & Hg & Ht & Hb & _). right.
    split; [by exists e, d1|]. rewrite Hg, Ht. by split_and!.
  - by intros [= <- <-].
  - by intros [= <- <-].
Qed.

(** What the end of a node writes, its next reader finds: after a
    successful save the tip and the height of the chain are those in the
    database, and the block at that height is the best one. *)
Theorem shutdown_saves_tip c c' b :
  shutdown_save c = (Ok tt, c') → blocks (state c) !! best_height c = Some b → wf_block b → readable (db c') →
  load_current_height (db c') = Ok (wrap 32 (best_height c)) ∧
  (∃ hash, header_hash (header b) = Ok hash ∧ load_current_tip (db c') = Ok hash) ∧
  load_block_from_db (db c') (best_height c) = Ok b ∧ state c' = state c.
Proof.
  intros H Hb Hw Hr. unfold shutdown_save in H. apply M_bind_Ok in H as (c1 & c2 & [= <- <-] & H). rewrite Hb in H.
  unfold on_db in H. destruct (save_block (best_height c) b (db c)) as [r d] eqn:Es. injection H as -> <-.
  cbn [db set_db] in *. destruct (save_block_read_back _ _ _ _ Hw Es Hr) as (H1 & _ & H2 & H3). by split_and!.
Qed.

(** A node on the pool of db.rs never starts: whatever its database holds, if
    loading fails, creating a chain fails too, and the node panics. *)
Theorem node_panics_on_pool genesis cps m d e d1 hash target :
  load_from_db cps m d = (Err e, d1) → pool_get d1 = Ok tt →
  (∀ f, cf_handle d1 f = bool_decide (f ∈ default_cf :: RocksManager_cfs)) →
  header_hash (header genesis) = Ok hash → compact_to_target (bits (header genesis)) = Ok target →
  start_chain genesis cps m d = (Panic, d1).
Proof.
  intros Hl Hp Hf Hh Ht. unfold start_chain. rewrite Hl. by erewrite Chain_new_on_pool.
Qed.

End NodeFacts.

(** ** Witnesses *)

#[local] Existing Instance sample_mempool_ops | 0.

Definition n_start : outcome (Chain (RK:=mem_rocks)) * MemDB := start_chain (RK:=mem_rocks) genesis_sample ∅ [] empty_db.

Lemma start_chain_spec_witness : ∃ c, n_start.1 = Ok c ∧ best_height c = 0.
Proof.
  pose proof (start_chain_spec (RK:=mem_rocks) genesis_sample ∅ [] empty_db n_start.1 n_start.2 (surjective_pairing _)) as H.
  assert ((match n_start.1 with Ok c => bool_decide (best_height c = 0) | _ => false end) = true) as E by by vm_compute.
  destruct (n_start.1) as [c| | |]; [|done..]. exists c. split; [done|].
  destruct H as [[_ _]|(_ & H & _)]; [by apply bool_decide_eq_true_1 in E|exact H].
Defined.

Definition pool_db : MemDB := mkMemDB (default_cf :: RocksManager_cfs) ∅ [].

Lemma pool_db_load : load_from_db (RK:=mem_rocks) ∅ [] pool_db = (Err (Anyhow "Missing tip"), pool_db).
Proof. reflexivity. Qed.

Lemma node_panics_on_pool_witness : start_chain (RK:=mem_rocks) genesis_sample ∅ [] pool_db = (Panic, pool_db).
Proof.
  assert (∃ hash, header_hash (header genesis_sample) = Ok hash) as [hash Hh] by (eexists; by vm_compute).
  assert (∃ target, compact_to_target (bits (header genesis_sample)) = Ok target) as [target Ht] by (eexists; by vm_compute).
  exact (node_panics_on_pool (RK:=mem_rocks) genesis_sample ∅ [] pool_db _ pool_db hash target pool_db_load eq_refl
    (λ f, eq_refl) Hh Ht).
Defined.

(** The chain a node started with, saved. *)
Definition n_chain : Chain (RK:=mem_rocks) := match n_start.1 with Ok c => c | _ => sample_chain empty_db end.

Lemma shutdown_saves_tip_witness :
  load_current_height (RK:=mem_rocks) (db (shutdown_save n_chain).2) = Ok 0.
Proof.
  assert (shutdown_save n_chain = (Ok tt, (shutdown_save n_chain).2)) as E by (apply run_eta; by vm_compute).
  assert (best_height n_chain = 0) as Eh by by vm_compute.
  assert (blocks (state n_chain) !! best_height n_chain = Some genesis_sample) as Eb by (rewrite Eh; by vm_compute).
  assert (wf_block genesis_sample) as Hw by (apply (bool_decide_unpack _); by vm_compute).
  destruct (shutdown_saves_tip (RK:=mem_rocks) n_chain _ genesis_sample E Eb Hw (mem_readable _)) as [H _].
  rewrite H, Eh. reflexivity.
Defined.
