(* ===== verification/Cli.v ===== *)
(** * Cli: the wallet commands

    The arm [Commands::Wallet] of [main] in src/111/src/main.rs: every
    subcommand on a machine with its files (Files.v) and its database, over the
    chain of Startup.v and the wallet of Wallet.v.

    - BIP 39, the text of keys, [bitcoin]'s script builder and the keys of
      monero_serai are parameters; what is random and the answer of the running
      node come with the input of a command.
    - A command answers what it prints; amounts are printed unscaled. *)
From stdpp Require Import pretty.
From S2P Require Import Prelude Errors Types Externals Instances Utils Keys Tx Ledger Store Chain Supply Startup AddrIndex Rpc Wallet Node Files.

Class CliEnv {CR : Crypto} {KC : Keychain} := {
  (** [Mnemonic::parse_in(English, phrase)], its text and its seed *)
  Mnemonic : Type;
  parse_in : string → option Mnemonic;
  mnemonic_string : Mnemonic → string;
  Seed_new : Mnemonic → string → bytes;
  (** [ExtendedPrivKey::new_master(network, seed)?], on the main network or not *)
  new_master : bool → bytes → option ExtendedPrivKey;
  (** [bitcoin::PrivateKey::new(key, network).to_wif()] *)
  to_wif : bool → SecretKey → string;
  (** [String::from_utf8] *)
  from_utf8 : bytes → option string;
  hex_encode : bytes → string;
  PublicKey_from_str : string → option PublicKey;
  push_int : Z → bytes;
  push_slice : bytes → bytes;
  AnonPrivateKey : Type;
  AnonPrivateKey_to_bytes : AnonPrivateKey → bytes;
  AnonPrivateKey_from_bytes : bytes → option AnonPrivateKey;
  public_key : AnonPrivateKey → AnonPublicKey;
}.

Class CliEnvOk {CR : Crypto} {KC : Keychain} `{!CliEnv} := {
  parse_mnemonic_string : ∀ m, parse_in (mnemonic_string m) = Some m;
  from_utf8_bstr : ∀ s, from_utf8 (bstr s) = Some s;
  AnonPrivateKey_from_to : ∀ k, AnonPrivateKey_from_bytes (AnonPrivateKey_to_bytes k) = Some k;
  length_AnonPrivateKey : ∀ k, length (AnonPrivateKey_to_bytes k) = 32%nat;
  (** a key is read compressed or not, and written compressed *)
  PublicKey_from_slice_length : ∀ b pk, PublicKey_from_slice b = Some pk → length b = 33%nat ∨ length b = 65%nat;
  PublicKey_from_str_length : ∀ s pk, PublicKey_from_str s = Some pk → length (PublicKey_serialize pk) = 33%nat;
  (** an opcode, then the data *)
  push_int_length : ∀ n, (1 ≤ length (push_int n))%nat;
  push_slice_length : ∀ b, (length b < length (push_slice b))%nat;
}.

Inductive WalletSubcommand :=
  | New (show_mnemonic : bool)
  | RestoreFrom (phrase : string) (passphrase : option string)
  | Balance (address : option string)
  | Utxos (address : option string) (spendable_only : bool)
  | History (address : option string) (limit : Z)
  | DumpPrivkey (address : string) (confirm_danger : bool)
  | AnonNew
  | GetAnonAddress
  | GetAnonBalance
  | Send (to : string) (amount : Z) (fee_rate : option Z) (change_address : option string) (anonymous : bool) (ring_size : Z)
  | CreateMultisig (pubkeys : list string) (required : Z).

Inductive printed :=
  | WalletCreated (address : string) (phrase : option string)
  | WalletRestored
  | AddressBalance (address : string) (balance : Z)
  | Balances (confirmed pending : Z)
  | UtxoList (l : list Utxo)
  | HistoryList (l : list TxHistoryEntry)
  | Privkey (wif : string)
  | AnonAddress (address : string)
  | AnonBalanceUnsupported
  | Broadcast (txid : bytes)
  | Multisig (required : Z) (n : nat) (address : string) (redeem_script : string).

(** The files and the database of the machine. *)
Record Machine {RK : Rocks} := mkMachine { m_fs : FS; m_db : DB }.

Definition on_fs {RK : Rocks} {A} (m : M FS A) : M Machine A := λ s,
  let '(r, f) := m (m_fs s) in (r, mkMachine RK f (m_db s)).

Definition on_disk {RK : Rocks} {A} (m : M DB A) : M Machine A := λ s,
  let '(r, d) := m (m_db s) in (r, mkMachine RK (m_fs s) d).

Definition WALLET_DAT : string := ".lyrion/wallet.dat".

Definition ANON_SPEND_DAT : string := ".lyrion/anon_spend.dat".

Definition OP_CHECKMULTISIG : Z := 0xae.

Section Cli.
  Context {CR : Crypto} {CD : Codec} {RK : Rocks} {RT : RetryPolicy} {HO : HashOrder} {MP : MempoolOps}
    {SR : SupplyReader} {FB : FreeBlockOps} {KC : Keychain} {CL : CliEnv}.

(** ** The wallet of a phrase *)

Definition from_mnemonic (mainnet : bool) (phrase : string) : outcome ExtendedPrivKey :=
  mn ← ok_or (parse_in phrase) (Anyhow "mnemonic");
  ok_or (new_master mainnet (Seed_new mn "")) (Anyhow "master").

(** [fs::create_dir_all(..)?; fs::write(&wallet_path(), phrase)?] *)
Definition store_wallet (phrase : string) : M FS unit :=
  io;;
  fs_write WALLET_DAT (bstr phrase).

(** [Wallet::from_mnemonic(&fs::read_to_string(wallet_path())?, &config)?] *)
Definition open_wallet (mainnet : bool) : M FS ExtendedPrivKey :=
  data ← fs_read WALLET_DAT;
  phrase ← lift (ok_or (from_utf8 data) io_error);
  lift (from_mnemonic mainnet phrase).

(** ** Anonymous keys *)

Definition anon_new (key : AnonPrivateKey) : M FS string :=
  secure_save_secret ANON_SPEND_DAT (AnonPrivateKey_to_bytes key);;
  mret (pubkey_to_anon_address (public_key key)).

Definition get_anon_address : M FS string :=
  io;;
  s ← get;
  bytes ← lift (secure_load_file (fs_uid s) (stat_of s ANON_SPEND_DAT));
  lift (ensure (length bytes =? 32)%nat (Anyhow "anon_spend.dat file corrupted"));;
  key ← lift (ok_or (AnonPrivateKey_from_bytes bytes) (Anyhow "AnonPrivateKey"));
  mret (pubkey_to_anon_address (public_key key)).

(** ** Shared addresses *)

(** The keys are pushed one after the other. *)
Definition multisig_script (pubs : list PublicKey) (required : Z) : bytes :=
  push_int (iwrap 64 required) ++ concat ((λ p, push_slice (PublicKey_serialize p)) <$> pubs) ++
  push_int (Z.of_nat (length pubs)) ++ [OP_CHECKMULTISIG].

Definition create_multisig (pubkeys : list string) (required : Z) : outcome (string * bytes) :=
  pubs ← for_each (λ l s, pk ← unwrap (PublicKey_from_str s); Ok (l ++ [pk])) [] pubkeys;
  let script := multisig_script pubs required in
  Ok (to_base58check (0 :: hash160 script), script).

(** ** The commands *)

(** [post] is the answer of the node: success, or the body. *)
Record CliInput := mkCliInput {
  fresh_mnemonic : outcome Mnemonic;
  fresh_anon : AnonPrivateKey;
  post : request → string → outcome (option string);
}.

Definition send_payment (mainnet : bool) (secret : string) (change_index : Z) (i : CliInput) (to : string) (amount : Z)
    (fee_rate : option Z) (change_address : option string) (anonymous : bool) : M Machine printed :=
  master ← on_fs (open_wallet mainnet);
  lift (ensure (negb anonymous) (Anyhow "Anonymous transactions are not yet supported"));;
  d ← gets m_db;
  '(t, txid) ← lift (create_tx d master change_index to amount (default MIN_FEE_PER_BYTE fee_rate) change_address);
  res ← lift (post i (wallet_request secret) (hex_encode (serialize t)));
  match res with
  | None => mret (Broadcast txid)
  | Some _ => lift (bail (Anyhow "Broadcast failure"))
  end.

(** What follows the opening of the chain. *)
Definition wallet_arm (mainnet : bool) (secret : string) (change_index : Z) (i : CliInput) (c : WalletSubcommand)
    : M Machine printed :=
  match c with
  | New show_mnemonic =>
      mnemonic ← lift (fresh_mnemonic i);
      master ← lift (from_mnemonic mainnet (mnemonic_string mnemonic));
      on_fs (store_wallet (mnemonic_string mnemonic));;
      address ← lift (get_receive_address master 0);
      mret (WalletCreated address (if show_mnemonic then Some (mnemonic_string mnemonic) else None))
  | RestoreFrom phrase _ =>
      mn ← lift (ok_or (parse_in phrase) (Anyhow "mnemonic"));
      lift (from_mnemonic mainnet (mnemonic_string mn));;
      on_fs (store_wallet (mnemonic_string mn));;
      mret WalletRestored
  | Balance (Some address) =>
      d ← gets m_db;
      balance ← lift (cli_balance d address);
      mret (AddressBalance address balance)
  | Balance None =>
      master ← on_fs (open_wallet mainnet);
      d ← gets m_db;
      b ← lift (get_balance d master);
      mret (Balances b.1 b.2)
  | Utxos _ spendable_only =>
      master ← on_fs (open_wallet mainnet);
      d ← gets m_db;
      l ← lift (get_utxos d master spendable_only);
      mret (UtxoList l)
  | History _ limit =>
      master ← on_fs (open_wallet mainnet);
      d ← gets m_db;
      l ← lift (get_history d master limit);
      mret (HistoryList l)
  | DumpPrivkey address confirm_danger =>
      lift (ensure confirm_danger (Anyhow "Option --confirm-danger required to export a private key"));;
      master ← on_fs (open_wallet mainnet);
      sk ← lift (get_privkey_for_address master address);
      mret (Privkey (to_wif mainnet sk))
  | AnonNew => address ← on_fs (anon_new (fresh_anon i)); mret (AnonAddress address)
  | GetAnonAddress => address ← on_fs get_anon_address; mret (AnonAddress address)
  | GetAnonBalance => mret AnonBalanceUnsupported
  | Send to amount fee_rate change_address anonymous _ =>
      send_payment mainnet secret change_index i to amount fee_rate change_address anonymous
  | CreateMultisig pubkeys required =>
      '(address, script) ← lift (create_multisig pubkeys required);
      mret (Multisig required (length pubkeys) address (hex_encode script))
  end.

Definition wallet_command (cps : gmap Z bytes) (dummy : mempool) (mainnet : bool) (secret : string)
    (change_index : Z) (i : CliInput) (c : WalletSubcommand) : M Machine printed :=
  on_disk (load_chain_readonly cps dummy);;
  d ← gets m_db;
  lift (pool_get d);;
  wallet_arm mainnet secret change_index i c.

End Cli.

(** ** Properties *)

Section CliFacts.
  Context {CR : Crypto} {CRO : CryptoOk} {CD : Codec} {RK : Rocks} {RKO : RocksOk} {RT : RetryPolicy} {HO : HashOrder}
    {MP : MempoolOps} {SR : SupplyReader} {FB : FreeBlockOps} {KC : Keychain} {CL : CliEnv} {CLO : CliEnvOk}.

(** *** The steps of a command *)

Lemma on_fs_Ok {A} (m : M FS A) s a s' :
  on_fs m s = (Ok a, s') → ∃ f, m (m_fs s) = (Ok a, f) ∧ s' = mkMachine RK f (m_db s).
Proof. unfold on_fs. destruct (m (m_fs s)) as [r f] eqn:E. intros [= -> <-]. by exists f. Qed.

Lemma on_disk_Ok {A} (m : M DB A) s a s' :
  on_disk m s = (Ok a, s') → ∃ d, m (m_db s) = (Ok a, d) ∧ s' = mkMachine RK (m_fs s) d.
Proof. unfold on_disk. destruct (m (m_db s)) as [r d] eqn:E. intros [= -> <-]. by exists d. Qed.

Lemma lift_Ok {S A} (o : outcome A) (s : S) a s' : lift o s = (Ok a, s') → o = Ok a ∧ s' = s.
Proof. cbv [lift]. by intros [= -> <-]. Qed.

Lemma lift_bind_Ok {S A B} (o : outcome A) (f : A → M S B) s b s' :
  (lift o ≫= f) s = (Ok b, s') → ∃ a, o = Ok a ∧ f a s = (Ok b, s').
Proof. intros (a & s1 & [H ->]%lift_Ok & Hf)%M_bind_Ok. by exists a. Qed.

(** A command that succeeds has loaded the chain first. *)
Lemma wallet_command_Ok cps dummy mainnet secret change_index i c s p s' :
  wallet_command cps dummy mainnet secret change_index i c s = (Ok p, s') →
  ∃ chain d, load_chain_readonly cps dummy (m_db s) = (Ok chain, d) ∧
    wallet_arm mainnet secret change_index i c (mkMachine RK (m_fs s) d) = (Ok p, s').
Proof.
  unfold wallet_command. intros (chain & s1 & (d & Hd & ->)%on_disk_Ok & H)%M_bind_Ok.
  apply M_bind_Ok in H as (? & ? & [= <- <-] & H). apply lift_bind_Ok in H as ([] & _ & H). by exists chain, d.
Qed.

(** *** The wallet file *)

Lemma store_wallet_Ok phrase s u s' :
  store_wallet phrase s = (Ok u, s') →
  ∃ st, files s' = <[WALLET_DAT := (st, fs_clock s)]> (files s) ∧ file_data st = bstr phrase ∧
    (files s !! WALLET_DAT = None → st_uid st = fs_uid s ∧ st_mode st = 0x1a4).
Proof.
  unfold store_wallet. intros ([] & s1 & H1 & H)%M_bind_Ok. apply io_Ok in H1 as (E1 & E2 & E3 & E4).
  unfold fs_write in H. apply M_bind_Ok in H as (f & s2 & [= <- <-] & H). apply M_bind_Ok in H as (s3 & s4 & [= <- <-] & H).
  apply M_bind_Ok in H as (u1 & s5 & H1 & [H ->]%lift_Ok). apply ensure_Ok, bool_decide_eq_true_1 in H.
  rewrite H in H1. cbv [put_file mbind M_bind get modify] in H1. injection H1 as _ <-. cbn. rewrite E1, E3, E4.
  eexists. split; [done|]. split; [done|]. by intros ->.
Qed.

(** With the phrase of a wallet in its file, the wallet opens: every run that is
    not cut short by a fault answers its key. *)
Lemma open_wallet_stored mainnet phrase st t s :
  files s !! WALLET_DAT = Some (st, t) → file_data st = bstr phrase → faults s = [] →
  open_wallet mainnet s = (from_mnemonic mainnet phrase, s).
Proof.
  intros Hf Hd Hs. unfold open_wallet, fs_read, io, next_fault. cbv [mbind M_bind lift get mret M_ret].
  rewrite Hs. cbn [head tail default ensure bool_decide]. rewrite bool_decide_eq_true_2 by done. cbn [ensure].
  change (files (set_faults [] s)) with (files s). rewrite Hf. cbn [ok_or fst]. rewrite Hd, from_utf8_bstr. cbn [ok_or].
  destruct s. cbn in Hs. by subst.
Qed.

Lemma wallet_new_Ok mainnet secret change_index i show s p s' :
  wallet_arm mainnet secret change_index i (New show) s = (Ok p, s') →
  ∃ m master a fs, fresh_mnemonic i = Ok m ∧ from_mnemonic mainnet (mnemonic_string m) = Ok master ∧
    store_wallet (mnemonic_string m) (m_fs s) = (Ok tt, fs) ∧ get_receive_address master 0 = Ok a ∧
    p = WalletCreated a (if show then Some (mnemonic_string m) else None) ∧ m_fs s' = fs.
Proof.
  cbn [wallet_arm]. intros (m & Hm & H)%lift_bind_Ok. apply lift_bind_Ok in H as (master & Hmaster & H).
  apply M_bind_Ok in H as ([] & s1 & (f & Hf & ->)%on_fs_Ok & H). apply lift_bind_Ok in H as (a & Ha & H).
  cbv [mret M_ret] in H. injection H as <- <-. exists m, master, a, f. by split_and!.
Qed.

Lemma wallet_restore_Ok mainnet secret change_index i phrase pass s p s' :
  wallet_arm mainnet secret change_index i (RestoreFrom phrase pass) s = (Ok p, s') →
  ∃ m fs, parse_in phrase = Some m ∧ store_wallet (mnemonic_string m) (m_fs s) = (Ok tt, fs) ∧ m_fs s' = fs.
Proof.
  cbn [wallet_arm]. intros (m & Hm%ok_or_Ok & H)%lift_bind_Ok. apply lift_bind_Ok in H as (master & Hmaster & H).
  apply M_bind_Ok in H as ([] & s1 & (f & Hf & ->)%on_fs_Ok & H). cbv [mret M_ret] in H. injection H as <- <-.
  by exists m, f.
Qed.

(** The files of a machine hold the wallet of a phrase. *)
Definition holds_wallet (fs : FS) (phrase : string) : Prop :=
  ∃ st t, files fs !! WALLET_DAT = Some (st, t) ∧ file_data st = bstr phrase.

Lemma stored_holds phrase s u s' : store_wallet phrase s = (Ok u, s') → holds_wallet s' phrase.
Proof. intros (st & E & Hd & _)%store_wallet_Ok. exists st, (fs_clock s). by rewrite E, lookup_insert_eq. Qed.

(** C36. A wallet that was created opens again as the one whose first address was
    printed, and restoring the phrase on another machine, whatever passphrase
    is given, gives the same wallet. *)
Theorem created_wallet_reopens cps dummy mainnet secret ix i show s p s' :
  wallet_command cps dummy mainnet secret ix i (New show) s = (Ok p, s') →
  ∃ m master a, fresh_mnemonic i = Ok m ∧ p = WalletCreated a (if show then Some (mnemonic_string m) else None) ∧
    get_receive_address master 0 = Ok a ∧
    (faults (m_fs s') = [] → open_wallet mainnet (m_fs s') = (Ok master, m_fs s')) ∧
    ∀ cps2 dummy2 secret2 ix2 i2 pass s2 p2 s2',
      wallet_command cps2 dummy2 mainnet secret2 ix2 i2 (RestoreFrom (mnemonic_string m) pass) s2 = (Ok p2, s2') →
      faults (m_fs s2') = [] → open_wallet mainnet (m_fs s2') = (Ok master, m_fs s2').
Proof.
  intros (chain & d & _ & (m & master & a & fs & Hm & Hmaster & Hs & Ha & -> & <-)%wallet_new_Ok)%wallet_command_Ok.
  exists m, master, a. do 3 (split; [done|]). rewrite <- Hmaster. split.
  - intros Hf. apply stored_holds in Hs as (st & t & E & Hd). by eapply open_wallet_stored.
  - intros cps2 dummy2 secret2 ix2 i2 pass s2 p2 s2' (chain2 & d2 & _ & H)%wallet_command_Ok Hf.
    apply wallet_restore_Ok in H as (m2 & fs2 & Hp & Hs2 & <-). rewrite parse_mnemonic_string in Hp. injection Hp as <-.
    apply stored_holds in Hs2 as (st & t & E & Hd). by eapply open_wallet_stored.
Qed.

(** The phrase lies in clear in a file that others may read: the check that key
    files go through refuses it. *)
Theorem wallet_file_exposed cps dummy mainnet secret ix i show s p s' :
  wallet_command cps dummy mainnet secret ix i (New show) s = (Ok p, s') → files (m_fs s) !! WALLET_DAT = None →
  (∃ m st, fresh_mnemonic i = Ok m ∧ stat_of (m_fs s') WALLET_DAT = Some st ∧
     file_data st = bstr (mnemonic_string m) ∧ Z.testbit (st_mode st) 2 = true) ∧
  secure_load_file (fs_uid (m_fs s)) (stat_of (m_fs s') WALLET_DAT) = Err (FilePermissionError "Permissions too broad").
Proof.
  intros (chain & d & _ & (m & master & a & fs & Hm & Hmaster & Hs & Ha & -> & <-)%wallet_new_Ok)%wallet_command_Ok Hn.
  apply store_wallet_Ok in Hs as (st & E & Hd & H). destruct (H Hn) as [Hu Hmode]. unfold stat_of.
  rewrite E, lookup_insert_eq. cbn [fmap option_fmap option_map fst]. split.
  - exists m, st. split_and!; try done. by rewrite Hmode.
  - unfold secure_load_file. cbn [ok_or mbind outcome_bind m_fs] in *. rewrite Hu, Z.eqb_refl, Hmode. done.
Qed.

(** *** Anonymous keys *)

(** An anonymous key that was saved is the one whose address is shown. *)
Theorem anon_key_kept cps dummy mainnet secret ix i s p s' mainnet2 secret2 ix2 i2 :
  wallet_command cps dummy mainnet secret ix i AnonNew s = (Ok p, s') →
  p = AnonAddress (pubkey_to_anon_address (public_key (fresh_anon i))) ∧
  (faults (m_fs s') = [] →
   (wallet_arm mainnet2 secret2 ix2 i2 GetAnonAddress s').1 = Ok p).
Proof.
  intros (chain & d & _ & H)%wallet_command_Ok. cbn [wallet_arm] in H.
  apply M_bind_Ok in H as (a & s1 & (f & Hf & ->)%on_fs_Ok & H). cbv [mret M_ret] in H. injection H as <- <-.
  unfold anon_new in Hf. apply M_bind_Ok in Hf as ([] & f1 & Hs & Hf). cbv [mret M_ret] in Hf. injection Hf as <- <-.
  split; [done|]. cbn [m_fs]. intros Hn. apply save_secret_cases in Hs as [[_ Hr]|[E Hu]]; [by destruct (Hr tt)|].
  assert (secure_load_file (fs_uid f1) (stat_of f1 ANON_SPEND_DAT) = Ok (AnonPrivateKey_to_bytes (fresh_anon i))) as Hl.
  { unfold stat_of. rewrite E, Hu. cbn [fmap option_fmap option_map fst]. apply written_loads.
    rewrite length_AnonPrivateKey. lia. }
  cbn [wallet_arm]. unfold mbind at 1, M_bind at 1. unfold on_fs, get_anon_address, io, next_fault.
  cbv [mbind M_bind lift get mret M_ret]. cbn [m_fs]. rewrite Hn. cbn [head tail default]. rewrite bool_decide_eq_true_2 by done.
  cbn [ensure]. change (fs_uid (set_faults [] f1)) with (fs_uid f1).
  change (stat_of (set_faults [] f1) ANON_SPEND_DAT) with (stat_of f1 ANON_SPEND_DAT). rewrite Hl.
  rewrite length_AnonPrivateKey. cbn [ensure Nat.eqb]. rewrite AnonPrivateKey_from_to. done.
Qed.

(** *** Private keys *)

(** A private key leaves the wallet only when its owner asks for it twice, and
    it is the key of the address that was named. *)
Theorem exported_key_owned cps dummy mainnet secret ix i address confirm s p s' :
  (∀ fs master, (open_wallet mainnet fs).1 = Ok master → derivable master) →
  wallet_command cps dummy mainnet secret ix i (DumpPrivkey address confirm) s = (Ok p, s') →
  confirm = true ∧ ∃ sk, p = Privkey (to_wif mainnet sk) ∧ address_to_pubkey_hash address = Ok (pkh_of sk).
Proof.
  intros Hd (chain & d & _ & H)%wallet_command_Ok. cbn [wallet_arm] in H. apply lift_bind_Ok in H as ([] & Hc%ensure_Ok & H).
  split; [done|]. apply M_bind_Ok in H as (master & s1 & (f & Hf & ->)%on_fs_Ok & H).
  assert (derivable master) as Hm by (eapply (Hd (m_fs s)); cbn in Hf; by rewrite Hf).
  apply lift_bind_Ok in H as (sk & Hk & H). cbv [mret M_ret] in H. injection H as <- <-. exists sk. split; [done|].
  unfold get_privkey_for_address in Hk. apply bind_Ok in Hk as (pkh & Hp & Hk). rewrite Hp.
  destruct (find_key master pkh key_indices None Hm) as (r & Hr & Hres). rewrite Hr in Hk. cbn [mbind outcome_bind] in Hk.
  apply ok_or_Ok in Hk. subst r. by destruct Hres as [|<-].
Qed.

(** *** Shared addresses *)

Lemma multisig_pubs keys pubs l :
  for_each (λ l s, pk ← unwrap (PublicKey_from_str s); Ok (l ++ [pk])) l keys = Ok pubs →
  ∃ new, pubs = l ++ new ∧ Forall2 (λ s pk, PublicKey_from_str s = Some pk) keys new.
Proof.
  revert l. induction keys as [|k keys IH]; intros l; cbn [for_each].
  - intros [= <-]. exists []. by rewrite app_nil_r.
  - intros (l2 & (pk & Hk%unwrap_Ok & [= <-])%bind_Ok & H)%bind_Ok. apply IH in H as (new & -> & Hn).
    exists (pk :: new). by rewrite <- app_assoc; auto.
Qed.

Lemma multisig_length pubs required :
  Forall (λ pk, length (PublicKey_serialize pk) = 33%nat) pubs →
  (34 * length pubs + 3 ≤ length (multisig_script pubs required))%nat.
Proof.
  intros H. unfold multisig_script. rewrite !length_app. pose proof (push_int_length (iwrap 64 required)).
  pose proof (push_int_length (Z.of_nat (length pubs))). cbn [length].
  assert (34 * length pubs ≤ length (concat ((λ p, push_slice (PublicKey_serialize p)) <$> pubs)))%nat; [|lia].
  clear -H CLO. induction H as [|pk pubs Hk H IH]; [done|]. cbn [fmap list_fmap concat length]. rewrite length_app.
  pose proof (push_slice_length (PublicKey_serialize pk)). cbn [fmap] in IH. lia.
Qed.

(** Who spends from the hash of a key shows a key with this hash. *)
Lemma p2pkh_spender input output t i h :
  script_pubkey output = p2pkh_script_from_pkh h → length h = 20%nat →
  validate_script_with_timeout input output t i = Ok tt →
  ∃ pubkey pk, PublicKey_from_slice pubkey = Some pk ∧ hash160 pubkey = h.
Proof.
  intros Hs Hh. unfold validate_script_with_timeout. rewrite Hs.
  assert (length (p2pkh_script_from_pkh h) = 25%nat) as -> by (unfold p2pkh_script_from_pkh; rewrite !length_app; cbn [length]; lia).
  cbn [Nat.eqb negb andb]. unfold validate_p2pkh, verify_sig. intros H. inv_ok. zbool.
  assert (sub_bytes 3 23 (p2pkh_script_from_pkh h) = h) as E.
  { unfold p2pkh_script_from_pkh. apply (sub_bytes_app_mid [_; _; _]); [done|lia]. }
  rewrite E in *. by eauto.
Qed.

(** An address shared by two keys or more is one that can be paid and not spent
    from: payments to it go to the hash of a script, and whoever spends them
    shows a public key, not a script, with that hash. *)
Theorem multisig_unspendable pubkeys required address script :
  create_multisig pubkeys required = Ok (address, script) → (2 ≤ length pubkeys)%nat →
  address_to_pubkey_hash address = Ok (hash160 script) ∧
  ∀ input output t i,
    script_pubkey output = p2pkh_script_from_pkh (hash160 script) →
    validate_script_with_timeout input output t i = Ok tt →
    ∃ pubkey pk, PublicKey_from_slice pubkey = Some pk ∧ pubkey ≠ script ∧ hash160 pubkey = hash160 script.
Proof.
  intros (pubs & (new & -> & Hn)%multisig_pubs & [= <- <-])%bind_Ok H2. cbn [app] in *.
  set (script := multisig_script new required). split.
  { unfold address_to_pubkey_hash. destruct (ripemd160_array (sha256 script)) as [Hb Hl].
    rewrite from_check_to_base58check by (constructor; [unfold byte; lia|done]). simpl. by rewrite length_hash160. }
  assert (71 ≤ length script)%nat as Hlen.
  { pose proof (Forall2_length _ _ _ Hn). assert (34 * length new + 3 ≤ length script)%nat; [|lia].
    apply multisig_length. clear -Hn CLO. induction Hn; constructor; [by eapply PublicKey_from_str_length|done]. }
  intros input output t i Hs Hv. eapply p2pkh_spender in Hv as (pubkey & pk & Hpk & Hh); [|exact Hs|apply length_hash160].
  exists pubkey, pk. split; [done|]. split; [|done]. intros ->. apply PublicKey_from_slice_length in Hpk. lia.
Qed.

(** *** The chain *)

(** No wallet command works beside a healthy chain, not even one that only
    creates a wallet: the chain has to load, and it loads only from a database
    whose ledger lacks one of its two summaries. *)
Theorem commands_need_missing_summary cps dummy mainnet secret ix i c s p s' :
  wallet_command cps dummy mainnet secret ix i c s = (Ok p, s') →
  ∃ chain d, load_from_db cps dummy (m_db s) = (Ok chain, d) ∧
    (0 <= best_height chain < 64 * HALVING_INTERVAL - 1 →
     contents d !! (default_cf, DB_KEY_TOTAL_SUPPLY) = None ∨ contents d !! (default_cf, DB_KEY_UTXO_SET_HASH) = None).
Proof.
  intros (chain & d & Hl & _)%wallet_command_Ok. unfold load_chain_readonly in Hl.
  apply M_bind_Ok in Hl as (? & ? & [= <- <-] & Hl). apply lift_bind_Ok in Hl as ([] & _ & Hl). exists chain, d.
  split; [done|]. intros Hb. by eapply load_needs_missing_summary.
Qed.

End CliFacts.

(** ** Witnesses *)

#[local] Existing Instance padded_crypto | 0.
#[local] Existing Instance padded_crypto_ok | 0.
#[local] Existing Instance padded_keychain | 0.
#[local] Existing Instance sample_mempool_ops | 0.

(** Phrases, keys and scripts as they are written. *)
#[local] Instance sample_cli : CliEnv (CR:=padded_crypto) (KC:=padded_keychain) := {|
  Mnemonic := string;
  parse_in := Some;
  mnemonic_string := id;
  Seed_new m pass := padded 64 (bstr m ++ bstr pass);
  new_master _ _ := Some tt;
  to_wif _ sk := bytes_string sk;
  from_utf8 b := Some (bytes_string b);
  hex_encode := bytes_string;
  PublicKey_from_str s := if (String.length s =? 33)%nat then Some (bstr s) else None;
  push_int n := [wrap 8 (0x50 + n)];
  push_slice b := wrap 8 (Z.of_nat (length b)) :: b;
  AnonPrivateKey := @AnonPublicKey padded_crypto;
  AnonPrivateKey_to_bytes := @AnonPublicKey_to_bytes padded_crypto;
  AnonPrivateKey_from_bytes := @AnonPublicKey_from_bytes padded_crypto;
  public_key := id;
|}.

Lemma length_bstr s : length (bstr s) = String.length s.
Proof. induction s as [|c s IH]; [done|]. exact (f_equal S IH). Qed.

#[local] Instance sample_cli_ok : CliEnvOk (CR:=padded_crypto) (KC:=padded_keychain).
Proof.
  split.
  - done.
  - intros s. exact (f_equal Some (bytes_string_bytes s)).
  - apply AnonPublicKey_from_to.
  - intros k. apply (AnonPublicKey_array k).
  - intros b pk. change (PublicKey_from_slice b) with (if (length b =? 33)%nat || (length b =? 65)%nat then Some b else None).
    destruct (Nat.eqb_spec (length b) 33); [by left|]. destruct (Nat.eqb_spec (length b) 65); [by right|done].
  - intros s pk. change (PublicKey_from_str s) with (if (String.length s =? 33)%nat then Some (bstr s) else None).
    destruct (Nat.eqb_spec (String.length s) 33); [|done]. intros [= <-]. by rewrite <- length_bstr in *.
  - intros n. cbn. lia.
  - intros b. cbn. lia.
Qed.

Definition cli_anon : AnonPrivateKey (CliEnv:=sample_cli) := dexist (padded 32 [7]) (padded_array 32 [7]).

Definition cli_input : CliInput (CL:=sample_cli) := mkCliInput (Ok "twenty-four words"%string) cli_anon (λ _ _, Ok None).

Definition cli_machine : Machine (RK:=mem_rocks) := mkMachine mem_rocks (mkFS ∅ ∅ 1000 5 false []) loadable_db.

#[local] Abbreviation cli_run c s :=
  (wallet_command (RK:=mem_rocks) (MP:=sample_mempool_ops) (CL:=sample_cli) ∅ [] true "secret" 0 cli_input c s).

Definition cli_created : Machine := (cli_run (New true) cli_machine).2.

Definition cli_phrase : string := mnemonic_string (CliEnv:=sample_cli) "twenty-four words"%string.

Definition cli_restored : Machine := (cli_run (RestoreFrom cli_phrase (Some "passphrase"%string)) cli_machine).2.

Definition cli_address : string :=
  match get_receive_address (KC:=padded_keychain) w_master 0 with Ok a => a | _ => ""%string end.

Lemma cli_new_run :
  cli_run (New true) cli_machine = (Ok (WalletCreated cli_address (Some "twenty-four words"%string)), cli_created).
Proof. unfold cli_created. apply run_eta. by vm_compute. Qed.

Lemma cli_restore_run : cli_run (RestoreFrom cli_phrase (Some "passphrase"%string)) cli_machine = (Ok WalletRestored, cli_restored).
Proof. unfold cli_restored. apply run_eta. by vm_compute. Qed.

Lemma created_wallet_reopens_witness :
  open_wallet (CL:=sample_cli) true (m_fs cli_created) = (Ok w_master, m_fs cli_created) ∧
  open_wallet (CL:=sample_cli) true (m_fs cli_restored) = (Ok w_master, m_fs cli_restored).
Proof.
  destruct (created_wallet_reopens (RK:=mem_rocks) (MP:=sample_mempool_ops) (CL:=sample_cli) ∅ [] true "secret" 0 cli_input true cli_machine _ _ cli_new_run)
    as (m & master & a & Hm & _ & _ & H1 & H2).
  assert (m = "twenty-four words"%string) as -> by (injection Hm as <-; reflexivity). destruct master. split.
  - apply H1. by vm_compute.
  - refine (H2 ∅ [] "secret"%string 0 cli_input (Some "passphrase"%string) cli_machine WalletRestored cli_restored _ _).
    + exact cli_restore_run.
    + by vm_compute.
Defined.

Lemma wallet_file_exposed_witness :
  secure_load_file 1000 (stat_of (m_fs cli_created) WALLET_DAT) = Err (FilePermissionError "Permissions too broad").
Proof.
  apply (wallet_file_exposed (RK:=mem_rocks) (MP:=sample_mempool_ops) (CL:=sample_cli) ∅ [] true "secret" 0 cli_input true cli_machine _ _ cli_new_run).
  reflexivity.
Defined.

Definition cli_anon_saved : Machine := (cli_run AnonNew cli_machine).2.

Lemma anon_key_kept_witness :
  (wallet_arm (RK:=mem_rocks) (CL:=sample_cli) true "secret" 0 cli_input GetAnonAddress cli_anon_saved).1 =
  Ok (AnonAddress (pubkey_to_anon_address (public_key cli_anon))).
Proof.
  assert (cli_run AnonNew cli_machine = (Ok (AnonAddress (pubkey_to_anon_address (public_key cli_anon))), cli_anon_saved)) as E
    by (unfold cli_anon_saved; apply run_eta; by vm_compute).
  apply (anon_key_kept (RK:=mem_rocks) (MP:=sample_mempool_ops) (CL:=sample_cli) ∅ [] true "secret" 0 cli_input cli_machine _ cli_anon_saved true "secret"
    0 cli_input E). by vm_compute.
Defined.

Definition cli_exported : Machine := (cli_run (DumpPrivkey cli_address true) cli_created).2.

Definition cli_wif : string := bytes_string (reverse (bstr "m/44'/1987'/0'/0/0")).

Lemma exported_key_owned_witness :
  ∃ sk, Privkey cli_wif = Privkey (to_wif (CliEnv:=sample_cli) true sk) ∧ address_to_pubkey_hash cli_address = Ok (pkh_of sk).
Proof.
  assert (cli_run (DumpPrivkey cli_address true) cli_created = (Ok (Privkey cli_wif), cli_exported)) as E
    by (unfold cli_exported; apply run_eta; by vm_compute).
  assert (∀ fs master, (open_wallet (CL:=sample_cli) true fs).1 = Ok master → derivable master) as Hd
    by (intros fs master _; apply Forall_forall; intros ci _; eexists; reflexivity).
  destruct (exported_key_owned (RK:=mem_rocks) (MP:=sample_mempool_ops) (CL:=sample_cli) ∅ [] true "secret" 0 cli_input cli_address
    true cli_created (Privkey cli_wif) cli_exported Hd E) as [_ H]. exact H.
Defined.

(** An address shared by two keys, and its script. *)
Definition cli_keys : list string := replicate 2 "123456789012345678901234567890123"%string.

Definition cli_multisig : outcome (string * bytes) := create_multisig (CL:=sample_cli) cli_keys 2.

Lemma multisig_unspendable_witness : ∃ address script,
  cli_multisig = Ok (address, script) ∧ address_to_pubkey_hash address = Ok (hash160 script).
Proof.
  destruct cli_multisig as [[address script]| | |] eqn:E; [|by vm_compute in E..]. exists address, script. split; [done|].
  apply (multisig_unspendable (CL:=sample_cli) cli_keys 2 address script E). cbn. lia.
Defined.

Lemma commands_need_missing_summary_witness :
  ∃ chain d, load_from_db (RK:=mem_rocks) (MP:=sample_mempool_ops) ∅ [] loadable_db = (Ok chain, d).
Proof.
  destruct (commands_need_missing_summary (RK:=mem_rocks) (MP:=sample_mempool_ops) (CL:=sample_cli) ∅ [] true "secret" 0 cli_input (New true) cli_machine _ _ cli_new_run)
    as (chain & d & H & _). by exists chain, d.
Defined.
