(* ===== verification/Tasks.v ===== *)
(** * Tasks: the tasks of a node and the locks they take

    The other files run one call after the other.  Here the calls are tasks of
    one node that run at the same time, reduced to what they do with the locks
    of src/111/src/main.rs, net.rs, miner.rs, chain.rs and mempool.rs; which
    branch a call takes is an argument.

    - A lock is tokio's: an [RwLock] is granted in the order of the requests,
      a reader that comes after a waiting writer waits for it; a [Mutex] is a
      lock that is only taken for writing.
    - A guard bound to a name is released at the end of its scope, the last
      first; a temporary one at the end of its statement.
    - A step of a task asks for a lock, gets it or releases it; a schedule is
      the list of the tasks that step. *)
From S2P Require Import Prelude Errors.

Inductive lock :=
  | LChain | LStateLock | LPool | LState | LTargetCache | LHeap | LTtlHeap | LLru | LAvgFee | LMaxSize
  | LKnown | LBans | LBansPersistent | LPeers | LPeersById | LMaintenance.

#[export] Instance lock_eq_dec : EqDecision lock.
Proof. solve_decision. Defined.

Inductive mode := Rd | Wr.

#[export] Instance mode_eq_dec : EqDecision mode.
Proof. solve_decision. Defined.

Inductive act :=
  | Acq (l : lock) (m : mode)
  | Rel (l : lock).

(** A scope that holds a lock. *)
Definition with_lock (l : lock) (m : mode) (body : list act) : list act := Acq l m :: body ++ [Rel l].

(** ** The tasks *)

(** *** The pool *)

(** [Mempool::remove]: what it does with its children comes before. *)
Definition remove_locks (n : nat) : list act := mjoin (replicate n (with_lock LAvgFee Wr [])).

(** How [Mempool::insert] ends: before the first lock, with the pool within its
    limits and nothing orphaned, or above the limits. *)
Inductive inserted := Refused | Accepted | OverLimit.

(** [evict_low_fee_package], up to the lock that its caller holds. *)
Definition evict_locks : list act := with_lock LAvgFee Wr [].

Definition insert_locks (o : inserted) : list act :=
  match o with
  | Refused => []
  | _ =>
      with_lock LHeap Wr [] ++ with_lock LTtlHeap Wr [] ++
      with_lock LLru Wr (with_lock LAvgFee Wr (with_lock LMaxSize Rd [] ++
        match o with OverLimit => evict_locks | _ => [] end))
  end.

(** [clean_expired]: each of the removed transactions has some descendants. *)
Definition clean_expired_locks (removed : list nat) : list act :=
  with_lock LTtlHeap Rd [] ++ mjoin ((λ n, remove_locks n ++ with_lock LTtlHeap Wr []) <$> removed).

(** *** The chain *)

(** How [add_block] ends; a best block removes its transactions from the pool
    and finds orphans to try again or not. *)
Inductive added := Known | NoParent | Invalid | Extends (removed : nat) (orphans : bool) | NotHeavier.

Definition add_block_locks (o : added) : list act :=
  with_lock LStateLock Wr (
    with_lock LState Rd [] ++
    match o with
    | Known => []
    | NoParent | Invalid => with_lock LState Rd []
    | _ =>
        with_lock LState Rd [] ++ with_lock LTargetCache Wr [] ++ with_lock LState Rd [] ++ with_lock LState Rd [] ++
        match o with
        | Extends removed orphans =>
            with_lock LPool Wr (remove_locks removed) ++
            (if orphans then with_lock LStateLock Wr [] else [])
        | _ => with_lock LStateLock Wr []
        end
    end).

Definition get_headers_locks : list act := with_lock LState Rd [].

(** *** Peers *)

Definition is_banned_locks : list act := with_lock LBans Wr (with_lock LBansPersistent Wr []).

Definition ban_ip_locks : list act :=
  with_lock LBans Wr [] ++ with_lock LBansPersistent Wr [] ++ with_lock LPeers Wr [].

Definition broadcast_locks : list act := with_lock LPeers Rd [].

(** [add_peer] of an address that is not banned, up to the tasks of the peer:
    no place left, a failed handshake, or a new peer. *)
Inductive joined := NoPlace | BadHandshake (ban : bool) | Joined.

Definition add_peer_locks (o : joined) : list act :=
  is_banned_locks ++ with_lock LPeers Rd [] ++
  match o with
  | NoPlace => []
  | BadHandshake ban => with_lock LChain Rd [] ++ (if ban then ban_ip_locks else [])
  | Joined =>
      with_lock LChain Rd [] ++ with_lock LKnown Wr [] ++ broadcast_locks ++
      with_lock LPeers Wr [] ++ with_lock LPeersById Wr []
  end.

Definition remove_peer_locks : list act :=
  with_lock LPeers Wr (with_lock LPeersById Wr (with_lock LPeers Rd [])).

Definition reconnect_locks (l : list joined) : list act :=
  with_lock LPeers Rd [] ++ with_lock LKnown Rd [] ++ mjoin (add_peer_locks <$> l).

(** *** Messages *)

Definition getdata_tx_locks : list act := with_lock LPool Rd [].

Definition getdata_block_locks : list act := with_lock LChain Rd [].

Definition getheaders_locks : list act := with_lock LChain Rd get_headers_locks.

Definition tx_locks (o : inserted) : list act :=
  with_lock LPool Wr (with_lock LChain Rd (insert_locks o ++ match o with Accepted => broadcast_locks | _ => [] end)).

Definition block_locks (o : added) : list act :=
  with_lock LChain Wr (with_lock LPool Wr (add_block_locks o ++ match o with Extends _ _ => broadcast_locks | _ => [] end)).

Definition headers_locks (l : list added) : list act := with_lock LChain Wr (mjoin (add_block_locks <$> l)).

Definition getaddr_locks : list act := with_lock LKnown Rd [].

Definition addr_locks : list act := with_lock LKnown Wr [].

(** *** Tasks of main.rs *)

(** One announcement; [looked_up] says that the state is read. *)
Definition inventory_locks (looked_up : bool) : list act :=
  with_lock LChain Wr (with_lock LPool Wr (if looked_up then with_lock LState Rd [] else [])).

Definition clean_locks (removed : list nat) : list act := with_lock LPool Wr (clean_expired_locks removed).

Definition backup_locks : list act := with_lock LMaintenance Wr (with_lock LMaintenance Wr []).

Definition shutdown_locks : list act := with_lock LChain Rd (with_lock LState Rd []).

(** A round of the miner; a block that was found is dropped when the tip has
    changed. *)
Definition mining_locks (found : option (option added)) : list act :=
  with_lock LChain Rd (
    with_lock LPool Rd [] ++ with_lock LChain Rd [] ++
    match found with
    | Some (Some o) => with_lock LChain Wr (add_block_locks o)
    | Some None => with_lock LChain Wr []
    | None => []
    end).

Definition rpc_height_locks : list act := with_lock LChain Rd [].

Definition rpc_block_locks : list act := with_lock LChain Rd (with_lock LState Rd []).

Definition rpc_mempool_locks : list act := with_lock LPool Rd [].

Definition rpc_send_tx_locks (o : inserted) : list act := with_lock LPool Wr (with_lock LChain Rd (insert_locks o)).

(** ** Running tasks *)

(** What a task has left to do, and what it holds. *)
Record task := mkTask { prog : list act; held : list (lock * mode) }.

(** The tasks, and the requests not granted yet in their order. *)
Record config := mkConfig { tasks : list task; waiting : list (nat * (lock * mode)) }.

Definition start (progs : list (list act)) : config := mkConfig ((λ p, mkTask p []) <$> progs) [].

Definition holders (l : lock) (c : config) : list mode :=
  concat ((λ t, snd <$> filter (λ h, h.1 = l) (held t)) <$> tasks c).

Definition compatible (m : mode) (hs : list mode) : bool :=
  match m with
  | Rd => bool_decide (Wr ∉ hs)
  | Wr => bool_decide (hs = [])
  end.

(** The first request for a lock. *)
Definition first_for (l : lock) (c : config) : option nat := fst <$> head (filter (λ e, e.2.1 = l) (waiting c)).

Definition asked (t : nat) (c : config) : bool := bool_decide (t ∈ (waiting c).*1).

(** A guard is dropped: the last one taken of its lock. *)
Fixpoint release (l : lock) (hs : list (lock * mode)) : list (lock * mode) :=
  match hs with
  | [] => []
  | h :: hs => if decide (h.1 = l) then hs else h :: release l hs
  end.

Definition step (t : nat) (c : config) : option config :=
  k ← tasks c !! t;
  match prog k with
  | [] => None
  | Acq l m :: p =>
      if asked t c then
        if bool_decide (first_for l c = Some t) && compatible m (holders l c)
        then Some (mkConfig (<[t := mkTask p ((l, m) :: held k)]> (tasks c)) (filter (λ e, e.1 ≠ t) (waiting c)))
        else None
      else Some (mkConfig (tasks c) (waiting c ++ [(t, (l, m))]))
  | Rel l :: p => Some (mkConfig (<[t := mkTask p (release l (held k))]> (tasks c)) (waiting c))
  end.

Fixpoint run (schedule : list nat) (c : config) : option config :=
  match schedule with
  | [] => Some c
  | t :: schedule => c ← step t c; run schedule c
  end.

Definition finished (c : config) : Prop := Forall (λ k, prog k = []) (tasks c).

(** ** Tasks that respect an order *)

Definition rank (l : lock) : nat :=
  match l with
  | LMaintenance => 0 | LChain => 1 | LStateLock => 2 | LPool => 3 | LState => 4 | LTargetCache => 5
  | LHeap => 6 | LTtlHeap => 7 | LLru => 8 | LAvgFee => 9 | LMaxSize => 10 | LKnown => 11
  | LBans => 12 | LBansPersistent => 13 | LPeers => 14 | LPeersById => 15
  end.

(** With [hs] held: every lock taken is above those held, every lock released
    is held, and nothing is held at the end. *)
Fixpoint ordered (hs : list (lock * mode)) (p : list act) : bool :=
  match p with
  | [] => bool_decide (hs = [])
  | Acq l m :: p => forallb (λ h, rank h.1 <? rank l)%nat hs && ordered ((l, m) :: hs) p
  | Rel l :: p => bool_decide (l ∈ hs.*1) && ordered (release l hs) p
  end.

Lemma rank_bound l : (rank l < 16)%nat.
Proof. destruct l; simpl; lia. Qed.

(** Sequences and scopes of ordered tasks are ordered. *)
Lemma ordered_app hs p q : ordered hs p = true → ordered [] q = true → ordered hs (p ++ q) = true.
Proof.
  revert hs. induction p as [|[l m|l] p IH]; intros hs; cbn [ordered app]; intros Hp Hq.
  - apply bool_decide_eq_true_1 in Hp. by subst.
  - apply andb_true_iff in Hp as [H1 H2]. rewrite H1. by apply IH.
  - apply andb_true_iff in Hp as [H1 H2]. rewrite H1. by apply IH.
Qed.

(** *** The invariant of a run *)

Record inv (c : config) : Prop := {
  inv_once : NoDup (waiting c).*1;
  inv_wants : ∀ t l m, (t, (l, m)) ∈ waiting c → ∃ p hs, tasks c !! t = Some (mkTask (Acq l m :: p) hs);
  inv_ordered : Forall (λ k, ordered (held k) (prog k) = true) (tasks c);
}.

Lemma start_inv progs : Forall (λ p, ordered [] p = true) progs → inv (start progs).
Proof.
  intros H. split; cbn.
  - constructor.
  - by intros t l m ?%not_elem_of_nil.
  - by apply Forall_fmap.
Qed.

Lemma asked_true t c : asked t c = true ↔ ∃ l m, (t, (l, m)) ∈ waiting c.
Proof.
  unfold asked. rewrite bool_decide_eq_true, list_elem_of_fmap. split.
  - intros ([t' [l m]] & -> & Hin). by exists l, m.
  - intros (l & m & Hin). by exists (t, (l, m)).
Qed.

(** The steps, by cases. *)
Lemma step_cases t c c' :
  step t c = Some c' →
  ∃ a p hs, tasks c !! t = Some (mkTask (a :: p) hs) ∧
    ((∃ l m, a = Acq l m ∧ asked t c = false ∧ c' = mkConfig (tasks c) (waiting c ++ [(t, (l, m))])) ∨
     (∃ l m, a = Acq l m ∧ asked t c = true ∧
        c' = mkConfig (<[t := mkTask p ((l, m) :: hs)]> (tasks c)) (filter (λ e, e.1 ≠ t) (waiting c))) ∨
     (∃ l, a = Rel l ∧ c' = mkConfig (<[t := mkTask p (release l hs)]> (tasks c)) (waiting c))).
Proof.
  unfold step. intros ([p hs] & Hk & H)%bind_Some. cbn [prog held] in H. destruct p as [|[l m|l] p]; [done|..].
  - exists (Acq l m), p, hs. split; [done|]. destruct (asked t c); [|left; naive_solver].
    destruct (_ && _); [|done]. right. left. naive_solver.
  - exists (Rel l), p, hs. split; [done|]. right. right. naive_solver.
Qed.

Lemma step_inv t c c' : step t c = Some c' → inv c → inv c'.
Proof.
  intros (a & p & hs & Hk & H)%step_cases [H1 H2 H3].
  pose proof (Forall_lookup_1 _ _ _ _ H3 Hk) as Ho. cbn [held prog] in Ho.
  destruct H as [(l & m & -> & Hn & ->)|[(l & m & -> & _ & ->)|(l & -> & ->)]].
  - split; cbn [tasks waiting]; [| |done].
    + rewrite fmap_app. apply NoDup_app. split; [done|]. split; [|apply NoDup_singleton]. intros t' Hin ->%list_elem_of_singleton.
      apply not_true_iff_false in Hn. apply Hn. by apply bool_decide_eq_true_2.
    + intros t' l' m' [Hin| [= -> -> ->]%list_elem_of_singleton]%elem_of_app; [by apply H2|by eauto].
  - cbn [ordered] in Ho. apply andb_true_iff in Ho as [_ Ho]. split; cbn [tasks waiting].
    + eapply sublist_NoDup; [exact H1|]. apply fmap_sublist, sublist_filter.
    + intros t' l' m' [Hne Hin]%list_elem_of_filter. cbn in Hne. rewrite list_lookup_insert_ne by done. by apply H2.
    + by apply Forall_insert.
  - cbn [ordered] in Ho. apply andb_true_iff in Ho as [_ Ho]. split; cbn [tasks waiting]; [done| |by apply Forall_insert].
    intros t' l' m' Hin. destruct (decide (t' = t)) as [->|Hne]; [|rewrite list_lookup_insert_ne by done; by apply H2].
    apply H2 in Hin as (p' & hs' & E). congruence.
Qed.

Lemma first_for_Some l c t : first_for l c = Some t → ∃ m, (t, (l, m)) ∈ waiting c.
Proof.
  unfold first_for. destruct (filter _ (waiting c)) as [|[t' [l' m']] w] eqn:E; [done|]. intros [= <-].
  assert ((t', (l', m')) ∈ filter (λ e : nat * (lock * mode), e.2.1 = l) (waiting c)) as [Hl Hin]%list_elem_of_filter
    by (rewrite E; by left). cbn in Hl. subst. by exists m'.
Qed.

Lemma first_for_asked l c t m : (t, (l, m)) ∈ waiting c → is_Some (first_for l c).
Proof.
  intros Hin. unfold first_for.
  assert ((t, (l, m)) ∈ filter (λ e : nat * (lock * mode), e.2.1 = l) (waiting c)) as Hf by by apply list_elem_of_filter.
  destruct (filter _ (waiting c)) as [|e w]; [by apply not_elem_of_nil in Hf|]. by eexists.
Qed.

Lemma incompatible_held m l c : compatible m (holders l c) = false → ∃ t k, tasks c !! t = Some k ∧ l ∈ (held k).*1.
Proof.
  intros Hc. assert (∃ m', m' ∈ holders l c) as (m' & Hm).
  { destruct m; cbn in Hc; apply bool_decide_eq_false_1 in Hc.
    - exists Wr. by apply dec_stable.
    - destruct (holders l c) as [|m' ?]; [done|]. exists m'. by left. }
  unfold holders in Hm. apply list_elem_of_In, in_concat in Hm as (hs & Hhs & Hm). apply list_elem_of_In in Hhs, Hm.
  apply list_elem_of_fmap in Hhs as (k & -> & (t & Hk)%list_elem_of_lookup).
  apply list_elem_of_fmap in Hm as ([l' m''] & -> & [Hl Hin]%list_elem_of_filter). cbn in Hl. subst l'.
  exists t, k. split; [done|]. apply list_elem_of_fmap. by exists (l, m'').
Qed.

(** A task that cannot take its lock waits for one that can go on, up the ranks. *)
Lemma wanted_progress n c t l m p hs :
  inv c → (16 <= rank l + n)%nat → tasks c !! t = Some (mkTask (Acq l m :: p) hs) → ∃ t' c', step t' c = Some c'.
Proof.
  intros Hi. revert t l m p hs. induction n as [|n IH]; intros t l m p hs Hn Hk; [pose proof (rank_bound l); lia|].
  destruct (asked t c) eqn:Ha; [|eexists t, _; unfold step; rewrite Hk; cbn; by rewrite Ha].
  apply asked_true in Ha as (l' & m' & Hin). destruct (inv_wants c Hi t l' m' Hin) as (p' & hs' & Hk').
  rewrite Hk in Hk'. injection Hk' as <- <- <- <-. destruct (first_for_asked l c t m Hin) as [t0 Hf].
  destruct (first_for_Some l c t0 Hf) as (m0 & Hin0). destruct (inv_wants c Hi t0 l m0 Hin0) as (p0 & hs0 & Hk0).
  destruct (compatible m0 (holders l c)) eqn:Hc.
  { eexists t0, _. unfold step. rewrite Hk0. cbn. rewrite (proj2 (asked_true t0 c)) by by eauto.
    by rewrite bool_decide_eq_true_2, Hc. }
  apply incompatible_held in Hc as (t1 & [p1 hs1] & Hk1 & Hl). cbn in Hl.
  pose proof (Forall_lookup_1 _ _ _ _ (inv_ordered c Hi) Hk1) as Ho. cbn [held prog] in Ho.
  destruct p1 as [|[l1 m1|l1] p1]; cbn [ordered] in Ho.
  - apply bool_decide_eq_true_1 in Ho. subst. by apply not_elem_of_nil in Hl.
  - apply andb_true_iff in Ho as [Ho _]. rewrite forallb_forall in Ho. apply list_elem_of_fmap in Hl as (h & -> & Hh).
    apply list_elem_of_In, Ho, Nat.ltb_lt in Hh. eapply (IH t1 l1 m1 p1 hs1); [lia|done].
  - eexists t1, _. unfold step. by rewrite Hk1.
Qed.

Lemma progress c : inv c → ¬ finished c → ∃ t c', step t c = Some c'.
Proof.
  intros Hi Hf. apply not_Forall_Exists in Hf; [|apply _]. apply Exists_exists in Hf as ([p hs] & (t & Hk)%list_elem_of_lookup & Hp).
  destruct p as [|[l m|l] p]; [by destruct Hp|..].
  - apply (wanted_progress 16 c t l m p hs); [done|lia|done].
  - eexists t, _. unfold step. by rewrite Hk.
Qed.

(** *** The length of a run *)

Definition work_left (c : config) (t : nat) : nat :=
  match tasks c !! t with
  | Some k => 2 * length (prog k) - (if asked t c then 1 else 0)
  | None => 0
  end.

Definition measure (c : config) : nat := sum_list_with (work_left c) (seq 0 (length (tasks c))).

Lemma sum_list_with_lt {A} (f g : A → nat) (l : list A) x :
  x ∈ l → (∀ y, y ∈ l → f y <= g y)%nat → (f x < g x)%nat → (sum_list_with f l < sum_list_with g l)%nat.
Proof.
  intros Hx Hle Hlt. apply list_elem_of_split in Hx as (l1 & l2 & ->). rewrite !sum_list_with_app. cbn.
  assert (∀ l', l' ⊆ l1 ++ x :: l2 → sum_list_with f l' <= sum_list_with g l')%nat as H.
  { intros l'. induction l' as [|y l' IH]; intros Hs; cbn; [done|].
    pose proof (Hle y (Hs y ltac:(by left))). assert (sum_list_with f l' <= sum_list_with g l')%nat; [|lia].
    apply IH. intros z Hz. apply Hs. by right. }
  pose proof (H l1 ltac:(set_solver)). pose proof (H l2 ltac:(set_solver)). lia.
Qed.

Lemma step_measure t c c' : inv c → step t c = Some c' → (measure c' < measure c)%nat ∧ length (tasks c') = length (tasks c).
Proof.
  intros Hi Hs. pose proof (step_inv _ _ _ Hs Hi) as Hi'. pose proof Hs as (a & p & hs & Hk & H)%step_cases.
  assert (length (tasks c') = length (tasks c)) as El
    by (destruct H as [(? & ? & _ & _ & ->)|[(? & ? & _ & _ & ->)|(? & _ & ->)]]; cbn; rewrite ?length_insert; done).
  split; [|done]. unfold measure. rewrite El.
  assert (∀ t', t' ≠ t → work_left c' t' = work_left c t') as Hother.
  { intros t' Hne. unfold work_left.
    assert (tasks c' !! t' = tasks c !! t') as -> by (destruct H as [(? & ? & _ & _ & ->)|[(? & ? & _ & _ & ->)|(? & _ & ->)]]; cbn;
      rewrite ?list_lookup_insert_ne by done; done).
    assert (asked t' c' = asked t' c) as ->; [|done]. apply eq_true_iff_eq. rewrite !asked_true.
    destruct H as [(l & m & _ & _ & ->)|[(l & m & _ & _ & ->)|(l & _ & ->)]]; cbn; [set_solver| |done].
    setoid_rewrite list_elem_of_filter. naive_solver. }
  assert (work_left c' t < work_left c t)%nat as Hlt.
  { pose proof (lookup_lt_Some _ _ _ Hk) as Hlen. unfold work_left. rewrite Hk. cbn [prog length].
    destruct H as [(l & m & -> & Ha & ->)|[(l & m & -> & Ha & ->)|(l & -> & ->)]]; cbn [tasks].
    - rewrite Hk, Ha. cbn [prog length]. rewrite (proj2 (asked_true _ _)); [lia|]. exists l, m. cbn. set_solver.
    - rewrite list_lookup_insert_eq, Ha by done. cbn [prog]. lia.
    - rewrite list_lookup_insert_eq by done. cbn [prog]. destruct (asked t c) eqn:Ha; [|lia]. exfalso.
      apply asked_true in Ha as (l' & m' & Hin). destruct (inv_wants c Hi _ _ _ Hin) as (? & ? & E). congruence. }
  apply (sum_list_with_lt _ _ _ t); [apply elem_of_seq; pose proof (lookup_lt_Some _ _ _ Hk); lia| |done].
  intros t' _. destruct (decide (t' = t)) as [->|Hne]; [lia|]. by rewrite Hother.
Qed.

Lemma run_inv sched c c' : inv c → run sched c = Some c' → inv c' ∧ (length sched + measure c' <= measure c)%nat.
Proof.
  revert c. induction sched as [|t sched IH]; intros c Hi; cbn [run].
  - intros [= <-]. split; [done|]. cbn. lia.
  - intros (c1 & H1 & H)%bind_Some. apply IH in H as [Hi' Hm]; [|by eapply step_inv].
    pose proof (step_measure _ _ _ Hi H1) as [Hlt _]. split; [done|]. cbn. lia.
Qed.

Lemma run_app s1 s2 c : run (s1 ++ s2) c = run s1 c ≫= run s2.
Proof.
  revert c. induction s1 as [|t s1 IH]; intros c; cbn; [done|]. destruct (step t c); cbn; [by rewrite IH|done].
Qed.

Lemma run_to_end c : inv c → ∃ sched c', run sched c = Some c' ∧ finished c'.
Proof.
  remember (measure c) as n eqn:En. revert c En. induction n as [n IH] using lt_wf_ind. intros c -> Hi.
  destruct (decide (finished c)) as [Hf|Hf]; [by exists [], c|].
  apply progress in Hf as (t & c1 & H1); [|done]. pose proof (step_measure _ _ _ Hi H1) as [Hlt _].
  destruct (IH _ Hlt c1 eq_refl (step_inv _ _ _ H1 Hi)) as (sched & c' & Hr & Hf). exists (t :: sched), c'. cbn. by rewrite H1.
Qed.

(** *** The tasks of the node *)

(** A complete sequence whose locks all have rank [r] at least. *)
Definition well_ordered (r : nat) (p : list act) : Prop :=
  ordered [] p = true ∧ Forall (λ a, match a with Acq l _ => (r <= rank l)%nat | Rel _ => True end) p.

Lemma release_app l hs hs0 : l ∈ hs.*1 → release l (hs ++ hs0) = release l hs ++ hs0.
Proof.
  induction hs as [|[l' m] hs IH]; [by intros ?%not_elem_of_nil|]. cbn. case_decide as E; [done|].
  intros [->|Hin]%elem_of_cons; [done|]. by rewrite IH.
Qed.

Lemma ordered_under hs0 hs p q :
  ordered hs p = true → Forall (λ a, match a with Acq l _ => Forall (λ h, rank h.1 < rank l)%nat hs0 | Rel _ => True end) p →
  ordered hs0 q = true → ordered (hs ++ hs0) (p ++ q) = true.
Proof.
  intros Hp Ha Hq. revert hs Hp. induction Ha as [|a p Ha _ IH]; intros hs; cbn [ordered app].
  { intros ->%bool_decide_eq_true_1. done. }
  destruct a as [l m|l]; intros [H1 H2]%andb_true_iff; apply andb_true_iff.
  - split; [|exact (IH ((l, m) :: hs) H2)]. rewrite forallb_app, H1. apply forallb_forall. intros h Hh%list_elem_of_In.
    apply Nat.ltb_lt. rewrite Forall_forall in Ha. by apply Ha.
  - apply bool_decide_eq_true_1 in H1. rewrite release_app by done. split; [|by apply IH].
    apply bool_decide_eq_true_2. rewrite fmap_app. set_solver.
Qed.

Lemma well_ordered_nil r : well_ordered r [].
Proof. by split. Qed.

Lemma well_ordered_app r p q : well_ordered r p → well_ordered r q → well_ordered r (p ++ q).
Proof. intros [H1 H2] [H3 H4]. split; [by apply ordered_app|by apply Forall_app]. Qed.

Lemma well_ordered_mjoin r (ps : list (list act)) : Forall (well_ordered r) ps → well_ordered r (mjoin ps).
Proof. induction 1; cbn; [apply well_ordered_nil|by apply well_ordered_app]. Qed.

Lemma well_ordered_lock r l m body :
  (r <= rank l)%nat → well_ordered (S (rank l)) body → well_ordered r (with_lock l m body).
Proof.
  intros Hr [H1 H2]. split.
  - unfold with_lock. cbn [ordered forallb andb]. apply (ordered_under [(l, m)] [] body [Rel l]); [done| |].
    + eapply Forall_impl; [exact H2|]. intros [l' m'|l']; [|done]. intros Hl. constructor; [cbn; lia|done].
    + cbn. rewrite bool_decide_eq_true_2 by by left. by rewrite decide_True.
  - constructor; [done|]. apply Forall_app. split; [|by repeat constructor]. eapply Forall_impl; [exact H2|].
    intros [l' m'|l']; [lia|done].
Qed.

(** Takes a sequence apart into its scopes. *)
Ltac scopes :=
  repeat first [apply well_ordered_nil | apply well_ordered_lock; [cbn; lia|] | apply well_ordered_app].

Lemma remove_ordered r n : (r <= 9)%nat → well_ordered r (remove_locks n).
Proof. intros Hr. apply well_ordered_mjoin, Forall_replicate. by scopes. Qed.

Lemma add_block_ordered r o :
  (r <= 2)%nat → o ≠ NotHeavier → (∀ n, o ≠ Extends n true) → well_ordered r (add_block_locks o).
Proof.
  intros Hr H1 H2. destruct o as [| | |n [|]|]; [by scopes..|by destruct (H2 n)| |done]. scopes. by apply remove_ordered; cbn; lia.
Qed.

Lemma add_peer_ordered o : well_ordered 0 (add_peer_locks o).
Proof. destruct o as [|[|]|]; by scopes. Qed.

(** The tasks that respect the order: all but those of [tx_locks],
    [rpc_send_tx_locks], [block_locks], [mining_locks], [remove_peer_locks],
    [backup_locks] and a block that is not heavier or finds orphans. *)
Inductive safe_task : list act → Prop :=
  | safe_getdata_tx : safe_task getdata_tx_locks
  | safe_getdata_block : safe_task getdata_block_locks
  | safe_getheaders : safe_task getheaders_locks
  | safe_headers l : Forall (λ o, o ≠ NotHeavier ∧ ∀ n, o ≠ Extends n true) l → safe_task (headers_locks l)
  | safe_getaddr : safe_task getaddr_locks
  | safe_addr : safe_task addr_locks
  | safe_add_peer o : safe_task (add_peer_locks o)
  | safe_reconnect l : safe_task (reconnect_locks l)
  | safe_ban : safe_task ban_ip_locks
  | safe_inventory b : safe_task (inventory_locks b)
  | safe_clean l : safe_task (clean_locks l)
  | safe_shutdown : safe_task shutdown_locks
  | safe_rpc_height : safe_task rpc_height_locks
  | safe_rpc_block : safe_task rpc_block_locks
  | safe_rpc_mempool : safe_task rpc_mempool_locks.

Lemma safe_task_ordered p : safe_task p → well_ordered 0 p.
Proof.
  destruct 1 as [| | |l Hl| | |o|l| |[|]|l| | | |]; try by scopes.
  - apply well_ordered_lock; [cbn; lia|]. apply well_ordered_mjoin, Forall_fmap. eapply Forall_impl; [exact Hl|].
    intros o [H1 H2]. by apply add_block_ordered.
  - apply add_peer_ordered.
  - scopes. apply well_ordered_mjoin, Forall_fmap, Forall_true. apply add_peer_ordered.
  - scopes. apply well_ordered_mjoin, Forall_fmap, Forall_true. intros n. scopes. by apply remove_ordered; cbn; lia.
Qed.

Lemma sum_seq_lookup {A} (f : A → nat) (l : list A) :
  sum_list_with (λ t, match l !! t with Some k => f k | None => 0%nat end) (seq 0 (length l)) = sum_list_with f l.
Proof.
  induction l as [|x l IH]; [done|]. cbn [length seq sum_list_with lookup list_lookup]. f_equal. rewrite <- IH, <- fmap_S_seq.
  generalize (seq 0 (length l)). intros k. induction k as [|t k IHk]; cbn; [done|]. by f_equal.
Qed.

Lemma measure_start progs : measure (start progs) = (2 * length (mjoin progs))%nat.
Proof.
  unfold measure. transitivity (sum_list_with (λ k, 2 * length (prog k))%nat (tasks (start progs))).
  - rewrite <- (sum_seq_lookup (λ k, 2 * length (prog k))%nat). unfold work_left.
    assert (∀ t, asked t (start progs) = false) as Ha by (intros t; by apply bool_decide_eq_false_2, not_elem_of_nil).
    generalize (seq 0 (length (tasks (start progs)))). intros l. induction l as [|t l IH]; cbn [sum_list_with]; [done|].
    rewrite IH. destruct (tasks (start progs) !! t) as [k|]; [by rewrite Ha, Nat.sub_0_r|done].
  - induction progs as [|p progs IH]; [done|]. unfold start in *. cbn [tasks fmap list_fmap sum_list_with prog] in *.
    change (mjoin (p :: progs)) with (p ++ mjoin progs). rewrite length_app, IH. lia.
Qed.

(** C23. However the tasks of a node that respect the order of the locks are
    interleaved, none waits for ever: from every state they reach they can all
    go on to their end, and no schedule has more than two steps for each lock
    taken or released. *)
Theorem safe_tasks_finish progs sched c :
  Forall safe_task progs → run sched (start progs) = Some c →
  (length sched <= 2 * length (mjoin progs))%nat ∧
  (¬ finished c → ∃ t c', step t c = Some c') ∧
  ∃ rest c', run (sched ++ rest) (start progs) = Some c' ∧ finished c'.
Proof.
  intros Hp Hr. assert (inv (start progs)) as Hi.
  { apply start_inv. eapply Forall_impl; [exact Hp|]. intros p Hs%safe_task_ordered. apply Hs. }
  pose proof (run_inv _ _ _ Hi Hr) as [Hi' Hm]. split; [|split].
  - rewrite measure_start in Hm. lia.
  - by apply progress.
  - destruct (run_to_end c Hi') as (rest & c' & H1 & H2). exists rest, c'. by rewrite run_app, Hr.
Qed.

(** ** Tasks that do not *)

(** *** More tasks beside a run *)

Definition idle (progs : list (list act)) : list task := (λ p, mkTask p []) <$> progs.

Definition beside (c : config) (progs : list (list act)) : config := mkConfig (tasks c ++ idle progs) (waiting c).

Lemma holders_beside l c progs : holders l (beside c progs) = holders l c.
Proof.
  unfold holders, beside, idle. cbn [tasks]. rewrite fmap_app, concat_app.
  assert (∀ ps : list (list act), concat ((λ t, snd <$> filter (λ h : lock * mode, h.1 = l) (held t)) <$> ((λ p, mkTask p []) <$> ps)) = []) as ->;
    [|apply app_nil_r]. intros ps. by induction ps.
Qed.

Lemma step_beside t c c' progs : step t c = Some c' → step t (beside c progs) = Some (beside c' progs).
Proof.
  unfold step. intros (k & Hk & H)%bind_Some. pose proof (lookup_lt_Some _ _ _ Hk) as Hl.
  change (tasks (beside c progs)) with (tasks c ++ idle progs). rewrite lookup_app_l, Hk by done. cbn [mbind option_bind].
  destruct (prog k) as [|[l m|l] p]; [done|..].
  - change (asked t (beside c progs)) with (asked t c). change (first_for l (beside c progs)) with (first_for l c).
    rewrite holders_beside. destruct (asked t c); [|injection H as <-; done]. destruct (_ && _); [|done]. injection H as <-.
    unfold beside. cbn [tasks waiting]. by rewrite insert_app_l.
  - injection H as <-. unfold beside. cbn [tasks waiting]. by rewrite insert_app_l.
Qed.

Lemma run_beside sched c c' progs : run sched c = Some c' → run sched (beside c progs) = Some (beside c' progs).
Proof.
  revert c. induction sched as [|t sched IH]; intros c; cbn [run]; [by intros [= <-]|].
  intros (c1 & H1 & H)%bind_Some. rewrite (step_beside _ _ _ progs H1). by apply IH.
Qed.

(** A task that begins by asking for one of some locks. *)
Definition wants (ls : list lock) (p : list act) : Prop := ∃ l m q, p = Acq l m :: q ∧ l ∈ ls.

Fixpoint requests (n : nat) (progs : list (list act)) : list (nat * (lock * mode)) :=
  match progs with
  | [] => []
  | (Acq l m :: _) :: progs => (n, (l, m)) :: requests (S n) progs
  | _ :: progs => requests (S n) progs
  end.

Lemma run_requests ls ts rest n w :
  Forall (wants ls) rest → (∀ i p, rest !! i = Some p → ts !! (n + i)%nat = Some (mkTask p [])) →
  (∀ t, (n <= t)%nat → t ∉ w.*1) →
  run (seq n (length rest)) (mkConfig ts w) = Some (mkConfig ts (w ++ requests n rest)).
Proof.
  intros Hr. revert n w. induction Hr as [|p rest (l & m & q & -> & Hl) Hr IH]; intros n w Ht Hw; cbn [length seq run requests].
  { by rewrite app_nil_r. }
  pose proof (Ht 0%nat _ eq_refl) as H0. rewrite Nat.add_0_r in H0. unfold step at 1. cbn [tasks]. rewrite H0.
  cbn [mbind option_bind prog]. unfold asked. cbn [waiting]. rewrite bool_decide_eq_false_2 by by apply Hw.
  cbn [mbind option_bind tasks waiting]. rewrite (IH (S n) (w ++ [(n, (l, m))])).
  - by rewrite <- app_assoc.
  - intros i p Hp. rewrite <- (Ht (S i) p Hp). f_equal. lia.
  - intros t Hn. rewrite fmap_app, not_elem_of_app. split; [apply Hw; lia|]. cbn. intros ->%list_elem_of_singleton. lia.
Qed.

Lemma elem_of_requests ls n rest t l m :
  Forall (wants ls) rest → (t, (l, m)) ∈ requests n rest ↔ (n <= t)%nat ∧ ∃ q, rest !! (t - n)%nat = Some (Acq l m :: q).
Proof.
  intros Hr. revert n. induction Hr as [|p rest (l' & m' & q' & -> & Hl) Hr IH]; intros n; cbn [requests].
  { split; [by intros ?%not_elem_of_nil|by intros (_ & q & ?)]. }
  rewrite elem_of_cons, IH. split.
  - intros [[= -> -> ->]|(Hn & q & Hq)].
    + split; [done|]. exists q'. by rewrite Nat.sub_diag.
    + split; [lia|]. exists q. by replace (t - n)%nat with (S (t - S n)) by lia.
  - intros (Hn & q & Hq). destruct (t - n)%nat as [|k] eqn:E; cbn in Hq.
    + injection Hq as <- <- <-. left. f_equal. lia.
    + right. split; [lia|]. exists q. by replace (t - S n)%nat with k by lia.
Qed.

(** Nothing that is asked for is granted. *)
Definition blocked (ls : list lock) (c : config) : Prop :=
  (∀ t, step t c = None) ∧ Forall (λ e, ∃ p hs, tasks c !! e.1 = Some (mkTask (Acq e.2.1 e.2.2 :: p) hs)) (waiting c) ∧
  Forall (λ l, is_Some (first_for l c)) ls.

Lemma first_for_app l ts w w' ts' t : first_for l (mkConfig ts w) = Some t → first_for l (mkConfig ts' (w ++ w')) = Some t.
Proof.
  unfold first_for. cbn [waiting]. rewrite filter_app. by destruct (filter _ w).
Qed.

(** Once some tasks have blocked each other, whoever wants their locks is
    blocked too. *)
Lemma blocked_spreads ls c rest :
  blocked ls c → Forall (wants ls) rest →
  ∃ c', run (seq (length (tasks c)) (length rest)) (beside c rest) = Some c' ∧ (∀ t, step t c' = None) ∧
    tasks c' = tasks c ++ idle rest.
Proof.
  intros (Hs & Hw & Hl) Hr. set (n := length (tasks c)).
  assert (Hin : ∀ t l m, (t, (l, m)) ∈ waiting c → ∃ p hs, tasks c !! t = Some (mkTask (Acq l m :: p) hs)).
  { intros t l m Hin. rewrite Forall_forall in Hw. exact (Hw _ Hin). }
  assert (Hlt : ∀ t l, first_for l c = Some t → (t < n)%nat).
  { intros t l (m & H)%first_for_Some. apply Hin in H as (p & hs & H). by eapply lookup_lt_Some. }
  assert (Hidle : ∀ i p, rest !! i = Some p → (tasks c ++ idle rest) !! (n + i)%nat = Some (mkTask p [])).
  { intros i p Hp. rewrite lookup_app_r by lia. replace (n + i - length (tasks c))%nat with i by (unfold n; lia).
    unfold idle. by rewrite list_lookup_fmap, Hp. }
  eexists. split; [apply (run_requests ls); [done|done|]|split; [|done]].
  { intros t Ht ([t' [l m]] & -> & H)%list_elem_of_fmap. apply Hin in H as (p & hs & H%lookup_lt_Some). cbn in Ht. lia. }
  assert (Ha : ∀ t, (t < n)%nat → asked t (mkConfig (tasks c ++ idle rest) (waiting c ++ requests n rest)) = asked t c).
  { intros t Ht. apply eq_true_iff_eq. rewrite !asked_true. cbn [waiting]. setoid_rewrite elem_of_app.
    setoid_rewrite (elem_of_requests ls n rest); [|done..]. split; [|naive_solver]. intros (l & m & [H|[H _]]); [by eauto|lia]. }
  intros t. unfold step. cbn [tasks]. destruct (decide (t < n)%nat) as [Ht|Ht].
  - rewrite lookup_app_l by done. specialize (Hs t). unfold step in Hs. destruct (tasks c !! t) as [[p hs]|] eqn:Hk; [|done].
    cbn [mbind option_bind prog held] in *. destruct p as [|[l m|l] p]; [done| |done]. rewrite Ha by done.
    destruct (asked t c) eqn:Hat; [|done]. apply asked_true in Hat as (l' & m' & Hq). destruct (Hin _ _ _ Hq) as (p' & hs' & E).
    rewrite Hk in E. injection E as <- <- <- <-. destruct (first_for_asked l c t m Hq) as [t0 Hf].
    rewrite Hf in Hs. rewrite (first_for_app l (tasks c) (waiting c) _ _ t0 Hf).
    rewrite <- (holders_beside l c rest) in Hs. change (holders l (mkConfig (tasks c ++ idle rest) (waiting c ++ requests n rest)))
      with (holders l (beside c rest)). by destruct (_ && _).
  - destruct (rest !! (t - n)%nat) as [p|] eqn:Hp.
    2: { rewrite lookup_app_r by (unfold n in Ht; lia). unfold idle. rewrite list_lookup_fmap. fold n. by rewrite Hp. }
    pose proof (Hidle _ _ Hp) as Hk. replace (n + (t - n))%nat with t in Hk by lia. rewrite Hk. cbn [mbind option_bind prog].
    destruct (Forall_lookup_1 _ _ _ _ Hr Hp) as (l & m & q & -> & Hls).
    rewrite (proj2 (asked_true _ _)).
    2: { exists l, m. cbn. apply elem_of_app. right. apply (elem_of_requests ls); [done|]. split; [lia|]. by exists q. }
    rewrite Forall_forall in Hl. destruct (Hl l Hls) as [t0 Hf]. rewrite (first_for_app l (tasks c) (waiting c) _ _ t0 Hf).
    rewrite bool_decide_eq_false_2; [done|]. intros [= ->]. apply Hlt in Hf. lia.
Qed.

(** Two tasks that block each other stop every task that wants their locks. *)
Lemma pair_stops ls p q rest sched c :
  run sched (start [p; q]) = Some c → blocked ls c → Forall (λ k, prog k ≠ []) (tasks c) → Forall (wants ls) rest →
  ∃ sched' c', run sched' (start (p :: q :: rest)) = Some c' ∧ (∀ t, step t c' = None) ∧ Forall (λ k, prog k ≠ []) (tasks c').
Proof.
  intros Hr Hb Hp Hrest. destruct (blocked_spreads ls c rest Hb Hrest) as (c' & H1 & H2 & H3).
  exists (sched ++ seq (length (tasks c)) (length rest)), c'. split; [|split; [done|]].
  - change (start (p :: q :: rest)) with (beside (start [p; q]) rest). rewrite run_app, (run_beside _ _ _ rest Hr). exact H1.
  - rewrite H3. apply Forall_app. split; [done|]. apply Forall_fmap. eapply Forall_impl; [exact Hrest|].
    by intros p' (l & m & q' & -> & _).
Qed.

Lemma blocked_pair ls k1 k2 w :
  step 0 (mkConfig [k1; k2] w) = None → step 1 (mkConfig [k1; k2] w) = None →
  Forall (λ e, ∃ p hs, [k1; k2] !! e.1 = Some (mkTask (Acq e.2.1 e.2.2 :: p) hs)) w →
  Forall (λ l, is_Some (first_for l (mkConfig [k1; k2] w))) ls → blocked ls (mkConfig [k1; k2] w).
Proof. intros H0 H1 H2 H3. split; [|by split]. intros [|[|t]]; [done..|]. done. Qed.

(** *** A payment and an announcement *)

Ltac blocked_now :=
  apply blocked_pair; [reflexivity..| |];
  [repeat first [apply Forall_nil_2 | apply Forall_cons_2; [eexists _, _; reflexivity|]]
  |repeat first [apply Forall_nil_2 | apply Forall_cons_2; [eexists; reflexivity|]]].

(** C22. Whoever takes a payment, from a peer or from its owner, locks the pool
    and then the chain; the task of announcements locks the chain and then the
    pool.  When both have their first lock, the node stops: they wait for each
    other, and every task that wants the chain or the pool waits for them. *)
Theorem payment_meets_announcement o b p rest :
  p = tx_locks o ∨ p = rpc_send_tx_locks o → Forall (wants [LChain; LPool]) rest →
  ∃ sched c, run sched (start (p :: inventory_locks b :: rest)) = Some c ∧ (∀ t, step t c = None) ∧
    Forall (λ k, prog k ≠ []) (tasks c).
Proof.
  intros [->| ->] Hr; (eapply (pair_stops [LChain; LPool] _ _ rest [0; 0; 1; 1; 0; 1]%nat);
    [reflexivity|blocked_now|by repeat constructor|done]).
Qed.

(** The miner asks for the chain a second time while it holds it for reading:
    a writer that came in between stops both, and with them every task that
    wants the chain. *)
Theorem miner_meets_writer f b rest :
  Forall (wants [LChain]) rest →
  ∃ sched c, run sched (start (mining_locks f :: inventory_locks b :: rest)) = Some c ∧ (∀ t, step t c = None) ∧
    Forall (λ k, prog k ≠ []) (tasks c).
Proof.
  intros Hr. eapply (pair_stops [LChain] _ _ rest [0; 0; 0; 0; 0; 1; 0]%nat);
    [reflexivity|blocked_now|by repeat constructor|done].
Qed.

(** *** Tasks that block themselves *)

Inductive self_locking : list act → Prop :=
  | self_block n b : self_locking (block_locks (Extends n b))
  | self_mining o : self_locking (mining_locks (Some o))
  | self_remove_peer : self_locking remove_peer_locks
  | self_backup : self_locking backup_locks
  | self_tx : self_locking (tx_locks OverLimit)
  | self_send_tx : self_locking (rpc_send_tx_locks OverLimit)
  | self_headers l : self_locking (headers_locks (NotHeavier :: l)).

Lemma stops_alone n p :
  match run (replicate n 0%nat) (start [p]) with
  | Some c => match tasks c with [k] => prog k ≠ [] ∧ step 0 c = None | _ => False end
  | None => False
  end →
  ∃ sched c, run sched (start [p]) = Some c ∧ (∀ t, step t c = None) ∧ ¬ finished c.
Proof.
  destruct (run _ _) as [c|] eqn:Hr; [|done]. destruct (tasks c) as [|k [|]] eqn:Hk; try done. intros [Hp H0].
  exists (replicate n 0%nat), c. split; [done|]. split.
  - intros [|t]; [done|]. unfold step. by rewrite Hk.
  - intros Hf. unfold finished in Hf. rewrite Hk in Hf. by apply Forall_cons in Hf as [? _].
Qed.

(** A task that takes a lock it holds waits for ever, even when it is alone. *)
Theorem self_locking_stops p :
  self_locking p → ∃ sched c, run sched (start [p]) = Some c ∧ (∀ t, step t c = None) ∧ ¬ finished c.
Proof.
  destruct 1 as [n b|[o|]| | | | |l];
    [apply (stops_alone 22)|apply (stops_alone 9)|apply (stops_alone 9)|apply (stops_alone 5)|apply (stops_alone 3)
    |apply (stops_alone 18)|apply (stops_alone 18)|apply (stops_alone 20)]; vm_compute; (split; [discriminate|reflexivity]).
Qed.

(** ** Witnesses *)

(** Two announcements, a new peer, a clean-up and a request for the height. *)
Definition sample_tasks : list (list act) :=
  [inventory_locks true; inventory_locks false; add_peer_locks Joined; clean_locks [2%nat]; rpc_height_locks].

Lemma safe_tasks_finish_witness :
  ∃ rest c', run ([0; 1; 4; 3; 2; 0; 2] ++ rest)%nat (start sample_tasks) = Some c' ∧ finished c'.
Proof.
  assert (Forall safe_task sample_tasks) as Hs by (repeat constructor).
  destruct (run [0; 1; 4; 3; 2; 0; 2]%nat (start sample_tasks)) as [c|] eqn:E; [|by vm_compute in E].
  exact (proj2 (proj2 (safe_tasks_finish sample_tasks _ c Hs E))).
Defined.

Lemma payment_meets_announcement_witness :
  ∃ sched c, run sched (start [tx_locks Accepted; inventory_locks true; rpc_height_locks; rpc_mempool_locks]) = Some c ∧
    (∀ t, step t c = None) ∧ Forall (λ k, prog k ≠ []) (tasks c).
Proof.
  apply (payment_meets_announcement Accepted true _ [rpc_height_locks; rpc_mempool_locks]); [by left|].
  repeat first [apply Forall_nil_2 | apply Forall_cons_2; [eexists _, _, _; split; [reflexivity|set_solver]|]].
Defined.

Lemma miner_meets_writer_witness :
  ∃ sched c, run sched (start [mining_locks None; inventory_locks true; rpc_height_locks]) = Some c ∧
    (∀ t, step t c = None) ∧ Forall (λ k, prog k ≠ []) (tasks c).
Proof.
  apply (miner_meets_writer None true [rpc_height_locks]).
  repeat first [apply Forall_nil_2 | apply Forall_cons_2; [eexists _, _, _; split; [reflexivity|set_solver]|]].
Defined.

Lemma self_locking_stops_witness :
  ∃ sched c, run sched (start [backup_locks]) = Some c ∧ (∀ t, step t c = None) ∧ ¬ finished c.
Proof. apply self_locking_stops. constructor. Defined.
