(* ===== verification/Crash.v ===== *)
(** * Crash: what a node that stops in the middle of a block leaves on disk

    [Chain::add_block] of src/111/src/chain.rs makes four separate writes for a
    block that becomes the tip: the journal, the batch of the reorganisation,
    the removal of the journal and the batch of [save_block].  Every write of
    RocksDB is atomic and may fail, and the node may stop at any of them.  This
    file says which of the five possible states of the disk a call can leave and
    what of them is all or nothing.  With Startup it follows the recovery of the
    next start, for a [build_block_ops] (the repository calls one it does not
    define) that writes neither the tip nor a block. *)
From stdpp Require Import pretty.
From S2P Require Import Prelude Errors Types Externals Instances Utils Keys Tx Ledger Store Chain.
From S2P Require Import BlockValidation Supply AddBlock History Startup.

(** The writes of one call, up to each point where it can stop. *)
Inductive stage := Journaled | Switched | Cleared | Stored.

#[export] Instance stage_eq_dec : EqDecision stage.
Proof. solve_decision. Defined.

Section Crash.
  Context {CR : Crypto} {CD : Codec} {RK : Rocks} {RKO : RocksOk} {RT : RetryPolicy} {HO : HashOrder}
    {HOO : HashOrderOk} {MP : MempoolOps} {SR : SupplyReader}.

(** What [add_block] computes for a block on its way to the tip. *)
Record reorg_plan := mkPlan {
  pl_id : string;
  pl_journal : ReorgJournal;
  pl_batch : WriteBatch;
  pl_height : Z;
  pl_hash : bytes;
  pl_block : Block;
}.

Definition stage_writes (p : reorg_plan) (s : stage) : WriteBatch :=
  let journaled := [Put (journal_key (pl_id p)) (serialize (pl_journal p))] in
  let switched := journaled ++ pl_batch p in
  let cleared := switched ++ [Delete (journal_key (pl_id p))] in
  match s with
  | Journaled => journaled
  | Switched => switched
  | Cleared => cleared
  | Stored => cleared ++ save_batch (pl_height p) (pl_hash p) (pl_block p)
  end.

Definition disk_at (p : reorg_plan) (s : stage) (m : gmap (cf * bytes) bytes) : gmap (cf * bytes) bytes :=
  apply_batch (stage_writes p s) m.

(** The plan is the one of [block]: its parent is known, it is valid and
    heavy enough, and the journal names the branch it replaces. *)
Definition planned (c : Chain) (clk : clock) (block : Block) (p : reorg_plan) : Prop :=
  header_hash (header block) = Ok (pl_hash p) ∧ pl_block p = block ∧
  hash_to_height (state c) !! pl_hash p = None ∧
  hash_to_height (state c) !! prev_hash (header block) = Some (pl_height p - 1) ∧
  validate_block c block (pl_height p) (clk_validate clk) = Ok tt ∧
  saturating_sub (best_height c) (pl_height p - 1) <= REORG_MAX_DEPTH ∧
  (∃ ms, clk_journal clk = Ok ms ∧ pl_id p = pretty ms) ∧
  pl_journal p = mkReorgJournal (pl_id p) (best_height c) (best_tip c)
                   (wsub 64 (best_height c) (pl_height p - 1)) block.

(** The batch was computed on the disk as the journal left it. *)
Definition batch_planned (c : Chain) (p : reorg_plan) : Prop :=
  ∃ d target, contents d = disk_at p Journaled (contents (db c)) ∧
    compact_to_target (bits (header (pl_block p))) = Ok target ∧
    reorg_batch (set_db d c) (pl_block p) (pl_height p - 1) (pl_height p) (block_work target) = Ok (pl_batch p).

(** The disk is the one of a stage; the batch is known from the second on. *)
Definition stopped_at (c : Chain) (p : reorg_plan) (s : stage) (m : gmap (cf * bytes) bytes) : Prop :=
  m = disk_at p s (contents (db c)) ∧ (s = Journaled ∨ batch_planned c p).

(** ** The stages of one call *)

Lemma start_reorg_journal_cases id journal d r d1 :
  start_reorg_journal id journal d = (r, d1) →
  (r = Ok tt ∧ contents d1 = apply_batch [Put (journal_key id) (serialize journal)] (contents d)) ∨
  ((∀ u, r ≠ Ok u) ∧ contents d1 = contents d).
Proof.
  unfold start_reorg_journal, db_put, write_opt. intros H.
  destruct (write_outcome d [Put (journal_key id) (serialize journal)]) as [E|[e E]];
    rewrite H in E; simpl in E; subst r; [left|right].
  - split; [done|by apply write_ok].
  - split; [done|by eapply write_err].
Qed.

Lemma commit_reorg_batch_cases batch id d r d1 :
  commit_reorg_batch batch id d = (r, d1) →
  (r = Ok tt ∧ contents d1 = apply_batch (batch ++ [Delete (journal_key id)]) (contents d)) ∨
  ((∀ u, r ≠ Ok u) ∧ (contents d1 = contents d ∨ contents d1 = apply_batch batch (contents d))).
Proof.
  unfold commit_reorg_batch. intros [([] & d2 & H1 & H)|(o & H1 & Ho & Hr)]%M_bind_cases.
  - unfold write_opt in H1. apply write_ok in H1. unfold db_delete, write_opt in H.
    destruct (write_outcome d2 [Delete (journal_key id)]) as [E|[e E]]; rewrite H in E; simpl in E; subst r.
    + left. split; [done|]. apply write_ok in H. by rewrite H, H1, apply_batch_app.
    + right. split; [done|]. right. by rewrite (write_err _ _ _ _ H).
  - right. split; [exact Hr|]. left. unfold write_opt in H1.
    destruct (write_outcome d batch) as [E|[e E]]; rewrite H1 in E; simpl in E; subst o; [by destruct (Ho tt)|].
    by eapply write_err.
Qed.

(** Every way [connect_heavier] can end. *)
Lemma connect_heavier_cases clk block ph nw cw target hash c r c1 :
  header_hash (header block) = Ok hash → compact_to_target (bits (header block)) = Ok target →
  hash_to_height (state c) !! hash = None → hash_to_height (state c) !! prev_hash (header block) = Some ph →
  validate_block c block (ph + 1) (clk_validate clk) = Ok tt →
  connect_heavier clk block ph (ph + 1) nw cw (block_work target) c = (r, c1) →
  ((∀ u, r ≠ Ok u) ∧ contents (db c1) = contents (db c) ∧ best_height c1 = best_height c) ∨
  ∃ p s, planned c clk block p ∧ stopped_at c p s (contents (db c1)) ∧ pl_height p = ph + 1 ∧
    ((r = Ok tt ∧ s = Cleared ∧ best_height c1 = ph + 1) ∨
     ((∀ u, r ≠ Ok u) ∧ (s = Journaled ∨ s = Switched) ∧ best_height c1 = best_height c)).
Proof.
  intros Hh Ht Hnew Hph Hv H.
  unfold connect_heavier, mbind, M_bind, get, lift, modify, on_db in H. cbn [db set_db best_height best_tip] in H.
  destruct (Z.ltb_spec REORG_MAX_DEPTH (saturating_sub (best_height c) ph)) as [Hd|Hd].
  { cbn in H. injection H as <- <-. by left. }
  destruct (nw <=? cw * 99 / 100); cbn in H; [injection H as <- <-; by left|].
  destruct (clk_journal clk) as [ms| | |] eqn:Ems; [|by injection H as <- <-; left..].
  destruct (pool_get (db c)) as [[]| | |]; [|by injection H as <- <-; left..].
  set (j := mkReorgJournal (pretty ms) (best_height c) (best_tip c) (wsub 64 (best_height c) ph) block) in H.
  destruct (start_reorg_journal (pretty ms) j (db c)) as [rj d1] eqn:Ej.
  apply start_reorg_journal_cases in Ej as [[-> Ej]|[Hj Ej]];
    [|left; destruct rj as [u| | |]; [by destruct (Hj u)|by injection H as <- <-..]].
  right.
  assert (Hplan : ∀ b, planned c clk block (mkPlan (pretty ms) j b (ph + 1) hash block)).
  { intros b. unfold planned. cbn [pl_hash pl_block pl_height pl_id pl_journal].
    replace (ph + 1 - 1) with ph by lia. split_and!; try done. by exists ms. }
  destruct (reorg_batch (set_db d1 c) block ph (ph + 1) (block_work target)) as [b| | |] eqn:Eb.
  2-4: injection H as <- <-; exists (mkPlan (pretty ms) j [] (ph + 1) hash block), Journaled;
    (split_and!; [apply Hplan|split; [exact Ej|by left]|done|right; split_and!; try done; by left]).
  exists (mkPlan (pretty ms) j b (ph + 1) hash block).
  assert (Hb : batch_planned c (mkPlan (pretty ms) j b (ph + 1) hash block)).
  { exists d1, target. cbn [pl_block pl_height pl_batch]. by replace (ph + 1 - 1) with ph by lia. }
  cbn [db set_db] in H. destruct (commit_reorg_batch b (pretty ms) d1) as [rc d2] eqn:Ec.
  apply commit_reorg_batch_cases in Ec as [[-> Ec]|[Hr Ec]].
  - cbn in H. injection H as <- <-. exists Cleared. split_and!; [apply Hplan| |done|by left].
    split; [|by right]. cbn [db set_best set_db]. rewrite Ec, Ej. unfold disk_at, stage_writes. cbn [pl_id pl_journal pl_batch].
    by rewrite !apply_batch_app.
  - assert ((∀ u, r ≠ Ok u) ∧ c1 = set_db d2 (set_db d1 c)) as [Hr' ->].
    { destruct rc as [u| | |]; [by destruct (Hr u)|by injection H as <- <-..]. }
    destruct Ec as [Ec|Ec]; [exists Journaled|exists Switched];
      (split_and!; [apply Hplan|split; [|by right]|done|right; split_and!; [done|auto|done]]);
      cbn [db set_db]; rewrite Ec, Ej; [done|]. unfold disk_at, stage_writes. by rewrite apply_batch_app.
Qed.

#[local] Hint Extern 0 (Stable _ _) => (let Hc := fresh in intros ? Hc; exact Hc) : typeclass_instances.

(** The bookkeeping after a block writes once, all or nothing. *)
Lemma finish_block_cases add now block height c r c1 :
  waits add → state_lock c = true →
  finish_block (process_orphans_body add now) block height c = (r, c1) →
  ((∃ hash, header_hash (header block) = Ok hash ∧
      contents (db c1) = apply_batch (save_batch height hash block) (contents (db c))) ∨
   ((∀ u, r ≠ Ok u) ∧ contents (db c1) = contents (db c))) ∧ best_height c1 = best_height c.
Proof.
  intros Hadd Hl H. unfold finish_block in H.
  apply M_bind_cases in H as [(u & c2 & Hs & H)|(o & Hs & Ho & Hr)]; unfold on_db in Hs;
    destruct (save_block height block (db c)) as [rs d] eqn:Es; injection Hs as -> <-;
    apply save_block_spec in Es as [(hash & Hh & E & Hc)|[Hn Hc]].
  3: by destruct (Ho tt).
  2: by destruct u.
  2: { split; [|done]. right. by rewrite <- Hc. }
  match type of H with ?m _ = _ => assert (Keeps (λ c', db c' = d ∧ best_height c' = best_height c) m) as Hk end.
  { apply keeps_bind; [apply _|]. intros _. apply keeps_bind; [apply keeps_process_orphans; [done|apply _]|]. intros _. apply _. }
  destruct (Hk (set_db d c) Hl (conj eq_refl eq_refl)) as [_ [E1 E2]].
  rewrite H in E1, E2. cbn [snd] in E1, E2. split; [|done]. left. exists hash. split; [done|]. by rewrite E1.
Qed.

Lemma connect_block_cases clk block ph hash c r c1 :
  state_lock c = true → header_hash (header block) = Ok hash →
  hash_to_height (state c) !! hash = None → hash_to_height (state c) !! prev_hash (header block) = Some ph →
  connect_block clk block ph c = (r, c1) →
  ((∀ u, r ≠ Ok u) ∧ contents (db c1) = contents (db c) ∧ best_height c1 = best_height c) ∨
  ∃ p s, planned c clk block p ∧ stopped_at c p s (contents (db c1)) ∧ pl_height p = ph + 1 ∧
    ((r = Ok true ∧ s = Cleared ∧ best_height c1 = ph + 1) ∨
     ((∀ u, r ≠ Ok u) ∧ (s = Journaled ∨ s = Switched) ∧ best_height c1 = best_height c)).
Proof.
  intros Hl Hh Hnew Hph H. unfold connect_block in H.
  unfold mbind at 1, M_bind, get in H. apply M_bind_cases in H as [([] & c2 & Hv & H)|(o & Hv & Ho & Hr)];
    injection Hv as Hv <-; [|by left].
  apply M_bind_cases in H as [(target & c2 & Ht & H)|(o' & Ht & Ho & Hr)]; injection Ht as Ht <-; [|by left].
  case_match.
  - apply M_bind_cases in H as [([] & c2 & Hc & H)|(o' & Hc & Ho & Hr)];
      eapply connect_heavier_cases in Hc as [(Hn & E1 & E2)|(p & s & Hp & Hs & Hph' & E)]; try done.
    + by destruct (Hn tt).
    + injection H as <- <-. right. exists p, s. split_and!; [done..|]. left.
      by destruct E as [(_ & E)|(Hn & _)]; [|destruct (Hn tt)].
    + by left.
    + right. exists p, s. split_and!; [done..|]. right.
      by destruct E as [(-> & _)|(_ & E)]; [destruct (Ho tt)|].
  - unfold mbind, M_bind in H. rewrite apply_block_action_locked in H by done. injection H as <- <-. by left.
Qed.

Lemma stopped_save c clk block p hash m :
  planned c clk block p → header_hash (header block) = Ok hash → stopped_at c p Cleared m →
  stopped_at c p Stored (apply_batch (save_batch (pl_height p) hash block) m).
Proof.
  intros (Hp & Hb & _) Hh [-> Hs]. rewrite Hh in Hp. injection Hp as ->. rewrite <- Hb.
  split; [|right; by destruct Hs]. unfold disk_at, stage_writes. by rewrite <- apply_batch_app.
Qed.

(** The height in memory follows the third write. *)
Definition height_at (c : Chain) (p : reorg_plan) (s : stage) : Z :=
  match s with Journaled | Switched => best_height c | Cleared | Stored => pl_height p end.

(** Every way a call of [add_block] can end, on disk. *)
Definition add_block_ends (c : Chain) (clk : clock) (block : Block) (r : outcome bool) (c' : Chain) : Prop :=
  (r ≠ Ok true ∧ contents (db c') = contents (db c) ∧ best_height c' = best_height c) ∨
  ∃ p s, planned c clk block p ∧ stopped_at c p s (contents (db c')) ∧
    best_height c' = height_at c p s ∧ (r = Ok true → s = Stored).

Lemma add_block_body_ends add clk block c r c' :
  waits add → state_lock c = false →
  add_block_body (process_orphans_body add (clk_instant clk)) clk block c = (r, c') →
  add_block_ends c clk block r c'.
Proof.
  intros Hadd Hl H. unfold add_block_body, with_lock in H. rewrite Hl in H.
  match type of H with (match ?m ?c0 with _ => _ end) = _ => destruct (m c0) as [r0 c1] eqn:E end.
  assert (∃ b, r = r0 ∧ c' = set_locked b c1) as (lk & -> & ->).
  { destruct r0; injection H as <- <-; [by exists false..|]. exists (state_lock c1). by destruct c1. }
  clear H. unfold add_block_ends. cbn [db set_locked best_height].
  apply M_bind_cases in E as [(hash & c2 & Hh & E)|(o & [= <- <-] & Ho & Hr)]; [|left; by split_and!; [apply Hr|..]].
  injection Hh as Hh <-. unfold mbind at 1, M_bind, get in E. cbn [state set_locked] in E.
  case_bool_decide as Hk; [injection E as <- <-; by left|]. apply eq_None_not_Some in Hk.
  destruct (hash_to_height (state c) !! prev_hash (header block)) as [ph|] eqn:Hph.
  - apply M_bind_cases in E as [(b & c2 & Hc & E)|(o & Hc & Ho & Hr)];
      pose proof (keeps (P:=λ _, True) (m:=connect_block clk block ph) (set_locked true c) eq_refl I) as [Hl2 _];
      rewrite Hc in Hl2; cbn [snd] in Hl2;
      eapply connect_block_cases in Hc as [(Hn & E1 & E2)|(p & s & Hp & Hs & Hph' & Hc)]; try done.
    + by destruct (Hn b).
    + right. destruct Hc as [([= ->] & -> & Hb)|(Hn & _)]; [|by destruct (Hn b)].
      apply M_bind_cases in E as [([] & c3 & Hf & E)|(o & Hf & Ho & Hr)];
        apply finish_block_cases in Hf as [Hf Hb']; try done.
      * injection E as <- <-. destruct Hf as [(hash' & Hh' & Hf)|(Hn & _)]; [|by destruct (Hn tt)].
        exists p, Stored. split_and!; [done| |by rewrite Hb', Hb, <- Hph'|done].
        rewrite Hf, <- Hph'. exact (stopped_save c clk block p hash' _ Hp Hh' Hs).
      * destruct Hf as [(hash' & Hh' & Hf)|(_ & Hf)].
        -- exists p, Stored. split_and!; [done| |by rewrite Hb', Hb, <- Hph'|done].
           rewrite Hf, <- Hph'. exact (stopped_save c clk block p hash' _ Hp Hh' Hs).
        -- exists p, Cleared. split_and!; [done| |by rewrite Hb', Hb, <- Hph'|by intros ->; destruct (Hr true)].
           by rewrite Hf.
    + left. by split_and!; [apply Hr|..].
    + right. exists p, s. destruct Hc as [(-> & _)|(_ & Hs' & Hb)]; [by destruct (Ho true)|].
      split_and!; [done|done| |by intros ->; destruct (Hr true)]. rewrite Hb. by destruct Hs' as [->| ->].
  - left. unfold insert_orphan, mbind, M_bind, get, lift, modify in E. cbn in E.
    destruct (evict_oldest _); injection E as <- <-; done.
Qed.

(** All the states of the disk a call of [add_block] can leave, wherever it
    stops. *)
Lemma add_block_stages n clk block c r c' :
  add_block n clk block c = (r, c') → add_block_ends c clk block r c'.
Proof.
  destruct n as [|n]; cbn [add_block].
  { intros [= <- <-]. by left. }
  destruct (state_lock c) eqn:Hl; [|by intros; eapply add_block_body_ends; [apply waits_add_block|..]].
  unfold add_block_body, with_lock. rewrite Hl. intros [= <- <-]. by left.
Qed.

(** ** What is all or nothing *)

(** The entries that say which blocks there are and which one is the tip. *)
Definition chain_key (ck : cf * bytes) : Prop :=
  ck.1 = default_cf ∧
  (ck.2 = DB_KEY_TIP ∨ ck.2 = DB_KEY_HEIGHT ∨ (∃ h, ck.2 = height_key h) ∨ ∃ hash, ck.2 = block_key hash).

Definition same_chain (m m' : gmap (cf * bytes) bytes) : Prop := ∀ ck, chain_key ck → m !! ck = m' !! ck.

Lemma chain_key_not_summary k :
  chain_key (default_cf, k) →
  k ≠ DB_KEY_UTXO_SET_HASH ∧ k ≠ DB_KEY_TOTAL_SUPPLY ∧ (∀ h, k ≠ hdr_key h) ∧ ∀ id, k ≠ journal_key id.
Proof.
  intros [_ H]. cbn [snd] in H. destruct H as [->|[->|[[h ->]|[hash ->]]]]; done.
Qed.

Lemma apply_utxo_changes_chain snapshot height conn b h s batch a m :
  apply_utxo_changes snapshot height conn b h s batch = Ok a →
  same_chain (apply_batch (ua_batch a) m) (apply_batch batch m).
Proof.
  intros H [c k] [E1 E2]. cbn [fst] in E1. subst c.
  destruct (chain_key_not_summary k (conj eq_refl E2)) as (N1 & N2 & _).
  exact (apply_utxo_changes_frame _ _ _ _ _ _ _ _ m k H N1 N2).
Qed.

#[export] Instance same_chain_equiv : Equivalence same_chain.
Proof.
  split; [by intros m ck|intros m m' H ck Hck; symmetry; by apply H|].
  intros m1 m2 m3 H1 H2 ck Hck. rewrite (H1 ck Hck). by apply H2.
Qed.

(** A batch respects the relation, and operations on other keys do nothing to it. *)
#[export] Instance apply_batch_same_chain b : Proper (same_chain ==> same_chain) (apply_batch b).
Proof.
  induction b as [|o b IH]; intros m m' H; [done|]. apply IH. intros ck Hck.
  destruct o as [c k v|c k]; simpl; destruct (decide ((c, k) = ck)) as [<-|Hne].
  - by rewrite !lookup_insert_eq.
  - rewrite !lookup_insert_ne by done. by apply H.
  - by rewrite !lookup_delete_eq.
  - rewrite !lookup_delete_ne by done. by apply H.
Qed.

Lemma other_keys_same_chain b m :
  (∀ ck, ck ∈ op_key <$> b → ¬ chain_key ck) → same_chain (apply_batch b m) m.
Proof. intros H ck Hck. apply apply_batch_ne. intros Hin. by apply (H ck). Qed.

Lemma build_block_ops_chain c block height work action batch batch' m :
  build_block_ops c block height work action batch = Ok batch' →
  same_chain (apply_batch batch' m) (apply_batch batch m).
Proof.
  unfold build_block_ops. intros (? & _ & H)%bind_Ok. apply bind_Ok in H as (? & _ & H).
  apply bind_Ok in H as (hash & _ & H). apply bind_Ok in H as (a & Ha & [= <-]).
  rewrite !apply_batch_app, <- (apply_utxo_changes_chain _ _ _ _ _ _ _ _ m Ha).
  rewrite (other_keys_same_chain [_; _]), (other_keys_same_chain (index_ops _ _ _)); [done|..].
  - intros [c0 k] [H1| ->]%index_ops_keys; [by intros [E _]; rewrite H1 in E|].
    intros Hk. apply chain_key_not_summary in Hk as (_ & _ & Hk & _). by destruct (Hk height).
  - intros ck. cbn. rewrite !elem_of_cons, elem_of_nil.
    intros [->|[->|[]]]; intros Hk; by apply chain_key_not_summary in Hk as (? & ? & _).
Qed.

Lemma reorg_batch_chain c block ph h work batch m :
  reorg_batch c block ph h work = Ok batch → same_chain (apply_batch batch m) m.
Proof.
  unfold reorg_batch. intros (b & Hb & H)%bind_Ok. rewrite (build_block_ops_chain _ _ _ _ _ _ _ m H). clear H.
  refine (for_each_inv (λ b, same_chain (apply_batch b m) m) _ _ _ _ _ _ Hb); [|done].
  intros b1 h1 b2 _ Hb1 (blk & _ & H)%bind_Ok. by rewrite (build_block_ops_chain _ _ _ _ _ _ _ m H).
Qed.

(** Up to the last write the tip and the blocks are the old ones, with it they
    are the new ones. *)
Lemma stopped_chain c p s m :
  stopped_at c p s m →
  same_chain m (match s with
                | Stored => apply_batch (save_batch (pl_height p) (pl_hash p) (pl_block p)) (contents (db c))
                | _ => contents (db c)
                end).
Proof.
  intros [-> Hb]. unfold disk_at.
  assert (Hj : ∀ m, same_chain (apply_batch [Put (journal_key (pl_id p)) (serialize (pl_journal p))] m) m).
  { intros m. apply other_keys_same_chain. intros ck. cbn. rewrite elem_of_cons, elem_of_nil. intros [->|[]] Hk.
    apply chain_key_not_summary in Hk as (_ & _ & _ & Hk). by destruct (Hk (pl_id p)). }
  assert (Hd : ∀ m, same_chain (apply_batch [Delete (journal_key (pl_id p))] m) m).
  { intros m. apply other_keys_same_chain. intros ck. cbn. rewrite elem_of_cons, elem_of_nil. intros [->|[]] Hk.
    apply chain_key_not_summary in Hk as (_ & _ & _ & Hk). by destruct (Hk (pl_id p)). }
  destruct Hb as [->|(d & target & _ & _ & Hb)]; [apply Hj|].
  pose proof (λ m, reorg_batch_chain _ _ _ _ _ _ m Hb) as Hr.
  destruct s; cbn [stage_writes]; rewrite ?apply_batch_app, ?Hd, ?Hr; [done|by rewrite Hj..].
Qed.

(** C7. A call of [add_block] leaves the disk in one of five states, wherever it
    stops and whatever it answers: as it was, or after the first one, two, three
    or four of its writes, each applied completely; the last three only for a
    valid block whose branch could be built, and the answer "added" only after
    all of them. *)
Theorem add_block_crash_points n clk block c r c' :
  add_block n clk block c = (r, c') →
  (r ≠ Ok true ∧ contents (db c') = contents (db c) ∧ best_height c' = best_height c) ∨
  ∃ p s, planned c clk block p ∧ contents (db c') = disk_at p s (contents (db c)) ∧
    (s = Journaled ∨ batch_planned c p) ∧ best_height c' = height_at c p s ∧ (r = Ok true → s = Stored).
Proof.
  intros [?|(p & s & Hp & [H1 H2] & H3 & H4)]%add_block_stages; [by left|].
  right. by exists p, s.
Qed.

(** ** A failed save strands the chain *)

(** The height in memory is above every known block, and the disk has no
    block at it. *)
Definition stranded (c : Chain) : Prop :=
  (∀ hash h, hash_to_height (state c) !! hash = Some h → h < best_height c) ∧
  contents (db c) !! (default_cf, height_key (best_height c)) = None.

Lemma height_is_chain_key h : chain_key (default_cf, height_key h).
Proof. split; [done|]. right; right; left. by exists h. Qed.

(** The branch to disconnect starts with the block that was never stored. *)
Lemma stranded_no_batch c clk block p : stranded c → planned c clk block p → ¬ batch_planned c p.
Proof.
  intros [Hk Hn] (_ & _ & _ & Hph & _) (d & target & Hd & _ & Hb). apply Hk in Hph as Hlt.
  unfold reorg_batch in Hb. apply bind_Ok in Hb as (b & Hb & _). cbn [best_height set_db] in Hb.
  apply (for_each_elem _ _ _ _ (best_height c)) in Hb as (b1 & b2 & Hb).
  2: { unfold disconnect_heights. rewrite elem_of_reverse, elem_of_seqZ. lia. }
  unfold disconnect_ops in Hb. apply bind_Ok in Hb as (blk & Hl & _). cbn [db set_db] in Hl.
  unfold load_block_from_db in Hl. apply bind_Ok in Hl as (? & _ & Hl).
  apply bind_Ok in Hl as (v & Hv & Hl). apply get_cf_sound in Hv.
  rewrite Hd, (stopped_chain c p Journaled _ (conj eq_refl (or_introl eq_refl)) _ (height_is_chain_key _)), Hn in Hv.
  by subst v.
Qed.

Lemma stranded_add n clk block c r c' :
  stranded c → add_block n clk block c = (r, c') →
  r ≠ Ok true ∧ stranded c' ∧ same_chain (contents (db c')) (contents (db c)).
Proof.
  intros Hs H. pose proof (proj1 (add_block_state n clk block c)) as Es. rewrite H in Es. cbn [snd] in Es.
  assert (r ≠ Ok true ∧ best_height c' = best_height c ∧ same_chain (contents (db c')) (contents (db c))) as (H1 & H2 & H3).
  { apply add_block_stages in H as [(H1 & H2 & H3)|(p & s & Hp & Hst & H3 & H4)]; [by rewrite H2|].
    pose proof (stopped_chain _ _ _ _ Hst) as Hc. destruct Hst as [_ [->|Hb]];
      [|by destruct (stranded_no_batch c clk block p Hs Hp)].
    split_and!; [by intros ?%H4|done|done]. }
  destruct Hs as [Hk Hn]. split_and!; [done| |done]. split; rewrite ?Es, H2; [done|].
  by rewrite (H3 _ (height_is_chain_key _)).
Qed.

(** C18. When the last write fails for a block that raised the height, where no
    block is stored yet, the height in memory has already moved: the tip and the
    blocks on disk are the old ones, and from then on, in every state the running
    node can reach, no block is ever added and nothing is stored, because every
    branch to replace starts with the block that was never written.  (A
    competing block at a height that has one does not do this.) *)
Theorem failed_save_strands n clk block c r c1 c2 :
  (∀ hash h, hash_to_height (state c) !! hash = Some h → h <= best_height c) →
  add_block n clk block c = (r, c1) →
  best_height c < best_height c1 → contents (db c1) !! (default_cf, height_key (best_height c1)) = None →
  rtc chain_step c1 c2 →
  r ≠ Ok true ∧ same_chain (contents (db c2)) (contents (db c)) ∧
  ∀ m clk' block' c3, add_block m clk' block' c2 ≠ (Ok true, c3).
Proof.
  intros Hk H Hh Hn Hrun. pose proof (proj1 (add_block_state n clk block c)) as Es. rewrite H in Es. cbn [snd] in Es.
  assert (r ≠ Ok true ∧ same_chain (contents (db c1)) (contents (db c))) as [Hr Hc].
  { apply add_block_stages in H as [(_ & _ & H3)|(p & s & Hp & Hst & H3 & H4)]; [lia|].
    pose proof (stopped_chain _ _ _ _ Hst) as Hc. destruct s; [split; [by intros ?%H4|done]..|].
    rewrite (Hc _ (height_is_chain_key _)), H3 in Hn. cbn [height_at] in Hn.
    by rewrite (proj1 (proj2 (proj2 (save_batch_lookups _ _ _ _)))) in Hn. }
  assert (stranded c1) as Hs1.
  { split; [|done]. rewrite Es. intros hash h Hhash%Hk. lia. }
  assert (stranded c2 ∧ same_chain (contents (db c2)) (contents (db c))) as [Hs2 Hc2].
  { clear H Hr. revert c2 Hrun. apply (rtc_ind_r (λ c2, stranded c2 ∧ same_chain (contents (db c2)) (contents (db c)))).
    - done.
    - intros c3 c4 _ [m clk' b r' c5 _ Hadd _] [Hs3 Hc3]. apply stranded_add in Hadd as (_ & Hs4 & Hc4); [|done].
      split; [done|]. by rewrite Hc4. }
  split_and!; [done|done|]. intros m clk' block' c3 Hadd. by apply stranded_add in Hadd as [? _].
Qed.

End Crash.

(** ** The tip after a stop *)

Section Stop.
  Context {CR : Crypto} {CRO : CryptoOk} {CD : Codec} {CDO : CodecOk} {RK : Rocks} {RKO : RocksOk}
    {RT : RetryPolicy} {HO : HashOrder} {HOO : HashOrderOk} {MP : MempoolOps} {SR : SupplyReader}.

(** The tip on disk names a block that is stored, at its height. *)
Definition tip_stored (m : gmap (cf * bytes) bytes) : Prop :=
  ∃ h hash block, uint 32 h ∧ wf_block block ∧ header_hash (header block) = Ok hash ∧
    m !! (default_cf, DB_KEY_HEIGHT) = Some (to_be_bytes 4 h) ∧ m !! (default_cf, DB_KEY_TIP) = Some hash ∧
    m !! (default_cf, height_key h) = Some hash ∧ m !! (default_cf, block_key hash) = Some (serialize block).

#[export] Instance tip_stored_proper : Proper (same_chain ==> iff) tip_stored.
Proof.
  assert (∀ m m', same_chain m m' → tip_stored m → tip_stored m') as H.
  { intros m m' H (h & hash & block & H1 & H2 & H3 & H4 & H5 & H6 & H7).
    exists h, hash, block. rewrite <- !H; [done|..]; split; eauto. }
  intros m m' Hm. split; apply H; [done|by symmetry].
Qed.

Lemma tip_stored_save height hash block m :
  uint 32 height → wf_block block → header_hash (header block) = Ok hash →
  tip_stored (apply_batch (save_batch height hash block) m).
Proof.
  intros Hh Hwf Hhash. destruct (save_batch_lookups height hash block m) as (E1 & E2 & E3 & E4).
  exists height, hash, block. rewrite wrap_small in E1 by done. done.
Qed.

(** What a node that starts on such a disk reads. *)
Lemma tip_stored_read d :
  readable d → tip_stored (contents d) →
  ∃ h block hash, load_current_height d = Ok h ∧ load_current_tip d = Ok hash ∧
    load_block_from_db d h = Ok block ∧ header_hash (header block) = Ok hash.
Proof using CRO CDO.
  intros Hr (h & hash & block & Hh & Hwf & Hhash & E1 & E2 & E3 & E4). exists h, block, hash.
  destruct (load_current_stored d h hash) as [F1 F2]; [done|done|by eapply length_header_hash|done|done|].
  split_and!; [done|done| |done]. apply load_block_stored; [done|done|by exists hash].
Qed.

(** A stop leaves the chain of before, or the one with the block on top. *)
Lemma add_block_tip n clk block c r c' :
  wf_block block →
  (∀ ph, hash_to_height (state c) !! prev_hash (header block) = Some ph → 0 <= ph < 2 ^ 32 - 1) →
  tip_stored (contents (db c)) →
  add_block n clk block c = (r, c') →
  tip_stored (contents (db c')) ∧
  ((same_chain (contents (db c')) (contents (db c)) ∧ r ≠ Ok true) ∨
   ∃ ph hash, header_hash (header block) = Ok hash ∧
     hash_to_height (state c) !! prev_hash (header block) = Some ph ∧
     same_chain (contents (db c')) (apply_batch (save_batch (ph + 1) hash block) (contents (db c)))).
Proof using CRO RKO HOO.
  intros Hwf Hph Htip H. apply add_block_stages in H as [(H1 & H2 & _)|(p & s & Hp & Hst & _ & H4)].
  { rewrite H2. split; [done|by left]. }
  apply stopped_chain in Hst. destruct (decide (s = Stored)) as [->|Hs].
  - destruct Hp as (Hhash & Hblk & _ & Hpar & _). rewrite Hblk in Hst. apply Hph in Hpar as Hb. split.
    + rewrite Hst. apply tip_stored_save; [unfold uint; lia|done..].
    + right. exists (pl_height p - 1), (pl_hash p). by replace (pl_height p - 1 + 1) with (pl_height p) by lia.
  - assert (same_chain (contents (db c')) (contents (db c))) as Hsame by by destruct s.
    split; [by rewrite Hsame|]. left. split; [done|by intros ?%H4].
Qed.


End Stop.

(** ** The next start *)

Section Restart.
  Context {CR : Crypto} {CRO : CryptoOk} {CD : Codec} {CDO : CodecOk} {RK : Rocks} {RKO : RocksOk}
    {RT : RetryPolicy} {HO : HashOrder} {HOO : HashOrderOk} {MP : MempoolOps} {SR : SupplyReader}
    {FB : FreeBlockOps}.

(** The recovery calls a function [build_block_ops] that the repository does not
    have.  What is shown here is for one that writes, like the method of that
    name, neither the tip nor a block. *)
Context (build_ops_chain : ∀ d b h a batch batch',
  build_ops_at d b h a batch = Ok batch' →
  ∀ ck, ck ∈ op_key <$> batch' → ck ∈ op_key <$> batch ∨ ¬ chain_key ck).

Lemma write_opt_chain b d :
  (∀ ck, ck ∈ op_key <$> b → ¬ chain_key ck) → same_chain (contents (write_opt b d).2) (contents d).
Proof using RKO.
  intros Hb. unfold write_opt. destruct (write d b) as [r d1] eqn:E. cbn [snd].
  destruct (write_outcome d b) as [E1|[e E1]]; rewrite E in E1; simpl in E1; subst r.
  - rewrite (write_ok _ _ _ E). by apply other_keys_same_chain.
  - by rewrite (write_err _ _ _ _ E).
Qed.

Lemma recover_one_chain k v d :
  starts_with journal_prefix k = true → same_chain (contents (recover_one k v d).2) (contents d).
Proof using build_ops_chain RKO.
  intros Hk. assert (Hdel : ∀ d, same_chain (contents (db_delete k d).2) (contents d)).
  { intros d0. apply write_opt_chain. intros ck. cbn. rewrite elem_of_cons, elem_of_nil. intros [->|[]] [_ Hc].
    cbn [op_key snd] in Hc. destruct Hc as [->|[->|[[h ->]|[hash ->]]]]; by cbn in Hk. }
  unfold recover_one, mbind, M_bind, lift, get.
  destruct (ok_or _ _); try done. destruct (load_current_height d); try done.
  destruct (load_current_tip d); try done. destruct (_ && _); [|apply Hdel].
  destruct (recovery_batch d _ _) as [batch| | |] eqn:Eb; try done.
  pose proof (write_opt_chain batch d (recovery_batch_avoids chain_key _ _ _ _ build_ops_chain Eb)) as Hw.
  destruct (write_opt batch d) as [[u| | |] d1]; try done. by rewrite Hdel.
Qed.

Lemma recover_chain d : same_chain (contents (recover_pending_reorgs d).2) (contents d).
Proof using build_ops_chain RKO.
  unfold recover_pending_reorgs, mbind, M_bind, lift, get. destruct (iterator_from d journal_prefix) as [l| | |]; try done.
  revert d. induction l as [|[k v] l IH]; intros d; cbn [recover_loop]; [done|].
  destruct (starts_with journal_prefix k) eqn:Hk; cbn [negb]; [|done]. unfold mbind, M_bind.
  pose proof (recover_one_chain k v d Hk) as H1. destruct (recover_one k v d) as [[u| | |] d1]; try done.
  by rewrite IH.
Qed.

(** The next start with such a function: the recovery, however it ends, leaves
    the chain that the stop left. *)
Theorem recovered_tip n clk block c r c' d r' d' :
  wf_block block →
  (∀ ph, hash_to_height (state c) !! prev_hash (header block) = Some ph → 0 <= ph < 2 ^ 32 - 1) →
  tip_stored (contents (db c)) →
  add_block n clk block c = (r, c') → contents d = contents (db c') →
  recover_pending_reorgs d = (r', d') → readable d' →
  (∃ h b hash, load_current_height d' = Ok h ∧ load_current_tip d' = Ok hash ∧
     load_block_from_db d' h = Ok b ∧ header_hash (header b) = Ok hash) ∧
  same_chain (contents d') (contents (db c')).
Proof using All.
  intros Hwf Hph Htip H Hd Hrec Hread. pose proof (recover_chain d) as Hc. rewrite Hrec in Hc. cbn [snd] in Hc.
  rewrite Hd in Hc. apply add_block_tip in H as [Ht _]; [|done..].
  split; [|done]. apply tip_stored_read; by rewrite ?Hc.
Qed.

End Restart.

(** ** Witnesses *)

(** The new chain with its genesis block on disk; [faults] says which of the
    next writes fail. *)
Definition crash_chain (faults : list bool) : Chain (RK:=mem_rocks) :=
  set_db (mkMemDB all_cfs
            (apply_batch (save_batch 0 (best_tip new_chain_value) genesis_sample)
               (mem_map (db new_chain_value))) faults) new_chain_value.

#[local] Abbreviation crash_run := (add_block 1 sample_clock block_1).

(** The three attempts of the last write fail. *)
Definition save_faults : list bool := [false; false; false; true; true; true].

Definition unsaved_chain : Chain (RK:=mem_rocks) := (crash_run (crash_chain save_faults)).2.

Lemma unsaved_run : crash_run (crash_chain save_faults) = (Err (Anyhow "Write error"), unsaved_chain).
Proof. unfold unsaved_chain. apply run_eta. by vm_compute. Qed.

Lemma crash_chain_known faults :
  hash_to_height (state (crash_chain faults)) = {[ best_tip new_chain_value := 0 ]}.
Proof.
  assert (∀ (c : Chain (RK:=mem_rocks)) d, state (set_db d c) = state c) as Es by done.
  unfold crash_chain. rewrite Es.
  destruct (new_chain_state (RK:=mem_rocks) (MP:=sample_mempool_ops) genesis_sample ∅ [] empty_db new_chain_value
              new_chain.2 new_chain_run) as (hash & target & _ & _ & _ & _ & Et & _ & Eh & _).
  by rewrite Eh, Et.
Qed.

Lemma add_block_crash_points_witness :
  ∃ p s, contents (db unsaved_chain : DB (Rocks:=mem_rocks))
         = disk_at p s (contents (db (crash_chain save_faults) : DB (Rocks:=mem_rocks))) ∧
         best_height unsaved_chain = height_at (crash_chain save_faults) p s ∧ best_height unsaved_chain = 1.
Proof.
  assert (best_height unsaved_chain = 1) as E by (by vm_compute).
  destruct (add_block_crash_points (RK:=mem_rocks) 1 sample_clock block_1 (crash_chain save_faults) _ _ unsaved_run)
    as [(_ & _ & H)|(p & s & _ & H & _ & Hh & _)].
  - exfalso. rewrite E in H. discriminate H.
  - exists p, s. split; [exact H|split; [exact Hh|exact E]].
Defined.

Lemma failed_save_strands_witness :
  same_chain (contents (db unsaved_chain : DB (Rocks:=mem_rocks))) (contents (db (crash_chain save_faults) : DB (Rocks:=mem_rocks))) ∧
  ∀ m clk' block' c3, add_block m clk' block' unsaved_chain ≠ (Ok true, c3).
Proof.
  refine (proj2 (failed_save_strands (RK:=mem_rocks) 1 sample_clock block_1 (crash_chain save_faults)
                          _ unsaved_chain unsaved_chain _ unsaved_run _ _ (rtc_refl _ _))).
  - intros hash h Hh. rewrite crash_chain_known in Hh. apply lookup_singleton_Some in Hh as [_ <-]. by vm_compute.
  - by vm_compute.
  - by vm_compute.
Defined.

(** The node stops between the batch and the removal of the journal; the next
    start finds the entry and replays it. *)
Definition switched_chain : Chain (RK:=mem_rocks) := (crash_run (crash_chain [false; false; true])).2.

Lemma switched_run :
  crash_run (crash_chain [false; false; true]) = (Err (RocksDB "IO error"), switched_chain).
Proof. unfold switched_chain. apply run_eta. by vm_compute. Qed.

Definition reopened (d : DB (Rocks:=mem_rocks)) : DB (Rocks:=mem_rocks) :=
  mkMemDB (mem_cfs d) (mem_map d) [].

Lemma contents_reopened d : contents (reopened d) = contents d.
Proof. done. Qed.

Definition restarted_db : MemDB := (recover_pending_reorgs (RK:=mem_rocks) (reopened (db switched_chain))).2.

Lemma restarted_run : recover_pending_reorgs (RK:=mem_rocks) (reopened (db switched_chain)) = (Ok tt, restarted_db).
Proof. unfold restarted_db. apply run_eta. by vm_compute. Qed.

Lemma sample_block_ops_chain d b h a batch batch' :
  build_ops_at (RK:=mem_rocks) d b h a batch = Ok batch' →
  ∀ ck, ck ∈ op_key <$> batch' → ck ∈ op_key <$> batch ∨ ¬ chain_key ck.
Proof.
  intros [= <-] ck. rewrite fmap_app, elem_of_app. intros [?|Hck]; [by left|right].
  destruct ck as [c k]. apply index_ops_keys in Hck as [H| [= -> ->]]; [by intros [E _]; rewrite H in E|].
  intros Hk. apply chain_key_not_summary in Hk as (_ & _ & Hk & _). by destruct (Hk h).
Qed.

Lemma crash_chain_tip : tip_stored (contents (db (crash_chain [false; false; true]) : DB (Rocks:=mem_rocks))).
Proof.
  apply (tip_stored_save 0 (best_tip new_chain_value) genesis_sample).
  - by split.
  - apply (bool_decide_unpack _). by vm_compute.
  - by vm_compute.
Qed.

Lemma crash_chain_parents faults b ph :
  hash_to_height (state (crash_chain faults)) !! prev_hash (header b) = Some ph → 0 <= ph < 2 ^ 32 - 1.
Proof. intros Hph. rewrite crash_chain_known in Hph. apply lookup_singleton_Some in Hph as [_ <-]. lia. Qed.


Lemma recovered_tip_witness :
  ∃ h b hash, load_current_height (restarted_db : DB (Rocks:=mem_rocks)) = Ok h ∧
    load_current_tip (restarted_db : DB (Rocks:=mem_rocks)) = Ok hash ∧
    load_block_from_db (restarted_db : DB (Rocks:=mem_rocks)) h = Ok b ∧ header_hash (header b) = Ok hash.
Proof.
  exact (proj1 (recovered_tip (RK:=mem_rocks) sample_block_ops_chain 1 sample_clock block_1
                   (crash_chain [false; false; true]) _ switched_chain (reopened (db switched_chain)) _
                   restarted_db block_1_wf (crash_chain_parents _ _) crash_chain_tip switched_run
                   (contents_reopened (db switched_chain)) restarted_run (mem_readable _))).
Defined.

(** The journal of the interrupted call is gone and the tip is the old one,
    while the header of the block stays behind. *)
Example crash_leaves_header :
  mem_map restarted_db !! (default_cf, DB_KEY_HEIGHT) = Some (to_be_bytes 4 0) ∧
  mem_map restarted_db !! (default_cf, hdr_key 1) = Some (serialize (header block_1)) ∧
  mem_map restarted_db !! (default_cf, height_key 1) = None.
Proof. split_and!; by vm_compute. Qed.
