(* ===== verification/Payment.v ===== *)
(** * Payment: a payment on its way from the wallet to the pool

    The composition of four components: [Wallet::create_tx] of
    src/111/src/wallet.rs builds a transaction, [/send_tx] of
    src/111/src/main.rs takes it, [Mempool::insert] of src/111/src/mempool.rs
    files it, and [validate_transaction] of src/111/src/tx.rs accepts it.  The
    node's acceptance of a transparent transaction is first shown equivalent to
    a reference definition that says nothing of the order of the checks; then a
    payment whose coins are there and whose rate is high enough is followed to
    the pool, and to the block that cannot hold it. *)
From S2P Require Import Prelude Errors Types Externals Instances Utils Keys Tx Ledger Store Chain BlockValidation Mempool Rpc Wallet.

#[local] Existing Instance pool_ops | 0.

(** ** The reference definition of an acceptable payment *)

Section Accept.
  Context {CR : Crypto} {CD : Codec} {RK : Rocks} {RKO : RocksOk}.

(** A coinbase output may be spent a hundred blocks later. *)
Definition settled (d : DB) (height : Z) (i : TXInput) : Prop :=
  match contents d !! ("coinbase", txid i) with
  | Some b => length b = 8%nat ∧ COINBASE_MATURITY <= saturating_sub height (from_be_bytes b)
  | None => True
  end.

Record acceptable (d : DB) (best height : Z) (t : Transaction) : Prop := mkAcceptable {
  (** final, or not before its time *)
  ok_time : lock_time t <= wrap 32 best ∨ Forall (λ i, sequence i = u32_MAX) (inputs t);
  (** distinct outpoints, that may be spent *)
  ok_distinct : NoDup (outpoint <$> inputs t);
  ok_settled : Forall (settled d height) (inputs t);
  (** worth what it creates and ten units a byte *)
  ok_worth : ∃ outs s, Forall2 (stored d) (inputs t) outs ∧ try_sum 64 (value <$> outs) = Some s ∧
    sumZ (value <$> outputs t) + MIN_FEE_PER_BYTE * tx_size t <= s;
}.

(** The node has the column families that validation asks for. *)
Definition validates (d : DB) : Prop :=
  readable d ∧ Forall (λ f, cf_handle d f = true) ["utxo"; "anonymous"; "key_images"; "coinbase"].

Lemma check_input_iff d height seen i seen' :
  readable d →
  check_input d height seen i = Ok seen' ↔ seen' = outpoint i :: seen ∧ (outpoint i ∉ seen) ∧ settled d height i.
Proof.
  intros [_ Hr]. unfold check_input, settled. rewrite Hr.
  destruct (decide (outpoint i ∈ seen)) as [Hin|Hin].
  { rewrite bool_decide_eq_true_2 by done. split; [done|]. intros (_ & Hn & _). destruct (Hn Hin). }
  rewrite bool_decide_eq_false_2 by done. cbn [negb ensure mbind outcome_bind].
  destruct (contents d !! ("coinbase", txid i)) as [b|]; cbn [mbind outcome_bind].
  2: { split; [by intros [= <-]|by intros (-> & _)]. }
  destruct (Nat.eqb_spec (length b) 8) as [Hl|Hl]; cbn [ensure mbind outcome_bind].
  2: { split; [done|]. by intros (_ & _ & ? & _). }
  destruct (Z.ltb_spec (saturating_sub height (from_be_bytes b)) COINBASE_MATURITY) as [Hm|Hm]; cbn.
  - split; [done|]. intros (_ & _ & _ & ?). lia.
  - split; [by intros [= <-]|by intros (-> & _)].
Qed.

Lemma check_inputs_iff d height seen l :
  readable d →
  (∃ seen', for_each (check_input d height) seen l = Ok seen') ↔
  NoDup (outpoint <$> l) ∧ (∀ k, k ∈ outpoint <$> l → k ∉ seen) ∧ Forall (settled d height) l.
Proof.
  intros Hr. revert seen. induction l as [|i l IH]; intros seen; cbn [for_each]; csimpl.
  { split; [|by eauto]. intros _. split_and!; [constructor|set_solver|constructor]. }
  rewrite NoDup_cons, Forall_cons. split.
  - intros (s & (s1 & (-> & Hn & Hs)%check_input_iff & H)%bind_Ok); [|done].
    destruct (proj1 (IH (outpoint i :: seen)) (ex_intro _ _ H)) as (H1 & H2 & H3).
    assert (∀ k, k ∈ outpoint <$> l → k ≠ outpoint i ∧ k ∉ seen) as H4.
    { intros k Hk%H2. by rewrite not_elem_of_cons in Hk. }
    split_and!; [|done| |done|done]; [by intros [? _]%H4|].
    intros k [->|Hk]%elem_of_cons; [done|by apply H4].
  - intros ([Hn Hnd] & Hdis & Hs & Hf).
    destruct (proj2 (IH (outpoint i :: seen))) as [s Hl].
    { split_and!; [done| |done]. intros k Hk. apply not_elem_of_cons. split; [by intros ->|]. apply Hdis. by right. }
    exists s. apply bind_Ok. exists (outpoint i :: seen). split; [|done]. apply check_input_iff; [done|].
    split_and!; [done|apply Hdis; by left|done].
Qed.

Lemma utxo_values_iff d acc l s :
  readable d →
  for_each (utxo_value d) acc l = Ok s ↔
  ∃ outs, Forall2 (stored d) l outs ∧ try_sum_from 64 acc (value <$> outs) = Some s.
Proof.
  intros [_ Hr]. revert acc. induction l as [|i l IH]; intros acc; cbn [for_each].
  { split.
    - intros [= ->]. exists []. by split; [constructor|].
    - intros (outs & ->%Forall2_nil_inv_l & H). by injection H as ->. }
  split.
  - intros H. change (for_each (utxo_value d) acc (i :: l) = Ok s) in H.
    destruct (utxo_values_Ok d acc (i :: l) s H) as (outs & Ho & _ & Hs). by exists outs.
  - intros (outs & (o & outs' & (v & Hv & Ho) & Hst & ->)%Forall2_cons_inv_l & Hs).
    rewrite fmap_cons in Hs. cbn [try_sum_from] in Hs.
    destruct (checked_add 64 acc (value o)) as [a|] eqn:Ea; [|done]. cbn in Hs.
    apply bind_Ok. exists a. split; [|apply IH; by exists outs'].
    unfold utxo_value. rewrite Hr, Hv. cbn [mbind outcome_bind]. rewrite Ho. cbn. by rewrite Ea.
Qed.

(** The end of [validate_transaction], as an equivalence. *)
Lemma fee_check_iff t s :
  wf_tx t → MIN_FEE_PER_BYTE * tx_size t < 2 ^ 64 → is_anonymous t = false → s < 2 ^ 64 →
  (output_sum ← ok_or (try_sum 64 (value <$> outputs t)) ValueOverflow;
   (ensure (negb (s <? output_sum)) (InvalidTx "Outputs exceed inputs"));;
   fee ← ok_or (checked_sub s output_sum) ValueOverflow;
   required ← required_fee t;
   ensure (negb (fee <? wrap 64 required)) InsufficientFee) = Ok tt ↔
  sumZ (value <$> outputs t) + MIN_FEE_PER_BYTE * tx_size t <= s.
Proof.
  intros Hwf Hsz Han Hs. assert (0 <= tx_size t) as Hpos by (unfold tx_size; lia).
  pose proof (sumZ_nonneg _ (wf_tx_outputs_nonneg t Hwf)) as Hnn. unfold MIN_FEE_PER_BYTE in *.
  assert (required_fee t = Ok (tx_size t * 10)) as Hreq.
  { unfold required_fee. rewrite Han, (wrap_small 64) by (unfold uint; lia). unfold checked_mul, MIN_FEE_PER_BYTE.
    by rewrite (proj2 (Z.ltb_lt _ _)) by lia. }
  split.
  - intros H. apply fee_check_Ok in H as [_ (r & Hr & Hle)]; [|done]. rewrite Hreq in Hr. injection Hr as <-.
    rewrite wrap_small in Hle by (unfold uint; lia). lia.
  - intros Hle. rewrite try_sum_eq by (try apply wf_tx_outputs_nonneg; try done; lia). cbn [ok_or mbind outcome_bind].
    rewrite (proj2 (Z.ltb_ge _ _)) by lia. cbn [negb ensure mbind outcome_bind].
    rewrite (proj2 (checked_sub_Some _ _ _)) by (split; [reflexivity|lia]). cbn [ok_or mbind outcome_bind]. rewrite Hreq.
    cbn [mbind outcome_bind]. rewrite wrap_small by (unfold uint; lia).
    by rewrite (proj2 (Z.ltb_ge _ _)) by lia.
Qed.

Lemma validate_transaction_acceptable d best t height :
  wf_tx t → MIN_FEE_PER_BYTE * tx_size t < 2 ^ 64 → is_coinbase t = false → is_anonymous t = false → validates d →
  validate_transaction d best t height = Ok tt ↔ acceptable d best height t.
Proof.
  intros Hwf Hsz Hcb Han [Hr Hcf]. unfold validate_transaction. rewrite Hcb, Han.
  assert (Htime : (wrap 32 best <? lock_time t) && existsb (λ i, negb (sequence i =? u32_MAX)) (inputs t) = false ↔
    lock_time t <= wrap 32 best ∨ Forall (λ i, sequence i = u32_MAX) (inputs t)).
  { rewrite andb_false_iff, Z.ltb_ge. f_equiv. rewrite <- not_true_iff_false, existsb_exists, Forall_forall. split.
    - intros H i Hi. destruct (Z.eqb_spec (sequence i) u32_MAX) as [|Hne]; [done|]. destruct H. exists i.
      split; [by apply list_elem_of_In|]. by rewrite (proj2 (Z.eqb_neq _ _)).
    - intros H (i & Hi%list_elem_of_In & Hs). rewrite (H i Hi), Z.eqb_refl in Hs. done. }
  destruct ((wrap 32 best <? lock_time t) && _) eqn:Hlt.
  { split; [done|]. intros [H _ _ _]. by apply Htime in H. }
  rewrite (proj1 Hr). unfold require_cf. rewrite !Forall_cons in Hcf. destruct Hcf as (-> & -> & -> & -> & _).
  cbn [ensure mbind outcome_bind]. split.
  - intros (seen & Hi & H)%bind_Ok. apply bind_Ok in H as (s & Hs & H).
    destruct (proj1 (check_inputs_iff d height [] (inputs t) Hr) (ex_intro _ _ Hi)) as (Hnd & _ & Hset).
    apply utxo_values_iff in Hs as (outs & Ho & Hs); [|done].
    apply fee_check_iff in H; [|done|done|done|by eapply (try_sum_from_bound 64); [|exact Hs]].
    split; [by apply Htime|done|done|]. by exists outs, s.
  - intros [_ Hnd Hset (outs & s & Ho & Hs & Hle)].
    destruct (proj2 (check_inputs_iff d height [] (inputs t) Hr)) as [seen Hseen];
      [split_and!; [done|intros k _ ?%not_elem_of_nil; done|done]|].
    rewrite Hseen. cbn [mbind outcome_bind].
    rewrite (proj2 (utxo_values_iff d 0 (inputs t) s Hr)) by by exists outs.
    cbn [mbind outcome_bind]. apply fee_check_iff; [done..| |done]. by eapply (try_sum_from_bound 64); [|exact Hs].
Qed.

(** C3. The reference definition is exactly what the node accepts: on a readable
    database a transparent transaction validates if and only if it is final or
    due, spends distinct, stored and mature outputs, and these are worth its
    outputs plus ten units per byte. *)
Theorem validate_transaction_equiv d best t height :
  wf_tx t → MIN_FEE_PER_BYTE * tx_size t < 2 ^ 64 → is_coinbase t = false → is_anonymous t = false → validates d →
  validate_transaction d best t height = Ok tt ↔ acceptable d best height t.
Proof. apply validate_transaction_acceptable. Qed.

End Accept.

(** ** From the wallet to the pool *)

Section Pool.
  Context {CR : Crypto} {CRO : CryptoOk} {CD : Codec} {CDO : CodecOk} {RK : Rocks} {RKO : RocksOk}
    {HO : HashOrder} {HOO : HashOrderOk} {HP : HeapOrder} {WB : Web}.

Lemma set_iter_empty : set_iter (∅ : gset bytes) = [].
Proof. apply Permutation_nil_r. by rewrite set_iter_perm, elements_empty. Qed.

(** The inputs of a transaction without parents in the pool. *)
Lemma pool_inputs_confirmed d m deps acc l outs s :
  readable d → Forall2 (stored d) l outs → try_sum_from 64 acc (value <$> outs) = Some s →
  for_each (pool_input d m false) (acc, deps) l = Ok (s, deps).
Proof.
  intros [_ Hr] Hst. revert acc. induction Hst as [|i o l outs (v & Hv & Ho) Hst IH]; intros acc Hs; cbn [for_each].
  { cbn in Hs. by injection Hs as ->. }
  rewrite fmap_cons in Hs. cbn [try_sum_from] in Hs. apply bind_Some in Hs as (a & Ha & Hs).
  apply bind_Ok. exists (a, deps). split; [|by apply IH].
  unfold pool_input. cbn [output_key]. rewrite Hr, Hv. cbn [mbind outcome_bind]. rewrite Ho. cbn. by rewrite Ha.
Qed.

(** What the pool files for a transaction that spends confirmed outputs only. *)
Definition confirmed_entry (t : Transaction) (time fee : Z) : MempoolEntry :=
  mkMempoolEntry t (fee / tx_size t) time ∅ fee.

Lemma check_entry_confirmed d m t time outs s :
  validates d → wf_tx t → is_anonymous t = false → 1 <= tx_size t <= 500000 →
  Forall (λ i, pool_txs m !! txid i = None) (inputs t) → pool_txs m !! tx_hash t = None →
  Forall2 (stored d) (inputs t) outs → try_sum 64 (value <$> outs) = Some s → sumZ (value <$> outputs t) <= s →
  check_entry d m t (Ok time) = Ok (confirmed_entry t time (s - sumZ (value <$> outputs t))).
Proof.
  intros [Hr Hcf] Hwf Han Hsz Hnp Hid Hst Hs Hle. unfold check_entry.
  rewrite (proj2 (Z.eqb_neq (tx_size t) 0)), (proj2 (Z.ltb_ge 500000 (tx_size t))) by lia.
  cbn [orb negb ensure mbind outcome_bind]. rewrite (proj1 Hr). unfold require_cf. rewrite !Forall_cons in Hcf.
  destruct Hcf as (-> & -> & _). cbn [ensure mbind outcome_bind].
  assert (filter (λ id, is_Some (pool_txs m !! id)) (txid <$> inputs t) = []) as ->.
  { apply elem_of_nil_inv. intros x [[e He] (i & -> & Hi)%list_elem_of_fmap]%list_elem_of_filter.
    rewrite Forall_forall in Hnp. by rewrite Hnp in He. }
  change (ancestors (Z.to_nat MAX_PACKAGE_DEPTH) (pool_txs m) ∅ (reverse [])) with
    (Ok (∅ : gset bytes, Z.to_nat MAX_PACKAGE_DEPTH)).
  cbn [mbind outcome_bind snd fst]. change (negb (Z.to_nat MAX_PACKAGE_DEPTH =? 0)%nat) with true.
  cbn [ensure mbind outcome_bind]. unfold package_size. rewrite set_iter_empty. cbn [for_each mbind outcome_bind].
  rewrite Han. rewrite (pool_inputs_confirmed d m ∅ 0 (inputs t) outs s) by done. cbn [mbind outcome_bind fst snd].
  pose proof (try_sum_from_bound 64 (value <$> outs) 0 s eq_refl Hs) as Hb.
  rewrite try_sum_eq by (try apply wf_tx_outputs_nonneg; try done; lia). cbn [ok_or mbind outcome_bind].
  rewrite (proj2 (checked_sub_Some _ _ _)) by (split; [reflexivity|lia]). cbn [ok_or mbind outcome_bind].
  unfold div_or_panic. rewrite (proj2 (Z.eqb_neq (tx_size t) 0)) by lia. cbn [mbind outcome_bind]. by rewrite Hid.
Qed.

End Pool.

Section Send.
  (** The wallet opens a database of its own. *)
  Context {RW : Rocks}.
  Context {CR : Crypto} {CRO : CryptoOk} {CD : Codec} {CDO : CodecOk} {RK : Rocks} {RKO : RocksOk}
    {HO : HashOrder} {HOO : HashOrderOk} {HP : HeapOrder} {WB : Web} {KC : Keychain} {KCO : KeychainOk}.

(** The node has the coins the wallet knows, at the value it knows, and would
    let them be spent. *)
Definition coins_there (d : DB) (height : Z) (utxos : list Utxo) : Prop :=
  NoDup ((λ u, (u_txid u, u_vout u)) <$> utxos) ∧
  Forall (λ u, (∃ o, stored d (unsigned_input u) o ∧ value o = u_value u) ∧ settled d height (unsigned_input u)) utxos.

Lemma spent_coins d height utxos coins l :
  coins_there d height utxos → coins ⊆+ utxos → outpoint <$> l = (λ u, (u_txid u, u_vout u)) <$> coins →
  NoDup (outpoint <$> l) ∧ Forall (settled d height) l ∧
  ∃ outs, Forall2 (stored d) l outs ∧ value <$> outs = u_value <$> coins.
Proof.
  intros [Hnd Hall] Hsub E. split; [|].
  { rewrite E. apply submseteq_Permutation in Hsub as [k Hk]. rewrite Hk, fmap_app in Hnd. by apply NoDup_app in Hnd as [? _]. }
  assert (Forall (λ u, (∃ o, stored d (unsigned_input u) o ∧ value o = u_value u) ∧ settled d height (unsigned_input u)) coins) as Hc.
  { rewrite Forall_forall in Hall |- *. intros u Hu. apply Hall. by eapply elem_of_submseteq. }
  clear Hsub Hall Hnd. revert l E. induction Hc as [|u coins [(o & Ho & Hv) Hs] Hc IH]; intros [|i l] E; try done.
  { split; [constructor|]. exists []. by split. }
  injection E as E1 E2 E3. destruct (IH l E3) as (H1 & outs & H2 & H3). unfold settled, stored in *. cbn in Hs, Ho.
  split; [constructor; [by rewrite E1|done]|]. exists (o :: outs). csimpl. rewrite H3, Hv. split; [|done].
  constructor; [by rewrite E1, E2|done].
Qed.

(** A payment at a rate that covers its bytes is acceptable. *)
Lemma payment_acceptable d best height master ci to amount rate ca utxos t :
  payment master ci to amount rate ca utxos t → Forall wf_utxo utxos → no_overflow utxos amount rate →
  coins_there d height utxos → MIN_FEE_PER_BYTE * tx_size t <= fee_low (Z.of_nat (length (inputs t))) rate →
  acceptable d best height t ∧
  ∃ outs s, Forall2 (stored d) (inputs t) outs ∧ try_sum 64 (value <$> outs) = Some s ∧
    MIN_FEE_PER_BYTE * tx_size t <= s - sumZ (value <$> outputs t).
Proof.
  intros Hp Hw Hno Hd Hrate. pose proof Hno as (Hv & Hs & Ha & _).
  destruct (payment_conserves _ _ _ _ _ _ _ _ Hp Hno) as (coins & fee & pkh & rest & Hsub & Hop & _ & _ & _ & Hsum & [Hfee _] & _).
  assert (length (inputs t) = length coins) as Hl.
  { pose proof (f_equal length Hop) as E. by rewrite !length_fmap in E. }
  destruct (spent_coins _ _ _ _ _ Hd Hsub Hop) as (Hnd & Hset & outs & Hst & Hov).
  assert (coins_value coins <= coins_value utxos) as Hle.
  { apply submseteq_Permutation in Hsub as [k Hk]. rewrite (coins_value_perm _ _ Hk). unfold coins_value.
    rewrite fmap_app, sumZ_app. assert (0 <= sumZ (u_value <$> k)); [|lia].
    apply sumZ_nonneg. rewrite Hk in Hv. apply Forall_app in Hv as [_ Hk']. by apply Forall_fmap. }
  assert (try_sum 64 (value <$> outs) = Some (coins_value coins)) as Hts.
  { rewrite Hov. apply try_sum_eq; [lia| |unfold coins_value in *; lia]. apply Forall_fmap.
    rewrite Forall_forall in Hv |- *. intros u Hu. apply Hv. by eapply elem_of_submseteq. }
  rewrite Hl in Hrate. split.
  - split; [left| done|done|].
    + destruct Hp as [? ? ? ? ? ? _ _ _ _ Hsame _]. injection Hsame as _ _ _ Hlt _. rewrite <- Hlt.
      apply (wrap_uint 32); lia.
    + exists outs, (coins_value coins). split_and!; [done|done|lia].
  - exists outs, (coins_value coins). split_and!; [done|done|lia].
Qed.

#[local] Abbreviation NodeChain := (Chain (RK:=RK) (MP:=pool_ops)).

(** The pool of a node that can take [t]: free, without it and its parents, and
    with room. *)
Record takes (c : NodeChain) (t : Transaction) : Prop := mkTakes {
  takes_inv : pool_inv (sp_pool (chain_mempool c));
  takes_free : sp_held (chain_mempool c) = false;
  takes_new : pool_txs (sp_pool (chain_mempool c)) !! tx_hash t = None;
  takes_parents : Forall (λ i, pool_txs (sp_pool (chain_mempool c)) !! txid i = None) (inputs t);
  takes_count : pool_len (sp_pool (chain_mempool c)) < MAX_POOL_TXS;
  takes_bytes : total_bytes (sp_pool (chain_mempool c)) + tx_size t <= max_size (sp_pool (chain_mempool c));
}.

Lemma takes_under_limit (c : NodeChain) t e :
  takes c t → 1 <= tx_size t <= 500000 → entry_tx e = t →
  over_limit (add_entry (tx_hash t) e (sp_pool (chain_mempool c))) = false.
Proof.
  intros [Hi _ Hid _ Hn Hb] Hsz <-. unfold over_limit. cbn [add_entry max_size total_bytes].
  pose proof (pool_bytes_bound _ (inv_wf _ Hi)) as Hpb. rewrite <- (total_bytes_exact _ Hi) in Hpb.
  unfold pool_len, MAX_POOL_TXS in *. cbn [add_entry pool_txs]. rewrite map_size_insert_None by done.
  rewrite wadd_small by lia. rewrite (proj2 (Z.ltb_ge _ _)), (proj2 (Z.ltb_ge _ _)) by lia. done.
Qed.

(** C8. A payment reaches the pool. The wallet builds it from coins the node
    has; at a rate that covers ten units per byte of its real size the node
    validates it, answers "TX sent" to a request with a token, and its pool then
    holds it under the hash the wallet shows, with no dependency and the fee that
    the coins leave over. *)
Theorem payment_reaches_pool dw master ci to amount rate ca utxos t id (c : NodeChain) best height now secret r raw time :
  get_utxos (RK:=RW) dw master true = Ok utxos → Forall wf_utxo utxos → no_overflow utxos amount rate →
  create_tx (RK:=RW) dw master ci to amount rate ca = Ok (t, id) →
  coins_there (db c) height utxos → MIN_FEE_PER_BYTE * tx_size t <= fee_low (Z.of_nat (length (inputs t))) rate →
  tx_size t <= 500000 → validates (db c) → takes c t →
  authorized now secret r = true → hex_decode raw = Some (serialize t) →
  validate_transaction (db c) best t height = Ok tt ∧
  ∃ fee c', serve now secret r (SendTx (Some (Some raw))) (Ok time) c = (Ok (HttpOk (bstr "TX sent")), c') ∧
    pool_txs (sp_pool (chain_mempool c')) = <[id := confirmed_entry t time fee]> (pool_txs (sp_pool (chain_mempool c))) ∧
    db c' = db c ∧ state c' = state c ∧
    MIN_FEE_PER_BYTE * tx_size t <= fee ∧
    ∃ coins, coins ⊆+ utxos ∧ outpoint <$> inputs t = (λ u, (u_txid u, u_vout u)) <$> coins ∧
      coins_value coins = sumZ (value <$> outputs t) + fee.
Proof.
  intros Hu Hw Hno H Hd Hrate Hsz Hv Ht Hauth Hhex. pose proof Hno as (_ & _ & Ha & _ & Hb & _).
  destruct (create_tx_Ok (RK:=RW) _ _ _ _ _ _ _ _ _ _ Hu H) as [Hp ->].
  destruct (payment_wf _ _ _ _ _ _ _ _ Hp Hw ltac:(lia) ltac:(unfold uint; lia)) as (Hwt & Han & _).
  destruct (payment_acceptable (db c) best height _ _ _ _ _ _ _ _ Hp Hw Hno Hd Hrate)
    as [Hacc (outs & s & Hst & Hs & Hfee)].
  assert (0 < tx_size t) as Hpos by apply (serialize_tx_nonempty t). assert (1 <= tx_size t <= 500000) as Hsize by lia.
  unfold MIN_FEE_PER_BYTE in *. split.
  { destruct (is_coinbase t) eqn:Hcb; [unfold validate_transaction; by rewrite Hcb|].
    apply validate_transaction_acceptable; unfold MIN_FEE_PER_BYTE; try done. lia. }
  set (m := sp_pool (chain_mempool c)). set (fee := s - sumZ (value <$> outputs t)) in *.
  pose proof (check_entry_confirmed (db c) m t time outs s Hv Hwt Han Hsize (takes_parents _ _ Ht) (takes_new _ _ Ht)
                Hst Hs ltac:(lia)) as He. fold fee in He.
  exists fee, (set_mempool (mkSharedPool (set_avg (new_average m (confirmed_entry t time fee)) false
                 (add_entry (tx_hash t) (confirmed_entry t time fee) m)) false : mempool (MempoolOps:=pool_ops)) c).
  split_and!; [|done|done|done|done|].
  - unfold serve, send_tx. rewrite Hauth. cbn [default]. unfold id at 1. rewrite Hhex, (deserialize_serialize t Hwt).
    unfold mbind, M_bind, attempt, rpc_insert. rewrite (takes_free _ _ Ht).
    pose proof (takes_new _ _ Ht) as Hnew. pose proof (takes_inv _ _ Ht) as Hinv. fold m in Hnew, Hinv |- *.
    rewrite (insert_value 1 (db c) t (Ok time) m Hinv).
    rewrite bool_decide_eq_false_2 by (rewrite Hnew; by intros []). rewrite He. cbv zeta.
    unfold m. by rewrite takes_under_limit.
  - destruct (payment_conserves _ _ _ _ _ _ _ _ Hp Hno) as (coins & fee' & _ & _ & Hsub & Hop & _ & _ & _ & Hsum & _).
    exists coins. split_and!; [done|done|].
    destruct (spent_coins _ _ _ _ _ Hd Hsub Hop) as (_ & _ & outs' & Hst' & Hov).
    apply try_sum_from_sum in Hs. assert (value <$> outs = value <$> outs') as Ho.
    { clear -Hst Hst'. revert outs' Hst'. induction Hst as [|i o l outs (v & Hv & Ho) _ IH]; intros outs' Hst'.
      - by apply Forall2_nil_inv_l in Hst' as ->.
      - apply Forall2_cons_inv_l in Hst' as (o' & k & (v' & Hv' & Ho') & Hst' & ->). csimpl. f_equal; [congruence|by apply IH]. }
    rewrite Ho, Hov in Hs. unfold coins_value, fee. lia.
Qed.

End Send.

(** ** Witnesses *)

#[local] Existing Instances padded_crypto padded_crypto_ok padded_keychain padded_keychain_ok w_rocks w_rocks_ok.

Definition p_payment : outcome (Transaction * bytes) := create_tx (RK:=w_rocks) tt w_master 5 w_to 100000 40 None.

Definition p_tx : Transaction := match p_payment with Ok (t, _) => t | _ => mkTransaction 0 false [] [] 0 [] end.

Lemma p_payment_Ok : create_tx (RK:=w_rocks) tt w_master 5 w_to 100000 40 None = Ok (p_tx, tx_hash p_tx).
Proof. by vm_compute. Qed.

Lemma p_no_overflow : no_overflow w_utxos 100000 40.
Proof. split_and!; try (by vm_compute). repeat constructor; by vm_compute. Qed.

(** A node at height 500 with an empty pool. *)
Definition p_chain : Chain (RK:=w_rocks) (MP:=pool_ops) :=
  fresh_chain (RK:=w_rocks) tt zero_hash 500 zero_hash ∅ (mkSharedPool pool_0 false).

Lemma p_validates : validates (RK:=w_rocks) tt.
Proof.
  split; [split; [done|]|repeat constructor]. intros c k.
  change (Ok (assoc (c, k) w_entries) = Ok ((list_to_map w_entries : gmap (cf * bytes) bytes) !! (c, k))).
  by rewrite lookup_assoc.
Qed.

Lemma p_tx_wf : wf_tx p_tx.
Proof.
  refine (proj1 (payment_wf _ _ _ _ _ _ _ _
    (proj1 (create_tx_Ok (RK:=w_rocks) _ _ _ _ _ _ _ _ _ _ w_get_utxos p_payment_Ok)) w_utxos_wf _ _)); by vm_compute.
Qed.

Lemma p_size : tx_size p_tx = 264.
Proof. by vm_compute. Qed.

Lemma p_coins : coins_there (RK:=w_rocks) tt 500 w_utxos.
Proof.
  split; [apply (bool_decide_unpack _); by vm_compute|].
  assert (∀ id, contents (tt : DB (Rocks:=w_rocks)) !! ("coinbase", id) = None) as Hcb.
  { intros id. change ((list_to_map w_entries : gmap (cf * bytes) bytes) !! ("coinbase", id) = None).
    rewrite lookup_assoc. done. }
  assert (∀ n v, In (("utxo", utxo_key w_id n), serialize (w_out v)) w_entries →
    contents (tt : DB (Rocks:=w_rocks)) !! ("utxo", utxo_key w_id n) = Some (serialize (w_out v))) as Hin.
  { intros n v H. apply elem_of_list_to_map; [apply (bool_decide_unpack _); by vm_compute|]. by apply list_elem_of_In. }
  assert (∀ n v, In (("utxo", utxo_key w_id n), serialize (w_out v)) w_entries → deserialize (serialize (w_out v)) = Some (w_out v) →
    (∃ o, stored (RK:=w_rocks) tt (unsigned_input (mkUtxo w_id n v 491 (replicate 25 7) 0 "m/44'/1987'/0'/0/3" true)) o ∧ value o = v) ∧
    settled (RK:=w_rocks) tt 500 (unsigned_input (mkUtxo w_id n v 491 (replicate 25 7) 0 "m/44'/1987'/0'/0/3" true))) as Hu.
  { intros n v H1 H2. split; [|unfold settled; by rewrite Hcb].
    exists (w_out v). split; [|done]. exists (serialize (w_out v)). split; [by apply Hin|done]. }
  apply Forall_cons. split; [apply Hu; [do 5 right; by left|by vm_compute]|].
  apply Forall_cons. split; [apply Hu; [do 6 right; by left|by vm_compute]|]. constructor.
Qed.

Lemma validate_transaction_equiv_witness : acceptable (RK:=w_rocks) tt 500 500 p_tx.
Proof.
  apply (validate_transaction_equiv (RK:=w_rocks) tt 500 p_tx 500 p_tx_wf); [by vm_compute..|exact p_validates|by vm_compute].
Defined.

Lemma p_takes : takes (RK:=w_rocks) p_chain p_tx.
Proof.
  assert (sp_pool (chain_mempool p_chain) = pool_0) as Ep by reflexivity.
  split; rewrite ?Ep.
  - exact (Mempool_new_inv 1000).
  - reflexivity.
  - exact (lookup_empty (tx_hash p_tx)).
  - apply Forall_forall. intros i _. exact (lookup_empty (txid i)).
  - by vm_compute.
  - rewrite p_size. by vm_compute.
Qed.

(** The transaction as the wallet posts it. *)
Definition p_raw : string := bytes_string (serialize p_tx).

Lemma payment_reaches_pool_witness :
  validate_transaction (RK:=w_rocks) tt 500 p_tx 500 = Ok tt ∧
  ∃ fee c', serve (RK:=w_rocks) 0 "s" (mkRequest (Some "Bearer 7"%string)) (SendTx (Some (Some p_raw))) (Ok 9) p_chain
            = (Ok (HttpOk (bstr "TX sent")), c') ∧
    pool_txs (sp_pool (chain_mempool c')) = <[tx_hash p_tx := confirmed_entry p_tx 9 fee]> ∅.
Proof.
  destruct (payment_reaches_pool (RW:=w_rocks) (RK:=w_rocks) tt w_master 5 w_to 100000 40 None w_utxos p_tx (tx_hash p_tx)
              p_chain 500 500 0 "s" (mkRequest (Some "Bearer 7"%string)) p_raw 9
              w_get_utxos w_utxos_wf p_no_overflow p_payment_Ok p_coins) as (H1 & fee & c' & H2 & H3 & _).
  - rewrite p_size. by vm_compute.
  - rewrite p_size. lia.
  - exact p_validates.
  - exact p_takes.
  - done.
  - by vm_compute.
  - split; [exact H1|]. exists fee, c'. split; [exact H2|exact H3].
Defined.
