(* ===== verification/Connections.v ===== *)
(** * Connections: the connection pool and what the code does with it

    [RocksManager] and [create_db_pool] of src/111/src/db.rs, and the scopes in
    which the functions of src/111/src/chain.rs, tx.rs, mempool.rs, net.rs and
    main.rs hold a connection.  The other files take [db_pool.get()] as an
    outcome of the database and do not count connections; this file counts
    them.

    - RocksDB and deadpool are parameters.  RocksDB opens a directory once: as
      long as a handle of it is open another [open_cf] is an error, in the same
      process as in another.  deadpool hands out an idle object that can be
      recycled or else creates one.
    - A function is reduced to the scopes of its connections, as in Tasks.v; which
      branch a call takes is an argument.  A guard ends with its scope, its
      connection returns to its pool; a pool that is a local variable ends after
      it and closes what it holds. *)
From S2P Require Import Prelude Errors Types Externals.

(** ** RocksDB and deadpool *)

Inductive compression := Snappy | Zstd.

(** [rocksdb::Options], as far as they are set. *)
Record RocksOptions := mkRocksOptions {
  create_if_missing : bool;
  create_missing_column_families : bool;
  compression_type : option compression;
  bottommost_compression_type : option compression;
  keep_log_file_num : option Z;
  max_open_files : option Z;
}.

Class Engine := {
  Disk : Type;
  Handle : Type;
  open_cf : RocksOptions → string → list cf → Disk → outcome Handle * Disk;
  (** [Drop for DB] *)
  close : Handle → Disk → Disk;
  property_value : Handle → string → Disk → outcome (option string);
}.

Class EngineOk `{!Engine} := {
  (** the handles of a directory that are open *)
  opened : string → Disk → list Handle;
  open_cf_Ok : ∀ o p cfs s h s', open_cf o p cfs s = (Ok h, s') → opened p s = [] ∧ opened p s' = [h];
  open_cf_failed : ∀ o p cfs s e s', open_cf o p cfs s = (Err e, s') → opened p s' = opened p s;
  open_cf_locked : ∀ o p cfs s, opened p s ≠ [] → ∃ e, (open_cf o p cfs s).1 = Err e;
  close_opened : ∀ p h s, opened p s = [h] → opened p (close h s) = [];
}.

(** [managed::Pool]: the objects it holds, those it has given out. *)
Class Deadpool `{!Engine} := {
  Pool : Type;
  pool_build : Z → Pool;
  pool_objects : Pool → list Handle;
  pool_out : Pool → Z;
  pool_max_size : Pool → Z;
  managed_get : (Disk → outcome Handle * Disk) → (Handle → Disk → outcome unit) → Pool → Disk →
                outcome Handle * (Pool * Disk);
  managed_return : Handle → Pool → Pool;
}.

(** What [get] may do with the objects it holds: give one that recycles, close
    one that does not, create one when none is left. *)
Inductive serves `{!Engine} (create : Disk → outcome Handle * Disk) (recycle : Handle → Disk → outcome unit) :
    list Handle → Disk → outcome Handle → list Handle → Disk → Prop :=
  | serve_idle h l k s : l ≡ₚ h :: k → recycle h s = Ok tt → serves create recycle l s (Ok h) k s
  | serve_drop h l k s e r l' s' : l ≡ₚ h :: k → recycle h s = Err e →
      serves create recycle k (close h s) r l' s' → serves create recycle l s r l' s'
  | serve_panic h l k s : l ≡ₚ h :: k → recycle h s = Panic → serves create recycle l s Panic k s
  | serve_hang h l k s : l ≡ₚ h :: k → recycle h s = Hang → serves create recycle l s Hang k s
  | serve_create s r s' : create s = (r, s') → serves create recycle [] s r [] s'.

Class DeadpoolOk `{!Engine, !Deadpool} := {
  build_empty : ∀ n, pool_objects (pool_build n) = [] ∧ pool_out (pool_build n) = 0 ∧ pool_max_size (pool_build n) = n;
  get_serves : ∀ create recycle p s r p' s', pool_out p < pool_max_size p →
    managed_get create recycle p s = (r, (p', s')) →
    serves create recycle (pool_objects p) s r (pool_objects p') s' ∧ pool_max_size p' = pool_max_size p ∧
    pool_out p' = pool_out p + match r with Ok _ => 1 | _ => 0 end;
  return_objects : ∀ h p, pool_objects (managed_return h p) ≡ₚ h :: pool_objects p ∧
    pool_out (managed_return h p) = pool_out p - 1 ∧ pool_max_size (managed_return h p) = pool_max_size p;
}.

(** ** The manager *)

Section Manager.
  Context `{EN : !Engine} `{DP : !Deadpool}.

Record RocksManager := mkRocksManager {
  path : string;
  db_opts : RocksOptions;
}.

Definition RocksManager_new (path : string) (db_opts : RocksOptions) : RocksManager := mkRocksManager path db_opts.

(** [DB::open_cf] on a blocking thread; [unwrap] passes a panic on. *)
Definition pool_cfs : list string := ["utxo"; "blocks"; "headers"; "metadata"].

Definition create (m : RocksManager) : Disk → outcome Handle * Disk := open_cf (db_opts m) (path m) pool_cfs.

Definition recycle (conn : Handle) (s : Disk) : outcome unit :=
  match property_value conn "rocksdb.stats" s with
  | Ok _ => Ok tt
  | Err e => Err e
  | Panic => Panic
  | Hang => Hang
  end.

Definition pool_options : RocksOptions :=
  mkRocksOptions true true (Some Snappy) (Some Zstd) (Some 10) (Some 1024).

(** [create_db_pool]: nothing is opened yet. *)
Definition create_db_pool (db_path : string) : RocksManager * Pool :=
  (RocksManager_new db_path pool_options, pool_build 16).

End Manager.

(** ** Scopes of connections *)

(** From the pool of the node, or from one that is created for the scope. *)
Inductive origin := Shared | Own.

(** [get()?], [get().expect(..)] (or a [?] under an [unwrap]), [get().ok()]. *)
Inductive on_failure := Fails | Panics | Ignored.

(** A scope, what is done in it and what follows it. *)
Inductive conns :=
  | Done
  | Conn (w : origin) (f : on_failure) (body rest : conns).

Fixpoint seqc (p q : conns) : conns :=
  match p with
  | Done => q
  | Conn w f body rest => Conn w f body (seqc rest q)
  end.

Definition leaf (f : on_failure) : conns := Conn Shared f Done Done.

Definition each {A} (g : A → conns) (l : list A) : conns := foldr (λ a p, seqc (g a) p) Done l.

Section Run.
  Context `{EN : !Engine} `{DP : !Deadpool} (db_path : string).

(** The shared pool and the disk. *)
Record cstate := mkCstate { c_pool : Pool; c_disk : Disk }.

Definition get_conn (p : Pool) (s : Disk) : outcome Handle * (Pool * Disk) :=
  managed_get (create (create_db_pool db_path).1) recycle p s.

(** A pool goes out of scope. *)
Definition drop_pool (p : Pool) (s : Disk) : Disk := foldr close s (pool_objects p).

Fixpoint run (p : conns) (c : cstate) : outcome unit * cstate :=
  match p with
  | Done => (Ok tt, c)
  | Conn w f body rest =>
      let failed (r : outcome Handle) (c : cstate) :=
        match r, f with
        | Err e, Fails => (Err e, c)
        | Err _, Ignored => run rest c
        | Hang, _ => (Hang, c)
        | _, _ => (Panic, c)
        end in
      let after (rc : outcome unit * cstate) :=
        match rc with (Ok _, c) => run rest c | rc => rc end in
      match w with
      | Shared =>
          match get_conn (c_pool c) (c_disk c) with
          | (Ok h, (p1, s1)) =>
              let '(r, c) := run body (mkCstate p1 s1) in
              after (r, mkCstate (managed_return h (c_pool c)) (c_disk c))
          | (r, (p1, s1)) => failed r (mkCstate p1 s1)
          end
      | Own =>
          match get_conn (create_db_pool db_path).2 (c_disk c) with
          | (Ok h, (p1, s1)) =>
              let '(r, c) := run body (mkCstate (c_pool c) s1) in
              after (r, mkCstate (c_pool c) (drop_pool (managed_return h p1) (c_disk c)))
          | (r, (p1, s1)) => failed r (mkCstate (c_pool c) (drop_pool p1 s1))
          end
      end
  end.

End Run.

(** ** What becomes of a call *)

(** No handle is open; the shared pool holds the one that is; it is given out. *)
Inductive holding := Closed | Idle | Busy.

Inductive result := Fine | Failed | Panicked.

Definition result_of {A} (o : outcome A) : option result :=
  match o with Ok _ => Some Fine | Err _ => Some Failed | Panic => Some Panicked | Hang => None end.

(** Whether a connection can be had. *)
Definition served (w : origin) (k : holding) : bool :=
  match w, k with
  | Shared, (Closed | Idle) | Own, Closed => true
  | _, _ => false
  end.

(** Only one connection at a time: a scope inside another one fails. *)
Fixpoint verdict (k : holding) (p : conns) : result * holding :=
  match p with
  | Done => (Fine, k)
  | Conn w f body rest =>
      if served w k then
        let k' := match w with Shared => Idle | Own => Closed end in
        match (verdict Busy body).1 with
        | Fine => verdict k' rest
        | r => (r, k')
        end
      else
        match f with
        | Fails => (Failed, k)
        | Panics => (Panicked, k)
        | Ignored => verdict k rest
        end
  end.

(** ** The connections of the program

    One definition per function that takes a connection: what it does while it
    holds it, and which calls it makes.  The arguments say which branches are
    taken; nothing else of the call fails. *)

Definition load_block_conns : conns := leaf Fails.

(** [found]: the header is stored on its own; [f] is [?] or the [unwrap] of the
    caller. *)
Definition load_header_conns (f : on_failure) (found : bool) : conns :=
  Conn Shared f (if found then Done else leaf f) Done.

Definition save_block_conns : conns := leaf Fails.

Definition get_headers_conns (found : list bool) : conns := each (load_header_conns Fails) found.

Definition apply_block_action_conns : conns := leaf Fails.

Definition build_block_ops_conns : conns := leaf Fails.

Definition get_median_timestamp_conns : conns := leaf Panics.

(** [adjusts]: the height ends an interval, and two headers are read. *)
Definition calculate_next_bits_conns (adjusts : bool) : conns :=
  if adjusts then seqc (load_header_conns Panics true) (seqc (load_header_conns Panics true) get_median_timestamp_conns)
  else load_header_conns Panics true.

(** A coinbase is valid before a connection is asked for. *)
Definition validate_transaction_conns (coinbase : bool) : conns := if coinbase then Done else leaf Fails.

(** [rest]: which of the transactions after the first are coinbases. *)
Definition validate_block_conns (adjusts : bool) (rest : list bool) : conns :=
  seqc (calculate_next_bits_conns adjusts)
    (Conn Shared Fails (seqc (each validate_transaction_conns rest) get_median_timestamp_conns) Done).

(** The journal's connection is held up to the commit. *)
Definition connect_heavier_conns {T} (disconnected : list T) : conns :=
  Conn Shared Fails
    (seqc (each (λ _, seqc load_block_conns build_block_ops_conns) disconnected) build_block_ops_conns) Done.

Definition validate_state_conns : conns := leaf Fails.

Definition validate_supply_full_conns : conns := leaf Fails.

(** [saved]: the database has both summaries. *)
Definition validate_supply_smart_conns (saved : bool) : conns :=
  Conn Shared Fails (if saved then Done else validate_supply_full_conns) Done.

(** [heavier]: the tips to disconnect, when the block has more work; [audit],
    [compact]: its height asks for them. *)
Definition add_block_conns {U} (adjusts : bool) (rest : list bool) (heavier : option (list U))
    (orphans : conns) (audit compact : bool) : conns :=
  seqc (validate_block_conns adjusts rest)
    (seqc match heavier with Some l => connect_heavier_conns l | None => apply_block_action_conns end
      (seqc save_block_conns
        (seqc orphans
          (seqc (if audit then validate_state_conns else Done) (if compact then leaf Fails else Done))))).

(** One height of the chain that is loaded, when it is [recent] enough for its
    block to be read; if not, whether its header is [found]. *)
Definition load_height_conns (h : bool * bool) : conns :=
  let '(recent, found) := h in if recent then load_block_conns else load_header_conns Fails found.

Definition load_from_db_conns (heights : list (bool * bool)) (saved : bool) : conns :=
  Conn Shared Fails
    (seqc (each load_height_conns heights) (seqc validate_state_conns (validate_supply_smart_conns saved))) Done.

(** [Mempool::insert] for a transaction of a size it takes. *)
Definition insert_conns : conns := leaf Fails.

Definition ban_ip_conns : conns := leaf Ignored.

(** [Wallet::get_balance], [get_utxos] and [get_history] open a pool of their own. *)
Definition wallet_scan_conns : conns := Conn Own Fails Done Done.

(** A command of the wallet, the chain being loaded. *)
Definition wallet_command_conns (scans : bool) : conns :=
  Conn Shared Fails (if scans then wallet_scan_conns else Done) Done.

(** [Explorer Block]. *)
Definition explorer_block_conns : conns := Conn Shared Fails load_block_conns Done.

Section Exclusive.
  Context `{EN : !Engine, ENO : !EngineOk, DP : !Deadpool, DPO : !DeadpoolOk} (db_path : string).

(** While it is free the directory can be opened with the options and the column
    families of the pool (it has no others), and an open database has
    statistics. *)
Context (opens : ∀ s, opened db_path s = [] → ∃ h s', open_cf pool_options db_path pool_cfs s = (Ok h, s')).
Context (stats : ∀ h s, ∃ v, property_value h "rocksdb.stats" s = Ok v).

Lemma recycle_Ok h s : recycle h s = Ok tt.
Proof using stats. unfold recycle. by destruct (stats h s) as [v ->]. Qed.

(** A pool that can give out another connection. *)
Definition roomy (p : Pool) : Prop := pool_out p < pool_max_size p.

Lemma create_spec s : create (create_db_pool db_path).1 s = open_cf pool_options db_path pool_cfs s.
Proof using. done. Qed.

Lemma get_closed p s :
  roomy p → pool_objects p = [] → opened db_path s = [] →
  ∃ h p' s', get_conn db_path p s = (Ok h, (p', s')) ∧ pool_objects p' = [] ∧ opened db_path s' = [h] ∧
    pool_out p' = pool_out p + 1 ∧ pool_max_size p' = pool_max_size p.
Proof using opens ENO DPO.
  intros Hr Hp Hs. unfold get_conn. destruct (managed_get _ _ p s) as [r [p' s']] eqn:E.
  apply get_serves in E as (Hsv & Hm & Ho); [|done]. rewrite Hp in Hsv. inversion Hsv as [? ? ? ? Hl|? ? ? ? ? ? ? ? Hl|? ? ? ? Hl|? ? ? ? Hl|? ? ? Hc]; subst.
  1-4: by apply Permutation_nil_cons in Hl.
  rewrite create_spec in Hc. destruct (opens s Hs) as (h & s1 & E).
  rewrite E in Hc. injection Hc as <- <-. exists h, p', s1. split_and!; try done. by apply open_cf_Ok in E as [_ ?].
Qed.

Lemma get_idle p s h :
  roomy p → pool_objects p = [h] →
  ∃ p', get_conn db_path p s = (Ok h, (p', s)) ∧ pool_objects p' = [] ∧
    pool_out p' = pool_out p + 1 ∧ pool_max_size p' = pool_max_size p.
Proof using stats DPO.
  intros Hr Hp. unfold get_conn. destruct (managed_get _ _ p s) as [r [p' s']] eqn:E.
  apply get_serves in E as (Hsv & Hm & Ho); [|done]. rewrite Hp in Hsv.
  inversion Hsv as [h0 l k s0 Hl Hrec E1|? ? ? ? ? ? ? ? Hl Hrec|? ? ? ? Hl Hrec|? ? ? ? Hl Hrec|]; subst.
  - apply Permutation_singleton_l in Hl. injection Hl as -> Hk. exists p'. by rewrite Hk.
  - by rewrite recycle_Ok in Hrec.
  - by rewrite recycle_Ok in Hrec.
  - by rewrite recycle_Ok in Hrec.
Qed.

Lemma get_locked p s :
  roomy p → pool_objects p = [] → opened db_path s ≠ [] →
  ∃ e p' s', get_conn db_path p s = (Err e, (p', s')) ∧ pool_objects p' = [] ∧ opened db_path s' = opened db_path s ∧
    pool_out p' = pool_out p ∧ pool_max_size p' = pool_max_size p.
Proof using ENO DPO.
  intros Hr Hp Hs. unfold get_conn. destruct (managed_get _ _ p s) as [r [p' s']] eqn:E.
  apply get_serves in E as (Hsv & Hm & Ho); [|done]. rewrite Hp in Hsv. inversion Hsv as [? ? ? ? Hl|? ? ? ? ? ? ? ? Hl|? ? ? ? Hl|? ? ? ? Hl|? ? ? Hc]; subst.
  1-4: by apply Permutation_nil_cons in Hl.
  rewrite create_spec in Hc. destruct (open_cf_locked pool_options db_path pool_cfs s Hs) as [e He].
  rewrite Hc in He. cbn in He. subst r. exists e, p', s'.
  split_and!; try done; [by eapply open_cf_failed|lia].
Qed.

Lemma return_alone h p :
  pool_objects p = [] → pool_objects (managed_return h p) = [h].
Proof using DPO.
  intros Hp. destruct (return_objects h p) as [H _]. rewrite Hp in H. by apply Permutation_singleton_r in H.
Qed.

(** What the shared pool and the disk look like: [n] connections of the pool
    are out; [h] is the handle that is open, if one is. *)
Definition tracked (n : Z) (h : Handle) (k : holding) (c : cstate) : Prop :=
  pool_max_size (c_pool c) = 16 ∧ pool_out (c_pool c) = n ∧
  match k with
  | Closed => n = 0 ∧ pool_objects (c_pool c) = [] ∧ opened db_path (c_disk c) = []
  | Idle => n = 0 ∧ pool_objects (c_pool c) = [h] ∧ opened db_path (c_disk c) = [h]
  | Busy => n ≤ 1 ∧ pool_objects (c_pool c) = [] ∧ opened db_path (c_disk c) = [h]
  end.

Definition ends_as (n : Z) (h : Handle) (k : holding) (v : result * holding) (rc : outcome unit * cstate) : Prop :=
  result_of rc.1 = Some v.1 ∧ ∃ h', tracked n h' v.2 rc.2 ∧ (k ≠ Closed → h' = h).

(** A shared connection that can be had. *)
Lemma get_served n h k c :
  tracked n h k c → served Shared k = true →
  ∃ h' p' s', get_conn db_path (c_pool c) (c_disk c) = (Ok h', (p', s')) ∧ tracked 1 h' Busy (mkCstate p' s') ∧ n = 0 ∧
    (k ≠ Closed → h' = h).
Proof using opens stats ENO DPO.
  destruct c as [p s]. intros (Hm & Ho & Hk) Hs; cbn [c_pool c_disk] in *. destruct k; [| |done]; destruct Hk as (-> & Hp & Hd).
  - destruct (get_closed p s) as (h' & p' & s' & E & ? & ? & ? & ?); [unfold roomy; lia|done..|].
    exists h', p', s'. split_and!; try done. unfold tracked; cbn. split_and!; try done; lia.
  - destruct (get_idle p s h) as (p' & E & ? & ? & ?); [unfold roomy; lia|done..|].
    exists h, p', s. split_and!; try done. unfold tracked; cbn. split_and!; try done; lia.
Qed.

(** One that cannot. *)
Lemma get_refused n h c :
  tracked n h Busy c →
  ∃ e p' s', get_conn db_path (c_pool c) (c_disk c) = (Err e, (p', s')) ∧ tracked n h Busy (mkCstate p' s').
Proof using ENO DPO.
  destruct c as [p s]. intros (Hm & Ho & Hn & Hp & Hd); cbn [c_pool c_disk] in *.
  destruct (get_locked p s) as (e & p' & s' & E & Hp' & Hd' & Ho' & Hm'); [unfold roomy; lia|done|by rewrite Hd|].
  exists e, p', s'. split; [done|]. unfold tracked; cbn. rewrite Hd', Hd. split_and!; try done; lia.
Qed.

Lemma get_own_Ok n h c :
  tracked n h Closed c →
  ∃ h' p' s', get_conn db_path (create_db_pool db_path).2 (c_disk c) = (Ok h', (p', s')) ∧
    tracked 0 h' Busy (mkCstate (c_pool c) s') ∧ pool_objects p' = [] ∧ n = 0.
Proof using opens ENO DPO.
  destruct c as [p s]. intros (Hm & Ho & -> & Hp & Hd); cbn [c_pool c_disk] in *.
  destruct (build_empty 16) as (B1 & B2 & B3).
  destruct (get_closed (create_db_pool db_path).2 s) as (h' & p' & s' & E & ? & ? & ? & ?); [unfold roomy; cbn; lia|done..|].
  exists h', p', s'. by split_and!.
Qed.

Lemma get_own_refused n h k c :
  tracked n h k c → k ≠ Closed →
  ∃ e p' s', get_conn db_path (create_db_pool db_path).2 (c_disk c) = (Err e, (p', s')) ∧
    tracked n h k (mkCstate (c_pool c) (drop_pool p' s')).
Proof using ENO DPO.
  destruct c as [p s]. intros (Hm & Ho & Hk) Hc; cbn [c_pool c_disk] in *.
  assert (Hd : opened db_path s = [h]) by (destruct k; naive_solver).
  destruct (build_empty 16) as (B1 & B2 & B3).
  destruct (get_locked (create_db_pool db_path).2 s) as (e & p' & s' & E & Hp' & Hd' & _); [unfold roomy; cbn; lia|done|by rewrite Hd|].
  exists e, p', s'. split; [done|]. unfold tracked, drop_pool; cbn. rewrite Hp'; cbn. rewrite Hd', Hd.
  destruct k; naive_solver.
Qed.

(** The guard of a shared connection ends. *)
Lemma tracked_return h c :
  tracked 1 h Busy c → tracked 0 h Idle (mkCstate (managed_return h (c_pool c)) (c_disk c)).
Proof using DPO.
  destruct c as [p s]. intros (Hm & Ho & _ & Hp & Hd); cbn [c_pool c_disk] in *.
  destruct (return_objects h p) as (_ & Ho' & Hm'). unfold tracked; cbn. rewrite (return_alone h p) by done.
  split_and!; try done; lia.
Qed.

(** A pool of its own ends. *)
Lemma tracked_drop h p c :
  tracked 0 h Busy c → pool_objects p = [] → tracked 0 h Closed (mkCstate (c_pool c) (drop_pool (managed_return h p) (c_disk c))).
Proof using ENO DPO.
  destruct c as [q s]. intros (Hm & Ho & _ & Hp & Hd) Hq; cbn [c_pool c_disk] in *.
  unfold tracked, drop_pool; cbn. rewrite (return_alone h p) by done; cbn. rewrite close_opened by done. done.
Qed.

Lemma verdict_busy p : (verdict Busy p).2 = Busy.
Proof using. induction p as [|w f body _ rest IH]; [done|]. destruct w, f; cbn; done. Qed.

(** What happens after a scope that was entered. *)
Lemma ends_after n h k k' body rest r c0 :
  result_of r = Some (verdict Busy body).1 →
  (∃ h', tracked n h' k' c0 ∧ (k ≠ Closed → k' ≠ Closed ∧ h' = h)) →
  (∀ h' c, tracked n h' k' c → ends_as n h' k' (verdict k' rest) (run db_path rest c)) →
  ends_as n h k (match (verdict Busy body).1 with Fine => verdict k' rest | r => (r, k') end)
    (match r with Ok _ => run db_path rest c0 | _ => (r, c0) end).
Proof using.
  intros Hr (h' & Ht & Hh) IH. destruct (IH h' c0 Ht) as (R1 & h2 & R2 & R3).
  destruct r, (verdict Busy body).1; try discriminate Hr; (split; [done|]); [exists h2|exists h'..]; (split; [done|]);
    intros Hk; destruct (Hh Hk) as [? ->]; by rewrite ?R3.
Qed.

Lemma run_ends p : ∀ n h k c, tracked n h k c → ends_as n h k (verdict k p) (run db_path p c).
Proof using opens stats ENO DPO.
  induction p as [|w f body IHb rest IHr]; intros n h k c Ht; [split; [done|by exists h]|].
  cbn [verdict run]. destruct (served w k) eqn:Es.
  - destruct w.
    + destruct (get_served n h k c Ht Es) as (h1 & p1 & s1 & -> & H1 & -> & Hh).
      destruct (IHb 1 h1 Busy _ H1) as (R1 & h2 & R2 & R3). rewrite verdict_busy, R3 in R2 by done.
      destruct (run db_path body _) as [r c1]; cbn [fst snd] in *.
      apply ends_after; [done|exists h1; split; [by apply tracked_return|by intros Hk; rewrite Hh]|by intros; apply IHr].
    + destruct k; try discriminate Es. destruct (get_own_Ok n h c Ht) as (h1 & p1 & s1 & -> & H1 & Hp & ->).
      destruct (IHb 0 h1 Busy _ H1) as (R1 & h2 & R2 & R3). rewrite verdict_busy, R3 in R2 by done.
      destruct (run db_path body _) as [r c1] eqn:E; cbn [fst snd] in *.
      apply ends_after; [done|exists h1; split; [by apply tracked_drop|done]|by intros; apply IHr].
  - destruct w.
    + destruct k; try discriminate Es. destruct (get_refused n h c Ht) as (e & p1 & s1 & -> & H1).
      destruct f; cbn; [| |by apply IHr]; (split; [done|by exists h]).
    + assert (Hk : k ≠ Closed) by (by intros ->).
      destruct (get_own_refused n h k c Ht Hk) as (e & p1 & s1 & -> & H1).
      destruct f; cbn; [| |by apply IHr]; (split; [done|by exists h]).
Qed.

Lemma verdict_seqc k p q :
  verdict k (seqc p q) = match verdict k p with (Fine, k') => verdict k' q | v => v end.
Proof using.
  revert k. induction p as [|w f body _ rest IH]; intros k; [done|]. cbn.
  destruct (served w k).
  - by destruct (verdict Busy body).1.
  - by destruct f.
Qed.

Lemma each_cons {A} (g : A → conns) a l : each g (a :: l) = seqc (g a) (each g l).
Proof using. done. Qed.

Lemma verdict_each {A} (g : A → conns) k l :
  (∀ a, a ∈ l → verdict k (g a) = (Fine, k)) → verdict k (each g l) = (Fine, k).
Proof using.
  induction l as [|a l IH]; intros H; [done|]. cbn. rewrite verdict_seqc, H by by left. apply IH. intros b Hb. apply H. by right.
Qed.

(** A scope whose first call needs a connection too. *)
Lemma verdict_nested k body rest f :
  k ≠ Busy → verdict k (Conn Shared f (seqc (leaf Fails) body) rest) = (Failed, Idle).
Proof using. by destruct k. Qed.

Lemma verdict_next_bits k b : k ≠ Busy → verdict k (calculate_next_bits_conns b) = (Fine, Idle).
Proof using. by destruct k, b. Qed.

(** Validating a block with a payment is an error, one of coinbases only is a
    panic. *)
Definition block_refused (rest : list bool) : result := if forallb id rest then Panicked else Failed.

Lemma verdict_busy_each rest :
  verdict Busy (seqc (each validate_transaction_conns rest) get_median_timestamp_conns) = (block_refused rest, Busy).
Proof using. induction rest as [|[] rest IH]; [done|exact IH|done]. Qed.

Lemma verdict_validate_block k b rest :
  k ≠ Busy → verdict k (validate_block_conns b rest) = (block_refused rest, Idle).
Proof using.
  intros Hk. unfold validate_block_conns. rewrite verdict_seqc, verdict_next_bits by done. cbn [verdict served].
  rewrite verdict_busy_each. unfold block_refused. by destruct (forallb id rest).
Qed.

(** C19. A call on a database nobody else has open ends as the scopes of its
    connections say: a connection can be had when none is held, and by a pool of
    its own only when the node's has none either; a call inside a scope fails
    as its caller handles it.  Nothing is left given out, and a connection that
    was open before is the one that is open after: it was used again. *)
Theorem run_verdict p n h k c :
  tracked n h k c →
  result_of (run db_path p c).1 = Some (verdict k p).1 ∧
  ∃ h', tracked n h' (verdict k p).2 (run db_path p c).2 ∧ (k ≠ Closed → h' = h).
Proof using opens stats ENO DPO. apply run_ends. Qed.

Definition result_at (p : conns) (c : cstate) : option result := result_of (run db_path p c).1.

Lemma result_at_verdict p n h k c r :
  tracked n h k c → (verdict k p).1 = r → result_at p c = Some r.
Proof using opens stats ENO DPO. intros Ht <-. by destruct (run_ends p n h k c Ht) as [R _]. Qed.

(** C20. On a free or idle database the functions that take one connection at a
    time get it; [validate_block] never succeeds, so no block is added, nor do a
    reorganisation, the full audit of the supply, the loading of a chain, the
    wallet's scans and the explorer: they ask for a second connection while
    they hold one. *)
Theorem one_connection_at_a_time n h k c :
  tracked n h k c → k ≠ Busy →
  (result_at save_block_conns c = Some Fine ∧ result_at apply_block_action_conns c = Some Fine ∧
   result_at insert_conns c = Some Fine ∧ result_at ban_ip_conns c = Some Fine ∧
   (∀ found, Forall (eq true) found → result_at (get_headers_conns found) c = Some Fine) ∧
   (∀ adjusts, result_at (calculate_next_bits_conns adjusts) c = Some Fine) ∧
   result_at (validate_supply_smart_conns true) c = Some Fine) ∧
  (∀ U adjusts rest (heavier : option (list U)) orphans audit compact,
     result_at (add_block_conns adjusts rest heavier orphans audit compact) c =
     Some (if forallb id rest then Panicked else Failed)) ∧
  (∀ T (disconnected : list T), result_at (connect_heavier_conns disconnected) c = Some Failed) ∧
  (∀ heights saved, heights ≠ [] → result_at (load_from_db_conns heights saved) c = Some Failed) ∧
  result_at (validate_supply_smart_conns false) c = Some Failed ∧
  result_at (load_header_conns Fails false) c = Some Failed ∧
  result_at (wallet_command_conns true) c = Some Failed ∧
  result_at explorer_block_conns c = Some Failed.
Proof using opens stats ENO DPO.
  intros Ht Hk. assert (V := λ p r, result_at_verdict p n h k c r Ht). split_and!.
  1-4, 7: by apply V; destruct k.
  - intros found Hf. apply V. unfold get_headers_conns. destruct found as [|b found]; [done|].
    rewrite each_cons, verdict_seqc. inversion Hf; subst.
    replace (verdict k (load_header_conns Fails true)) with (Fine, Idle) by by destruct k.
    rewrite verdict_each; [done|]. intros x Hx. rewrite Forall_forall in Hf. by rewrite <- (Hf x) by by right.
  - intros b. apply V. by rewrite verdict_next_bits.
  - intros U b rest heavier orphans audit compact. apply V. unfold add_block_conns.
    rewrite verdict_seqc, verdict_validate_block by done. unfold block_refused. by destruct (forallb id rest).
  - intros T l. apply V. unfold connect_heavier_conns. destruct k, l; done.
  - intros [|[[] found] heights] saved Hne; [done|..]; apply V; destruct k; done.
  - by apply V; destruct k.
  - by apply V; destruct k.
  - by apply V; destruct k.
  - by apply V; destruct k.
Qed.

End Exclusive.

(** ** A database and a pool *)

(** The directories that are open, by the number of the handle. *)
Record disk := mkDisk { next_handle : nat; locks : list (string * nat) }.

#[local] Instance mem_engine : Engine := {|
  Disk := disk;
  Handle := string * nat;
  open_cf := λ _ p _ s,
    if bool_decide (p ∈ (locks s).*1) then (Err (RocksDB "lock hold by current process"), s)
    else (Ok (p, next_handle s), mkDisk (S (next_handle s)) ((p, next_handle s) :: locks s));
  close := λ h s, mkDisk (next_handle s) (filter (λ l, l ≠ h) (locks s));
  property_value := λ _ _ _, Ok (Some "");
|}.

Lemma locks_none p (l : list (string * nat)) : p ∉ l.*1 → filter (λ e, e.1 = p) l = [].
Proof.
  induction l as [|[q i] l IH]; [done|]. rewrite fmap_cons, not_elem_of_cons. intros [H1 H2].
  rewrite filter_cons, decide_False by (by intros <-; apply H1). by apply IH.
Qed.

Lemma locks_some p (l : list (string * nat)) : filter (λ e, e.1 = p) l ≠ [] → p ∈ l.*1.
Proof. intros H. destruct (decide (p ∈ l.*1)) as [|Hn]; [done|]. by rewrite locks_none in H. Qed.

Lemma locks_nil p (l : list (string * nat)) : filter (λ e, e.1 = p) l = [] → p ∉ l.*1.
Proof.
  intros H [[q i] [-> Hin]]%list_elem_of_fmap. assert (Hq : (q, i) ∈ filter (λ e, e.1 = (q, i).1) l) by by apply list_elem_of_filter.
  rewrite H in Hq. by apply elem_of_nil in Hq.
Qed.

#[local] Instance mem_engine_ok : EngineOk.
Proof.
  refine {| opened := λ p (s : @Disk mem_engine), filter (λ e, e.1 = p) (locks s) |}.
  - intros o p cfs s h s'. cbn. case_bool_decide as Hp; [done|]. intros [= <- <-].
    rewrite (locks_none p (locks s)) by done. split; [done|]. cbn [locks]. rewrite filter_cons, decide_True by done.
    by rewrite locks_none.
  - intros o p cfs s e s'. cbn. case_bool_decide as Hp; [|done]. by intros [= <- <-].
  - intros o p cfs s Hs%locks_some. cbn. rewrite bool_decide_eq_true_2 by done. by eexists.
  - intros p h s. cbn. generalize (locks s). intros l Hs.
    trans (filter (λ e, e ≠ h) (filter (λ e, e.1 = p) l)).
    + rewrite !list_filter_filter. apply list_filter_iff. naive_solver.
    + rewrite Hs, filter_cons, decide_False by naive_solver. done.
Defined.

Record object_pool := mkObjectPool { idle : list (string * nat); given : Z; limit : Z }.

Fixpoint serve (create : disk → outcome (string * nat) * disk) (recycle : string * nat → disk → outcome unit)
    (l : list (string * nat)) (s : disk) : outcome (string * nat) * (list (string * nat) * disk) :=
  match l with
  | [] => let '(r, s) := create s in (r, ([], s))
  | h :: l =>
      match recycle h s with
      | Ok _ => (Ok h, (l, s))
      | Err _ => serve create recycle l (close h s)
      | Panic => (Panic, (l, s))
      | Hang => (Hang, (l, s))
      end
  end.

Definition pool_get_object (create : disk → outcome (string * nat) * disk)
    (recycle : string * nat → disk → outcome unit) (p : object_pool) (s : disk) :
    outcome (string * nat) * (object_pool * disk) :=
  if limit p <=? given p then (Hang, (p, s)) else
  let '(r, (l, s)) := serve create recycle (idle p) s in
  (r, (mkObjectPool l (given p + match r with Ok _ => 1 | _ => 0 end) (limit p), s)).

#[local] Instance mem_pool : Deadpool := {|
  Pool := object_pool;
  pool_build := mkObjectPool [] 0;
  pool_objects := idle;
  pool_out := given;
  pool_max_size := limit;
  managed_get := pool_get_object;
  managed_return := λ h p, mkObjectPool (h :: idle p) (given p - 1) (limit p);
|}.

Lemma serve_serves create recycle l : ∀ s r l' s',
  serve create recycle l s = (r, (l', s')) → serves create recycle l s r l' s'.
Proof.
  induction l as [|h l IH]; intros s r l' s'; cbn.
  - destruct (create s) as [r1 s1] eqn:E. intros [= <- <- <-]. by constructor.
  - destruct (recycle h s) as [[]|e| |] eqn:E.
    + intros [= <- <- <-]. by eapply (@serve_idle mem_engine).
    + intros H%IH. by eapply (@serve_drop mem_engine).
    + intros [= <- <- <-]. by eapply (@serve_panic mem_engine).
    + intros [= <- <- <-]. by eapply (@serve_hang mem_engine).
Qed.

#[local] Instance mem_pool_ok : DeadpoolOk.
Proof.
  split; [done| |done].
  intros create recycle p s r p' s' Hr. cbn. unfold pool_get_object. rewrite (proj2 (Z.leb_gt _ _)) by done.
  destruct (serve create recycle (idle p) s) as [r1 [l1 s1]] eqn:E. intros [= <- <- <-].
  apply serve_serves in E. done.
Qed.

Lemma mem_opens (s : Disk) : opened "db" s = [] → ∃ h s', open_cf pool_options "db" pool_cfs s = (Ok h, s').
Proof. intros H%locks_nil. cbn. rewrite bool_decide_eq_false_2 by done. by do 2 eexists. Qed.

Lemma mem_stats (h : Handle) s : ∃ v, property_value h "rocksdb.stats" s = Ok v.
Proof. by eexists. Qed.

(** A node whose pool has opened nothing yet. *)
Definition fresh_state : cstate := mkCstate (create_db_pool "db").2 (mkDisk 0 []).

Lemma fresh_tracked : tracked "db" 0 ("db", 0%nat) Closed fresh_state.
Proof. done. Qed.

(** The connection a saved block opened serves the next calls. *)
Lemma run_verdict_witness :
  let c := (run "db" save_block_conns fresh_state).2 in
  ∃ h, tracked "db" 0 h Idle c ∧
    result_of (run "db" (seqc save_block_conns explorer_block_conns) c).1 = Some Failed ∧
    tracked "db" 0 h Idle (run "db" (seqc save_block_conns explorer_block_conns) c).2.
Proof.
  cbv zeta. destruct (run_verdict "db" mem_opens mem_stats save_block_conns 0 _ Closed _ fresh_tracked) as (_ & h & Ht & _).
  exists h. split; [exact Ht|].
  destruct (run_verdict "db" mem_opens mem_stats (seqc save_block_conns explorer_block_conns) 0 h Idle _ Ht) as (E & h' & H & Hh).
  split; [exact E|]. rewrite <- (Hh ltac:(discriminate)). exact H.
Defined.

Lemma one_connection_at_a_time_witness :
  result_at "db" save_block_conns fresh_state = Some Fine ∧
  result_at "db" (add_block_conns (U:=unit) false [true; false] None Done false false) fresh_state = Some Failed ∧
  result_at "db" (load_from_db_conns [(true, true)] true) fresh_state = Some Failed.
Proof.
  destruct (one_connection_at_a_time "db" mem_opens mem_stats 0 _ Closed _ fresh_tracked) as ((A & _) & B & _ & C & _); [done|].
  split; [exact A|]. split; [exact (B unit false [true; false] None Done false false)|]. by apply C.
Defined.

Example run_evaluates :
  (run "db" (seqc save_block_conns explorer_block_conns) fresh_state).1 = Err (RocksDB "lock hold by current process") ∧
  (run "db" (seqc ban_ip_conns (wallet_command_conns false)) fresh_state).1 = Ok tt.
Proof. by split; vm_compute. Qed.
