(* ===== verification/Main.v ===== *)
(** * Main: the commands of the program

    [main] of src/111/src/main.rs: what every command of the command line does to
    the files and the database of a machine, composed of Node.v, Cli.v,
    AddrIndex.v and Files.v.

    - The parser of the arguments (clap), the TOML file with its environment, the
      RandomX dataset, the keys of a machine and its clock are the environment of
      a command.
    - [RunNode] ends here with the chain its node starts with; the tasks it then
      runs have their own files (Process.v starts and ends them).  The window ([Gui], a build feature) has Gui.v;
      logging and the hook that prints a panic are left out.
    - A command answers what it prints. *)
From S2P Require Import Prelude Errors Types Externals Instances Utils Keys Tx Ledger Store Chain Supply Startup.
From S2P Require Import AddrIndex Rpc Wallet Node Files Config Cli.

(** ** Numbers on the command line *)

(** [str::parse::<usize>]: an optional sign, then digits. *)
Definition digit (c : Ascii.ascii) : option Z :=
  let n := Z.of_N (Ascii.N_of_ascii c) in
  if (48 <=? n) && (n <=? 57) then Some (n - 48) else None.

Fixpoint parse_digits (s : string) (acc : Z) : option Z :=
  match s with
  | EmptyString => Some acc
  | String c s =>
      d ← digit c;
      let acc := acc * 10 + d in
      if acc <? 2 ^ 64 then parse_digits s acc else None
  end.

Definition parse_usize (s : string) : option Z :=
  match s with
  | EmptyString => None
  | String c s' => if (Ascii.nat_of_ascii c =? 43)%nat && negb (String.length s' =? 0)%nat then parse_digits s' 0 else parse_digits s 0
  end.

(** ** Commands *)

(** The script of the genesis coinbase, as [create_genesis_block] writes it. *)
Definition GENESIS_MESSAGE : bytes := bstr "Lyrion Network – Privacy by Design – Launched November 20, 2025".

Inductive ExplorerSubcommand :=
  | ExploreBlock (height_or_hash : string)
  | ExploreTx (hash : string)
  | ExploreAddress (address : string) (page page_size : Z)
  | RichList (page page_size : Z).

Inductive AdminSubcommand := BackupNow.

Inductive Commands :=
  | InitDb
  | RunNode
  | Status
  | Peers
  | WalletCommand (c : WalletSubcommand)
  | Explorer (c : ExplorerSubcommand)
  | Admin (c : AdminSubcommand).

Section Main.
  Context {CR : Crypto} {CD : Codec} {RK : Rocks} {RT : RetryPolicy} {HO : HashOrder} {MP : MempoolOps}
    {SR : SupplyReader} {FB : FreeBlockOps} {KC : Keychain} {CL : CliEnv}.
  (** ed25519, the format of an archive, [hex::decode] *)
  Context {K : Type} (sign : K → bytes → bytes) (zip_bytes : list (string * bytes) → bytes)
    (hex_decode : string → option bytes).

Inductive answer :=
  | Initialized (coinbase_sk : SecretKey)
  | DatasetFailed
  | Running (chain : Chain)
  | StatusOf (height : Z) (tip : bytes) (synchronized : bool)
  | PeersUnavailable
  | Printed (p : printed)
  | BlockOf (i : block_info)
  | TxOf (i : option tx_info)
  | AddressOf (n : Z) (page : list (bytes * Z * Z))
  | Rich (page : list (bytes * Z))
  | BackedUp.

Record World := mkWorld {
  (** [AppConfig::load()], [PowEngine::new(&config)], [RANDOMX_DATASET] *)
  w_config : outcome AppConfig;
  w_engine : outcome unit;
  w_dataset : outcome unit;
  (** [SecretKey::new(&mut thread_rng())] and its public key; [SecretKey::from_slice] *)
  w_fresh_sk : SecretKey;
  w_fresh_pk : PublicKey;
  w_coinbase_pk : bytes → outcome PublicKey;
  (** the bound on the search for the genesis block *)
  w_fuel : nat;
  w_mempool : Z → mempool;
  w_change_index : Z;
  w_input : CliInput;
  (** the checkpoint of RocksDB, the clock, the key of the backups, and whether
      the checkpoint can be removed *)
  w_tree : DB → list node;
  w_now : outcome Z;
  w_backup_key : outcome K;
  w_cleanup : bool;
}.

(** [load_chain_readonly], with the configuration. *)
Definition open_chain (w : World) : M Machine (AppConfig * Chain) :=
  config ← lift (w_config w);
  lift (w_engine w);;
  chain ← on_disk (load_chain_readonly (checkpoint_hashes config) (w_mempool w 1));
  mret (config, chain).

Definition block_arg_of (height_or_hash : string) : outcome block_arg :=
  if (String.length height_or_hash =? 64)%nat then
    hash_vec ← ok_or (hex_decode height_or_hash) (Anyhow "hex");
    ensure (length hash_vec =? 32)%nat (Anyhow "Invalid hash length");;
    Ok (ByHash hash_vec)
  else
    height ← ok_or (parse_usize height_or_hash) (Anyhow "invalid digit found in string");
    Ok (ByHeight height).

Definition explore (chain : Chain) (c : ExplorerSubcommand) : M Machine answer :=
  d ← gets m_db;
  match c with
  | ExploreBlock height_or_hash =>
      lift (arg ← block_arg_of height_or_hash; i ← explorer_block chain arg; Ok (BlockOf i))
  | ExploreTx hash =>
      lift (tx_hash_vec ← ok_or (hex_decode hash) (Anyhow "hex");
            ensure (length tx_hash_vec =? 32)%nat (Anyhow "Invalid hash length");;
            i ← explorer_tx chain tx_hash_vec; Ok (TxOf i))
  | ExploreAddress address page page_size =>
      lift (r ← explorer_address d address page page_size; Ok (AddressOf r.1 r.2))
  | RichList page page_size => lift (l ← rich_list d page page_size; Ok (Rich l))
  end.

Definition run_node (w : World) : M Machine answer :=
  match w_dataset w with
  | Err _ => mret DatasetFailed
  | dataset =>
      lift dataset;;
      config ← lift (w_config w);
      pk ← lift (w_coinbase_pk w (coinbase_sk_bytes config));
      lift (w_engine w);;
      chain ← on_disk (run_node_chain (w_fuel w) GENESIS_MESSAGE pk (checkpoint_hashes config)
                         (w_mempool w (max_mempool_size config)));
      mret (Running chain)
  end.

Definition init_db_command (w : World) : M Machine answer :=
  lift (w_config w);;
  d ← gets m_db;
  lift (pool_get d);;
  lift (w_engine w);;
  on_disk (init_db (w_fuel w) GENESIS_MESSAGE (w_fresh_pk w));;
  mret (Initialized (w_fresh_sk w)).

Definition backup_now (w : World) : M Machine answer :=
  config ← lift (w_config w);
  d ← gets m_db;
  on_fs (secure_backup_db sign zip_bytes (db_path config) (w_tree w d) (pool_get d) (w_now w) (w_backup_key w)
           (w_cleanup w));;
  mret BackedUp.

Definition main (w : World) (c : Commands) : M Machine answer :=
  match c with
  | InitDb => init_db_command w
  | RunNode => run_node w
  | Status =>
      '(_, chain) ← open_chain w;
      mret (StatusOf (best_height chain) (best_tip chain) (10 <? best_height chain))
  | Peers => mret PeersUnavailable
  | WalletCommand c =>
      config ← lift (w_config w);
      lift (w_engine w);;
      p ← wallet_command (checkpoint_hashes config) (w_mempool w 1) (mainnet config) (rpc_jwt_secret config)
            (w_change_index w) (w_input w) c;
      mret (Printed p)
  | Explorer c =>
      '(_, chain) ← open_chain w;
      d ← gets m_db;
      lift (pool_get d);;
      explore chain c
  | Admin BackupNow => backup_now w
  end.

End Main.

(** ** Properties *)

Lemma parse_digits_bounds s : ∀ acc n, 0 <= acc < 2 ^ 64 → parse_digits s acc = Some n → 0 <= n < 2 ^ 64.
Proof.
  induction s as [|c s IH]; intros acc n Ha; cbn [parse_digits]; [by intros [= <-]|].
  intros (d & Hd & H)%bind_Some. case_match eqn:Hlt; [|done]. apply Z.ltb_lt in Hlt.
  revert H. apply IH. split; [|done]. unfold digit in Hd. case_match eqn:Hc; [|done]. injection Hd as <-.
  apply andb_true_iff in Hc as [Hc _]. apply Z.leb_le in Hc. lia.
Qed.

(** A height on the command line is one that fits its type. *)
Lemma parse_usize_bounds s n : parse_usize s = Some n → 0 <= n < 2 ^ 64.
Proof.
  destruct s as [|c s]; [done|]. unfold parse_usize. case_match; by apply parse_digits_bounds.
Qed.

Section MainFacts.
  Context {CR : Crypto} {CRO : CryptoOk} {CD : Codec} {RK : Rocks} {RKO : RocksOk} {RT : RetryPolicy} {HO : HashOrder}
    {MP : MempoolOps} {SR : SupplyReader} {FB : FreeBlockOps} {KC : Keychain} {CL : CliEnv} {K : Type}
    (sign : K → bytes → bytes) (zip_bytes : list (string * bytes) → bytes) (hex_decode : string → option bytes).

#[local] Abbreviation main := (main sign zip_bytes hex_decode).

(** *** A database without a chain *)

(** No tip, no journal of a reorganisation. *)
Definition no_chain (d : DB) : Prop :=
  contents d !! (default_cf, DB_KEY_TIP) = None ∧
  ∀ k, starts_with journal_prefix k = true → contents d !! (default_cf, k) = None.

Lemma recover_nothing d d' u :
  no_chain d → recover_pending_reorgs d = (Ok u, d') → d' = d.
Proof using RKO.
  intros [_ Hj] H. apply M_bind_Ok in H as (d0 & d1 & [= <- <-] & H).
  apply lift_bind_Ok in H as (l & Hl & H). unfold iterator_from in Hl. apply bind_Ok in Hl as (l0 & Hit & [= <-]).
  destruct (iterator_cf_sound _ _ _ Hit) as [_ Hmem].
  destruct (seek journal_prefix l0) as [|[k v] l] eqn:E; cbn [recover_loop] in H; [by injection H|].
  destruct (starts_with journal_prefix k) eqn:Hk; cbn [negb] in H; [|by injection H].
  assert (Hin : (k, v) ∈ l0) by (eapply elem_of_sublist; [|apply (seek_sublist journal_prefix)]; rewrite E; by left).
  apply Hmem in Hin. by rewrite Hj in Hin.
Qed.

Lemma load_no_chain d cps m c d' : no_chain d → load_from_db cps m d ≠ (Ok c, d').
Proof using RKO.
  intros Hd H. unfold load_from_db in H. apply lift_bind_Ok in H as (? & _ & H).
  apply M_bind_Ok in H as (u & d1 & Hr & H). apply (recover_nothing _ _ _ Hd) in Hr as ->.
  apply M_bind_Ok in H as (d2 & d3 & [= <- <-] & H). apply lift_bind_Ok in H as (c1 & Hl & _).
  unfold loaded_chain, db_get in Hl. apply bind_Ok in Hl as (v & Hv & Hl). apply get_cf_sound in Hv.
  destruct Hd as [Ht _]. by rewrite Hv, Ht in Hl.
Qed.

Lemma init_db_no_chain fuel message pk d d' u :
  init_db fuel message pk d = (Ok u, d') → no_chain d → no_chain d'.
Proof using RKO.
  unfold init_db. intros H [Ht Hj]. apply M_bind_Ok in H as (d0 & d1 & [= <- <-] & H).
  do 3 apply lift_bind_Ok in H as (? & _ & H). unfold db_put, write_opt in H.
  destruct u. apply write_ok in H. cbn [apply_batch foldl apply_op Put] in H.
  split.
  - by rewrite H, lookup_insert_ne by done.
  - intros k Hk. rewrite H, lookup_insert_ne; [by apply Hj|]. intros [= <-]. by vm_compute in Hk.
Qed.

(** The commands that read the chain. *)
Definition reads_chain (c : Commands) : bool :=
  match c with Status | WalletCommand _ | Explorer _ => true | _ => false end.

Lemma open_chain_Ok (w : World (K:=K)) s r s' : open_chain w s = (Ok r, s') → ∃ d, load_from_db (checkpoint_hashes r.1) (w_mempool w 1) (m_db s) = (Ok r.2, d).
Proof using.
  unfold open_chain. intros (config & _ & H)%lift_bind_Ok. apply lift_bind_Ok in H as (? & _ & H).
  apply M_bind_Ok in H as (chain & s1 & (d & Hl & ->)%on_disk_Ok & [= <- <-]). unfold load_chain_readonly in Hl.
  apply M_bind_Ok in Hl as (? & ? & [= <- <-] & Hl). apply lift_bind_Ok in Hl as (? & _ & Hl). by exists d.
Qed.

Lemma reads_chain_Ok w c s a s' :
  reads_chain c = true → main w c s = (Ok a, s') → ∃ cps m chain d, load_from_db cps m (m_db s) = (Ok chain, d).
Proof using.
  destruct c as [| | | |c|c|]; intros Hc; try discriminate Hc; cbn [Main.main].
  - intros ([config chain] & s1 & H & _)%M_bind_Ok. apply open_chain_Ok in H as [d H]. eauto.
  - intros (config & _ & H)%lift_bind_Ok. apply lift_bind_Ok in H as (? & _ & H).
    apply M_bind_Ok in H as (p & s1 & (chain & d & Hl & _)%wallet_command_Ok & _). unfold load_chain_readonly in Hl.
    apply M_bind_Ok in Hl as (? & ? & [= <- <-] & Hl). apply lift_bind_Ok in Hl as (? & _ & Hl). eauto.
  - intros ([config chain] & s1 & H & _)%M_bind_Ok. apply open_chain_Ok in H as [d H]. eauto.
Qed.

Lemma init_db_main_Ok w s a s1 :
  main w InitDb s = (Ok a, s1) →
  m_fs s1 = m_fs s ∧ ∃ u, init_db (w_fuel w) GENESIS_MESSAGE (w_fresh_pk w) (m_db s) = (Ok u, m_db s1).
Proof using.
  cbn [Main.main]. unfold init_db_command. intros (? & _ & H)%lift_bind_Ok. apply M_bind_Ok in H as (d & s2 & [= <- <-] & H).
  do 2 apply lift_bind_Ok in H as (? & _ & H). apply M_bind_Ok in H as (u & s2 & (d' & Hi & ->)%on_disk_Ok & [= _ <-]).
  split; [done|by exists u].
Qed.

(** C29. [InitDb] does not make the database one that can be read: on a machine
    without a chain it writes the hash of a genesis block, no file, and after it
    the status, the wallet and the explorer fail as they did before, whatever
    their arguments; a node that is then started begins with a genesis block of
    its own at the height 0. *)
Theorem init_db_not_enough w s a s1 :
  main w InitDb s = (Ok a, s1) → no_chain (m_db s) →
  m_fs s1 = m_fs s ∧
  (∀ k, k ≠ (default_cf, DB_KEY_GENESIS_HASH) → contents (m_db s1) !! k = contents (m_db s) !! k) ∧
  (∀ w2 c a2 s2, reads_chain c = true → main w2 c s1 ≠ (Ok a2, s2)) ∧
  (∀ w2 c s2, main w2 RunNode s1 = (Ok (Running c), s2) →
     best_height c = 0 ∧ ∃ b, header_hash (header b) = Ok (best_tip c) ∧ genesis_hash c = best_tip c).
Proof using RKO.
  intros [Hfs [u Hi]]%init_db_main_Ok Hn. assert (Hn1 := init_db_no_chain _ _ _ _ _ _ Hi Hn). split_and!; [done| | |].
  - intros k Hk. unfold init_db in Hi. apply M_bind_Ok in Hi as (d0 & d1 & [= <- <-] & Hi).
    do 3 apply lift_bind_Ok in Hi as (? & _ & Hi). unfold db_put, write_opt in Hi.
    destruct u. apply write_ok in Hi. cbn [apply_batch foldl apply_op Put] in Hi. rewrite Hi.
    rewrite lookup_insert_ne; [done|]. intros <-. by apply Hk.
  - intros w2 c a2 s2 Hc H. destruct (reads_chain_Ok _ _ _ _ _ Hc H) as (cps & m & chain & d & Hl).
    by apply load_no_chain in Hl.
  - intros w2 c s2. cbn [Main.main]. unfold run_node. destruct (w_dataset w2); try done.
    intros (? & _ & H)%lift_bind_Ok. do 3 apply lift_bind_Ok in H as (? & _ & H).
    apply M_bind_Ok in H as (chain & s3 & (d & Hr & ->)%on_disk_Ok & [= <- <-]).
    unfold run_node_chain in Hr. apply lift_bind_Ok in Hr as (b & _ & Hr). unfold start_chain in Hr.
    destruct (load_from_db _ _ _) as [[c1|e| |] d1] eqn:El in Hr; try done; [by apply load_no_chain in El|].
    destruct (Chain_new _ _ _ d1) as [[c1| | |] d2] eqn:En; try done. injection Hr as <- <-.
    apply new_chain_state in En as (hash & target & Hh & _ & _ & Hg & Ht & Hb & _).
    split; [done|]. exists b. by rewrite Hg, Ht.
Qed.

End MainFacts.

(** ** Witnesses *)

#[local] Existing Instance padded_crypto | 0.
#[local] Existing Instance padded_crypto_ok | 0.
#[local] Existing Instance padded_keychain | 0.
#[local] Existing Instance sample_mempool_ops | 0.
#[local] Existing Instance sample_cli | 0.

Definition main_world : World (RK:=mem_rocks) (MP:=sample_mempool_ops) (CL:=sample_cli) (K:=bytes) :=
  mkWorld (RK:=mem_rocks) (MP:=sample_mempool_ops) (Ok sample_raw) (Ok tt) (Ok tt) [] [] (λ _, Ok []) 1 (λ _, []) 0 cli_input
    (λ _, sample_tree) (Ok 42) (Ok [7]) true.

Definition main_machine : Machine (RK:=mem_rocks) := mkMachine mem_rocks (mkFS ∅ ∅ 1000 5 false []) empty_db.

#[local] Abbreviation main_run c s :=
  (main (RK:=mem_rocks) (MP:=sample_mempool_ops) (CL:=sample_cli) sample_sign sample_zip (λ t, Some (bstr t)) main_world c s).

Definition main_initialized : Machine := (main_run InitDb main_machine).2.

Lemma main_init_run : ∃ a, main_run InitDb main_machine = (Ok a, main_initialized).
Proof.
  assert (match (main_run InitDb main_machine).1 with Ok _ => true | _ => false end = true) as E by by vm_compute.
  unfold main_initialized. destruct (main_run InitDb main_machine) as [[a| | |] s]; try done. by exists a.
Qed.

Lemma main_machine_no_chain : no_chain (RK:=mem_rocks) (m_db main_machine).
Proof. by split. Qed.

Lemma init_db_not_enough_witness :
  contents (m_db main_initialized : DB (Rocks:=mem_rocks)) !! (default_cf, DB_KEY_TIP) = None ∧
  ∀ a s, main_run Status main_initialized ≠ (Ok a, s).
Proof.
  destruct main_init_run as [a0 E].
  destruct (init_db_not_enough (RK:=mem_rocks) (MP:=sample_mempool_ops) (CL:=sample_cli) sample_sign sample_zip
    (λ t, Some (bstr t)) main_world main_machine a0 main_initialized E main_machine_no_chain) as (_ & H1 & H2 & _).
  split; [by rewrite H1|]. intros a s. by apply H2.
Defined.

(** The status before and after, and the start of a node. *)
Example main_runs :
  match (main_run Status main_initialized).1 with Err (Anyhow m) => m | _ => "" end = "Missing tip"%string ∧
  parse_usize "4294967297" = Some 4294967297 ∧ parse_usize "18446744073709551616" = None ∧ parse_usize "-1" = None.
Proof. by split_and!; vm_compute. Qed.
