(* ===== verification/Inventory.v ===== *)
(** * Inventory: the task that is told of announcements

    [RunNode] of src/111/src/main.rs starts a task that takes the announcements
    which the handlers of Net.v put in a channel, and builds the request for
    what the node lacks.  One round of the task is an operation on the node;
    its locks are in Tasks.v. *)
From S2P Require Import Prelude Errors Types Externals Instances Utils Keys Tx Ledger Store Chain BlockValidation Supply AddBlock Mempool Net.

Definition MSG_GETDATA : Z := 3.

Section Inventory.
  Context {CR : Crypto} {CD : Codec} {RK : Rocks} {RT : RetryPolicy} {HO : HashOrder} {HP : HeapOrder}
    {SR : SupplyReader} {WR : Wire}.

(** The message of a round, when what is announced is lacking. *)
Definition inventory_request (s : PeerManager) (typ : Z) (hash : bytes) : option bytes :=
  let c := pm_chain s in
  let known := bool_decide (is_Some (hash_to_height (state c) !! hash)) in
  if typ =? 1 then
    if bool_decide (is_Some (pool_txs (sp_pool (chain_mempool c)) !! hash)) || known then None
    else Some (to_le_bytes 4 MSG_GETDATA ++ to_le_bytes 4 1 ++ hash)
  else if typ =? 2 then
    if known then None else Some (to_le_bytes 4 MSG_GETDATA ++ to_le_bytes 4 2 ++ hash)
  else None.

(** One round: the message goes out of scope. *)
Definition inventory_round : M PeerManager unit :=
  s ← get;
  match inv_tx s with
  | [] => mret tt
  | (typ, hash) :: queue =>
      modify (set_inv_tx queue);;
      let _ := inventory_request s typ hash in
      mret tt
  end.

Fixpoint inventory_rounds (n : nat) : M PeerManager unit :=
  match n with
  | O => mret tt
  | S n => inventory_round;; inventory_rounds n
  end.

End Inventory.

(** ** Properties *)

Section InventoryFacts.
  Context {CR : Crypto} {CD : Codec} {RK : Rocks} {RT : RetryPolicy} {HO : HashOrder} {HP : HeapOrder}
    {SR : SupplyReader} {WR : Wire}.

Lemma inventory_round_eq s : inventory_round s = (Ok tt, set_inv_tx (tail (inv_tx s)) s).
Proof. destruct s as [? ? ? ? ? ? ? ? [|[typ hash] q] ? ?]; reflexivity. Qed.

Lemma inventory_rounds_eq n s : inventory_rounds n s = (Ok tt, set_inv_tx (drop n (inv_tx s)) s).
Proof.
  revert s. induction n as [|n IH]; intros s; [by destruct s|]. cbn [inventory_rounds].
  unfold mbind, M_bind. rewrite inventory_round_eq, IH. cbn [inv_tx set_inv_tx].
  destruct (inv_tx s) as [|x q]; cbn [tail drop]; by rewrite ?drop_nil.
Qed.

Lemma slice_mid a b (x y z : bytes) : a = length x → b = (length x + length y)%nat → slice a b (x ++ y ++ z) = Ok y.
Proof.
  intros -> ->. unfold slice. rewrite bool_decide_eq_true_2 by (rewrite !length_app; lia).
  f_equal. apply sub_bytes_app_mid; lia.
Qed.

Lemma inventory_request_Some s typ hash r :
  inventory_request s typ hash = Some r →
  (typ = 1 ∨ typ = 2) ∧ r = to_le_bytes 4 MSG_GETDATA ++ to_le_bytes 4 typ ++ hash.
Proof.
  unfold inventory_request. destruct (Z.eqb_spec typ 1) as [->|_]; [|destruct (Z.eqb_spec typ 2) as [->|_]; [|done]].
  all: case_match; [done|]; intros E; apply (inj Some) in E as <-; auto.
Qed.

(** A request for data, read by another node. *)
Lemma handle_request e typ hash p ip s :
  uint 32 typ → length hash = 32%nat →
  handle_message e (to_le_bytes 4 MSG_GETDATA ++ to_le_bytes 4 typ ++ hash) p ip s =
  (if typ =? 1 then
     match pool_txs (sp_pool (chain_mempool (pm_chain s))) !! hash with
     | Some entry => send (to_le_bytes 4 MSG_TX ++ serialize (entry_tx entry)) p
     | None => mret tt
     end
   else if typ =? 2 then
     height ← lift (unwrap (hash_to_height (state (pm_chain s)) !! hash));
     block ← lift (load_block_from_db (db (pm_chain s)) height);
     send (to_le_bytes 4 MSG_BLOCK ++ serialize block) p
   else mret tt) s.
Proof.
  intros Ht Hh. change (to_le_bytes 4 MSG_GETDATA ++ to_le_bytes 4 typ ++ hash) with (message 3 (to_le_bytes 4 typ ++ hash)).
  rewrite handle_message_eq by done. unfold dispatch, handle_getdata, message. run_m. cbn [Z.eqb Pos.eqb orb].
  rewrite (slice_mid 4 8) by by rewrite ?length_to_le_bytes.
  rewrite (app_assoc (to_le_bytes 4 3)), <- (app_nil_r hash).
  rewrite (slice_mid 8 40) by by rewrite ?length_app, ?length_to_le_bytes, ?Hh.
  rewrite app_nil_r. cbn [fmap outcome_fmap]. rewrite from_to_le_bytes by done. done.
Qed.

(** Nothing that is announced is ever fetched: however many rounds the task
    makes, it only empties its channel; no peer is sent anything, and neither
    the pool nor the chain changes.  The requests it builds and drops are right:
    a node that has the transaction, or the block, would answer each with it. *)
Theorem announced_never_fetched n a :
  inventory_rounds n a = (Ok tt, set_inv_tx (drop n (inv_tx a)) a) ∧
  (∀ hash r e p ip b entry, inventory_request a 1 hash = Some r → length hash = 32%nat →
     pool_txs (sp_pool (chain_mempool (pm_chain b))) !! hash = Some entry →
     handle_message e r p ip b = send (message MSG_TX (serialize (entry_tx entry))) p b) ∧
  (∀ hash r e p ip b h block, inventory_request a 2 hash = Some r → length hash = 32%nat →
     hash_to_height (state (pm_chain b)) !! hash = Some h → load_block_from_db (db (pm_chain b)) h = Ok block →
     handle_message e r p ip b = send (message MSG_BLOCK (serialize block)) p b).
Proof.
  split; [apply inventory_rounds_eq|]. split.
  - intros hash r e p ip b entry [_ ->]%inventory_request_Some Hh Hp. rewrite handle_request by done. cbn [Z.eqb Pos.eqb]. by rewrite Hp.
  - intros hash r e p ip b h block [_ ->]%inventory_request_Some Hh Hb Hl. rewrite handle_request by done. cbn [Z.eqb Pos.eqb].
    rewrite Hb. cbn [unwrap]. unfold mbind, M_bind, lift. by rewrite Hl.
Qed.

End InventoryFacts.

(** ** Witnesses *)

#[local] Existing Instance pool_ops | 0.

(** A node that was told of the transaction, and one that has it. *)
Definition told : PeerManager (RK:=mem_rocks) := set_inv_tx [(1, tx_hash pool_parent)] net_peer.

Definition has_it : PeerManager (RK:=mem_rocks) :=
  set_chain (set_mempool (mkSharedPool (insert (RK:=mem_rocks) 1 sample_db pool_parent (Ok 5) pool_0).2 false : mempool) net_chain) net_peer.

Lemma announced_never_fetched_witness :
  (inventory_rounds 1 told).1 = Ok tt ∧
  ∃ r entry, inventory_request told 1 (tx_hash pool_parent) = Some r ∧ entry_tx entry = pool_parent ∧
    handle_message sample_msg_env r 0 sample_ip has_it = send (message MSG_TX (serialize pool_parent)) 0 has_it.
Proof.
  assert (∃ r, inventory_request told 1 (tx_hash pool_parent) = Some r) as [r Hr] by (eexists; by vm_compute).
  assert (∃ entry, pool_txs (sp_pool (chain_mempool (pm_chain has_it))) !! tx_hash pool_parent = Some entry ∧ entry_tx entry = pool_parent)
    as (entry & He & Ht) by (eexists; split; by vm_compute).
  destruct (announced_never_fetched (RK:=mem_rocks) 1 told) as (H1 & H2 & _).
  split; [by rewrite H1|]. exists r, entry. split; [exact Hr|]. split; [exact Ht|].
  rewrite (H2 _ r sample_msg_env 0%nat sample_ip has_it entry Hr); [by rewrite Ht|by vm_compute|exact He].
Defined.
