(* ===== verification/Platform.v ===== *)
(** * Platform: the clock, huge pages and the memory of RandomX

    What src/111/src/utils.rs asks of the operating system and of the RandomX
    library when a process starts, and what the configuration does with the
    answer.  The system calls and the allocations of RandomX are parameters. *)
From S2P Require Import Prelude Errors Types Externals Instances Utils Config.

(** [SystemTime::now()], in milliseconds since the epoch; the metric is left out. *)
Definition now_ms (system_time : Z) : outcome Z :=
  if system_time <? 0 then Err InvalidTimestamp else Ok system_time.

(** ** RandomX *)

Section RandomX.
  (** The flags of the library, and its two constructors. *)
  Context {Cache Dataset : Type} (FLAG_DEFAULT FLAG_LARGE_PAGES FLAG_HARD_AES : Z)
    (RandomXCache_new : Z → outcome Cache) (RandomXDataset_new : Z → Cache → outcome Dataset).

Definition RANDOMX_FLAGS : Z :=
  let flags_large := Z.lor (Z.lor FLAG_DEFAULT FLAG_LARGE_PAGES) FLAG_HARD_AES in
  match RandomXCache_new flags_large with
  | Ok _ => flags_large
  | _ => FLAG_DEFAULT
  end.

Definition RANDOMX_CACHE : outcome Cache := RandomXCache_new RANDOMX_FLAGS.

Definition RANDOMX_DATASET : outcome Dataset :=
  cache ← RANDOMX_CACHE;
  RandomXDataset_new RANDOMX_FLAGS cache.

(** A machine without huge pages, or without the instructions for AES, still
    gets its cache, with the flags the cache was made with used for the dataset:
    the cache is refused only when the default flags are refused too. *)
Theorem cache_falls_back :
  (∀ flags, RandomXCache_new flags ≠ Panic ∧ RandomXCache_new flags ≠ Hang) →
  (∃ cache, RandomXCache_new FLAG_DEFAULT = Ok cache) →
  ∃ cache, RANDOMX_CACHE = Ok cache ∧ RANDOMX_DATASET = RandomXDataset_new RANDOMX_FLAGS cache ∧
    (RANDOMX_FLAGS = FLAG_DEFAULT ∨ RANDOMX_FLAGS = Z.lor (Z.lor FLAG_DEFAULT FLAG_LARGE_PAGES) FLAG_HARD_AES).
Proof using.
  intros Hn [c0 H0]. unfold RANDOMX_DATASET, RANDOMX_CACHE.
  assert (∃ c, RandomXCache_new RANDOMX_FLAGS = Ok c) as [c Hc].
  { unfold RANDOMX_FLAGS. destruct (RandomXCache_new (Z.lor _ FLAG_HARD_AES)) eqn:E; eauto. }
  exists c. rewrite Hc. split_and!; [done..|]. unfold RANDOMX_FLAGS. case_match; auto.
Qed.

End RandomX.

(** ** Huge pages *)

(** [mmap]: the address of the mapping; a mapping that fails is an error of the
    crate, which checks for [MAP_FAILED]. *)
Definition init_huge_pages (mmap : outcome Z) (munmap : Z → outcome unit) : outcome unit :=
  ptr ← mmap;
  if ptr =? 0 then Ok tt
  else munmap ptr;; Ok tt.

Section HugePages.
  Context {TX : Text} {HO : HashOrder}.

(** Where huge pages cannot be had there is no fallback: a configuration that
    asks for them does not load.  Where they can, it loads as one that does not
    ask for them, apart from the flag. *)
Theorem no_huge_pages_no_config raw c rng physical e munmap :
  raw = Ok c → enable_huge_pages c = true →
  (∀ c', load raw rng physical (init_huge_pages (Err e) munmap) ≠ Ok c') ∧
  (∀ ptr, munmap ptr = Ok tt → load raw rng physical (init_huge_pages (Ok ptr) munmap) = load raw rng physical (Ok tt)).
Proof using.
  intros -> Hp. split.
  - intros c' H. unfold load in H. apply bind_Ok in H as (c1 & [= <-] & H).
    do 3 apply bind_Ok in H as (? & _ & H). do 4 (apply bind_Ok in H as (? & ? & H)).
    rewrite Hp in H. by apply bind_Ok in H as (? & ? & _).
  - intros ptr Hm. unfold init_huge_pages. cbn [mbind outcome_bind]. rewrite Hm. by case_match.
Qed.

End HugePages.
