(* ===== verification/Sharing.v ===== *)
(** * Sharing: tasks that take connections at the same time

    The functions of Connections.v run in the tasks of one node and share its
    pool.  Here a task goes through its scopes step by step, the steps of
    several tasks are interleaved in any order, and the pool and the database
    are those of Connections.v.  A task that fails unwinds: its guards return
    what they hold, the rest is skipped. *)
From S2P Require Import Prelude Errors Types Externals Connections.

Section Sharing.
  Context `{EN : !Engine} `{DP : !Deadpool} (db_path : string).

(** What a task has before it: scopes to enter, and the ends of those entered. *)
Inductive frame :=
  | Work (p : conns)
  | Return (h : Handle)
  | Close (p : Pool) (h : Handle).

(** [None] while nothing has failed. *)
Record task := mkTask { failure : option result; frames : list frame }.

Record config := mkConfig { tasks : list task; shared : cstate }.

Definition refused (f : on_failure) (rest : conns) (fs : list frame) : task :=
  match f with
  | Fails => mkTask (Some Failed) fs
  | Panics => mkTask (Some Panicked) fs
  | Ignored => mkTask None (Work rest :: fs)
  end.

(** The answer of [get()]; [end_of] is what the guard will do. *)
Definition answered (f : on_failure) (body rest : conns) (fs : list frame) (r : outcome Handle) (end_of : Handle → frame) : option task :=
  match r with
  | Ok h => Some (mkTask None (Work body :: end_of h :: Work rest :: fs))
  | Err _ => Some (refused f rest fs)
  | Panic => Some (mkTask (Some Panicked) fs)
  | Hang => None
  end.

(** One step of a task; [None] when it has ended or waits. *)
Definition task_step (k : task) (s : cstate) : option (task * cstate) :=
  match frames k with
  | [] => None
  | Return h :: fs => Some (mkTask (failure k) fs, mkCstate (managed_return h (c_pool s)) (c_disk s))
  | Close p h :: fs => Some (mkTask (failure k) fs, mkCstate (c_pool s) (drop_pool (managed_return h p) (c_disk s)))
  | Work Done :: fs => Some (mkTask (failure k) fs, s)
  | Work (Conn w f body rest) :: fs =>
      match failure k, w with
      | Some _, _ => Some (mkTask (failure k) fs, s)
      | None, Shared =>
          let '(r, (p1, s1)) := get_conn db_path (c_pool s) (c_disk s) in
          k ← answered f body rest fs r Return;
          Some (k, mkCstate p1 s1)
      | None, Own =>
          let '(r, (p1, s1)) := get_conn db_path (create_db_pool db_path).2 (c_disk s) in
          k ← answered f body rest fs r (Close p1);
          Some (k, mkCstate (c_pool s) (if r is Ok _ then s1 else drop_pool p1 s1))
      end
  end.

Definition step (t : nat) (c : config) : option config :=
  k ← tasks c !! t;
  r ← task_step k (shared c);
  Some (mkConfig (<[t := r.1]> (tasks c)) r.2).

(** Any task may go on. *)
Inductive sched_step : config → config → Prop :=
  | sched t c c' : step t c = Some c' → sched_step c c'.

Definition start (progs : list conns) (s : cstate) : config := mkConfig ((λ p, mkTask None [Work p]) <$> progs) s.

(** A schedule, as far as its tasks can go. *)
Fixpoint run_schedule (l : list nat) (c : config) : config :=
  match l with
  | [] => c
  | t :: l => run_schedule l (default c (step t c))
  end.

(** ** What is held *)

Definition guard (f : frame) : bool := match f with Work _ => false | _ => true end.

Definition guards (l : list task) : list frame := l ≫= λ k, filter (λ f, guard f = true) (frames k).

(** ** The length of a run *)

Fixpoint conns_size (p : conns) : nat :=
  match p with
  | Done => 1
  | Conn _ _ body rest => 2 + conns_size body + conns_size rest
  end.

Definition frame_size (f : frame) : nat := match f with Work p => conns_size p | _ => 1 end.

Definition task_size (k : task) : nat := sum_list_with frame_size (frames k).

Definition size_of (l : list task) : nat := sum_list_with task_size l.

End Sharing.

(** ** One connection at a time *)

Section SharingFacts.
  Context `{EN : !Engine, ENO : !EngineOk, DP : !Deadpool, DPO : !DeadpoolOk} (db_path : string).
  Context (opens : ∀ s, opened db_path s = [] → ∃ h s', open_cf pool_options db_path pool_cfs s = (Ok h, s')).
  Context (stats : ∀ h s, ∃ v, property_value h "rocksdb.stats" s = Ok v).

#[local] Abbreviation task_guards k := (filter (λ f, guard f = true) (frames k)).

(** The pool and the database, for what all tasks hold together. *)
Inductive sound (s : cstate) : list frame → Prop :=
  | sound_free h k : k ≠ Busy → tracked db_path 0 h k s → sound s []
  | sound_shared h : tracked db_path 1 h Busy s → sound s [Return h]
  | sound_own p h : tracked db_path 0 h Busy s → pool_objects p = [] → sound s [Close p h].

Lemma sound_length s l : sound s l → (length l ≤ 1)%nat.
Proof using. destruct 1; simpl; lia. Qed.

(** While something is held nothing more can be had. *)
Lemma sound_refused s l w :
  sound s l → l ≠ [] →
  ∃ e p1 s1, get_conn db_path (match w with Shared => c_pool s | Own => (create_db_pool db_path).2 end) (c_disk s) = (Err e, (p1, s1)) ∧
    sound (match w with Shared => mkCstate p1 s1 | Own => mkCstate (c_pool s) (drop_pool p1 s1) end) l.
Proof using ENO DPO.
  intros Hs Hl. destruct Hs as [h k Hk Ht|h Ht|p h Ht Hp]; [done|..]; destruct w.
  - destruct (get_refused _ _ _ _ Ht) as (e & p1 & s1 & E & H). exists e, p1, s1. split; [done|]. by constructor.
  - destruct (get_own_refused _ _ _ _ _ Ht) as (e & p1 & s1 & E & H); [done|]. exists e, p1, s1. split; [done|]. by constructor.
  - destruct (get_refused _ _ _ _ Ht) as (e & p1 & s1 & E & H). exists e, p1, s1. split; [done|]. by constructor.
  - destruct (get_own_refused _ _ _ _ _ Ht) as (e & p1 & s1 & E & H); [done|]. exists e, p1, s1. split; [done|]. by constructor.
Qed.

(** When nothing is held, a connection is given, or a pool of its own is
    refused because the shared one keeps the database open. *)
Lemma sound_served s w :
  sound s [] →
  ∃ r p1 s1, get_conn db_path (match w with Shared => c_pool s | Own => (create_db_pool db_path).2 end) (c_disk s) = (r, (p1, s1)) ∧
    match r, w with
    | Ok h, Shared => sound (mkCstate p1 s1) [Return h]
    | Ok h, Own => sound (mkCstate (c_pool s) s1) [Close p1 h]
    | Err _, Own => sound (mkCstate (c_pool s) (drop_pool p1 s1)) []
    | _, _ => False
    end.
Proof using opens stats ENO DPO.
  inversion 1 as [h k Hk Ht| |]; subst. destruct w.
  - destruct (get_served db_path opens stats 0 h k s Ht) as (h' & p1 & s1 & E & H1 & _); [by destruct k|].
    exists (Ok h'), p1, s1. split; [done|]. by constructor.
  - destruct k; [| |done].
    + destruct (get_own_Ok db_path opens 0 h s Ht) as (h' & p1 & s1 & E & H1 & H2 & _). exists (Ok h'), p1, s1. split; [done|]. by constructor.
    + destruct (get_own_refused _ _ _ _ _ Ht) as (e & p1 & s1 & E & H1); [done|]. exists (Err e), p1, s1. split; [done|].
      by apply (sound_free _ h Idle).
Qed.

Lemma held_alone {A} (l1 l l2 : list A) x : (length (l1 ++ (x :: l) ++ l2) ≤ 1)%nat → l1 = [] ∧ l = [] ∧ l2 = [].
Proof using. rewrite !length_app. cbn [length]. destruct l1, l, l2; simpl; (done || lia). Qed.

Lemma refused_guards f rest fs : task_guards (refused f rest fs) = filter (λ f, guard f = true) fs.
Proof using. by destruct f. Qed.

(** A step keeps the pool and the database in line with what is held. *)
Lemma task_step_sound k s k' s' l1 l2 :
  task_step db_path k s = Some (k', s') →
  sound s (l1 ++ task_guards k ++ l2) → sound s' (l1 ++ task_guards k' ++ l2).
Proof using opens stats ENO DPO.
  destruct k as [st [|[[|w f body rest]|h|p h] fs]]; unfold task_step; cbn [frames failure]; [done|..].
  - by intros [= <- <-].
  - change (filter _ (Work (Conn w f body rest) :: fs)) with (filter (λ f, guard f = true) fs).
    destruct st as [st|]; [by destruct w; intros [= <- <-]|]. intros H Hs.
    destruct (l1 ++ filter (λ f, guard f = true) fs ++ l2) as [|g l] eqn:El.
    + apply app_nil in El as [-> [Ef ->]%app_nil]. destruct (sound_served s w Hs) as (r & p1 & s1 & E & Hr).
      destruct w; rewrite E in H; destruct r; try done; injection H as <- <-; cbn [app frames];
        rewrite ?refused_guards, ?filter_cons, ?Ef; cbn; try done.
    + destruct (sound_refused s _ w Hs) as (e & p1 & s1 & E & Hr); [done|].
      destruct w; rewrite E in H; injection H as <- <-; by rewrite refused_guards, El.
  - intros [= <- <-] Hs. change (filter _ (Return h :: fs)) with (Return h :: filter (λ f, guard f = true) fs) in Hs.
    destruct (held_alone l1 _ l2 _ (sound_length _ _ Hs)) as (-> & Hf & ->).
    cbn [app frames] in *. rewrite Hf in Hs |- *. inversion Hs; subst. eapply (sound_free _ h Idle); [done|]. by apply tracked_return.
  - intros [= <- <-] Hs. change (filter _ (Close p h :: fs)) with (Close p h :: filter (λ f, guard f = true) fs) in Hs.
    destruct (held_alone l1 _ l2 _ (sound_length _ _ Hs)) as (-> & Hf & ->).
    cbn [app frames] in *. rewrite Hf in Hs |- *. inversion Hs; subst. eapply (sound_free _ h Closed); [done|]. by apply tracked_drop.
Qed.

Lemma guards_insert l t k k' :
  l !! t = Some k → ∃ l1 l2, guards l = l1 ++ task_guards k ++ l2 ∧ guards (<[t := k']> l) = l1 ++ task_guards k' ++ l2.
Proof using.
  intros Hk. exists (guards (take t l)), (guards (drop (S t) l)).
  rewrite insert_take_drop by by eapply lookup_lt_Some.
  rewrite <- (take_drop_middle l t k Hk) at 1. unfold guards. by rewrite !bind_app.
Qed.

Lemma start_guards progs s : guards (tasks (start progs s)) = [].
Proof using. unfold guards, start; cbn [tasks]. by induction progs. Qed.

Lemma guards_ended l : Forall (λ k, frames k = []) l → guards l = [].
Proof using. unfold guards. induction 1 as [|k l Hk _ IH]; [done|]. by rewrite bind_cons, Hk, IH. Qed.

Lemma reachable_sound progs s h k c :
  k ≠ Busy → tracked db_path 0 h k s → rtc (sched_step db_path) (start progs s) c →
  sound (shared c) (guards (tasks c)).
Proof using opens stats ENO DPO.
  intros Hk Ht. revert c. apply rtc_ind_r.
  - rewrite start_guards. by apply (sound_free _ h k).
  - intros c c' _ [t c1 c2 Hs] IH. unfold step in Hs. apply bind_Some in Hs as (k0 & Hk0 & Hs).
    apply bind_Some in Hs as ([k1 s1] & Hk1 & [= <-]). cbn [tasks shared fst snd].
    destruct (guards_insert _ _ _ k1 Hk0) as (l1 & l2 & E1 & E2). rewrite E2. rewrite E1 in IH.
    by eapply task_step_sound.
Qed.

(** *** Every schedule ends *)

Lemma answered_smaller w f body rest fs r e k :
  (∀ h, frame_size (e h) = 1%nat) → answered f body rest fs r e = Some k →
  (task_size k < task_size (mkTask None (Work (Conn w f body rest) :: fs)))%nat.
Proof using.
  intros He. destruct r; cbn; [| | |done]; intros [= <-].
  - unfold task_size; cbn. rewrite He. lia.
  - destruct f; unfold task_size; cbn; lia.
  - unfold task_size; cbn; lia.
Qed.

Lemma task_step_smaller k s k' s' : task_step db_path k s = Some (k', s') → (task_size k' < task_size k)%nat.
Proof using.
  destruct k as [st [|[[|w f body rest]|h|p h] fs]]; unfold task_step; cbn [frames failure]; [done|..].
  1, 3, 4: intros [= <- <-]; unfold task_size; cbn; lia.
  destruct st as [st|]; [destruct w; intros [= <- <-]; unfold task_size; cbn; lia|].
  destruct w; destruct (get_conn _ _ _) as [r [p1 s1]]; intros (k1 & Hk & [= <- <-])%bind_Some;
    (eapply answered_smaller; [|exact Hk]; done).
Qed.

Lemma size_insert l t k k' : l !! t = Some k → (task_size k' < task_size k)%nat → (size_of (<[t := k']> l) < size_of l)%nat.
Proof using.
  intros Hk Hs. rewrite insert_take_drop by by eapply lookup_lt_Some.
  assert (size_of l = size_of (take t l ++ k :: drop (S t) l)) as -> by by rewrite take_drop_middle.
  unfold size_of. rewrite !sum_list_with_app. cbn. lia.
Qed.

Lemma sched_step_smaller c c' : sched_step db_path c c' → (size_of (tasks c') < size_of (tasks c))%nat.
Proof using.
  intros [t c1 c2 Hs]. unfold step in Hs. apply bind_Some in Hs as (k & Hk & ([k1 s1] & Hk1 & [= <-])%bind_Some).
  cbn [tasks fst]. eapply size_insert; [done|]. by eapply task_step_smaller.
Qed.

Lemma schedule_bound n c c' : nsteps (sched_step db_path) n c c' → (n + size_of (tasks c') ≤ size_of (tasks c))%nat.
Proof using. induction 1 as [|n c1 c2 c3 H _ IH]; [lia|]. apply sched_step_smaller in H. lia. Qed.

(** A task that has not ended can always go on. *)
Lemma task_goes_on k s l : sound s l → frames k ≠ [] → is_Some (task_step db_path k s).
Proof using opens stats ENO DPO.
  destruct k as [st [|[[|w f body rest]|h|p h] fs]]; intros Hs Hf; unfold task_step; cbn [frames failure] in *; [done|by eexists| |by eexists..].
  destruct st as [st|]; [destruct w; by eexists|]. destruct (decide (l = [])) as [->|Hl].
  - destruct (sound_served s w Hs) as (r & p1 & s1 & E & Hr). destruct w; rewrite E; destruct r; try done; by eexists.
  - destruct (sound_refused s l w Hs Hl) as (e & p1 & s1 & E & _). destruct w; rewrite E; by eexists.
Qed.

(** C21. However the tasks of a node are interleaved, at most one of them holds a
    connection; a task that asks while another holds one is refused, whatever
    its own scopes are.  No task ever waits: as long as one has not ended some
    step is possible, the number of steps is bounded, and when all have ended
    the pool has its connection back. *)
Theorem one_holder progs s h k c :
  k ≠ Busy → tracked db_path 0 h k s → rtc (sched_step db_path) (start progs s) c →
  (length (guards (tasks c)) ≤ 1)%nat ∧
  (∀ t w f body rest fs, tasks c !! t = Some (mkTask None (Work (Conn w f body rest) :: fs)) → guards (tasks c) ≠ [] →
     ∃ c', step db_path t c = Some c' ∧ tasks c' = <[t := refused f rest fs]> (tasks c)) ∧
  (∀ t k, tasks c !! t = Some k → frames k ≠ [] → is_Some (step db_path t c)) ∧
  (∀ n c', nsteps (sched_step db_path) n (start progs s) c' → (n ≤ size_of (tasks (start progs s)))%nat) ∧
  (Forall (λ k, frames k = []) (tasks c) → ∃ h' k', k' ≠ Busy ∧ tracked db_path 0 h' k' (shared c)).
Proof using opens stats ENO DPO.
  intros Hk Ht Hr. pose proof (reachable_sound _ _ _ _ _ Hk Ht Hr) as Hs. split_and!.
  - by eapply sound_length.
  - intros t w f body rest fs Htk Hg. destruct (sound_refused _ _ w Hs Hg) as (e & p1 & s1 & E & _).
    unfold step. rewrite Htk. cbn [mbind option_bind]. unfold task_step; cbn [frames failure].
    destruct w; rewrite E; by eexists.
  - intros t k0 Htk Hf. destruct (task_goes_on _ _ _ Hs Hf) as [r Hr']. unfold step. rewrite Htk. cbn [mbind option_bind].
    rewrite Hr'. by eexists.
  - intros n c' Hn%schedule_bound. lia.
  - intros Hall. assert (guards (tasks c) = []) as Hg. by by apply guards_ended.
    rewrite Hg in Hs. inversion Hs as [h' k' Hk' Ht'| |]; subst. eauto.
Qed.

End SharingFacts.

(** ** Two tasks *)

#[local] Existing Instance mem_engine.
#[local] Existing Instance mem_engine_ok.
#[local] Existing Instance mem_pool.
#[local] Existing Instance mem_pool_ok.

(** A peer asks for a block while the miner reads a header. *)
Definition two_tasks : config := start [load_block_conns; load_header_conns Panics true] fresh_state.

Definition collided : config := run_schedule "db" [0; 1; 1; 0; 0; 0; 1]%nat two_tasks.

Definition in_turn : config := run_schedule "db" [0; 0; 0; 0; 1; 1; 1; 1]%nat two_tasks.

(** One after the other both succeed; in between each other the second fails. *)
Example two_schedules :
  failure <$> tasks collided = [None; Some Panicked] ∧ failure <$> tasks in_turn = [None; None] ∧
  frames <$> tasks in_turn = [[]; []].
Proof. by split_and!; vm_compute. Qed.

Lemma schedule_steps db l c : rtc (sched_step db) c (run_schedule db l c).
Proof.
  revert c. induction l as [|t l IH]; intros c; [done|]. cbn [run_schedule].
  destruct (step db t c) as [c1|] eqn:E; [|apply IH]. eapply rtc_l; [|apply IH]. by econstructor.
Qed.

Lemma one_holder_witness :
  (length (guards (tasks collided)) ≤ 1)%nat ∧
  ∃ c', step "db" 1 (run_schedule "db" [0%nat] two_tasks) = Some c' ∧
        failure <$> tasks c' = [None; Some Panicked].
Proof.
  destruct (one_holder "db" mem_opens mem_stats [load_block_conns; load_header_conns Panics true] fresh_state ("db"%string, 0%nat) Closed collided)
    as [H1 _]; [done|apply fresh_tracked|apply schedule_steps|].
  split; [exact H1|].
  destruct (one_holder "db" mem_opens mem_stats [load_block_conns; load_header_conns Panics true] fresh_state ("db"%string, 0%nat) Closed
    (run_schedule "db" [0%nat] two_tasks)) as (_ & H2 & _); [done|apply fresh_tracked|apply schedule_steps|].
  destruct (H2 1%nat Shared Panics Done Done []) as (c' & E & Ec); [by vm_compute|by vm_compute|].
  exists c'. split; [exact E|]. rewrite Ec. by vm_compute.
Defined.
