(* ===== verification/Serve.v ===== *)
(** * Serve: the connections a node accepts and makes

    The end of [PeerManager::add_peer] and [connect_to_seeds] of
    src/111/src/net.rs with the listener of src/111/src/main.rs: when a peer was
    let in, three tasks serve it, and [add_peer] returns when all three have
    ended.  The listener, the calls to the seeds and the start of the node wait
    for that.

    - What the messages do is in Net.v; here a session is its channel, what was
      written, and which of its tasks go on.
    - [write_tx] is [mpsc::channel(100).0]: the receiving half is dropped where the
      channel is made, so that sending fails.  The writing task calls [recv] on
      the sender, which has no such method; receiving from this channel is meant,
      and nothing can arrive.  The lock of the stream, which that task asks for
      with a message in hand, therefore never matters.
    - What a stream or a listener answers is an event of the environment.  So is
      that a peer was let in: in the code as it is no handshake succeeds
      ([Net.handshake_refused]); this file shows what follows once one does. *)
From S2P Require Import Prelude Errors Types Externals Instances Utils Keys Tx Ledger Store Chain BlockValidation Supply AddBlock Mempool Net.

(** ** Channels *)

Definition WRITE_CAPACITY : nat := 100.

(** A channel of tokio: whether its receiving half is there, and what waits. *)
Record channel := mkChannel { receiver : bool; queue : list bytes }.

(** [mpsc::channel(100).0] *)
Definition write_tx : channel := mkChannel false [].

Inductive sent := Sent (c : channel) | SendError | Full.

(** [send(msg).await] *)
Definition channel_send (msg : bytes) (c : channel) : sent :=
  if receiver c then
    if (length (queue c) <? WRITE_CAPACITY)%nat then Sent (mkChannel true (queue c ++ [msg])) else Full
  else SendError.

Inductive received := Got (msg : bytes) (c : channel) | NoMore | Nothing.

(** [recv().await]; without a receiving half nothing more can arrive. *)
Definition channel_recv (c : channel) : received :=
  match queue c with
  | msg :: q => Got msg (mkChannel (receiver c) q)
  | [] => if receiver c then Nothing else NoMore
  end.

(** ** The session of a peer *)

Record session := mkSession {
  chan : channel;
  writing : bool;
  beating : bool;
  reading : bool;
  written : list bytes;
}.

(** [try_send] and [flush]. *)
Inductive write_result := Written | FlushFailed | ChannelFull.

(** In seconds. *)
Definition PEER_TIMEOUT : Z := 20.

(** One turn of the reading task: the shutdown, or what [read] answers after
    [wait], the number of bytes or an error, and whether what was read could be
    decoded (an error of the decoding ends the task, one of the message itself
    does not). *)
Inductive turn := Stopped | Arrived (wait : Z) (len : option Z) (decoded : bool).

Definition goes_on (t : turn) : bool :=
  match t with
  | Stopped => false
  | Arrived wait len decoded =>
      if wait <=? PEER_TIMEOUT then
        match len with
        | Some len => if (0 <? len) && (len <=? MAX_MESSAGE_SIZE) then decoded else MAX_MESSAGE_SIZE <? len
        | None => false
        end
      else false
  end.

(** [Push]: another task sends the peer a message, whatever becomes of it. *)
Inductive session_event :=
  | Push (msg : bytes)
  | Write (r : write_result)
  | Beat
  | Turn (t : turn).

Section Serve.
  Context {WR : Wire}.

(** A peer that was let in is asked for addresses: [send(..).await.ok()]. *)
Definition new_session (getaddr : bytes) : session :=
  mkSession (match channel_send getaddr write_tx with Sent c => c | _ => write_tx end) true true true [].

Definition set_chan (c : channel) (s : session) : session := mkSession c (writing s) (beating s) (reading s) (written s).

Definition stop_writing (s : session) : session := mkSession (chan s) false (beating s) (reading s) (written s).

(** A round of the writing task. *)
Definition write_round (r : write_result) (s : session) : option session :=
  if writing s then
    match channel_recv (chan s) with
    | Got msg c =>
        match frame msg, r with
        | Ok f, Written => Some (mkSession c true (beating s) (reading s) (written s ++ [f]))
        | _, _ => Some (stop_writing s)
        end
    | NoMore => Some (stop_writing s)
    | Nothing => None
    end
  else None.

(** A tick of the heartbeat; the first one comes at once. *)
Definition beat (s : session) : option session :=
  if beating s then
    match channel_send heartbeat (chan s) with
    | Sent c => Some (set_chan c s)
    | SendError => Some (mkSession (chan s) (writing s) false (reading s) (written s))
    | Full => None
    end
  else None.

Definition session_step (e : session_event) (s : session) : option session :=
  match e with
  | Push msg =>
      match channel_send msg (chan s) with
      | Sent c => Some (set_chan c s)
      | SendError => Some s
      | Full => None
      end
  | Write r => write_round r s
  | Beat => beat s
  | Turn t => if reading s then Some (mkSession (chan s) (writing s) (beating s) (goes_on t) (written s)) else None
  end.

(** [while join_set.join_next().await.is_some()] *)
Definition over (s : session) : bool := negb (writing s || beating s || reading s).

(** ** The listener *)

Inductive listener :=
  | Accepting
  | Serving (s : session)
  | Ended.

(** [admitted]: the peer passes the limits and the handshake. *)
Inductive listen_event :=
  | Incoming (tls admitted : bool) (getaddr : bytes)
  | AcceptFailed
  | InSession (e : session_event)
  | Shutdown.

Definition listen_step (e : listen_event) (l : listener) : option listener :=
  match l, e with
  | Accepting, Incoming tls admitted getaddr => Some (if tls && admitted then Serving (new_session getaddr) else Accepting)
  | Accepting, AcceptFailed => Some Ended
  | Serving s, InSession e => s ← session_step e s; Some (if over s then Accepting else Serving s)
  | (Accepting | Serving _), Shutdown => Some Ended
  | _, _ => None
  end.

(** ** The calls to the seeds *)

(** The seeds that are left. *)
Inductive dialer :=
  | Dialing (left : nat)
  | Talking (s : session) (left : nat).

Inductive dial_event :=
  | Dial (connected admitted : bool) (getaddr : bytes)
  | InCall (e : session_event).

Definition dial_step (e : dial_event) (d : dialer) : option dialer :=
  match d, e with
  | Dialing (S n), Dial connected admitted getaddr =>
      Some (if connected && admitted then Talking (new_session getaddr) n else Dialing n)
  | Talking s n, InCall e => s ← session_step e s; Some (if over s then Dialing n else Talking s n)
  | _, _ => None
  end.

(** [connect_to_seeds] has returned. *)
Definition dialed (d : dialer) : bool := match d with Dialing O => true | _ => false end.

(** Events one after the other. *)
Definition runs {E S} (step : E → S → option S) (es : list E) (s : S) : option S :=
  foldl (λ s e, s ≫= step e) (Some s) es.

(** ** Properties *)

Lemma runs_cons {E S} (step : E → S → option S) e es s :
  runs step (e :: es) s = step e s ≫= runs step es.
Proof using.
  unfold runs. cbn. destruct (step e s) as [s'|]; [done|]. cbn. induction es as [|e' es IH]; [done|]. apply IH.
Qed.

(** The channel of a session is dead and nothing was written. *)
Definition mute (s : session) : Prop := chan s = write_tx ∧ written s = [].

(** What a step does to the three tasks of such a session. *)
Lemma mute_step e s s' :
  session_step e s = Some s' → mute s →
  mute s' ∧ (reading s = true → (∀ t, e = Turn t → goes_on t = true) → reading s' = true) ∧
  (e = Beat ∨ beating s = false → beating s' = false) ∧ ((∃ r, e = Write r) ∨ writing s = false → writing s' = false).
Proof using.
  destruct s as [c wr bt rd ws]. intros H [Hc Hw]. cbn [chan written] in Hc, Hw. subst.
  destruct e as [msg|r| |t]; cbn in H.
  - injection H as <-. split_and!; [done|done|naive_solver|naive_solver].
  - destruct wr; [|done]. injection H as <-. by split_and!; [done|done|intros [|]|].
  - destruct bt; [|done]. injection H as <-. split_and!; [done|done|done|intros [[]|]; done].
  - destruct rd; [|done]. injection H as <-. split_and!; [done|naive_solver|naive_solver|naive_solver].
Qed.

Lemma new_session_mute getaddr : mute (new_session getaddr).
Proof using. done. Qed.

(** A run of a session in which the reading task goes on. *)
Lemma mute_over s : reading s = true → over s = false.
Proof using. intros H. unfold over. by rewrite H, orb_true_r. Qed.

Definition attended (es : list session_event) (s s' : session) : Prop :=
  mute s' ∧ reading s' = true ∧ (Beat ∈ es ∨ beating s = false → beating s' = false) ∧
  ((∃ r, Write r ∈ es) ∨ writing s = false → writing s' = false).

Lemma attended_cons e es s s1 s' :
  session_step e s = Some s1 → mute s → attended es s1 s' → attended (e :: es) s s'.
Proof using.
  intros H Hm (H1 & H2 & H3 & H4). destruct (mute_step _ _ _ H Hm) as (_ & _ & Hb & Hw). split_and!; [done|done|..].
  - intros [[<-|Hin]%elem_of_cons|E]; apply H3; [right; apply Hb; by left|by left|right; apply Hb; by right].
  - intros [(r & [<-|Hin]%elem_of_cons)|E]; apply H4; [right; apply Hw; left; by eexists|left; by eexists|right; apply Hw; by right].
Qed.

(** The events of a session among those of a listener, or of a call. *)
Definition in_session (e : listen_event) : list session_event := match e with InSession e => [e] | _ => [] end.

Definition in_call (e : dial_event) : list session_event := match e with InCall e => [e] | _ => [] end.

Lemma served_on es s l :
  runs listen_step es (Serving s) = Some l → mute s → reading s = true → Shutdown ∉ es →
  (∀ t, InSession (Turn t) ∈ es → goes_on t = true) → ∃ s', l = Serving s' ∧ attended (es ≫= in_session) s s'.
Proof using.
  revert s. induction es as [|e es IH]; intros s H Hm Hr Hs Ht.
  { injection H as <-. exists s. split; [done|]. split_and!; [done|done|..]; [|intros [[r Hin]|]; [|done]; by apply not_elem_of_nil in Hin].
    intros [Hin|]; [by apply not_elem_of_nil in Hin|done]. }
  rewrite runs_cons in H. apply bind_Some in H as (l1 & Hl1 & H). destruct e as [| |e|]; try done; [|by destruct Hs; left].
  apply bind_Some in Hl1 as (s1 & Hs1 & [= <-]). destruct (mute_step _ _ _ Hs1 Hm) as (Hm1 & Hr1 & _).
  assert (reading s1 = true) as E by (apply Hr1; [done|intros t ->; apply Ht; by left]).
  rewrite mute_over in H by done. apply IH in H as (s' & -> & Ha); try done; [|by intros Hin; apply Hs; right|by intros t Hin; apply Ht; right].
  exists s'. split; [done|]. by eapply attended_cons.
Qed.

Lemma talking_on es s n d :
  runs dial_step es (Talking s n) = Some d → mute s → reading s = true →
  (∀ t, InCall (Turn t) ∈ es → goes_on t = true) → ∃ s', d = Talking s' n ∧ attended (es ≫= in_call) s s'.
Proof using.
  revert s. induction es as [|e es IH]; intros s H Hm Hr Ht.
  { injection H as <-. exists s. split; [done|]. split_and!; [done|done|..]; [|intros [[r Hin]|]; [|done]; by apply not_elem_of_nil in Hin].
    intros [Hin|]; [by apply not_elem_of_nil in Hin|done]. }
  rewrite runs_cons in H. apply bind_Some in H as (l1 & Hl1 & H). destruct e as [|e]; [done|].
  apply bind_Some in Hl1 as (s1 & Hs1 & [= <-]). destruct (mute_step _ _ _ Hs1 Hm) as (Hm1 & Hr1 & _).
  assert (reading s1 = true) as E by (apply Hr1; [done|intros t ->; apply Ht; by left]).
  rewrite mute_over in H by done. apply IH in H as (s' & -> & Ha); try done; [|by intros t Hin; apply Ht; right].
  exists s'. split; [done|]. by eapply attended_cons.
Qed.

(** The turn with which a session whose other tasks have ended is over. *)
Lemma last_turn s t :
  reading s = true → writing s = false → beating s = false → goes_on t = false →
  ∃ s', session_step (Turn t) s = Some s' ∧ over s' = true.
Proof using. intros Hr Hw Hb Ht. cbn. rewrite Hr, Hw, Hb, Ht. by eexists. Qed.

(** C27. A node serves one incoming peer at a time, and the peer is told nothing:
    from the moment it was let in until its reading task ends nobody else is
    accepted, unless the node is shut down, and nothing is ever written to it,
    neither the request for addresses nor a heartbeat, because its channel has no
    receiving half.  The task goes on as long as something that can be decoded,
    or too much, comes within every twenty seconds; once the two other tasks have
    had a turn, twenty seconds of silence make the listener accept again.  The
    calls to the seeds do not return while a seed that was reached keeps talking
    in this way, and the node does not go on starting; after the silence they go
    on with the next seed. *)
Theorem one_peer_at_a_time getaddr :
  (∀ es l, runs listen_step (Incoming true true getaddr :: es) Accepting = Some l → Shutdown ∉ es →
     (∀ t, InSession (Turn t) ∈ es → goes_on t = true) →
     (∃ s, l = Serving s ∧ written s = []) ∧
     (∀ tls admitted getaddr', listen_step (Incoming tls admitted getaddr') l = None) ∧
     (∀ r wait len decoded, InSession Beat ∈ es → InSession (Write r) ∈ es → PEER_TIMEOUT < wait →
        listen_step (InSession (Turn (Arrived wait len decoded))) l = Some Accepting)) ∧
  (∀ es n d, runs dial_step (Dial true true getaddr :: es) (Dialing (S n)) = Some d →
     (∀ t, InCall (Turn t) ∈ es → goes_on t = true) →
     dialed d = false ∧
     (∀ r wait len decoded, InCall Beat ∈ es → InCall (Write r) ∈ es → PEER_TIMEOUT < wait →
        dial_step (InCall (Turn (Arrived wait len decoded))) d = Some (Dialing n))).
Proof using.
  assert (∀ wait len decoded, PEER_TIMEOUT < wait → goes_on (Arrived wait len decoded) = false) as Hq.
  { intros wait len decoded H. cbn [goes_on]. by rewrite (proj2 (Z.leb_gt _ _)). }
  split.
  - intros es l H Hs Ht. rewrite runs_cons in H. cbn [listen_step andb mbind option_bind] in H.
    destruct (served_on _ _ _ H (new_session_mute getaddr) eq_refl Hs Ht) as (s & -> & [_ Hw] & Hr & Hb & Hwr).
    split_and!; [by eexists|done|]. intros r wait len decoded Hbeat Hwrite Hwait.
    destruct (last_turn s (Arrived wait len decoded)) as (s' & E & Ho); [done| | |by apply Hq|].
    + apply Hwr. left. exists r. apply list_elem_of_bind. exists (InSession (Write r)). split; [by left|done].
    + apply Hb. left. apply list_elem_of_bind. exists (InSession Beat). split; [by left|done].
    + cbn [listen_step]. rewrite E. cbn [mbind option_bind]. by rewrite Ho.
  - intros es n d H Ht. rewrite runs_cons in H. cbn [dial_step andb mbind option_bind] in H.
    destruct (talking_on _ _ _ _ H (new_session_mute getaddr) eq_refl Ht) as (s & -> & _ & Hr & Hb & Hwr).
    split; [done|]. intros r wait len decoded Hbeat Hwrite Hwait.
    destruct (last_turn s (Arrived wait len decoded)) as (s' & E & Ho); [done| | |by apply Hq|].
    + apply Hwr. left. exists r. apply list_elem_of_bind. exists (InCall (Write r)). split; [by left|done].
    + apply Hb. left. apply list_elem_of_bind. exists (InCall Beat). split; [by left|done].
    + cbn [dial_step]. rewrite E. cbn [mbind option_bind]. by rewrite Ho.
Qed.

(** One error of the system ends the listener for good. *)
Theorem listener_ends es l : runs listen_step (AcceptFailed :: es) Accepting = Some l → es = [] ∧ l = Ended.
Proof using.
  rewrite runs_cons. cbn [listen_step mbind option_bind]. destruct es as [|e es]; [by intros [= <-]|].
  rewrite runs_cons. by destruct e.
Qed.

End Serve.

(** ** Witnesses *)

(** A peer that sends ten bytes after five seconds, and then nothing. *)
Definition chatty : list listen_event :=
  [InSession Beat; InSession (Push [1; 2]); InSession (Write Written); InSession (Turn (Arrived 5 (Some 10) true))].

Lemma one_peer_at_a_time_witness :
  ∃ l, runs listen_step (Incoming true true [9; 0; 0; 0] :: chatty) Accepting = Some l ∧
    (∀ tls admitted getaddr, listen_step (Incoming tls admitted getaddr) l = None) ∧
    listen_step (InSession (Turn (Arrived 21 None true))) l = Some Accepting.
Proof.
  destruct (one_peer_at_a_time [9; 0; 0; 0]) as [H _]. eexists. split; [reflexivity|].
  destruct (H chatty _ eq_refl) as (_ & H1 & H2).
  - unfold chatty. rewrite !not_elem_of_cons. split_and!; (done || apply not_elem_of_nil).
  - intros t Ht. unfold chatty in Ht. set_unfold. by destruct Ht as [|[|[|[[= ->]|[]]]]].
  - split; [exact H1|]. apply (H2 Written); [|unfold chatty; set_solver|done]. by left.
Defined.

Lemma listener_ends_witness : runs listen_step [AcceptFailed] Accepting = Some Ended ∧ [] = @nil listen_event.
Proof. split; [reflexivity|]. exact (proj1 (listener_ends [] Ended eq_refl)). Defined.
