(* ===== verification/Process.v ===== *)
(** * Process: the servers of a node, its start on the network and its end

    The parts of [RunNode] in src/111/src/main.rs that Node.v and Main.v leave:
    the network side of the start, the metrics, health and RPC servers with
    their ports, and what happens between the signal that ends a node and its
    last save.

    - Ports are a set of those that are taken; a server that cannot have its port
      ends with an error that nobody reads.
    - rustls, prometheus and the contents of files are parameters.  actix ends
      its servers by itself when the process is interrupted; when it does so is
      an argument.
    - Times are milliseconds after the signal. *)
From S2P Require Import Prelude Errors Types Externals Instances Utils Keys Tx Ledger Store Chain BlockValidation Supply AddBlock Mempool Net Rpc.

#[local] Existing Instance pool_ops | 0.

(** ** Servers *)

Abbreviation ports := (gset Z).

(** For port 0 the system chooses one; which one is left out. *)
Definition bind (port : Z) : M ports unit := λ s,
  if port =? 0 then (Ok tt, s) else
  if bool_decide (port ∈ s) then (Err (Anyhow "Address already in use"), s) else (Ok tt, {[port]} ∪ s).

Definition METRICS_PORT : Z := 9000.

Definition HEALTH_PORT : Z := 8080.

(** The answer of [/metrics] to what the encoder made of the metrics. *)
Definition metrics (buffer : outcome bytes) : response :=
  match buffer with Ok b => HttpOk b | _ => InternalServerError end.

Definition health : response := HttpOk (bstr "OK").

Definition start_metrics_server : M ports unit := bind METRICS_PORT.

Definition start_health_server : M ports unit := bind HEALTH_PORT.

Section Servers.
  (** [ServerConfig::builder()..with_single_cert(vec![cert], key)] *)
  Context {TlsConfig : Type} (with_single_cert : bytes → bytes → option TlsConfig).

Definition rpc_tls (euid : Z) (tls_cert tls_key : option FileStat) : outcome TlsConfig :=
  cert_bytes ← secure_load_file euid tls_cert;
  key_bytes ← secure_load_file euid tls_key;
  ok_or (with_single_cert cert_bytes key_bytes) (Anyhow "Invalid RPC TLS config").

Definition start_rpc_server (euid port : Z) (tls_cert tls_key : option FileStat) : M ports unit :=
  lift (rpc_tls euid tls_cert tls_key);;
  bind port.

Inductive server := Metrics | Health | RpcServer.

(** What a server reads from its configuration. *)
Record server_env := mkServerEnv {
  s_euid : Z;
  s_rpc_port : Z;
  s_cert : option FileStat;
  s_key : option FileStat;
}.

Definition start_server (e : server_env) (x : server) : M ports unit :=
  match x with
  | Metrics => start_metrics_server
  | Health => start_health_server
  | RpcServer => start_rpc_server (s_euid e) (s_rpc_port e) (s_cert e) (s_key e)
  end.

(** The servers are tasks of their own: one starts after the other in some
    order, and the others go on when one has failed. *)
Fixpoint spawn (e : server_env) (l : list server) (s : ports) : list (server * outcome unit) * ports :=
  match l with
  | [] => ([], s)
  | x :: l =>
      let '(r, s) := start_server e x s in
      let '(rs, s) := spawn e l s in
      ((x, r) :: rs, s)
  end.

Definition port_of (e : server_env) (x : server) : Z :=
  match x with Metrics => METRICS_PORT | Health => HEALTH_PORT | RpcServer => s_rpc_port e end.

End Servers.

(** ** The network side of the start *)

Section Network.
  Context {CR : Crypto} {CD : Codec} {RK : Rocks} {RT : RetryPolicy} {HO : HashOrder} {HP : HeapOrder}
    {SR : SupplyReader} {WR : Wire}.

(** [load_keypair(..)?], [PeerManager::new(..)], the calls to the seeds and the
    port of the listener; [node_keypair] is the answer of the first. *)
Definition start_network (cfg : NetConfig) (node_keypair : outcome EdKeypair) (seed_nodes : list string)
    (calls : list (hs_env * moment * outcome Z * IpAddr)) (c : Chain) (s : ports) : outcome PeerManager * ports :=
  match node_keypair with
  | Ok kp =>
      let '(r, pm) := connect_to_seeds cfg kp calls (PeerManager_new seed_nodes c) in
      let '(b, s) := bind (p2p_port cfg) s in
      (r ;; b ;; Ok pm, s)
  | Err e => (Err e, s)
  | Panic => (Panic, s)
  | Hang => (Hang, s)
  end.

End Network.

(** ** The end *)

(** The handles that are waited for, in this order. *)
Inductive node_task := TListener | TInventory | TMiner | TMetrics | TBackup | TClean | TRpc.

Definition handles : list node_task := [TListener; TInventory; TMiner; TMetrics; TBackup; TClean; TRpc].

(** When the tasks end that may: the miner (after an error), the two servers,
    and the cleaner, which looks for the signal between two pauses. *)
Record node_ends := mkNodeEnds {
  e_miner : option Z;
  e_metrics : option Z;
  e_clean : Z;
  e_rpc : option Z;
}.

(** The listener is told at once; the inventory waits on a channel whose
    sending half the node keeps, and the backups make no use of the signal. *)
Definition ends_at (e : node_ends) (t : node_task) : option Z :=
  match t with
  | TListener => Some 0
  | TInventory | TBackup => None
  | TMiner => e_miner e
  | TMetrics => e_metrics e
  | TClean => Some (e_clean e)
  | TRpc => e_rpc e
  end.

Definition HANDLE_TIMEOUT : Z := 30000.

(** [timeout(Duration::from_secs(30), handle).await]: when it is over, and
    whether the task had to be aborted. *)
Definition await_handle (ends : option Z) (now : Z) : Z * bool :=
  match ends with
  | Some e => if e <=? now + HANDLE_TIMEOUT then (Z.max now e, false) else (now + HANDLE_TIMEOUT, true)
  | None => (now + HANDLE_TIMEOUT, true)
  end.

Fixpoint await_handles (ends : node_task → option Z) (l : list node_task) (now : Z) : Z * list node_task :=
  match l with
  | [] => (now, [])
  | t :: l =>
      let '(now, aborted) := await_handle (ends t) now in
      let '(now, ts) := await_handles ends l now in
      (now, if aborted then t :: ts else ts)
  end.

(** When the last save begins, and whom it was waited for in vain. *)
Definition shutdown (e : node_ends) : Z * list node_task := await_handles (ends_at e) handles 0.

(** ** Properties *)

Section ProcessFacts.
  Context {TlsConfig : Type} (with_single_cert : bytes → bytes → option TlsConfig).

#[local] Abbreviation spawn := (spawn with_single_cert).

Definition ready (e : server_env) (x : server) : Prop :=
  match x with RpcServer => ∃ c, rpc_tls with_single_cert (s_euid e) (s_cert e) (s_key e) = Ok c | _ => True end.

Definition free (port : Z) (s : ports) : Prop := port = 0 ∨ port ∉ s.

Lemma bind_up port s : (bind port s).1 = Ok tt ↔ free port s.
Proof using. unfold bind, free. destruct (Z.eqb_spec port 0); [naive_solver|]. case_bool_decide; naive_solver. Qed.

(** The port of a server that came up is taken, and no other one. *)
Definition taken (port : Z) (up : bool) (s : ports) : ports :=
  if up && negb (port =? 0) then {[port]} ∪ s else s.

Lemma bind_ports port s : (bind port s).2 = taken port (bool_decide ((bind port s).1 = Ok tt)) s.
Proof using. unfold bind, taken. destruct (Z.eqb_spec port 0); [by rewrite andb_false_r|]. by case_bool_decide. Qed.

Lemma start_server_up e x s : (start_server with_single_cert e x s).1 = Ok tt ↔ ready e x ∧ free (port_of e x) s.
Proof using.
  destruct x; cbn [start_server ready port_of]; [unfold start_metrics_server; rewrite bind_up; tauto|unfold start_health_server; rewrite bind_up; tauto|].
  unfold start_rpc_server, mbind, M_bind, lift. destruct (rpc_tls _ _ _ _) as [c| | |]; [rewrite bind_up|..]; naive_solver.
Qed.

Lemma start_server_ports e x s :
  (start_server with_single_cert e x s).2 =
  taken (port_of e x) (bool_decide ((start_server with_single_cert e x s).1 = Ok tt)) s.
Proof using.
  destruct x; cbn [start_server port_of]; [apply bind_ports..|].
  unfold start_rpc_server, mbind, M_bind, lift. destruct (rpc_tls _ _ _ _); [apply bind_ports|done..].
Qed.

Lemma taken_spec port up s p : p ≠ 0 → (p ∈ taken port up s ↔ p ∈ s ∨ (up = true ∧ p = port)).
Proof using.
  intros Hp. unfold taken. destruct up; [|naive_solver]. destruct (Z.eqb_spec port 0); cbn; [naive_solver|set_solver].
Qed.

(** A server comes up when it is ready and its port is taken neither at the
    beginning nor by a server that came up before it. *)
Lemma spawn_up e l s i x r :
  (spawn e l s).1 !! i = Some (x, r) →
  (r = Ok tt ↔ ready e x ∧ (port_of e x = 0 ∨ (port_of e x ∉ s ∧
    ∀ j y, (j < i)%nat → (spawn e l s).1 !! j = Some (y, Ok tt) → port_of e y ≠ port_of e x))).
Proof using.
  revert s i. induction l as [|x0 l IH]; intros s i; [done|]. cbn [Process.spawn].
  pose proof (start_server_up e x0 s) as Hup. pose proof (start_server_ports e x0 s) as Hp.
  destruct (start_server _ e x0 s) as [r0 s1]. cbn [fst snd] in Hup, Hp. specialize (IH s1).
  destruct (spawn e l s1) as [rs s2]. cbn [fst] in *. destruct i as [|i]; cbn [lookup list_lookup].
  - intros [= -> ->]. rewrite Hup. unfold free. split; [|naive_solver]. intros [H1 H2]. split; [done|].
    destruct H2; [by left|right]. split; [done|]. intros j; lia.
  - intros Hi. rewrite (IH i Hi). split; intros [H1 H2]; (split; [done|]); (destruct (decide (port_of e x = 0)) as [|Hn]; [by left|right]).
    + destruct H2 as [|[H2 H3]]; [done|]. rewrite Hp, taken_spec in H2 by done.
      split; [tauto|]. intros [|j] y Hj; [|intros Hy; apply (H3 j); [lia|done]]. intros [= -> ->] E. apply H2. right.
      by rewrite bool_decide_eq_true_2.
    + destruct H2 as [|[H2 H3]]; [done|]. split; [|intros j y Hj; by apply (H3 (S j)); lia].
      rewrite Hp, taken_spec by done. intros [?|[Hu E]]; [done|]. apply bool_decide_eq_true in Hu.
      by apply (H3 0%nat x0); [lia|rewrite Hu|].
Qed.

Lemma spawn_all e l s : (spawn e l s).1.*1 = l.
Proof using.
  revert s. induction l as [|x l IH]; intros s; [done|]. cbn [Process.spawn]. destruct (start_server _ e x s) as [r0 s1].
  specialize (IH s1). destruct (spawn e l s1) as [rs s2]. cbn in *. by f_equal.
Qed.

(** A key or certificate that the RPC server takes is a file of the user's,
    closed to others and at most 4096 bytes long. *)
Lemma secure_load_file_Ok euid file b :
  secure_load_file euid file = Ok b →
  ∃ f, file = Some f ∧ st_uid f = euid ∧ Z.land (st_mode f) 63 = 0 ∧ st_size f <= 4096.
Proof using.
  unfold secure_load_file. intros (f & Hf%ok_or_Ok & H)%bind_Ok. exists f. split; [done|].
  apply bind_Ok in H as (? & H1%ensure_Ok & H). apply bind_Ok in H as (? & H2%ensure_Ok & H).
  apply bind_Ok in H as (? & H3%ensure_Ok & _). split_and!; lia.
Qed.

End ProcessFacts.

Section StartFacts.
  Context {CR : Crypto} {CD : Codec} {RK : Rocks} {RT : RetryPolicy} {HO : HashOrder} {HP : HeapOrder}
    {SR : SupplyReader} {WR : Wire} {TlsConfig : Type} (with_single_cert : bytes → bytes → option TlsConfig).

Lemma calls_isolated cfg kp seeds calls s :
  Forall (λ a, read_exact a.1.1.1) calls → isolated seeds s → isolated seeds (connect_to_seeds cfg kp calls s).2.
Proof using.
  unfold connect_to_seeds. intros Hc. revert s. induction Hc as [|[[[he now] ms] ip] calls Hr _ IH]; intros s Hi; [done|].
  cbn [mfor]. unfold mbind at 1, M_bind. unfold attempt_peer at 1, mbind, M_bind.
  pose proof (add_peer_isolated cfg kp seeds he now ms ip s Hr Hi) as H.
  destruct (add_peer _ _ _ _ _ _ s) as [[p|e| |] s1]; cbn [snd] in *; try done. by apply IH.
Qed.

(** C30. What a node that has started serves. It has no peer and knows its seeds
    only, and its port was free.  Whatever the order in which its servers start,
    each comes up exactly when it is ready and its port is 0, for which the system
    takes a free one, or is neither in use, nor the one of the network, nor that
    of a server that came up before it.  The RPC server is ready only with a
    certificate and a key in files of the user's, closed to others and of 4096
    bytes at most.  A server that does not come up does not stop the node. *)
Theorem servers_up cfg kp seeds calls c s0 pm s e order :
  Forall (λ a, read_exact a.1.1.1) calls →
  start_network cfg kp seeds calls c s0 = (Ok pm, s) →
  isolated seeds pm ∧ (p2p_port cfg = 0 ∨ p2p_port cfg ∉ s0) ∧ (spawn with_single_cert e order s).1.*1 = order ∧
  (∀ i x r, (spawn with_single_cert e order s).1 !! i = Some (x, r) →
     (r = Ok tt ↔ ready with_single_cert e x ∧
       (port_of e x = 0 ∨
        (port_of e x ∉ s0 ∧ port_of e x ≠ p2p_port cfg ∧
         ∀ j y, (j < i)%nat → (spawn with_single_cert e order s).1 !! j = Some (y, Ok tt) → port_of e y ≠ port_of e x)))) ∧
  (ready with_single_cert e RpcServer →
     Forall (λ file, ∃ f, file = Some f ∧ st_uid f = s_euid e ∧ Z.land (st_mode f) 63 = 0 ∧ st_size f <= 4096) [s_cert e; s_key e]).
Proof using.
  intros Hc H. unfold start_network in H. destruct kp as [kp| | |]; [|by injection H..].
  pose proof (calls_isolated cfg kp seeds calls (PeerManager_new seeds c) Hc ltac:(by split)) as Hi.
  destruct (connect_to_seeds _ _ _ _) as [r pm1]. cbn [snd] in Hi.
  pose proof (bind_ports (p2p_port cfg) s0) as Hp. pose proof (bind_up (p2p_port cfg) s0) as Hu.
  destruct (bind (p2p_port cfg) s0) as [b s1]. cbn [fst snd] in Hp, Hu.
  destruct r; try done. destruct b as [[]| | |]; try done. injection H as <- <-. rewrite bool_decide_eq_true_2 in Hp by done.
  split_and!; [done|by apply Hu|apply spawn_all| |].
  - intros i x r Hx. rewrite (spawn_up with_single_cert e order s1 i x r Hx).
    apply and_iff_compat_l. destruct (decide (port_of e x = 0)) as [|Hn]; [naive_solver|].
    rewrite Hp, taken_spec by done. naive_solver.
  - intros [t Ht]. unfold rpc_tls in Ht. apply bind_Ok in Ht as (b1 & E1%secure_load_file_Ok & Ht).
    apply bind_Ok in Ht as (b2 & E2%secure_load_file_Ok & _). by repeat constructor.
Qed.

End StartFacts.

(** *** The end *)

Lemma await_handle_bounds ends now :
  now + (if (await_handle ends now).2 then HANDLE_TIMEOUT else 0) <= (await_handle ends now).1 <= now + HANDLE_TIMEOUT.
Proof.
  unfold await_handle, HANDLE_TIMEOUT. destruct ends as [e|]; [destruct (Z.leb_spec e (now + 30000))|]; cbn [fst snd]; lia.
Qed.

(** Waiting takes thirty seconds for every task that is aborted, thirty for
    each at most, and those that never end are aborted. *)
Lemma await_handles_bounds ends l now :
  let '(t, aborted) := await_handles ends l now in
  now + HANDLE_TIMEOUT * Z.of_nat (length aborted) <= t <= now + HANDLE_TIMEOUT * Z.of_nat (length l) ∧
  aborted `sublist_of` l ∧ (∀ x, x ∈ l → ends x = None → x ∈ aborted).
Proof.
  revert now. induction l as [|x l IH]; intros now; cbn [await_handles].
  { split; [cbn; lia|]. split; [done|]. intros x Hx. by apply not_elem_of_nil in Hx. }
  pose proof (await_handle_bounds (ends x) now) as Hb. pose proof (eq_refl (await_handle (ends x) now)) as Hd.
  destruct (await_handle (ends x) now) as [now1 ab] eqn:E. specialize (IH now1). destruct (await_handles ends l now1) as [t ts].
  destruct IH as (IH1 & IH2 & IH3). cbn [fst snd] in Hb. split; [destruct ab; cbn [length]; unfold HANDLE_TIMEOUT in *; lia|].
  split; [destruct ab; by constructor|]. intros y [->|Hy]%elem_of_cons He.
  - unfold await_handle in E. rewrite He in E. injection E as <- <-. by left.
  - destruct ab; [right|]; by apply IH3.
Qed.

(** Between the signal and its last save a node with a running miner waits
    at least ninety seconds and at most two hundred and ten; the inventory, the
    miner and the backups never end by themselves and are aborted, and when the
    others end in time they alone are, after exactly ninety seconds. *)
Theorem shutdown_time e :
  e_miner e = None →
  90000 <= (shutdown e).1 <= 210000 ∧
  (∀ t, t ∈ [TInventory; TMiner; TBackup] → t ∈ (shutdown e).2) ∧
  (∀ m r, e_metrics e = Some m → e_rpc e = Some r → m <= 60000 → e_clean e <= 90000 → r <= 90000 →
     shutdown e = (90000, [TInventory; TMiner; TBackup])).
Proof.
  intros Hm. pose proof (await_handles_bounds (ends_at e) handles 0) as H. unfold shutdown.
  destruct (await_handles (ends_at e) handles 0) as [t ab] eqn:E. destruct H as (H1 & H2 & H3).
  assert (∀ x, x ∈ [TInventory; TMiner; TBackup] → x ∈ ab) as Hin.
  { intros x Hx. apply H3; [set_unfold; naive_solver|]. set_unfold. by destruct Hx as [->|[->|[->|[]]]]. }
  split; [|split; [done|]].
  - assert (3 ≤ length ab)%nat as Hl.
    { change 3%nat with (length [TInventory; TMiner; TBackup]). apply submseteq_length, NoDup_submseteq; [|done].
      rewrite !NoDup_cons, !not_elem_of_cons. split_and!; (done || congruence || apply not_elem_of_nil || constructor). }
    cbn [handles length] in H1. unfold HANDLE_TIMEOUT in H1. cbn [fst]. lia.
  - intros m r Em Er Hm1 Hc Hr1. rewrite <- E. cbn [handles await_handles ends_at]. rewrite Hm, Em, Er.
    unfold await_handle, HANDLE_TIMEOUT. repeat (rewrite (proj2 (Z.leb_le _ _)) by lia; cbn [fst snd]). 
    f_equal. lia.
Qed.

(** ** Witnesses *)

Definition sample_files (p : Z) : server_env :=
  mkServerEnv 1000 p (Some (mkFileStat 1000 0x180 3 [1; 2; 3])) (Some (mkFileStat 1000 0x180 2 [4; 5])).

Definition sample_cert (c k : bytes) : option bytes := Some (c ++ k).

Definition sample_start : outcome (PeerManager (RK:=mem_rocks)) * ports :=
  start_network (RK:=mem_rocks) sample_cfg (Ok sample_keypair) ["seed:8333"%string] [(sample_hs, mkMoment 0 0, Ok 0, sample_ip)] net_chain ∅.

Definition sample_started : PeerManager (RK:=mem_rocks) :=
  match sample_start.1 with Ok pm => pm | _ => net_start end.

Lemma sample_start_Ok : sample_start = (Ok sample_started, sample_start.2).
Proof.
  apply run_eta. unfold sample_started.
  assert (match sample_start.1 with Ok _ => true | _ => false end = true) by by vm_compute.
  by destruct (sample_start.1).
Qed.

(** On a port of its own the RPC server comes up; on the one of the network, or on
    that of the metrics, which started before, it does not. *)
Lemma servers_up_witness :
  isolated ["seed:8333"%string] sample_started ∧
  (spawn sample_cert (sample_files 1988) [Metrics; Health; RpcServer] sample_start.2).1 !! 2%nat = Some (RpcServer, Ok tt) ∧
  Forall (λ port, ∃ r, (spawn sample_cert (sample_files port) [Metrics; Health; RpcServer] sample_start.2).1 !! 2%nat = Some (RpcServer, r) ∧ r ≠ Ok tt)
    [p2p_port sample_cfg; 9000].
Proof.
  assert (Forall (λ a : hs_env * moment * outcome Z * IpAddr, read_exact a.1.1.1) [(sample_hs, mkMoment 0 0, Ok 0, sample_ip)]) as Hr.
  { repeat constructor. apply sample_hs_exact. }
  assert (H := λ port, servers_up (RK:=mem_rocks) sample_cert sample_cfg (Ok sample_keypair) ["seed:8333"%string] _ net_chain ∅ sample_started sample_start.2
    (sample_files port) [Metrics; Health; RpcServer] Hr sample_start_Ok).
  split; [exact (proj1 (H 1988))|]. split.
  - destruct (H 1988) as (_ & _ & _ & H2 & _).
    destruct ((spawn sample_cert (sample_files 1988) [Metrics; Health; RpcServer] sample_start.2).1 !! 2%nat) as [[x r]|] eqn:Hl; [|by vm_compute in Hl].
    assert (x = RpcServer) as -> by by (vm_compute in Hl; injection Hl as <- _). f_equal. f_equal. apply (H2 _ _ _ Hl).
    split; [by eexists; vm_compute|]. right. split_and!; [apply not_elem_of_empty|by vm_compute|].
    intros [|[|j]] y Hj Hy; [by vm_compute in Hy; injection Hy as <-..|lia].
  - assert (∀ port, (spawn sample_cert (sample_files port) [Metrics; Health; RpcServer] sample_start.2).1 !! 2%nat =
      Some (RpcServer, Err (Anyhow "Address already in use")) →
      ∃ r, (spawn sample_cert (sample_files port) [Metrics; Health; RpcServer] sample_start.2).1 !! 2%nat = Some (RpcServer, r) ∧ r ≠ Ok tt) as Hn.
    { intros port Hl. by eexists. }
    repeat constructor; apply Hn; by vm_compute.
Defined.

Definition sample_ends : node_ends := mkNodeEnds None (Some 100) 45000 (Some 100).

Lemma shutdown_time_witness : shutdown sample_ends = (90000, [TInventory; TMiner; TBackup]).
Proof. destruct (shutdown_time sample_ends) as (_ & _ & H); [done|]. by apply (H 100 100). Defined.
