(* ===== verification/Screen.v ===== *)
(** * Screen: what the graphical wallet shows

    The drawing of the frames of [LyrionWalletApp::update] in
    src/111/src/main.rs: Gui.v has what a frame does to the window, here is what
    the frame puts on the screen and whether it gets there.

    - The crates qrcode, image, egui and hex are parameters; what is relied on is
      the size of their results and that [from_rgba_unmultiplied] panics when the
      pixels do not fill the size it is given.
    - Fonts, colours, the line of status and the layout are left out, amounts are
      not divided by 1e9.
    - [to_rgba8] is called on an [ImageBuffer], which has no such method: the
      pixels converted to red, green, blue and alpha are meant.
      A button can only be pressed after it was drawn. *)
From S2P Require Import Prelude Errors Types Externals Instances Utils Keys Tx Ledger Store AddrIndex Rpc Wallet Gui.

Class Drawing := {
  (** [QrCode::new(data)]: [None] when the data is too long *)
  QrCode : Type;
  QrCode_new : bytes → option QrCode;
  width : QrCode → Z;
  (** [code[(x, y)] == qrcode::Color::Dark] *)
  dark : QrCode → Z → Z → bool;
  (** [image::ImageBuffer<Luma<u8>, _>] *)
  ImageBuffer : Type;
  from_fn : Z → Z → (Z → Z → Z) → ImageBuffer;
  to_rgba8 : ImageBuffer → bytes;
  ColorImage : Type;
  from_rgba_unmultiplied : Z → Z → bytes → outcome ColorImage;
  hex_encode : bytes → string;
}.

(** A QR code has one of forty versions; a pixel has four bytes. *)
Class DrawingOk `{!Drawing} := {
  width_new : ∀ b c, QrCode_new b = Some c → ∃ version, 1 ≤ version ≤ 40 ∧ width c = 17 + 4 * version;
  length_to_rgba8 : ∀ w h f, 0 ≤ w → 0 ≤ h → Z.of_nat (length (to_rgba8 (from_fn w h f))) = 4 * w * h;
  from_rgba_panics : ∀ w h l, Z.of_nat (length l) ≠ w * h * 4 → from_rgba_unmultiplied w h l = Panic;
  length_hex_encode : ∀ b, String.length (hex_encode b) = (2 * length b)%nat;
  hex_encode_ascii : ∀ b n c, String.get n (hex_encode b) = Some c → (Ascii.nat_of_ascii c < 128)%nat;
}.

(** [&s[..n]]: the cut has to be inside of the string and between characters. *)
Definition str_prefix (n : nat) (s : string) : outcome string :=
  if (String.length s <? n)%nat then Panic
  else match String.get n s with
       | Some c => if (128 <=? Ascii.nat_of_ascii c)%nat && (Ascii.nat_of_ascii c <? 192)%nat then Panic else Ok (String.substring 0 n s)
       | None => Ok (String.substring 0 n s)
       end.

Section Screen.
  Context {CR : Crypto} {CD : Codec} {RK : Rocks} {HO : HashOrder} {KC : Keychain} {GE : GuiEnv} {DR : Drawing}.

Inductive page :=
  | ReceivePage (address : string) (qr_texture : ColorImage)
  | SendPage (to amount fee : string)
  | HistoryPage (lines : list (string * Z * string * Z)).

Inductive screen :=
  | PasswordScreen
  | PhraseScreen (phrase : string)
  | MainScreen (balance pending : Z) (anon_address : string) (p : page) (err : option string).

Definition draw_receive (a : LyrionWalletApp) : outcome page :=
  let addr := default ""%string (last (receive_addresses a)) in
  code ← unwrap (QrCode_new (bstr addr));
  let w := wrap 32 (width code) in
  let image := from_fn w w (λ x y, if dark code x y then 0 else 255) in
  texture ← from_rgba_unmultiplied 256 256 (to_rgba8 image);
  Ok (ReceivePage addr texture).

Definition history_line (e : TxHistoryEntry) : outcome (string * Z * string * Z) :=
  id ← str_prefix 10 (hex_encode (h_txid e));
  Ok (id, h_net_amount e, if h_is_receive e then "Received"%string else "Sent"%string, h_confirmations e).

Definition draw_history (a : LyrionWalletApp) : outcome page :=
  HistoryPage <$> mapM history_line (history a).

Definition draw_page (a : LyrionWalletApp) : outcome page :=
  match selected_tab a with
  | TabReceive => draw_receive a
  | TabSend => Ok (SendPage (to_address a) (amount_str a) (fee_rate_str a))
  | TabHistory => draw_history a
  end.

(** A frame with its drawing; the side panel is drawn before the page, with the
    balances of the frame before. *)
Definition draw_frame (i : input) : M LyrionWalletApp screen :=
  a ← get;
  update i;;
  a' ← get;
  match (if in_lock i then SetupPassword else state a) with
  | SetupPassword => mret PasswordScreen
  | CreateWallet => mret (PhraseScreen (frame_phrase i CreateWallet))
  | RestoreWallet => mret (PhraseScreen (frame_phrase i RestoreWallet))
  | Main => p ← lift (draw_page a'); mret (MainScreen (balance a) (pending_balance a) (anon_address a) p (error a'))
  end.

Definition runs_on {A} (r : outcome A) : bool := match r with Ok _ | Err _ => true | _ => false end.

Definition shows_main (r : outcome screen) : bool := match r with Ok (MainScreen _ _ _ _ _) => true | _ => false end.

(** The sessions of a window that the user sees; the flag tells whether the main
    window was ever on the screen. *)
Inductive seen (d : option DB) (file anon_file : option bytes) : LyrionWalletApp → bool → Prop :=
  | seen_new a : new_app d file anon_file = Ok a → seen d file anon_file a false
  | seen_frame a main i r a' :
      seen d file anon_file a main → (is_Some (in_select i) → main = true) →
      draw_frame i a = (r, a') → runs_on r = true → seen d file anon_file a' (main || shows_main r)
  | seen_save a main salt nonce io r a' :
      seen d file anon_file a main → save salt nonce io a = (r, a') → runs_on r = true → seen d file anon_file a' main.

End Screen.

(** ** The main window *)

Section ScreenFacts.
  Context {CR : Crypto} {CD : Codec} {RK : Rocks} {HO : HashOrder} {KC : Keychain} {GE : GuiEnv} {DR : Drawing}.
  Context {DRO : DrawingOk}.

(** A code has at most 177 modules a side: it never fills 256 by 256 pixels. *)
Lemma draw_receive_panics a : draw_receive a = Panic.
Proof.
  unfold draw_receive. destruct (QrCode_new _) as [c|] eqn:E; [|done]. cbn [unwrap mbind outcome_bind].
  destruct (width_new _ _ E) as (v & Hv & Hw). rewrite (wrap_small 32) by (unfold uint; lia).
  rewrite from_rgba_panics; [done|]. rewrite length_to_rgba8 by lia. nia.
Qed.

Lemma history_line_Ok e : (5 ≤ length (h_txid e))%nat → is_Some (match history_line e with Ok l => Some l | _ => None end).
Proof.
  intros H. unfold history_line, str_prefix. rewrite length_hex_encode. rewrite (proj2 (Nat.ltb_ge _ _)) by lia.
  destruct (String.get 10 _) as [c|] eqn:E; [|by eexists]. apply hex_encode_ascii in E.
  rewrite (proj2 (Nat.leb_gt _ _)) by lia. by eexists.
Qed.

(** The other pages are drawn: the hashes of the history are long enough for the
    ten digits that are shown. *)
Lemma other_pages_drawn a :
  selected_tab a ≠ TabReceive → Forall (λ e, length (h_txid e) = 32%nat) (history a) → ∃ p, draw_page a = Ok p.
Proof.
  intros Ht Hh. unfold draw_page. destruct (selected_tab a); [done|by eexists|]. unfold draw_history.
  assert (∃ l, mapM history_line (history a) = Ok l) as [l ->]; [|by eexists].
  induction Hh as [|e es He _ [l IH]]; [by eexists|]. destruct (history_line_Ok e) as [x Hx]; [lia|].
  cbn [mapM]. destruct (history_line e); try done. cbn [mbind outcome_bind]. rewrite IH. by eexists.
Qed.

(** What keeps the page that is selected. *)
Definition on_receive (a : LyrionWalletApp) : Prop := selected_tab a = TabReceive.

#[local] Instance load_current_height_tab : Preserves on_receive Gui.load_current_height.
Proof. unfold Gui.load_current_height. repeat parts_step. Qed.

#[local] Instance start_scan_tab reload reply : Preserves on_receive (start_scan reload reply).
Proof. unfold start_scan. repeat parts_step. Qed.

#[local] Instance poll_scan_tab ready : Preserves on_receive (poll_scan ready).
Proof. unfold poll_scan. repeat parts_step. Qed.

#[local] Instance unlock_tab pw reply : Preserves on_receive (unlock pw reply).
Proof. unfold unlock, decrypt_wallet. repeat parts_step. Qed.

#[local] Instance create_frame_tab i s : Preserves on_receive (create_frame i s).
Proof. unfold create_frame, confirm. repeat parts_step. Qed.

#[local] Instance save_tab salt nonce io : Preserves on_receive (save salt nonce io).
Proof. unfold save. repeat parts_step. Qed.

Lemma main_frame_tab i : in_select i = None → Preserves on_receive (main_frame i).
Proof. intros H. unfold main_frame, Gui.reconnect, send_tab, poll_send. rewrite H. repeat parts_step. Qed.

Lemma update_tab i : in_select i = None → Preserves on_receive (update i).
Proof. intros H. apply main_frame_tab in H. unfold update. repeat parts_step. Qed.

Lemma new_app_tab d file anon a : new_app d file anon = Ok a → on_receive a.
Proof.
  unfold new_app. intros (d' & _ & H)%bind_Ok. apply bind_Ok in H as (an & _ & H).
  destruct (Gui.load_current_height _) as [r a'] eqn:E. apply bind_Ok in H as (u & _ & [= <-]).
  change a' with ((r, a').2). rewrite <- E. by apply load_current_height_tab.
Qed.

(** A frame of the main window on the page [receive] stops the program. *)
Lemma frame_panics i a :
  state a = Main → in_lock i = false → in_select i = None → on_receive a → (update i a).1 = Ok tt → (draw_frame i a).1 = Panic.
Proof.
  intros Hs Hl Hi Ht Hu. apply (update_tab i) in Ht; [|done]. unfold draw_frame, get, lift, mbind, M_bind. rewrite Hl, Hs.
  destruct (update i a) as [r a']. cbn [fst snd] in Hu, Ht. rewrite Hu. unfold draw_page.
  by rewrite Ht, draw_receive_panics.
Qed.

Lemma frame_state i a : (draw_frame i a).2 = (update i a).2.
Proof.
  unfold draw_frame, get, lift, mbind, M_bind. destruct (update i a) as [[[]| | |] a']; try done.
  destruct (in_lock i), (state a); try done; by destruct (draw_page a').
Qed.

(** Whatever frames come back, the main window is not among them. *)
Lemma frame_hides_main i a : in_select i = None → on_receive a → shows_main (draw_frame i a).1 = false.
Proof.
  intros Hi Ht. pose proof (frame_panics i a) as Hp. unfold draw_frame, get, lift, mbind, M_bind in *.
  destruct (update i a) as [[[]| | |] a']; try done. destruct (in_lock i); [done|].
  destruct (state a); try done. cbn in Hp |- *. specialize (Hp eq_refl eq_refl Hi Ht eq_refl).
  by destruct (draw_page a').
Qed.

(** C37. The main window of the wallet is never on the screen: whatever the user
    does, from the start of the program on, no frame of it is completed.  It
    opens on the page [receive], the code of an address never has the 256 by 256
    pixels its texture is given, and the first frame after the wallet was
    unlocked or created stops the program. *)
Theorem main_window_never_shown d file anon_file a main :
  seen d file anon_file a main →
  main = false ∧
  ∀ i, state a = Main → in_lock i = false → (is_Some (in_select i) → main = true) → (update i a).1 = Ok tt →
    (draw_frame i a).1 = Panic.
Proof using DRO.
  intros H. assert (main = false ∧ on_receive a) as [-> Ht].
  - induction H as [a Ha|a main i r a' _ [-> Ht] Hi Hf _|a main salt nonce io r a' _ [-> Ht] Hs _].
    + split; [done|by eapply new_app_tab].
    + assert (in_select i = None) as Hn by (apply eq_None_not_Some; intros Hx; by specialize (Hi Hx)).
      pose proof (frame_hides_main i a Hn Ht) as E1. pose proof (frame_state i a) as E2. rewrite Hf in E1, E2.
      cbn [fst snd] in E1, E2. rewrite E1, E2. split; [done|by apply update_tab].
    + split; [done|]. change a' with ((r, a').2). rewrite <- Hs. by apply save_tab.
  - split; [done|]. intros i Hs Hl Hi. intros Hu. apply frame_panics; try done.
    apply eq_None_not_Some. intros Hx. by specialize (Hi Hx).
Qed.

End ScreenFacts.

(** ** Witnesses *)

#[local] Existing Instance padded_crypto | 0.
#[local] Existing Instance padded_crypto_ok | 0.
#[local] Existing Instance padded_keychain | 0.
#[local] Existing Instance w_rocks | 0.
#[local] Existing Instance w_rocks_ok | 0.
#[local] Existing Instance sample_gui | 0.

Definition hex_digit (x : Z) : Ascii.ascii :=
  default (Ascii.ascii_of_nat 48) (String.get (Z.to_nat (x mod 16)) "0123456789abcdef").

Lemma hex_digit_ascii x : (Ascii.nat_of_ascii (hex_digit x) < 128)%nat.
Proof.
  unfold hex_digit. generalize (Z.to_nat (x mod 16)). intros n.
  do 16 (destruct n as [|n]; [vm_compute; lia|]). vm_compute; lia.
Qed.

(** Codes of the smallest version, white as the message is forgotten, and of the
    largest for more than 17 bytes. *)
#[local] Instance sample_drawing : Drawing := {|
  QrCode := Z;
  QrCode_new b := Some (if (length b <=? 17)%nat then 21 else 177);
  width c := c;
  dark _ _ _ := false;
  ImageBuffer := list Z;
  from_fn w h f := (seqZ 0 h ≫= λ y, (λ x, f x y) <$> seqZ 0 w);
  to_rgba8 l := l ≫= λ p, [p; p; p; 255];
  ColorImage := bytes;
  from_rgba_unmultiplied w h l := if Z.of_nat (length l) =? w * h * 4 then Ok l else Panic;
  hex_encode b := String.string_of_list_ascii (b ≫= λ x, [hex_digit (x / 16); hex_digit x]);
|}.

Lemma length_bind_const {A B} (f : A → list B) n l : (∀ x, length (f x) = n) → length (l ≫= f) = (length l * n)%nat.
Proof. intros H. induction l as [|x l IH]; [done|]. cbn. rewrite length_app, H. fold (l ≫= f). rewrite IH. lia. Qed.

Lemma length_string_of_list l : String.length (String.string_of_list_ascii l) = length l.
Proof. induction l as [|c l IH]; [done|]. cbn. by rewrite IH. Qed.

Lemma get_string_of_list l n : String.get n (String.string_of_list_ascii l) = l !! n.
Proof. revert n. induction l as [|c l IH]; intros [|n]; try done. apply IH. Qed.

#[local] Instance sample_drawing_ok : DrawingOk.
Proof.
  split.
  - intros b c [= <-]. destruct (_ <=? _)%nat; [exists 1|exists 40]; cbn; lia.
  - intros w h f Hw Hh. cbn [to_rgba8 from_fn sample_drawing]. rewrite (length_bind_const _ 4) by done.
    rewrite (length_bind_const _ (Z.to_nat w)); [rewrite length_seqZ; lia|]. intros y. by rewrite length_fmap, length_seqZ.
  - intros w h l H. cbn. by rewrite (proj2 (Z.eqb_neq _ _)).
  - intros b. cbn. rewrite length_string_of_list. rewrite (length_bind_const _ 2) by done. lia.
  - intros b n c. cbn. rewrite get_string_of_list. intros Hc%list_elem_of_lookup_2.
    apply list_elem_of_bind in Hc as (x & Hc & _). set_unfold in Hc. destruct Hc as [->|[->|[]]]; apply hex_digit_ascii.
Qed.

(** A wallet was created; nothing is done in the next frame. *)
Definition g_idle : input :=
  mkInput false false None "" "" None None false None false None false false false None.

Lemma main_window_never_shown_witness : (draw_frame g_idle g_main).1 = Panic.
Proof.
  assert (seen (Some g_db) None None g_main false) as H.
  { apply (seen_frame _ _ _ (g_app CreateWallet None) false g_confirm (Ok (PhraseScreen "abandon zoo")) g_main);
      [by apply seen_new|by intros [? [=]]|unfold g_main; rewrite <- frame_state; apply run_eta; by vm_compute|done]. }
  apply (main_window_never_shown (Some g_db) None None g_main false H); [by vm_compute|done|by intros [? [=]]|by vm_compute].
Defined.
